(* ===== verification/_CoqProject ===== *)
-Q . S2P
Prelude.v
Monad.v
Platform.v
Types.v
Worlds.v
Strings.v
Context.v
Io.v
Wire.v
Tcp.v
Beacon.v
App.v
Handlers.v
Relational.v
Segments.v
Invariant.v
Quiet.v
Flush.v
Delivery.v
Receive.v
Requests.v
Malformed.v
Client.v
Thread.v
Control.v
AppSpec.v
System.v
Late.v
Spec.v
Refine.v
SystemRefine.v
Progress.v
EndToEnd.v
