(* ===== verification/Prelude.v ===== *)
(** * libtracy: a verification library

    libtracy is a tracing library written in Rust with a C interface.  An
    application registers tracepoints and submits data to them; a thread of the
    library announces itself over UDP, accepts one TCP client, lets it list,
    enable and disable tracepoints, and sends it the submitted data in batches.
    The sources are src/lib.rs (data, C interface, tracer thread),
    src/tcp_handler.rs (listening, requests, wire format, sending),
    src/udp_beacon.rs (announcements) and the inline wrapper of src/tracy.h, all
    below src/.

    ** How the program is modelled

    The embedding is shallow: one definition per function, under the source's
    name, executable, in the state monad of Monad.v.  An outcome is a returned
    value with a state, a panic (a failed [unwrap] or [expect]) with the state
    the other threads go on to see, undefined behaviour (a bad pointer), or a
    loop out of fuel.  Loops are [loop fuel body]; the fuel of each is computed
    from the state, and the theorems prove that it suffices: two iterations per
    buffered element when flushing, one per queued message, one per expired
    timeout, one per byte still to be read when receiving.

    - Prelude.v: bytes, wrapping integers, big-endian codecs, list lemmas,
      tactics, hint databases.
    - Monad.v: outcomes, the loop combinator, weakest preconditions.
    - Platform.v: what the program takes from its dependencies -- the timer and
      channel of mio_extras, the iteration order of HashMap, the parser of
      socket addresses -- as a class with law classes, and a reference instance.
    - Types.v: constants, structs and enums of lib.rs; [TracerContext]; the
      [World] of the tracer thread: its context, the shared flags (the
      AtomicBools, by address), the channels, the sockets (what will arrive,
      how writes will be answered, what was sent), the backlog of the listener,
      the outcomes of the fallible system calls, the log of calls to Poll and
      to the UDP socket.
    - Worlds.v: concrete states for the instances of the theorems.
    - Strings.v: UTF-8, C strings, [fix_tracepoint_str] and its normal forms.
    - Context.v: the methods of TracerContext (lib.rs): buffer, timers,
      [close_and_clean_connection]; the timer invariant.
    - Io.v: std::io over sockets: [BufReader], [read_exact], [write_all].
    - Wire.v: header and record codecs of tcp_handler.rs, and, as a decoder
      independent of them, the grammar of doc/tlv_documentation.txt, whose
      magic number is an argument: the documented one is not that of the code.
    - Tcp.v: tcp_handler.rs: [init], [establish_connection], [receive],
      [set_tracepoints], [send_tracepoint_list], [send_trace_data].
    - Beacon.v: udp_beacon.rs.
    - App.v: the exported functions of lib.rs and [tracy_submit_printf].
    - Handlers.v: [channel_handler], [timer_handler], [event_handler],
      [tracer_thread_main].
    - Client.v: [class Tracy] of the example client, client/client.py.

    ** What the theorems show

    - Invariant.v: the invariant [Inv] of the thread -- the pending timeouts are
      the remembered ones, [client_connected] mirrors the connection, buffered
      elements fit a message, registered names are normal and own their flags,
      the listener is bound to a port -- is kept by every operation, on return
      and on panic, and no operation hangs or is undefined.
    - Relational.v and Segments.v: pairs of runs; the thread behaves the same
      whatever the sizes of the pieces in which it reads what has arrived.
    - Flush.v: [send_trace_data] refines the greedy cut of the buffer into
      messages; the bytes decode to the buffered records, with the magic number
      'RuSt', and not at all with the documented one; bounds on messages;
      exactly when the loop terminates; what failing and blocking writes lose.
    - Delivery.v: [channel_handler] neither loses, duplicates nor reorders a
      payload; it flushes before it ends when a client is connected, and loses
      the buffer when none is; the occupancy that is never reset.
    - Receive.v and Requests.v: [receive] refines the execution of a list of
      requests whatever the sizes of the reads; list replies; disconnects;
      truncated and malformed input, with the panic and the lost bytes there.
    - Quiet.v and Malformed.v: refused headers; what follows them is discarded,
      and a read error met there closes the connection a second time.
    - Client.v: the client reads exactly one message at a time, comes to an end
      on any data, and the tracer refuses its requests.
    - Thread.v: the thread from its start over every sequence of event batches;
      accepting clients; announcing; batches on which it panics.
    - AppSpec.v: each exported function on every combination of arguments, and
      its departures from the documentation.
    - Control.v: where the thread is between two of its steps -- one message,
      one timeout, one request --, and that the thread left to itself comes to
      rest within a bound.  A lemma ties these steps to the event handlers.
    - System.v: application, thread, network and clock as a step relation, in
      which the calls of the application interleave with the steps of the
      thread, and [tracy_submit] is three steps; whole calls and whole events
      are runs of it.  The invariant of the whole; the registries of the two
      sides agree, nothing is accepted without a client; an executable
      scheduler.
    - Late.v: from every state of the system in which a submission has passed
      its checks and the client leaves, the submission makes the thread panic
      when the queue timer fires.
    - Spec.v: the abstract tracer, without threads, buffers, timers, sockets and
      bytes: sets of registered, listed and enabled names, at most one session
      with its requests still to do and done, a queue of accepted records, and
      what was sent in which session; it enables only what was asked for,
      answers every request for the list once, and loses, duplicates and
      reorders nothing.  Its requests change only by arrival at their end; only
      the tracer takes them away, by carrying them out.
    - Refine.v and SystemRefine.v: in an environment that behaves (clients send
      whole requests and read, no system call fails) every step of thread and
      application is a sequence of abstract steps.  A run is observed with two
      histories, of the records that entered the channel and of the requests
      that arrived at the client's socket; every observed run is simulated step
      by step, such that the abstract tracer has accepted exactly the records of
      the one history, the requests it has done and those still to do are the
      other, and every client reads what the abstract tracer sent.
    - Progress.v: in such an environment the thread takes each of its steps
      without a panic, except on data or events of a connection that is gone.
    - EndToEnd.v: what the application submits while a client is connected is,
      after one channel event and one expiry of the queue timer, what the client
      has received and decodes.

    ** Bounds and limits

    usize is 64 bits wide.  A Duration and a SystemTime are numbers of
    nanoseconds.  A socket is a script of what the kernel will answer; no
    theorem restricts the script beyond its own hypotheses ([healthy]: every
    write is eventually accepted).  The atomics are sequentially consistent, as
    in the source.  In System.v the atomic steps are one message of the
    channel, one timeout, one request of the client (or the end of its stream)
    and the parts of [tracy_submit] up to its first load, to its second load and
    to its send; [tracy_register] and [tracy_finit] are one step each.

    Not modelled: the diagnostics printed to stderr and stdout, memory
    exhaustion, the release of file descriptors, the text the example client
    prints and its main function, the Wireshark dissector and the example
    programs. *)

From stdpp Require Export prelude gmap list pretty.
From Stdlib Require Strings.Byte Strings.String.
From Stdlib Require Export ZArith Lia.

#[export] Set Default Goal Selector "!".

Declare Scope tracy_scope.
Delimit Scope tracy_scope with tracy.
#[global] Open Scope Z_scope.
#[global] Open Scope tracy_scope.

(** * Bytes *)

Notation u8 := Byte.byte.

#[export] Instance u8_eq_dec : EqDecision u8 := Byte.byte_eq_dec.

#[export] Program Instance u8_countable : Countable u8 :=
  inj_countable Byte.to_N Byte.of_N _.
Next Obligation. intros b. apply Byte.of_to_N. Qed.

Definition u8_to_Z (b : u8) : Z := Z.of_N (Byte.to_N b).

Definition u8_of_Z (z : Z) : u8 :=
  default Byte.x00 (Byte.of_N (Z.to_N (z mod 256))).

Lemma u8_to_Z_range b : 0 <= u8_to_Z b < 256.
Proof. unfold u8_to_Z. pose proof (Byte.to_N_bounded b). lia. Qed.

Lemma u8_to_of_Z z : u8_to_Z (u8_of_Z z) = z mod 256.
Proof.
  unfold u8_to_Z, u8_of_Z.
  pose proof (Z.mod_pos_bound z 256 ltac:(lia)).
  destruct (Byte.of_N (Z.to_N (z mod 256))) as [b|] eqn:E; simpl.
  - apply Byte.to_of_N in E. rewrite E. lia.
  - apply Byte.of_N_None_iff in E. lia.
Qed.

Lemma u8_of_to_Z b : u8_of_Z (u8_to_Z b) = b.
Proof.
  unfold u8_of_Z. rewrite Z.mod_small by apply u8_to_Z_range.
  unfold u8_to_Z. rewrite N2Z.id, Byte.of_to_N. done.
Qed.

#[export] Instance u8_to_Z_inj : Inj (=) (=) u8_to_Z.
Proof. intros a b E. rewrite <-(u8_of_to_Z a), <-(u8_of_to_Z b). by f_equal. Qed.

(** The bytes of an ASCII literal. *)
Definition lit (s : string) : list u8 := String.list_byte_of_string s.
Arguments lit s%_string_scope.

(** [Result<A, E>] *)
Inductive Result (A E : Type) :=
| Ok (a : A)
| Err (e : E).
Arguments Ok {A E}.
Arguments Err {A E}.

Definition is_ok {A E} (r : Result A E) : bool := if r is Ok _ then true else false.

(** * Machine integers

    [u16], [u32], [u64] and [usize] values are [Z]s; the arithmetic of the
    release profile wraps around, and an [as] cast truncates. *)

Definition wrap (bits : Z) (z : Z) : Z := z mod 2 ^ bits.

Definition u16_of (z : Z) : Z := wrap 16 z.
Definition u32_of (z : Z) : Z := wrap 32 z.
Definition u64_of (z : Z) : Z := wrap 64 z.
Definition usize_of (z : Z) : Z := wrap 64 z.

Lemma wrap_small bits z : 0 <= z < 2 ^ bits -> wrap bits z = z.
Proof. intros. by apply Z.mod_small. Qed.

Lemma wrap_range bits z : 0 <= bits -> 0 <= wrap bits z < 2 ^ bits.
Proof. intros. apply Z.mod_pos_bound. by apply Z.pow_pos_nonneg. Qed.

(** [Z]-valued length, the [len()] of the source. *)
Definition zlen {A} (l : list A) : Z := Z.of_nat (length l).

Lemma zlen_nil {A} : zlen (@nil A) = 0.
Proof. done. Qed.
Lemma zlen_cons {A} (x : A) l : zlen (x :: l) = 1 + zlen l.
Proof. unfold zlen. simpl. lia. Qed.
Lemma zlen_app {A} (l k : list A) : zlen (l ++ k) = zlen l + zlen k.
Proof. unfold zlen. rewrite length_app. lia. Qed.
Lemma zlen_nonneg {A} (l : list A) : 0 <= zlen l.
Proof. unfold zlen. lia. Qed.
Lemma zlen_map {A B} (f : A -> B) l : zlen (map f l) = zlen l.
Proof. unfold zlen. by rewrite length_map. Qed.

Create HintDb tracy.
Create Rewrite HintDb tracy.
#[export] Hint Rewrite @zlen_nil @zlen_cons @zlen_app @zlen_map : tracy.
#[export] Hint Resolve zlen_nonneg u8_to_Z_range : tracy.

(** ** Big-endian encoding: [to_be_bytes] and [from_be_bytes] *)

Fixpoint be_bytes (n : nat) (z : Z) : list u8 :=
  match n with
  | O => []
  | S k => u8_of_Z (z / 256 ^ Z.of_nat k) :: be_bytes k z
  end.

Fixpoint be_value (bs : list u8) : Z :=
  match bs with
  | [] => 0
  | b :: r => u8_to_Z b * 256 ^ zlen r + be_value r
  end.

Lemma length_be_bytes n z : length (be_bytes n z) = n.
Proof. induction n; simpl; auto. Qed.
Lemma zlen_be_bytes n z : zlen (be_bytes n z) = Z.of_nat n.
Proof. unfold zlen. by rewrite length_be_bytes. Qed.
#[export] Hint Rewrite length_be_bytes zlen_be_bytes : tracy.

Lemma be_value_range bs : 0 <= be_value bs < 256 ^ zlen bs.
Proof.
  induction bs as [|b r IH]; [done|]. simpl. rewrite zlen_cons.
  rewrite Z.pow_add_r by (auto with tracy; lia).
  pose proof (u8_to_Z_range b). nia.
Qed.
#[export] Hint Resolve be_value_range : tracy.

Lemma be_value_bytes n z : be_value (be_bytes n z) = z mod 256 ^ Z.of_nat n.
Proof.
  induction n as [|n IH]; [by rewrite Z.mod_1_r|]. simpl be_bytes. simpl be_value.
  rewrite IH, u8_to_of_Z, zlen_be_bytes, Nat2Z.inj_succ, Z.pow_succ_r by lia.
  assert (0 < 256 ^ Z.of_nat n) by (apply Z.pow_pos_nonneg; lia).
  rewrite (Z.mul_comm 256), Z.rem_mul_r by lia. lia.
Qed.

(** Dropping whole multiples of [256 ^ m] above the encoded digits changes
    nothing. *)
Lemma be_bytes_add n z m q :
  Z.of_nat n <= m -> be_bytes n (z + q * 256 ^ m) = be_bytes n z.
Proof.
  induction n as [|n IH]; intros Hm; [done|]. simpl. rewrite IH by lia. f_equal.
  apply (inj u8_to_Z). rewrite !u8_to_of_Z.
  replace (256 ^ m) with (256 ^ (m - Z.of_nat n - 1) * 256 * 256 ^ Z.of_nat n).
  2: { change 256 with (256 ^ 1) at 2. rewrite <-!Z.pow_add_r by lia. f_equal. lia. }
  rewrite !Z.mul_assoc, Z.div_add by (apply Z.pow_nonzero; lia).
  by rewrite Z.mod_add by lia.
Qed.

Lemma be_bytes_value bs : be_bytes (length bs) (be_value bs) = bs.
Proof.
  induction bs as [|b r IH]; [done|]. simpl.
  pose proof (be_value_range r). pose proof (u8_to_Z_range b).
  f_equal.
  - apply (inj u8_to_Z). rewrite u8_to_of_Z. fold (zlen r).
    rewrite Z.div_add_l, Z.div_small, Z.add_0_r, Z.mod_small by lia. done.
  - rewrite Z.add_comm, be_bytes_add; [done|]. unfold zlen; lia.
Qed.

Definition u16_to_be_bytes : Z -> list u8 := be_bytes 2.
Definition u32_to_be_bytes : Z -> list u8 := be_bytes 4.
Definition u64_to_be_bytes : Z -> list u8 := be_bytes 8.
Definition from_be_bytes : list u8 -> Z := be_value.

(** ** Lists *)

Lemma zlen_take {A} (l : list A) n : 0 <= n -> zlen (take (Z.to_nat n) l) = Z.min n (zlen l).
Proof. intros. unfold zlen. rewrite length_take. lia. Qed.

Definition slice {A} (a b : nat) (l : list A) : list A := take (b - a) (drop a l).

(** Split off the first [n] elements, or nothing when there are fewer. *)
Definition take_exact {A} (n : nat) (l : list A) : option (list A * list A) :=
  if (n <=? length l)%nat then Some (take n l, drop n l) else None.

Lemma take_exact_app {A} n (l k : list A) :
  length l = n -> take_exact n (l ++ k) = Some (l, k).
Proof.
  intros <-. unfold take_exact. rewrite length_app.
  rewrite (proj2 (Nat.leb_le _ _)) by lia. by rewrite take_app_length, drop_app_length.
Qed.

Lemma take_exact_Some {A} n (l a b : list A) :
  take_exact n l = Some (a, b) -> l = a ++ b /\ length a = n.
Proof.
  unfold take_exact. destruct (Nat.leb_spec n (length l)); [|done].
  intros [= <- <-]. rewrite take_drop, length_take. split; [done|lia].
Qed.

#[global] Arguments take_exact : simpl never.
#[global] Arguments be_bytes : simpl never.
#[global] Arguments u16_to_be_bytes : simpl never.
#[global] Arguments u32_to_be_bytes : simpl never.
#[global] Arguments u64_to_be_bytes : simpl never.

(** * Tactics *)

Ltac destr_match :=
  repeat match goal with
  | H : context [match ?x with _ => _ end] |- _ => destruct x eqn:?; simplify_eq/=
  | |- context [match ?x with _ => _ end] => destruct x eqn:?; simplify_eq/=
  end.

Ltac zlen_lia := autorewrite with tracy in *; unfold zlen in *; simpl in *; lia.

(** * Runs *)

(** The states after [x] in a run of [R]. *)
Fixpoint path {A} (R : relation A) (x : A) (l : list A) : Prop :=
  match l with [] => True | y :: l => R x y /\ path R y l end.

Lemma rtc_path {A} (R : relation A) x y :
  rtc R x y -> exists l, path R x l /\ last (x :: l) = Some y.
Proof.
  induction 1 as [x|x y z Hxy _ (l & Hl & Hlast)]; [by exists []|]. exists (y :: l). by split.
Qed.

(** A simulation, step by step along a run. *)
Lemma path_simulation {A B} (R : relation A) (S : relation B) (I : A -> Prop) (sim : A -> B -> Prop) x f l :
  (forall x x' f, sim x f -> R x x' -> I x' -> exists f', S f f' /\ sim x' f') ->
  sim x f -> path R x l -> Forall I l -> exists fs, path S f fs /\ Forall2 sim l fs.
Proof.
  intros Hsim. revert x f. induction l as [|y l IH]; intros x f Hf; [by exists []|].
  intros [Hxy Hl] [Hy HI]%Forall_cons. destruct (Hsim x y f Hf Hxy Hy) as (f' & Hf' & Hsim').
  destruct (IH y f' Hsim' Hl HI) as (fs & Hfs & Hall). exists (f' :: fs). split; [done|]. by constructor.
Qed.
