(* ===== verification/Monad.v ===== *)
(** The effect monad of the development: state passing with the three ways in
    which the code does not return (a Rust panic, undefined behaviour, a loop
    that never ends), a loop combinator with explicit fuel, and a small
    weakest-precondition calculus with which every handler is verified. *)

From S2P Require Import Prelude.

(** * Outcomes

    [Ret a w]: the code returned [a] and left the state [w].
    [Panic w]: an [unwrap] or [expect] failed; [w] is the state at that point,
    which other threads keep observing.
    [Undef]: the code dereferenced an invalid pointer.
    [Hang]: a loop used up its fuel. *)
Inductive outcome (W A : Type) :=
| Ret (a : A) (w : W)
| Panic (w : W)
| Undef
| Hang.
Arguments Ret {W A}.
Arguments Panic {W A}.
Arguments Undef {W A}.
Arguments Hang {W A}.

Definition M (W A : Type) : Type := W -> outcome W A.

#[export] Instance M_ret W : MRet (M W) := fun A a w => Ret a w.
#[export] Instance M_bind W : MBind (M W) := fun A B f m w =>
  match m w with
  | Ret a w' => f a w'
  | Panic w' => Panic w'
  | Undef => Undef
  | Hang => Hang
  end.

Definition get {W} : M W W := fun w => Ret w w.
Definition gets {W A} (f : W -> A) : M W A := fun w => Ret (f w) w.
Definition modify {W} (f : W -> W) : M W unit := fun w => Ret tt (f w).
Definition panic {W A} : M W A := fun w => Panic w.
Definition undefined {W A} : M W A := fun _ => Undef.

(** [Option::unwrap] / [expect]. *)
Definition unwrap {W A} (o : option A) : M W A :=
  match o with Some a => mret a | None => panic end.

(** Dereference of a raw pointer. *)
Definition deref {W A} (o : option A) : M W A :=
  match o with Some a => mret a | None => undefined end.

(** A loop whose body continues with [inl a] or leaves with [inr b]. *)
Fixpoint loop {W A B} (fuel : nat) (body : A -> M W (A + B)) (a : A) : M W B :=
  match fuel with
  | O => fun _ => Hang
  | S n => r ← body a; match r with inl a' => loop n body a' | inr b => mret b end
  end.

(** [for x in l { body }] *)
Fixpoint for_each {W A} (l : list A) (body : A -> M W unit) : M W unit :=
  match l with
  | [] => mret tt
  | x :: r => body x;; for_each r body
  end.

(** * Weakest preconditions

    [wp m Q R w]: run from [w], [m] neither hangs nor is undefined; if it
    returns, [Q] holds of the result and the state, if it panics, [R] holds of
    the state it leaves behind. *)
Definition wp {W A} (m : M W A) (Q : A -> W -> Prop) (R : W -> Prop) (w : W) : Prop :=
  match m w with
  | Ret a w' => Q a w'
  | Panic w' => R w'
  | Undef => False
  | Hang => False
  end.

Definition returns {W A} (m : M W A) (w : W) : Prop := exists a w', m w = Ret a w'.

Section wp.
Context {W : Type}.
Implicit Types w : W.

Lemma wp_ret {A} (a : A) (Q : A -> W -> Prop) R w : Q a w -> wp (mret a) Q R w.
Proof. done. Qed.

Lemma wp_bind {A B} (m : M W A) (f : A -> M W B) Q R w :
  wp m (fun a => wp (f a) Q R) R w -> wp (m ≫= f) Q R w.
Proof. unfold wp, mbind, M_bind. by destruct (m w). Qed.

Lemma wp_mono {A} (m : M W A) (Q Q' : A -> W -> Prop) (R R' : W -> Prop) w :
  wp m Q R w -> (forall a w', Q a w' -> Q' a w') -> (forall w', R w' -> R' w') ->
  wp m Q' R' w.
Proof. unfold wp. destruct (m w); naive_solver. Qed.

Lemma wp_get (Q : W -> W -> Prop) R w : Q w w -> wp get Q R w.
Proof. done. Qed.
Lemma wp_gets {A} (f : W -> A) (Q : A -> W -> Prop) R w : Q (f w) w -> wp (gets f) Q R w.
Proof. done. Qed.
Lemma wp_modify (f : W -> W) (Q : unit -> W -> Prop) R w : Q tt (f w) -> wp (modify f) Q R w.
Proof. done. Qed.
Lemma wp_panic {A} (Q : A -> W -> Prop) R w : R w -> wp panic Q R w.
Proof. done. Qed.
Lemma wp_unwrap {A} (o : option A) (Q : A -> W -> Prop) R w :
  (forall a, o = Some a -> Q a w) -> (o = None -> R w) -> wp (unwrap o) Q R w.
Proof. destruct o; naive_solver. Qed.
Lemma wp_deref {A} (o : option A) (Q : A -> W -> Prop) R w :
  (exists a, o = Some a /\ Q a w) -> wp (deref o) Q R w.
Proof. intros (a & -> & H). done. Qed.

Lemma wp_eq {A} (m : M W A) Q R a w w' : m w = Ret a w' -> Q a w' -> wp m Q R w.
Proof. unfold wp. by intros ->. Qed.
Lemma wp_inv {A} (m : M W A) Q R a w w' : wp m Q R w -> m w = Ret a w' -> Q a w'.
Proof. unfold wp. intros H E. by rewrite E in H. Qed.
Lemma wp_inv_panic {A} (m : M W A) Q R w w' : wp m Q R w -> m w = Panic w' -> R w'.
Proof. unfold wp. intros H E. by rewrite E in H. Qed.
Lemma wp_no_hang {A} (m : M W A) Q R w : wp m Q R w -> m w <> Hang.
Proof. unfold wp. intros H E. by rewrite E in H. Qed.
Lemma wp_returns {A} (m : M W A) Q w :
  wp m Q (fun _ => False) w -> exists a w', m w = Ret a w' /\ Q a w'.
Proof. unfold wp. destruct (m w); naive_solver. Qed.
Lemma wp_and {A} (m : M W A) (Q Q' : A -> W -> Prop) (R R' : W -> Prop) w :
  wp m Q R w -> wp m Q' R' w -> wp m (fun a w => Q a w /\ Q' a w) (fun w => R w /\ R' w) w.
Proof. unfold wp. destruct (m w); naive_solver. Qed.

(** The loop rule: an invariant, and a measure that every continuing
    iteration decreases and that starts below the fuel. *)
Lemma wp_loop {A B} (I : A -> W -> Prop) (mu : A -> W -> nat)
    (body : A -> M W (A + B)) Q R :
  (forall a w, I a w ->
     wp (body a)
       (fun r w' => match r with
                    | inl a' => I a' w' /\ (mu a' w' < mu a w)%nat
                    | inr b => Q b w'
                    end) R w) ->
  forall fuel a w, I a w -> (mu a w < fuel)%nat -> wp (loop fuel body a) Q R w.
Proof.
  intros Hbody fuel. induction fuel as [|n IH]; intros a w HI Hmu; [lia|].
  simpl. apply wp_bind. eapply wp_mono; [by apply Hbody| |done].
  intros [a'|b] w'; simpl; [|done]. intros [HI' Hlt]. apply IH; [done|lia].
Qed.

Lemma wp_for_each {A} (I : list A -> W -> Prop) (body : A -> M W unit) R l w :
  (forall x r w, I (x :: r) w -> wp (body x) (fun _ => I r) R w) ->
  I l w -> wp (for_each l body) (fun _ => I []) R w.
Proof.
  intros Hb. revert w. induction l as [|x r IH]; intros w HI; [done|].
  simpl. apply wp_bind. eapply wp_mono; [by apply Hb| |done]. simpl. auto.
Qed.

(** Partial correctness of a loop: an invariant of the iterations, and what it
    gives at the one that leaves. *)
Lemma loop_post {A B} (I : A -> W -> Prop) (Q : B -> W -> Prop) (body : A -> M W (A + B)) :
  (forall a w r w', I a w -> body a w = Ret r w' ->
     match r with inl a' => I a' w' | inr b => Q b w' end) ->
  forall fuel a w b w', I a w -> loop fuel body a w = Ret b w' -> Q b w'.
Proof.
  intros Hbody fuel. induction fuel as [|n IH]; intros a w b w' HI; [done|].
  cbn [loop]. unfold mbind, M_bind. destruct (body a w) as [[a'|b'] w1| | |] eqn:E; try done.
  - intros Hrun. eapply IH; [|exact Hrun]. exact (Hbody _ _ _ _ HI E).
  - intros [= <- <-]. exact (Hbody _ _ _ _ HI E).
Qed.

(** A run that does not hang is not changed by more fuel. *)
Lemma loop_fuel_mono {A B} (body : A -> M W (A + B)) n k a w :
  loop n body a w <> Hang -> loop (n + k) body a w = loop n body a w.
Proof.
  revert a w. induction n as [|n IH]; intros a w H; [done|]. simpl in *.
  unfold mbind, M_bind in *. destruct (body a w) as [[a'|b] w'| | |]; auto.
Qed.

(** No panic, and a postcondition if the run ends. *)
Definition np {A} (m : M W A) (Q : A -> W -> Prop) (w : W) : Prop :=
  match m w with Ret a w' => Q a w' | Panic _ => False | _ => True end.

Lemma np_ret {A} (m : M W A) Q a w w' : m w = Ret a w' -> Q a w' -> np m Q w.
Proof. unfold np. by intros ->. Qed.

Lemma np_bind {A B} (m : M W A) (f : A -> M W B) Q w :
  np m (fun a => np (f a) Q) w -> np (m ≫= f) Q w.
Proof. unfold np, mbind, M_bind. by destruct (m w). Qed.

Lemma np_mono {A} (m : M W A) (Q Q' : A -> W -> Prop) w :
  np m Q w -> (forall a w', Q a w' -> Q' a w') -> np m Q' w.
Proof. unfold np. destruct (m w); naive_solver. Qed.

(** A run without panic that satisfies a partial-correctness condition. *)
Lemma np_and {A} (m : M W A) (Q Q' : A -> W -> Prop) w :
  np m Q w -> (forall a w', m w = Ret a w' -> Q' a w') -> np m (fun a w' => Q a w' /\ Q' a w') w.
Proof. unfold np. destruct (m w); naive_solver. Qed.

Lemma np_loop {A B} (I : A -> W -> Prop) (Q : B -> W -> Prop) (body : A -> M W (A + B)) fuel a w :
  (forall a w, I a w -> np (body a) (fun r => match r with inl a' => I a' | inr b => Q b end) w) ->
  I a w -> np (loop fuel body a) Q w.
Proof.
  intros Hbody. revert a w. induction fuel as [|n IH]; intros a w HI; [done|]. cbn [loop].
  apply np_bind. eapply np_mono; [by apply Hbody|]. intros [a'|b] w'; [apply IH|done].
Qed.

(** ... that moreover neither hangs nor is undefined. *)
Lemma np_returns {A} (m : M W A) Q Q' R w : np m Q w -> wp m Q' R w -> returns m w.
Proof. unfold np, wp, returns. destruct (m w); naive_solver. Qed.

Lemma bind_ret {A B} (m : M W A) (f : A -> M W B) a w w' :
  m w = Ret a w' -> (m ≫= f) w = f a w'.
Proof. unfold mbind, M_bind. by intros ->. Qed.
Lemma bind_panic {A B} (m : M W A) (f : A -> M W B) w w' :
  m w = Panic w' -> (m ≫= f) w = Panic w'.
Proof. unfold mbind, M_bind. by intros ->. Qed.
End wp.

Create HintDb wp.
#[export] Hint Resolve wp_ret wp_get wp_gets wp_modify wp_panic : wp.

(** One structural step of a weakest-precondition proof. *)
Ltac wp_step :=
  first
    [ progress simpl
    | apply wp_bind
    | apply wp_ret | apply wp_get | apply wp_gets | apply wp_modify | apply wp_panic
    | apply wp_unwrap; intros ].

Ltac wp_steps := repeat wp_step.

(** Apply a specification and keep its consequence. *)
Tactic Notation "wp_use" uconstr(H) := eapply wp_mono; [eapply H| |].
