(* ===== verification/Platform.v ===== *)
(** What the program takes from its dependencies and from the standard library
    without defining it: the timer wheel and the channel of [mio_extras], the
    order in which a [HashMap] is iterated, and the parser of socket
    addresses.  The operations are the class [Platform]; the documented
    behaviour the program relies on are the law classes; [reference] is a
    concrete platform that satisfies them and on which witnesses run. *)

From S2P Require Import Prelude.

Class Platform := {
  (** [mio_extras::timer::Timer<usize>] and its [Timeout] handles. *)
  timer : Type;
  timeout : Type;
  timeout_eq_dec :: EqDecision timeout;
  timer_default : timer;
  set_timeout : timer -> Z -> Z -> timer * timeout;
  cancel_timeout : timer -> timeout -> timer;
  timer_poll : timer -> timer * option Z;
  (** observations: the pending timeouts, and how many of them have expired *)
  timer_armed : timer -> list (timeout * Z);
  timer_due : timer -> nat;

  (** [mio_extras::channel]: a pollable [std::sync::mpsc] channel. *)
  channel : Type -> Type;
  channel_new : forall {A}, channel A;
  channel_send : forall {A}, channel A -> A -> channel A * bool;
  channel_try_recv : forall {A}, channel A -> channel A * option A;
  channel_close : forall {A}, channel A -> channel A;
  (** observations: the queued messages, and whether the receiver is alive *)
  channel_contents : forall {A}, channel A -> list A;
  channel_open : forall {A}, channel A -> bool;

  (** [HashMap::iter]: some order of the entries. *)
  hash_iter : gmap (list u8) nat -> list (list u8 * nat);

  (** [SocketAddr] and its [FromStr]. *)
  socket_addr : Type;
  socket_addr_from_str : list u8 -> option socket_addr;
}.

Class TimerLaws (P : Platform) : Prop := {
  armed_default : timer_armed timer_default = [];
  armed_set : forall t d s t' h, set_timeout t d s = (t', h) ->
    timer_armed t' ≡ₚ (h, s) :: timer_armed t /\ h ∉ (timer_armed t).*1;
  due_set : forall t d s, timer_due (set_timeout t d s).1 = timer_due t;
  armed_cancel : forall t h,
    timer_armed (cancel_timeout t h) ≡ₚ filter (fun p => p.1 <> h) (timer_armed t);
  due_cancel : forall t h, (timer_due (cancel_timeout t h) <= timer_due t)%nat;
  poll_some : forall t t' s, timer_poll t = (t', Some s) ->
    (exists h, timer_armed t ≡ₚ (h, s) :: timer_armed t') /\ (timer_due t' < timer_due t)%nat;
  poll_none : forall t t', timer_poll t = (t', None) ->
    timer_armed t' ≡ₚ timer_armed t /\ timer_due t' = timer_due t;
}.

Class ChannelLaws (P : Platform) : Prop := {
  contents_new : forall A, channel_contents (@channel_new _ A) = [];
  open_new : forall A, channel_open (@channel_new _ A) = true;
  send_open : forall A (q : channel A) m, channel_open q = true ->
    (channel_send q m).2 = true /\ channel_open (channel_send q m).1 = true /\
    channel_contents (channel_send q m).1 = channel_contents q ++ [m];
  send_closed : forall A (q : channel A) m, channel_open q = false ->
    channel_send q m = (q, false);
  recv_nil : forall A (q : channel A), channel_contents q = [] ->
    channel_try_recv q = (q, None);
  recv_cons : forall A (q : channel A) m r, channel_contents q = m :: r ->
    (channel_try_recv q).2 = Some m /\ channel_contents (channel_try_recv q).1 = r /\
    channel_open (channel_try_recv q).1 = channel_open q;
  open_close : forall A (q : channel A), channel_open (channel_close q) = false;
}.

Class HashLaws (P : Platform) : Prop := {
  hash_iter_perm : forall m, hash_iter m ≡ₚ map_to_list m;
}.

(** [HashMap::keys] and [HashMap::values]. *)
Definition hash_keys `{Platform} (m : gmap (list u8) nat) : list (list u8) :=
  (hash_iter m).*1.
Definition hash_values `{Platform} (m : gmap (list u8) nat) : list nat :=
  (hash_iter m).*2.

Section hash.
Context `{HashLaws}.

Lemma elem_of_hash_values m l : l ∈ hash_values m <-> exists k, m !! k = Some l.
Proof.
  unfold hash_values. rewrite list_elem_of_fmap. split.
  - intros ([k l'] & -> & Hin). exists k. rewrite hash_iter_perm in Hin.
    by apply elem_of_map_to_list.
  - intros [k Hk]. exists (k, l). split; [done|]. rewrite hash_iter_perm.
    by apply elem_of_map_to_list.
Qed.

Lemma elem_of_hash_keys m k : k ∈ hash_keys m <-> is_Some (m !! k).
Proof.
  unfold hash_keys. rewrite list_elem_of_fmap. split.
  - intros ([k' l] & -> & Hin). rewrite hash_iter_perm in Hin.
    exists l. by apply elem_of_map_to_list.
  - intros [l Hk]. exists (k, l). split; [done|]. rewrite hash_iter_perm.
    by apply elem_of_map_to_list.
Qed.

Lemma hash_keys_perm m : hash_keys m ≡ₚ (map_to_list m).*1.
Proof. unfold hash_keys. by rewrite hash_iter_perm. Qed.

Lemma NoDup_hash_keys m : NoDup (hash_keys m).
Proof. rewrite hash_keys_perm. apply NoDup_fst_map_to_list. Qed.
End hash.

(** Generic facts about [filter]. *)
Lemma filter_fmap_list {A B} (f : A -> B) (Pr : B -> Prop) `{forall x, Decision (Pr x)} (l : list A) :
  (f <$> filter (fun x => Pr (f x)) l) = filter Pr (f <$> l).
Proof.
  induction l as [|x l IH]; [done|]. rewrite fmap_cons.
  destruct (decide (Pr (f x))).
  - rewrite !filter_cons_True by done. rewrite fmap_cons. by f_equal.
  - by rewrite !filter_cons_False.
Qed.

Lemma filter_filter_length {A} (Pr Pr' : A -> Prop)
    `{forall x, Decision (Pr x)} `{forall x, Decision (Pr' x)} (l : list A) :
  (length (filter Pr (filter Pr' l)) <= length (filter Pr l))%nat.
Proof.
  induction l as [|x l IH]; [done|].
  rewrite (filter_cons Pr'), (filter_cons Pr). repeat case_decide; simpl; try lia.
  - rewrite filter_cons_True by done. simpl. lia.
  - rewrite filter_cons_False by done. lia.
Qed.

(** * The reference platform

    Timer: the pending timeouts in the order they were set, each with a flag
    that says whether it has expired.  Channel: a list and an open flag. *)
Module Ref.
Record ref_timer := mk_timer { next : nat; entries : list (nat * Z * bool) }.

Definition armed (t : ref_timer) : list (nat * Z) := (entries t).*1.
Definition is_due (e : nat * Z * bool) : Prop := e.2 = true.
#[export] Instance is_due_dec e : Decision (is_due e) := decide (e.2 = true).
Definition due (t : ref_timer) : nat := length (filter is_due (entries t)).

(** A handle is never reused: [next] exceeds every armed handle, or is
    bumped past them. *)
Definition fresh_handle (t : ref_timer) : nat :=
  S (foldr Nat.max (next t) (entries t).*1.*1).

Definition set (t : ref_timer) (d s : Z) : ref_timer * nat :=
  let h := fresh_handle t in
  (mk_timer h (entries t ++ [(h, s, false)]), h).

Definition cancel (t : ref_timer) (h : nat) : ref_timer :=
  mk_timer (next t) (filter (fun e => e.1.1 <> h) (entries t)).

Fixpoint pop_due (es : list (nat * Z * bool)) : option (Z * list (nat * Z * bool)) :=
  match es with
  | [] => None
  | e :: r =>
      if decide (is_due e) then Some (e.1.2, r)
      else p ← pop_due r; Some (p.1, e :: p.2)
  end.

Definition poll (t : ref_timer) : ref_timer * option Z :=
  match pop_due (entries t) with
  | Some (s, es) => (mk_timer (next t) es, Some s)
  | None => (t, None)
  end.

(** Time passes: every pending timeout expires. *)
Definition expire (t : ref_timer) : ref_timer :=
  mk_timer (next t) ((fun e => (e.1, true)) <$> entries t).

Record ref_channel (A : Type) := mk_channel { queue : list A; is_open : bool }.
Arguments mk_channel {A}. Arguments queue {A}. Arguments is_open {A}.

Definition send {A} (q : ref_channel A) (m : A) : ref_channel A * bool :=
  if is_open q then (mk_channel (queue q ++ [m]) true, true) else (q, false).
Definition recv {A} (q : ref_channel A) : ref_channel A * option A :=
  match queue q with
  | [] => (q, None)
  | m :: r => (mk_channel r (is_open q), Some m)
  end.

Lemma pop_due_Some es s r :
  pop_due es = Some (s, r) ->
  (exists h, es.*1 ≡ₚ (h, s) :: r.*1) /\
  length (filter is_due es) = S (length (filter is_due r)).
Proof.
  revert s r. induction es as [|[[h s'] b] es IH]; intros s r; [done|]. simpl.
  case_decide as Hd.
  - intros [= -> <-]. split; [by exists h|]. by rewrite filter_cons_True.
  - destruct (pop_due es) as [[s1 r1]|] eqn:E; simpl; [|done].
    intros [= <- <-]. destruct (IH _ _ eq_refl) as [[h' Hp] Hlen]. split.
    + exists h'. simpl. rewrite Hp. apply Permutation_swap.
    + by rewrite !filter_cons_False by done.
Qed.

Lemma fresh_handle_lt t h : h ∈ (entries t).*1.*1 -> (h < fresh_handle t)%nat.
Proof.
  unfold fresh_handle. generalize ((entries t).*1.*1) as l.
  induction l as [|x l IH]; simpl; [by rewrite elem_of_nil|].
  rewrite elem_of_cons. intros [->|Hin]; [lia|]. specialize (IH Hin). lia.
Qed.
End Ref.

#[export] Instance reference : Platform := {|
  timer := Ref.ref_timer;
  timeout := nat;
  timeout_eq_dec := _;
  timer_default := Ref.mk_timer 0 [];
  set_timeout := Ref.set;
  cancel_timeout := Ref.cancel;
  timer_poll := Ref.poll;
  timer_armed := Ref.armed;
  timer_due := Ref.due;
  channel := Ref.ref_channel;
  channel_new := fun A => Ref.mk_channel [] true;
  channel_send := fun A => Ref.send;
  channel_try_recv := fun A => Ref.recv;
  channel_close := fun A q => Ref.mk_channel (Ref.queue q) false;
  channel_contents := fun A => Ref.queue;
  channel_open := fun A => Ref.is_open;
  hash_iter := map_to_list;
  socket_addr := list u8;
  socket_addr_from_str := fun s => Some s;
|}.

#[export] Instance reference_timer : TimerLaws reference.
Proof.
  split; simpl.
  - done.
  - intros t d s t' h [= <- <-]. unfold Ref.armed. simpl. rewrite fmap_app. simpl. split.
    + by rewrite Permutation_app_comm.
    + intros Hin%Ref.fresh_handle_lt. lia.
  - intros. unfold Ref.due. simpl. by rewrite filter_app, length_app, Nat.add_0_r.
  - intros t h. unfold Ref.armed. simpl.
    by rewrite <-(filter_fmap_list fst (fun p : nat * Z => p.1 <> h)).
  - intros t h. unfold Ref.due. simpl. apply filter_filter_length.
  - intros t t' s. unfold Ref.poll.
    destruct (Ref.pop_due (Ref.entries t)) as [[s' es]|] eqn:E; [|done].
    intros [= <- ->]. apply Ref.pop_due_Some in E as [Hp Hlen]. split; [done|].
    unfold Ref.due. simpl. rewrite Hlen. lia.
  - intros t t'. unfold Ref.poll.
    destruct (Ref.pop_due (Ref.entries t)) as [[s' es]|]; [done|]. by intros [= <-].
Qed.

#[export] Instance reference_channel : ChannelLaws reference.
Proof.
  split; simpl; intros A; try done.
  - intros [q b] m; simpl. intros ->. done.
  - intros [q b] m; simpl. intros ->. done.
  - intros [q b]; simpl. intros ->. done.
  - intros [q b] m r; simpl. intros ->. done.
Qed.

#[export] Instance reference_hash : HashLaws reference.
Proof. split. done. Qed.
