(* ===== verification/Types.v ===== *)
(** The data of the program: the constants, enums and structs of lib.rs, the
    sockets of the standard library, and the state of the tracer thread. *)

From S2P Require Import Prelude Platform.

(** * Constants (lib.rs) *)

Definition SERVER_VERSION : list u8 := lit "1.1.0".
Definition PROTOCOLL_VERSION : list u8 := lit "1.1.0".
Definition MAX_TRACEPOINT_NAME_LEN : Z := 32.
Definition MAX_SUBMIT_LEN : Z := 2048.
Definition QUEUE_TOTAL_SIZE : Z := 4096.
Definition TIMESTAMP_LEN : Z := 8.
Definition QUEUE_TIMEOUT_IDENT : Z := 42.
Definition UDP_TIMEOUT_IDENT : Z := 9001.
Definition CHAN : Z := 1.
Definition TIMER : Z := 2.
Definition CON_NEW : Z := 3.
Definition CON_DATA : Z := 4.

(** * Time

    A [Duration] is a number of nanoseconds; a [SystemTime] is a number of
    nanoseconds relative to [UNIX_EPOCH], negative before it. *)

Definition Duration : Type := Z.
Definition from_millis (ms : Z) : Duration := ms * 1000000.
Definition as_secs (d : Duration) : Z := d / 1000000000.
Definition subsec_nanos (d : Duration) : Z := d mod 1000000000.
Definition subsec_millis (d : Duration) : Z := (d mod 1000000000) / 1000000.

Definition SystemTime : Type := Z.
(** [time.duration_since(UNIX_EPOCH)], [None] for [Err]. *)
Definition duration_since_epoch (t : SystemTime) : option Duration :=
  if 0 <=? t then Some t else None.

(** * Structs and enums of lib.rs *)

Record BufferElement := mkElement {
  elem_tracepoint : list u8;
  elem_timestamp : SystemTime;
  elem_data : list u8;
}.

(** [BufferElement::len] *)
Definition BufferElement_len (e : BufferElement) : Z :=
  zlen (elem_tracepoint e) + TIMESTAMP_LEN + zlen (elem_data e).

Record Tracepoint := mkTracepoint {
  tp_name : list u8;
  tp_state : nat; (** an [Arc<AtomicBool>]: the address of the shared flag *)
}.

Inductive ChannelMessage :=
| Payload (e : BufferElement)
| NewTracepoint (t : Tracepoint)
| MsgTerminate.

Inductive TracerState := Normal | Terminate | DataProcessed.

(** * std::io and std::net *)

Inductive ErrorKind :=
| WouldBlock | Interrupted | UnexpectedEof | WriteZero | BrokenPipe | ConnectionReset.

#[export] Instance ErrorKind_eq_dec : EqDecision ErrorKind.
Proof. solve_decision. Defined.

(** What the kernel will answer to the next reads and writes of a socket:
    bytes that have arrived, an error, or the end of the stream, which every
    later read meets again; a number of bytes it accepts, or an error.  A
    socket with no further event has nothing to read ([WouldBlock]) and
    accepts every write. *)
Inductive rx_event := RxData (bs : list u8) | RxErr (k : ErrorKind) | RxEof.
Inductive tx_event := TxAccept (n : nat) | TxErr (k : ErrorKind).

Record Socket := mkSocket {
  rx : list rx_event;
  tx : list tx_event;
  sent : list u8;
}.

Section Types.
Context `{P : Platform}.

Record InitData := mkInitData {
  hostname : list u8;
  process_name : list u8;
  send_interval : Duration;
  announce_interval : Duration;
  announce_addr : option socket_addr;
  announce_iface : option (list u8);
}.

(** The handle of the C application. *)
Record TracerNg := mkTracerNg {
  send_to_tracer_thread : nat;
  client_connected : nat;
  tracepoints : gmap (list u8) nat;
}.

(** [mio::net::TcpListener]: what [local_addr] answers, as a port. *)
Record TcpListener := mkListener { local_port : option Z }.

(** The state of the tracer thread. [poll] is not a field: the calls made to
    it are logged in the [World]. *)
Record TracerContext := mkCtx {
  app_cfg : InitData;
  buffer : list BufferElement;
  buffer_occupancy : Z; (** usize *)
  rec : nat; (** the channel received from *)
  ctx_timer : timer;
  queue_timeout : option timeout;
  udp_timeout : option timeout;
  udp_sock : option (list u8); (** the local address it is bound to *)
  listener : TcpListener;
  connection : option nat; (** the socket *)
  ctx_client_connected : nat; (** an [Arc<AtomicBool>] *)
  ctx_tracepoints : gmap (list u8) nat;
  sequence_no : Z; (** u64 *)
}.

Definition with_app_cfg (v : InitData) (c : TracerContext) : TracerContext :=
  mkCtx v (buffer c) (buffer_occupancy c) (rec c) (ctx_timer c) (queue_timeout c) (udp_timeout c) (udp_sock c) (listener c) (connection c) (ctx_client_connected c) (ctx_tracepoints c) (sequence_no c).
Definition with_buffer (v : list BufferElement) (c : TracerContext) : TracerContext :=
  mkCtx (app_cfg c) v (buffer_occupancy c) (rec c) (ctx_timer c) (queue_timeout c) (udp_timeout c) (udp_sock c) (listener c) (connection c) (ctx_client_connected c) (ctx_tracepoints c) (sequence_no c).
Definition with_buffer_occupancy (v : Z) (c : TracerContext) : TracerContext :=
  mkCtx (app_cfg c) (buffer c) v (rec c) (ctx_timer c) (queue_timeout c) (udp_timeout c) (udp_sock c) (listener c) (connection c) (ctx_client_connected c) (ctx_tracepoints c) (sequence_no c).
Definition with_rec (v : nat) (c : TracerContext) : TracerContext :=
  mkCtx (app_cfg c) (buffer c) (buffer_occupancy c) v (ctx_timer c) (queue_timeout c) (udp_timeout c) (udp_sock c) (listener c) (connection c) (ctx_client_connected c) (ctx_tracepoints c) (sequence_no c).
Definition with_ctx_timer (v : timer) (c : TracerContext) : TracerContext :=
  mkCtx (app_cfg c) (buffer c) (buffer_occupancy c) (rec c) v (queue_timeout c) (udp_timeout c) (udp_sock c) (listener c) (connection c) (ctx_client_connected c) (ctx_tracepoints c) (sequence_no c).
Definition with_queue_timeout (v : option timeout) (c : TracerContext) : TracerContext :=
  mkCtx (app_cfg c) (buffer c) (buffer_occupancy c) (rec c) (ctx_timer c) v (udp_timeout c) (udp_sock c) (listener c) (connection c) (ctx_client_connected c) (ctx_tracepoints c) (sequence_no c).
Definition with_udp_timeout (v : option timeout) (c : TracerContext) : TracerContext :=
  mkCtx (app_cfg c) (buffer c) (buffer_occupancy c) (rec c) (ctx_timer c) (queue_timeout c) v (udp_sock c) (listener c) (connection c) (ctx_client_connected c) (ctx_tracepoints c) (sequence_no c).
Definition with_udp_sock (v : option (list u8)) (c : TracerContext) : TracerContext :=
  mkCtx (app_cfg c) (buffer c) (buffer_occupancy c) (rec c) (ctx_timer c) (queue_timeout c) (udp_timeout c) v (listener c) (connection c) (ctx_client_connected c) (ctx_tracepoints c) (sequence_no c).
Definition with_listener (v : TcpListener) (c : TracerContext) : TracerContext :=
  mkCtx (app_cfg c) (buffer c) (buffer_occupancy c) (rec c) (ctx_timer c) (queue_timeout c) (udp_timeout c) (udp_sock c) v (connection c) (ctx_client_connected c) (ctx_tracepoints c) (sequence_no c).
Definition with_connection (v : option nat) (c : TracerContext) : TracerContext :=
  mkCtx (app_cfg c) (buffer c) (buffer_occupancy c) (rec c) (ctx_timer c) (queue_timeout c) (udp_timeout c) (udp_sock c) (listener c) v (ctx_client_connected c) (ctx_tracepoints c) (sequence_no c).
Definition with_ctx_client_connected (v : nat) (c : TracerContext) : TracerContext :=
  mkCtx (app_cfg c) (buffer c) (buffer_occupancy c) (rec c) (ctx_timer c) (queue_timeout c) (udp_timeout c) (udp_sock c) (listener c) (connection c) v (ctx_tracepoints c) (sequence_no c).
Definition with_ctx_tracepoints (v : gmap (list u8) nat) (c : TracerContext) : TracerContext :=
  mkCtx (app_cfg c) (buffer c) (buffer_occupancy c) (rec c) (ctx_timer c) (queue_timeout c) (udp_timeout c) (udp_sock c) (listener c) (connection c) (ctx_client_connected c) v (sequence_no c).
Definition with_sequence_no (v : Z) (c : TracerContext) : TracerContext :=
  mkCtx (app_cfg c) (buffer c) (buffer_occupancy c) (rec c) (ctx_timer c) (queue_timeout c) (udp_timeout c) (udp_sock c) (listener c) (connection c) (ctx_client_connected c) (ctx_tracepoints c) v.

(** Calls to [mio::Poll] and to the UDP socket, in order. *)
Inductive Call :=
| PollRegister (sock : nat)
| PollDeregister (sock : nat)
| UdpSendTo (msg : list u8) (addr : socket_addr).

(** Everything the tracer thread can observe or change. *)
Record World := mkWorld {
  ctx : TracerContext; (** the state of the tracer thread *)
  heap : gmap nat bool; (** the [AtomicBool]s, shared with the application *)
  chans : gmap nat (channel ChannelMessage); (** the channels, shared with the application *)
  socks : gmap nat Socket; (** the sockets of accepted connections *)
  next_sock : nat;
  backlog : list (ErrorKind + Socket); (** what [accept] will return *)
  oracle : list bool; (** whether the next [try_clone], [register], [bind] succeeds *)
  log : list Call; (** the calls made to [Poll] and [UdpSocket] *)
}.

Definition with_ctx (v : TracerContext) (w : World) : World :=
  mkWorld v (heap w) (chans w) (socks w) (next_sock w) (backlog w) (oracle w) (log w).
Definition with_heap (v : gmap nat bool) (w : World) : World :=
  mkWorld (ctx w) v (chans w) (socks w) (next_sock w) (backlog w) (oracle w) (log w).
Definition with_chans (v : gmap nat (channel ChannelMessage)) (w : World) : World :=
  mkWorld (ctx w) (heap w) v (socks w) (next_sock w) (backlog w) (oracle w) (log w).
Definition with_socks (v : gmap nat Socket) (w : World) : World :=
  mkWorld (ctx w) (heap w) (chans w) v (next_sock w) (backlog w) (oracle w) (log w).
Definition with_next_sock (v : nat) (w : World) : World :=
  mkWorld (ctx w) (heap w) (chans w) (socks w) v (backlog w) (oracle w) (log w).
Definition with_backlog (v : list (ErrorKind + Socket)) (w : World) : World :=
  mkWorld (ctx w) (heap w) (chans w) (socks w) (next_sock w) v (oracle w) (log w).
Definition with_oracle (v : list bool) (w : World) : World :=
  mkWorld (ctx w) (heap w) (chans w) (socks w) (next_sock w) (backlog w) v (log w).
Definition with_log (v : list Call) (w : World) : World :=
  mkWorld (ctx w) (heap w) (chans w) (socks w) (next_sock w) (backlog w) (oracle w) v.

Definition upd_ctx (f : TracerContext -> TracerContext) (w : World) : World :=
  with_ctx (f (ctx w)) w.
End Types.

Arguments InitData : clear implicits.
Arguments InitData {P}.
Arguments TracerContext {P}.
Arguments World {P}.
Arguments Call {P}.
