(* ===== verification/Worlds.v ===== *)
(** Concrete states on the reference platform, on which the theorems of the
    development are instantiated. *)

From S2P Require Import Prelude Monad Platform Types.

Definition cpu : list u8 := lit "cpu".
Definition mem : list u8 := lit "mem".

(** Flags: 0 is [client_connected], 1 and 2 belong to the tracepoints. *)
Definition example_cfg : InitData :=
  @mkInitData reference (lit "radio") (lit "app") 500000000 5000000000
    (Some (lit "225.0.0.1:64042")) (Some (lit "127.0.0.1")).

Definition example_tracepoints : gmap (list u8) nat := {[ cpu := 1%nat; mem := 2%nat ]}.

(** An announcing tracer without a client. *)
Definition idle_ctx : TracerContext :=
  @mkCtx reference example_cfg [] 0 0%nat (Ref.mk_timer 7 [(7%nat, UDP_TIMEOUT_IDENT, false)])
    None (Some 7%nat) (Some (lit "127.0.0.1")) (mkListener (Some 61455)) None 0%nat
    example_tracepoints 0.

Definition idle_world (backlog : list (ErrorKind + Socket)) : World :=
  @mkWorld reference idle_ctx {[ 0%nat := false; 1%nat := false; 2%nat := false ]}
    {[ 0%nat := channel_new ]} ∅ 0%nat backlog [] [].

(** A tracer with a client on socket 0, some elements waiting, and the queue
    timer armed when there are any. *)
Definition busy_ctx (es : list BufferElement) : TracerContext :=
  @mkCtx reference example_cfg es 0 0%nat
    (Ref.mk_timer 7 (if es is [] then [] else [(7%nat, QUEUE_TIMEOUT_IDENT, false)]))
    (if es is [] then None else Some 7%nat) None (Some (lit "127.0.0.1"))
    (mkListener (Some 61455)) (Some 0%nat) 0%nat example_tracepoints 0.

Definition busy_world (es : list BufferElement) (rx : list rx_event) (tx : list tx_event)
    (msgs : list ChannelMessage) : World :=
  @mkWorld reference (busy_ctx es) {[ 0%nat := true; 1%nat := false; 2%nat := false ]}
    {[ 0%nat := Ref.mk_channel msgs true ]} {[ 0%nat := mkSocket rx tx [] ]} 1%nat [] [] [].

Definition element (name : list u8) (t : SystemTime) (n : nat) : BufferElement :=
  mkElement name t (replicate n Byte.x61).
