(* ===== verification/Strings.v ===== *)
(** Strings: UTF-8 validation and lossy conversion of the standard library,
    C strings, and the normalisation of tracepoint names (lib.rs:
    [rawpt_to_str], [rawpt_to_addr], [string_to_addr], [fix_tracepoint_str]). *)

From S2P Require Import Prelude Platform Types.

(** * UTF-8 (core::str) *)

Definition between (lo : Z) (b : u8) (hi : Z) : bool :=
  (lo <=? u8_to_Z b) && (u8_to_Z b <=? hi).

Definition is_cont (b : u8) : bool := between 128 b 191.

(** The bytes that may follow a lead byte of a longer sequence. *)
Definition second_ok (b0 b1 : u8) : bool :=
  let v := u8_to_Z b0 in
  if v =? 224 then between 160 b1 191
  else if v =? 237 then between 128 b1 159
  else if v =? 240 then between 144 b1 191
  else if v =? 244 then between 128 b1 143
  else is_cont b1.

Definition char_width (b : u8) : nat :=
  if between 0 b 127 then 1
  else if between 194 b 223 then 2
  else if between 224 b 239 then 3
  else if between 240 b 244 then 4
  else 0.

(** The first character: whether it is well formed, and its length; for an
    ill-formed one the length of the prefix that one replacement character
    stands for. *)
Definition utf8_head (bs : list u8) : bool * nat :=
  match bs with
  | [] => (true, O)
  | b0 :: r =>
      match char_width b0, r with
      | 1%nat, _ => (true, 1%nat)
      | 2%nat, b1 :: _ => if is_cont b1 then (true, 2%nat) else (false, 1%nat)
      | 3%nat, b1 :: r1 =>
          if second_ok b0 b1 then
            match r1 with
            | b2 :: _ => if is_cont b2 then (true, 3%nat) else (false, 2%nat)
            | [] => (false, 2%nat)
            end
          else (false, 1%nat)
      | 4%nat, b1 :: r1 =>
          if second_ok b0 b1 then
            match r1 with
            | b2 :: r2 =>
                if is_cont b2 then
                  match r2 with
                  | b3 :: _ => if is_cont b3 then (true, 4%nat) else (false, 3%nat)
                  | [] => (false, 3%nat)
                  end
                else (false, 2%nat)
            | [] => (false, 2%nat)
            end
          else (false, 1%nat)
      | _, _ => (false, 1%nat)
      end
  end.

Fixpoint utf8_valid_aux (fuel : nat) (bs : list u8) : bool :=
  match fuel, bs with
  | _, [] => true
  | O, _ => false
  | S n, _ => let '(ok, k) := utf8_head bs in ok && utf8_valid_aux n (drop k bs)
  end.

(** [str::from_utf8], the string of a valid byte sequence. *)
Definition from_utf8 (bs : list u8) : option (list u8) :=
  if utf8_valid_aux (length bs) bs then Some bs else None.

Definition REPLACEMENT : list u8 := [Byte.xef; Byte.xbf; Byte.xbd].

Fixpoint lossy_aux (fuel : nat) (bs : list u8) : list u8 :=
  match fuel, bs with
  | _, [] => []
  | O, _ => []
  | S n, _ =>
      let '(ok, k) := utf8_head bs in
      (if ok then take k bs else REPLACEMENT) ++ lossy_aux n (drop k bs)
  end.

(** [CStr::to_string_lossy] *)
Definition to_string_lossy (bs : list u8) : list u8 := lossy_aux (length bs) bs.

(** * ASCII *)

Definition ascii_byte (b : u8) : bool := u8_to_Z b <? 128.
Definition is_ascii (s : list u8) : bool := forallb ascii_byte s.
Definition lower_byte (b : u8) : u8 :=
  if between 65 b 90 then u8_of_Z (u8_to_Z b + 32) else b.
(** [str::to_lowercase] of an ASCII string. *)
Definition to_lowercase (s : list u8) : list u8 := map lower_byte s.
(** [String::truncate] of an ASCII string: every index is a char boundary. *)
Definition truncate (n : Z) (s : list u8) : list u8 := take (Z.to_nat n) s.

Lemma ascii_width b : ascii_byte b = true -> char_width b = 1%nat.
Proof.
  unfold ascii_byte, char_width, between. intros H%Z.ltb_lt. pose proof (u8_to_Z_range b).
  rewrite (proj2 (Z.leb_le _ _)), (proj2 (Z.leb_le _ _)) by lia. done.
Qed.

Lemma utf8_head_bounds b bs : (1 <= (utf8_head (b :: bs)).2)%nat.
Proof.
  unfold utf8_head. destruct (char_width b) as [|[|[|[|[|]]]]]; simpl; try lia;
    repeat case_match; simpl; lia.
Qed.

(** A sequence that starts with an ASCII byte is split after it; any other
    one yields a non-ASCII byte. *)
Lemma utf8_head_ascii b bs : ascii_byte b = true -> utf8_head (b :: bs) = (true, 1%nat).
Proof. intros H. unfold utf8_head. by rewrite ascii_width. Qed.

Lemma lossy_ascii s n : (length s <= n)%nat -> is_ascii s = true -> lossy_aux n s = s.
Proof.
  revert n. induction s as [|b s IH]; intros n Hn; [by destruct n|]. simpl in Hn |- *.
  intros [Hb Hs]%andb_prop. destruct n as [|n]; [lia|].
  cbn [lossy_aux]. rewrite utf8_head_ascii by done. simpl. rewrite drop_0. f_equal.
  apply IH; [lia|done].
Qed.

Lemma valid_ascii s n : (length s <= n)%nat -> is_ascii s = true -> utf8_valid_aux n s = true.
Proof.
  revert n. induction s as [|b s IH]; intros n Hn; [by destruct n|]. simpl in Hn |- *.
  intros [Hb Hs]%andb_prop. destruct n as [|n]; [lia|].
  cbn [utf8_valid_aux]. rewrite utf8_head_ascii by done. simpl. rewrite drop_0. apply IH; [lia|done].
Qed.

Lemma lossy_not_ascii s n :
  (length s <= n)%nat -> is_ascii s = false -> is_ascii (lossy_aux n s) = false.
Proof.
  revert n s. induction n as [|n IH]; intros [|b s] Hn; simpl in Hn; try done; try lia.
  destruct (ascii_byte b) eqn:Hb.
  - intros Hs. simpl in Hs. rewrite Hb in Hs. cbn [lossy_aux]. rewrite utf8_head_ascii by done.
    simpl. rewrite Hb, drop_0. apply IH; [lia|done].
  - intros _. cbn [lossy_aux]. destruct (utf8_head (b :: s)) as [ok k] eqn:Hh.
    pose proof (utf8_head_bounds b s) as Hk. rewrite Hh in Hk. simpl in Hk.
    destruct ok; [|done]. destruct k as [|k]; [lia|]. simpl. by rewrite Hb.
Qed.

Lemma is_ascii_lossy s : is_ascii (to_string_lossy s) = is_ascii s.
Proof.
  unfold to_string_lossy. destruct (is_ascii s) eqn:H.
  - by rewrite lossy_ascii.
  - by apply lossy_not_ascii.
Qed.

Lemma to_string_lossy_ascii s : is_ascii s = true -> to_string_lossy s = s.
Proof. by apply lossy_ascii. Qed.

Lemma from_utf8_ascii s : is_ascii s = true -> from_utf8 s = Some s.
Proof. intros. unfold from_utf8. by rewrite valid_ascii. Qed.

(** * C strings

    A [*const c_char] is null or the bytes before the terminating zero. *)
Definition c_str : Type := option (list u8).

Definition rawpt_to_str (cstring : c_str) : option (list u8) :=
  match cstring with
  | None => None
  | Some s => Some (to_string_lossy s)
  end.

Definition string_to_addr `{Platform} (s : list u8) : option socket_addr :=
  socket_addr_from_str s.

Definition rawpt_to_addr `{Platform} (cstring : c_str) : option socket_addr :=
  s ← rawpt_to_str cstring; string_to_addr s.

(** * Tracepoint names *)

Definition fix_tracepoint_str (tracepoint : list u8) : Result (list u8) unit :=
  if negb (is_ascii tracepoint) then Err tt
  else
    let tracepoint :=
      if MAX_TRACEPOINT_NAME_LEN <? zlen tracepoint
      then truncate MAX_TRACEPOINT_NAME_LEN tracepoint else tracepoint in
    Ok (to_lowercase tracepoint).

(** A name as the registry stores it. *)
Definition normal_name (s : list u8) : Prop :=
  is_ascii s = true /\ zlen s <= MAX_TRACEPOINT_NAME_LEN /\ to_lowercase s = s.

Lemma lower_byte_idem b : lower_byte (lower_byte b) = lower_byte b.
Proof. by destruct b. Qed.
Lemma ascii_lower_byte b : ascii_byte (lower_byte b) = ascii_byte b.
Proof. by destruct b. Qed.

Lemma to_lowercase_idem s : to_lowercase (to_lowercase s) = to_lowercase s.
Proof. induction s; simpl; rewrite ?lower_byte_idem; congruence. Qed.
Lemma is_ascii_lowercase s : is_ascii (to_lowercase s) = is_ascii s.
Proof. induction s as [|b s IH]; simpl; [done|]. by rewrite ascii_lower_byte, IH. Qed.
Lemma is_ascii_take n s : is_ascii s = true -> is_ascii (take n s) = true.
Proof.
  unfold is_ascii. rewrite !forallb_forall. intros H x Hx. apply H.
  apply list_elem_of_In in Hx. apply list_elem_of_In. by eapply elem_of_take in Hx as (? & ?%list_elem_of_lookup_2 & ?).
Qed.
Lemma zlen_lowercase s : zlen (to_lowercase s) = zlen s.
Proof. apply zlen_map. Qed.

Lemma fix_tracepoint_str_eq s :
  fix_tracepoint_str s =
    if is_ascii s then Ok (to_lowercase (take (Z.to_nat MAX_TRACEPOINT_NAME_LEN) s)) else Err tt.
Proof.
  unfold fix_tracepoint_str. destruct (is_ascii s); simpl; [|done].
  destruct (Z.ltb_spec MAX_TRACEPOINT_NAME_LEN (zlen s)) as [|Hle]; [done|].
  rewrite take_ge; [done|]. unfold zlen, MAX_TRACEPOINT_NAME_LEN in *. lia.
Qed.

Lemma fix_tracepoint_str_normal s s' : fix_tracepoint_str s = Ok s' -> normal_name s'.
Proof.
  rewrite fix_tracepoint_str_eq. destruct (is_ascii s) eqn:Ha; [|done]. intros [= <-].
  split; [|split].
  - rewrite is_ascii_lowercase. by apply is_ascii_take.
  - rewrite zlen_lowercase, zlen_take by (unfold MAX_TRACEPOINT_NAME_LEN; lia). lia.
  - apply to_lowercase_idem.
Qed.

Lemma fix_tracepoint_str_id s : normal_name s -> fix_tracepoint_str s = Ok s.
Proof.
  intros (Ha & Hl & Hlow). rewrite fix_tracepoint_str_eq, Ha, take_ge, Hlow; [done|].
  unfold zlen, MAX_TRACEPOINT_NAME_LEN in *. lia.
Qed.

Create HintDb names.
#[export] Hint Resolve fix_tracepoint_str_normal : names.

Lemma fix_lossy_eq s :
  fix_tracepoint_str (to_string_lossy s) = if is_ascii s then Ok (to_lowercase (take 32 s)) else Err tt.
Proof.
  rewrite fix_tracepoint_str_eq, is_ascii_lossy.
  destruct (is_ascii s) eqn:E; [|done]. by rewrite to_string_lossy_ascii.
Qed.

(** C23: The name under which a tracepoint is registered and looked up on
    submission: a C string with a non-ASCII byte is refused, any other one is
    cut to 32 bytes and put in lower case; the result is a normal name, and
    normalising it again changes nothing. *)
Theorem fix_tracepoint_str_spec (s : list u8) :
  fix_tracepoint_str (to_string_lossy s) =
    (if is_ascii s then Ok (to_lowercase (take 32 s)) else Err tt) /\
  (forall s', fix_tracepoint_str (to_string_lossy s) = Ok s' ->
     normal_name s' /\ fix_tracepoint_str (to_string_lossy s') = Ok s').
Proof.
  split; [apply fix_lossy_eq|].
  - intros s' Hs'. pose proof (fix_tracepoint_str_normal _ _ Hs') as Hn. split; [done|].
    rewrite to_string_lossy_ascii by apply Hn. by apply fix_tracepoint_str_id.
Qed.

Lemma fix_tracepoint_str_spec_witness :
  normal_name (lit "main.loop") /\
  fix_tracepoint_str (to_string_lossy (lit "main.loop")) = Ok (lit "main.loop").
Proof. apply (proj2 (fix_tracepoint_str_spec (lit "Main.Loop"))). reflexivity. Defined.
