(* ===== verification/Context.v ===== *)
(** The methods of [TracerContext] (lib.rs): the send buffer, the two timers,
    the set of tracepoints and the teardown of a connection; the invariant of
    the timers. *)

From S2P Require Import Prelude Monad Platform Types Worlds.

Section Context_defs.
Context `{P : Platform}.

(** * Primitives of the tracer thread *)

Definition atomic_store (l : nat) (b : bool) : M World unit :=
  modify (fun w => with_heap (<[l := b]> (heap w)) w).
Definition atomic_load (l : nat) : M World bool :=
  gets (fun w => default false (heap w !! l)).

(** Whether the next fallible call to the operating system succeeds. *)
Definition succeeds : M World bool := fun w =>
  match oracle w with
  | [] => Ret true w
  | b :: r => Ret b (with_oracle r w)
  end.
Definition log_call (c : Call) : M World unit :=
  modify (fun w => with_log (log w ++ [c]) w).
Definition in_ctx (f : TracerContext -> TracerContext) : M World unit := modify (upd_ctx f).

(** [TcpStream::try_clone().unwrap()]: both handles are the same socket. *)
Definition try_clone_unwrap (sid : nat) : M World nat :=
  ok ← succeeds; if (ok : bool) then mret sid else panic.

(** * impl TracerContext *)

Definition append (e : BufferElement) (c : TracerContext) : TracerContext :=
  with_buffer (buffer c ++ [e])
    (with_buffer_occupancy (usize_of (buffer_occupancy c + BufferElement_len e)) c).

Definition clear_buffer (c : TracerContext) : TracerContext :=
  with_buffer_occupancy 0 (with_buffer [] c).

Definition check_start_queue_timer (c : TracerContext) : TracerContext :=
  match queue_timeout c with
  | None =>
      let '(t, h) := set_timeout (ctx_timer c) (send_interval (app_cfg c)) QUEUE_TIMEOUT_IDENT in
      with_queue_timeout (Some h) (with_ctx_timer t c)
  | Some _ => c
  end.

Definition check_stop_queue_timer (c : TracerContext) : TracerContext :=
  with_queue_timeout None
    match queue_timeout c with
    | Some h => with_ctx_timer (cancel_timeout (ctx_timer c) h) c
    | None => c
    end.

Definition check_start_udp_timer (c : TracerContext) : TracerContext :=
  match udp_timeout c with
  | None =>
      let '(t, h) := set_timeout (ctx_timer c) (announce_interval (app_cfg c)) UDP_TIMEOUT_IDENT in
      with_udp_timeout (Some h) (with_ctx_timer t c)
  | Some _ => c
  end.

Definition check_stop_udp_timer (c : TracerContext) : TracerContext :=
  with_udp_timeout None
    match udp_timeout c with
    | Some h => with_ctx_timer (cancel_timeout (ctx_timer c) h) c
    | None => c
    end.

Definition close_and_clean_connection : M World unit :=
  c ← gets ctx;
  atomic_store (ctx_client_connected c) false;;
  sid ← unwrap (connection c);
  cloned ← succeeds;
  (if (cloned : bool) then log_call (PollDeregister sid) else mret tt);;
  in_ctx (with_connection None);;
  in_ctx check_stop_queue_timer;;
  for_each (hash_values (ctx_tracepoints c)) (fun l => atomic_store l false);;
  in_ctx check_start_udp_timer.

Definition insert_tracepoint (t : Tracepoint) (c : TracerContext) : TracerContext :=
  with_ctx_tracepoints (<[tp_name t := tp_state t]> (ctx_tracepoints c)) c.

(** * The timer invariant

    The timer holds exactly the timeouts the context remembers: no timeout is
    leaked, none is armed twice, and a cancelled one is gone. *)
Definition armed_as (o : option timeout) (ident : Z) : list (timeout * Z) :=
  match o with Some h => [(h, ident)] | None => [] end.

Definition timer_ok (c : TracerContext) : Prop :=
  timer_armed (ctx_timer c) ≡ₚ
    armed_as (queue_timeout c) QUEUE_TIMEOUT_IDENT ++ armed_as (udp_timeout c) UDP_TIMEOUT_IDENT
  /\ NoDup (timer_armed (ctx_timer c)).*1.

End Context_defs.

Section timer_lemmas.
Context {P : Platform} {TL : TimerLaws P}.

(** Arming: [set_timeout] adds one entry. *)
Lemma armed_set_cons (t : timer) d s l :
  timer_armed t ≡ₚ l -> NoDup (timer_armed t).*1 ->
  timer_armed (set_timeout t d s).1 ≡ₚ ((set_timeout t d s).2, s) :: l
  /\ NoDup (timer_armed (set_timeout t d s).1).*1.
Proof.
  intros Hl Hnd. destruct (set_timeout t d s) as [t' h] eqn:E. simpl.
  destruct (armed_set _ _ _ _ _ E) as [Hp Hfresh]. rewrite Hp, Hl. split; [done|].
  simpl. constructor; [by rewrite <-Hl|by rewrite <-Hl].
Qed.

(** Disarming: [cancel_timeout] removes the one entry of that handle. *)
Lemma armed_cancel_cons (t : timer) h s l :
  timer_armed t ≡ₚ (h, s) :: l -> NoDup (timer_armed t).*1 ->
  timer_armed (cancel_timeout t h) ≡ₚ l /\ NoDup (timer_armed (cancel_timeout t h)).*1.
Proof.
  intros Hl Hnd. rewrite Hl in Hnd. simpl in Hnd. inversion Hnd as [|? ? Hni Hnd']; subst.
  enough (timer_armed (cancel_timeout t h) ≡ₚ l) as Hp; [by rewrite Hp|].
  rewrite armed_cancel, Hl. rewrite filter_cons_False by (simpl; tauto).
  clear Hl Hnd Hnd'. induction l as [|[h' s'] l IH]; [done|]. simpl in Hni.
  rewrite elem_of_cons in Hni. rewrite filter_cons_True by (simpl; naive_solver).
  rewrite IH; [done|naive_solver].
Qed.

Lemma timer_ok_default c : ctx_timer c = timer_default ->
  queue_timeout c = None -> udp_timeout c = None -> timer_ok c.
Proof.
  intros E Eq Eu. unfold timer_ok. rewrite E, Eq, Eu, armed_default. split; [done|constructor].
Qed.

Lemma timer_ok_start_queue c : timer_ok c -> timer_ok (check_start_queue_timer c).
Proof.
  intros [Hp Hnd]. unfold check_start_queue_timer.
  destruct (queue_timeout c) eqn:Eq; [split; by rewrite ?Eq|].
  pose proof (armed_set_cons _ (send_interval (app_cfg c)) QUEUE_TIMEOUT_IDENT _ Hp Hnd) as [? ?].
  destruct (set_timeout _ _ _) as [t h]. split; done.
Qed.

Lemma timer_ok_start_udp c : timer_ok c -> timer_ok (check_start_udp_timer c).
Proof.
  intros [Hp Hnd]. unfold check_start_udp_timer.
  destruct (udp_timeout c) eqn:Eu; [split; by rewrite ?Eu|].
  pose proof (armed_set_cons _ (announce_interval (app_cfg c)) UDP_TIMEOUT_IDENT _ Hp Hnd) as [Hp' ?].
  destruct (set_timeout _ _ _) as [t h]. split; [|done]. simpl in *. rewrite Hp', app_nil_r.
  by rewrite Permutation_app_comm.
Qed.

Lemma timer_ok_stop_queue c : timer_ok c -> timer_ok (check_stop_queue_timer c).
Proof.
  intros [Hp Hnd]. unfold check_stop_queue_timer.
  destruct (queue_timeout c) as [h|] eqn:Eq; [|split; simpl; by rewrite ?Eq in *].
  simpl in Hp. destruct (armed_cancel_cons _ _ _ _ Hp Hnd). split; done.
Qed.

Lemma timer_ok_stop_udp c : timer_ok c -> timer_ok (check_stop_udp_timer c).
Proof.
  intros [Hp Hnd]. unfold check_stop_udp_timer.
  destruct (udp_timeout c) as [h|] eqn:Eu; [|split; simpl; by rewrite ?Eu in *].
  simpl in Hp. rewrite Permutation_app_comm in Hp.
  destruct (armed_cancel_cons _ _ _ _ Hp Hnd) as [Hp' ?]. split; [|done]. simpl.
  by rewrite Hp', app_nil_r.
Qed.

(** A timeout that fires is the one the context remembers under its ident;
    dropping it from the context restores the invariant. *)
Lemma timer_ok_fire_queue c t :
  timer_ok c -> timer_poll (ctx_timer c) = (t, Some QUEUE_TIMEOUT_IDENT) ->
  timer_ok (with_queue_timeout None (with_ctx_timer t c)).
Proof.
  intros [Hp Hnd] Hpoll. destruct (poll_some _ _ _ Hpoll) as [[h Hh] _].
  rewrite Hh in Hp, Hnd. simpl in Hnd. split; simpl; [|by inversion Hnd].
  destruct (queue_timeout c) as [hq|]; simpl in *.
  - assert ((h, QUEUE_TIMEOUT_IDENT) ∈ (hq, QUEUE_TIMEOUT_IDENT) :: armed_as (udp_timeout c) UDP_TIMEOUT_IDENT)
      as Hin by (rewrite <-Hp; by left).
    apply elem_of_cons in Hin as [[= ->]|Hin]; [by apply Permutation_cons_inv in Hp|].
    destruct (udp_timeout c); simpl in Hin; set_solver.
  - destruct (udp_timeout c); simpl in *.
    + apply Permutation_singleton_r in Hp. done.
    + by apply Permutation_nil_r in Hp.
Qed.

Lemma timer_ok_fire_udp c t :
  timer_ok c -> timer_poll (ctx_timer c) = (t, Some UDP_TIMEOUT_IDENT) ->
  timer_ok (with_udp_timeout None (with_ctx_timer t c)).
Proof.
  intros [Hp Hnd] Hpoll. destruct (poll_some _ _ _ Hpoll) as [[h Hh] _].
  rewrite Hh in Hp, Hnd. simpl in Hnd. split; simpl; [|by inversion Hnd].
  rewrite app_nil_r. rewrite Permutation_app_comm in Hp.
  destruct (udp_timeout c) as [hu|]; simpl in *.
  - assert ((h, UDP_TIMEOUT_IDENT) ∈ (hu, UDP_TIMEOUT_IDENT) :: armed_as (queue_timeout c) QUEUE_TIMEOUT_IDENT)
      as Hin by (rewrite <-Hp; by left).
    apply elem_of_cons in Hin as [[= ->]|Hin]; [by apply Permutation_cons_inv in Hp|].
    destruct (queue_timeout c); simpl in Hin; set_solver.
  - destruct (queue_timeout c); simpl in *.
    + apply Permutation_singleton_r in Hp. done.
    + by apply Permutation_nil_r in Hp.
Qed.

(** No other ident can fire. *)
Lemma timer_ok_fire_ident c t s :
  timer_ok c -> timer_poll (ctx_timer c) = (t, Some s) ->
  s = QUEUE_TIMEOUT_IDENT \/ s = UDP_TIMEOUT_IDENT.
Proof.
  intros [Hp _] Hpoll. destruct (poll_some _ _ _ Hpoll) as [[h Hh] _].
  assert ((h, s) ∈ timer_armed (ctx_timer c)) as Hin by (rewrite Hh; by left).
  rewrite Hp, elem_of_app in Hin.
  destruct Hin as [Hin|Hin]; [left|right];
    [destruct (queue_timeout c)|destruct (udp_timeout c)]; simpl in Hin; set_solver.
Qed.
End timer_lemmas.

Create HintDb timer_ok.
#[export] Hint Resolve timer_ok_default timer_ok_start_queue timer_ok_start_udp
  timer_ok_stop_queue timer_ok_stop_udp timer_ok_fire_queue timer_ok_fire_udp : timer_ok.

(** ** What the timer operations and the teardown do, exactly *)

Section effects.
Context {P : Platform}.

Definition with_timers (t : timer) (q u : option timeout) (c : TracerContext) : TracerContext :=
  with_ctx_timer t (with_queue_timeout q (with_udp_timeout u c)).

(** A change of the context confined to the timers, that expires nothing. *)
Definition timers_only (f : TracerContext -> TracerContext) : Prop :=
  forall c, exists t q u, f c = with_timers t q u c /\ (timer_due t <= timer_due (ctx_timer c))%nat.

Lemma timers_only_compose f g :
  timers_only f -> timers_only g -> timers_only (fun c => f (g c)).
Proof.
  intros Hf Hg c. destruct (Hg c) as (t & q & u & -> & Hle).
  destruct (Hf (with_timers t q u c)) as (t' & q' & u' & -> & Hle'). simpl in Hle'.
  exists t', q', u'. split; [done|lia].
Qed.

Context {TL : TimerLaws P}.

Lemma start_queue_timers : timers_only check_start_queue_timer.
Proof.
  intros c. unfold check_start_queue_timer. destruct (queue_timeout c) eqn:Eq.
  - exists (ctx_timer c), (queue_timeout c), (udp_timeout c). by destruct c.
  - pose proof (due_set (ctx_timer c) (send_interval (app_cfg c)) QUEUE_TIMEOUT_IDENT) as Hd.
    destruct (set_timeout _ _ _) as [t h]. exists t, (Some h), (udp_timeout c).
    simpl in Hd. rewrite Hd. by destruct c.
Qed.

Lemma start_udp_timers : timers_only check_start_udp_timer.
Proof.
  intros c. unfold check_start_udp_timer. destruct (udp_timeout c) eqn:Eq.
  - exists (ctx_timer c), (queue_timeout c), (udp_timeout c). by destruct c.
  - pose proof (due_set (ctx_timer c) (announce_interval (app_cfg c)) UDP_TIMEOUT_IDENT) as Hd.
    destruct (set_timeout _ _ _) as [t h]. exists t, (queue_timeout c), (Some h).
    simpl in Hd. rewrite Hd. by destruct c.
Qed.

Lemma stop_queue_timers : timers_only check_stop_queue_timer.
Proof.
  intros c. unfold check_stop_queue_timer. destruct (queue_timeout c) as [h|] eqn:Eq.
  - exists (cancel_timeout (ctx_timer c) h), None, (udp_timeout c).
    split; [by destruct c|apply due_cancel].
  - exists (ctx_timer c), None, (udp_timeout c). by destruct c.
Qed.

Lemma stop_udp_timers : timers_only check_stop_udp_timer.
Proof.
  intros c. unfold check_stop_udp_timer. destruct (udp_timeout c) as [h|] eqn:Eq.
  - exists (cancel_timeout (ctx_timer c) h), (queue_timeout c), None.
    split; [by destruct c|apply due_cancel].
  - exists (ctx_timer c), (queue_timeout c), None. by destruct c.
Qed.

(** Storing [false] into every flag of a list. *)
Definition clear_flags (ls : list nat) (h : gmap nat bool) : gmap nat bool :=
  foldl (fun h l => <[l := false]> h) h ls.

Lemma lookup_clear_flags ls h l :
  clear_flags ls h !! l = if decide (l ∈ ls) then Some false else h !! l.
Proof.
  unfold clear_flags. revert h. induction ls as [|x ls IH]; intros h;
    cbn [foldl].
  - by rewrite decide_False by apply not_elem_of_nil.
  - rewrite IH. destruct (decide (l ∈ ls)) as [Hin|Hni].
    + by rewrite decide_True by by right.
    + destruct (decide (l = x)) as [->|Hne].
      * rewrite decide_True by by left. by rewrite lookup_insert_eq.
      * rewrite decide_False by (rewrite elem_of_cons; tauto). by rewrite lookup_insert_ne.
Qed.

Lemma for_each_store_false ls w :
  for_each ls (fun l => atomic_store l false) w = Ret tt (with_heap (clear_flags ls (heap w)) w).
Proof.
  revert w. induction ls as [|x ls IH]; intros w; simpl; [by destruct w|].
  unfold mbind, M_bind, atomic_store, modify in *. by rewrite IH.
Qed.

(** The context after the teardown. *)
Definition closed_ctx (c : TracerContext) : TracerContext :=
  check_start_udp_timer (check_stop_queue_timer (with_connection None c)).
Definition closed_heap (c : TracerContext) (h : gmap nat bool) : gmap nat bool :=
  clear_flags (hash_values (ctx_tracepoints c)) (<[ctx_client_connected c := false]> h).

Lemma close_run w sid :
  connection (ctx w) = Some sid ->
  exists w', close_and_clean_connection w = Ret tt w' /\
    ctx w' = closed_ctx (ctx w) /\ heap w' = closed_heap (ctx w) (heap w) /\
    chans w' = chans w /\ socks w' = socks w /\ next_sock w' = next_sock w /\
    backlog w' = backlog w /\
    log w' = log w ++ (if default true (head (oracle w)) then [PollDeregister sid] else []).
Proof.
  intros Hc. unfold close_and_clean_connection, gets, atomic_store at 1, succeeds, in_ctx,
    modify at 1, mbind, M_bind, mret, M_ret. simpl. rewrite Hc. simpl.
  destruct (oracle w) as [|[] r]; simpl; rewrite for_each_store_false;
    (eexists; split; [reflexivity|]); simpl; rewrite ?app_nil_r; done.
Qed.

Lemma close_panics w :
  connection (ctx w) = None ->
  close_and_clean_connection w = Panic (with_heap (<[ctx_client_connected (ctx w) := false]> (heap w)) w).
Proof.
  intros Hc. unfold close_and_clean_connection, gets, atomic_store at 1, modify at 1, mbind, M_bind.
  simpl. by rewrite Hc.
Qed.

Lemma closed_ctx_shape c :
  exists t q u, closed_ctx c = with_timers t q u (with_connection None c) /\
    (timer_due t <= timer_due (ctx_timer c))%nat.
Proof.
  unfold closed_ctx.
  destruct (timers_only_compose _ _ start_udp_timers stop_queue_timers (with_connection None c))
    as (t & q & u & -> & H). by exists t, q, u.
Qed.
End effects.

(** * Properties *)

Section properties.
Context {P : Platform} {TL : TimerLaws P} {HL : HashLaws P}.

(** C18: The teardown of a connection: the client is gone and its flag lowered,
    the flag of every registered tracepoint is lowered and no other flag is
    touched, the announce timer is the one pending timeout, the socket has
    been taken out of the poll (unless it could not be cloned) -- and the
    elements still in the buffer stay there, for whichever client comes next.
    A second teardown panics. *)
Theorem close_and_clean_connection_spec w sid :
  connection (ctx w) = Some sid -> timer_ok (ctx w) ->
  exists w', close_and_clean_connection w = Ret tt w' /\
    connection (ctx w') = None /\
    heap w' !! ctx_client_connected (ctx w) = Some false /\
    (forall name l, ctx_tracepoints (ctx w) !! name = Some l -> heap w' !! l = Some false) /\
    (forall l, l <> ctx_client_connected (ctx w) ->
       (forall name, ctx_tracepoints (ctx w) !! name <> Some l) -> heap w' !! l = heap w !! l) /\
    (timer_armed (ctx_timer (ctx w'))).*2 ≡ₚ [UDP_TIMEOUT_IDENT] /\
    buffer (ctx w') = buffer (ctx w) /\ buffer_occupancy (ctx w') = buffer_occupancy (ctx w) /\
    log w' = log w ++ (if default true (head (oracle w)) then [PollDeregister sid] else []) /\
    exists w'', close_and_clean_connection w' = Panic w''.
Proof.
  intros Hc Ht. destruct (close_run w sid Hc) as (w' & Hrun & Hctx & Hheap & _ & _ & _ & _ & Hlog).
  exists w'. split; [done|].
  assert (timer_ok (ctx w')) as [Hp _].
  { rewrite Hctx. apply timer_ok_start_udp, timer_ok_stop_queue. by destruct Ht; split. }
  assert (queue_timeout (ctx w') = None /\ is_Some (udp_timeout (ctx w'))) as [Hq [h Hu]].
  { rewrite Hctx. unfold closed_ctx, check_start_udp_timer, check_stop_queue_timer.
    repeat case_match; simpl in *; simplify_eq; rewrite ?H, ?H0; eauto. }
  destruct (closed_ctx_shape (ctx w)) as (t & q & u & E & _).
  assert (connection (ctx w') = None) as Hc' by by rewrite Hctx, E.
  split_and!; try done.
  - rewrite Hheap. unfold closed_heap. rewrite lookup_clear_flags. case_decide; [done|].
    by rewrite lookup_insert_eq.
  - intros name l Hl. rewrite Hheap. unfold closed_heap. rewrite lookup_clear_flags, decide_True; [done|].
    apply elem_of_hash_values. by exists name.
  - intros l Hne Hl. rewrite Hheap. unfold closed_heap. rewrite lookup_clear_flags, decide_False.
    + by rewrite lookup_insert_ne.
    + rewrite elem_of_hash_values. intros [name Hname]. by apply (Hl name).
  - rewrite Hp, Hq, Hu. done.
  - by rewrite Hctx, E.
  - by rewrite Hctx, E.
  - eexists. by apply close_panics.
Qed.
End properties.

Lemma close_and_clean_connection_spec_witness :
  let w := busy_world [element cpu 1 3] [] [] [] in
  exists w', close_and_clean_connection w = Ret tt w' /\
    connection (ctx w') = None /\
    heap w' !! 0%nat = Some false /\
    (forall name l, example_tracepoints !! name = Some l -> heap w' !! l = Some false) /\
    (forall l, l <> 0%nat -> (forall name, example_tracepoints !! name <> Some l) -> heap w' !! l = heap w !! l) /\
    (timer_armed (ctx_timer (ctx w'))).*2 ≡ₚ [UDP_TIMEOUT_IDENT] /\
    buffer (ctx w') = [element cpu 1 3] /\ buffer_occupancy (ctx w') = 0 /\
    log w' = [] ++ [PollDeregister 0] /\
    exists w'', close_and_clean_connection w' = Panic w''.
Proof.
  intros w. apply (close_and_clean_connection_spec w 0); [reflexivity|]. split; [done|].
  apply NoDup_singleton.
Defined.
