(* ===== verification/Io.v ===== *)
(** [std::io] over the sockets of the model: one [read] system call,
    [BufReader::read], [Read::read_exact] and [Write::write_all], with the
    specifications the TCP handler is verified against. *)

From S2P Require Import Prelude Monad Platform Types.

Definition REC_BUF_SZ : nat := Z.to_nat 4096.
Arguments REC_BUF_SZ : simpl never.

Lemma REC_BUF_SZ_pos : (0 < REC_BUF_SZ)%nat.
Proof. unfold REC_BUF_SZ. lia. Qed.

(** * System calls *)

(** [read(fd, buf)] with room for [n] bytes: at most [n] bytes of the next
    chunk; an empty result is the end of the stream. *)
Fixpoint rx_read (n : nat) (rx : list rx_event) : Result (list u8) ErrorKind * list rx_event :=
  match rx with
  | [] => (Err WouldBlock, [])
  | RxEof :: _ => (Ok [], rx)
  | RxErr k :: r => (Err k, r)
  | RxData [] :: r => rx_read n r
  | RxData bs :: r =>
      (Ok (take n bs), if (length bs <=? n)%nat then r else RxData (drop n bs) :: r)
  end.

(** [Write::write_all] over the [write] system call: the result, the script
    left, and the bytes the kernel took. *)
Fixpoint tx_write_all (tx : list tx_event) (bs : list u8) :
    Result unit ErrorKind * list tx_event * list u8 :=
  match bs with
  | [] => (Ok tt, tx, [])
  | _ :: _ =>
      match tx with
      | [] => (Ok tt, [], bs)
      | TxErr Interrupted :: r => tx_write_all r bs
      | TxErr k :: r => (Err k, r, [])
      | TxAccept O :: r => (Err WriteZero, r, [])
      | TxAccept n :: r =>
          let '(res, r', out) := tx_write_all r (drop n bs) in (res, r', take n bs ++ out)
      end
  end.

Lemma tx_write_all_nil bs : tx_write_all [] bs = (Ok tt, [], bs).
Proof. by destruct bs. Qed.

(** What was written is a prefix of the message, and all of it on [Ok]. *)
Lemma tx_write_all_prefix tx bs res tx' out :
  tx_write_all tx bs = (res, tx', out) ->
  out `prefix_of` bs /\ (res = Ok tt -> out = bs).
Proof.
  revert bs res tx' out.
  induction tx as [|e tx IH]; intros bs res tx' out.
  { rewrite tx_write_all_nil. intros [= <- <- <-]. by split. }
  destruct bs as [|b bs]; [intros [= <- <- <-]; by split|].
  pose proof (prefix_nil (b :: bs)).
  destruct e as [[|n]|k]; simpl.
  - intros [= <- <- <-]. by split.
  - destruct (tx_write_all tx (drop n bs)) as [[r1 t1] o1] eqn:E. intros [= <- <- <-].
    destruct (IH _ _ _ _ E) as [Hpre Hok]. split.
    + rewrite <-(take_drop n bs) at 2. by apply prefix_cons, prefix_app.
    + intros Hr. rewrite (Hok Hr). by rewrite take_drop.
  - destruct k; try (intros [= <- <- <-]; by split). apply IH.
Qed.

(** * Buffered reading *)

Record BufReader := mkBuf { br_sock : nat; br_buf : list u8 }.

Section Io.
Context `{P : Platform}.

Definition no_socket : Socket := mkSocket [] [] [].
Definition sock (sid : nat) (w : World) : Socket := default no_socket (socks w !! sid).
Definition set_sock (sid : nat) (s : Socket) (w : World) : World :=
  with_socks (<[sid := s]> (socks w)) w.
Definition set_rx (sid : nat) (rx' : list rx_event) (w : World) : World :=
  set_sock sid (mkSocket rx' (tx (sock sid w)) (sent (sock sid w))) w.

Definition read (sid n : nat) : M World (Result (list u8) ErrorKind) := fun w =>
  let '(r, rx') := rx_read n (rx (sock sid w)) in Ret r (set_rx sid rx' w).

(** [BufReader::read]: a read at least as large as the buffer bypasses it. *)
Definition buf_read (n : nat) (br : BufReader) :
    M World (Result (list u8) ErrorKind * BufReader) :=
  match br_buf br with
  | [] =>
      if (REC_BUF_SZ <=? n)%nat then
        r ← read (br_sock br) n; mret (r, br)
      else
        r ← read (br_sock br) REC_BUF_SZ;
        match r with
        | Ok bs => mret (Ok (take n bs), mkBuf (br_sock br) (drop n bs))
        | Err k => mret (Err k, br)
        end
  | b => mret (Ok (take n b), mkBuf (br_sock br) (drop n b))
  end.

(** [Read::read_exact]; the fuel covers every byte still wanted and every
    event of the socket, each of which one iteration uses up. *)
Definition read_exact_body (n : nat) (a : list u8 * BufReader) :
    M World (list u8 * BufReader + Result (list u8) ErrorKind * BufReader) :=
  let '(acc, br) := a in
  if (n <=? length acc)%nat then mret (inr (Ok acc, br))
  else
    rb ← buf_read (n - length acc) br;
    match rb with
    | (Ok [], br') => mret (inr (Err UnexpectedEof, br'))
    | (Ok bs, br') => mret (inl (acc ++ bs, br'))
    | (Err Interrupted, br') => mret (inl (acc, br'))
    | (Err k, br') => mret (inr (Err k, br'))
    end.

Definition read_exact (n : nat) (br : BufReader) :
    M World (Result (list u8) ErrorKind * BufReader) := fun w =>
  loop (S (n + length (rx (sock (br_sock br) w)))) (read_exact_body n) ([], br) w.

Definition write_all (sid : nat) (bs : list u8) : M World (Result unit ErrorKind) := fun w =>
  let s := sock sid w in
  let '(r, tx', out) := tx_write_all (tx s) bs in
  Ret r (set_sock sid (mkSocket (rx s) tx' (sent s ++ out)) w).


(** * The byte stream behind a reader

    [rx_view rx]: the bytes that can be read before the first condition that
    ends a [read_exact], the error kind of that condition, and the script that
    is left once it has been met. *)
Fixpoint rx_view (rx : list rx_event) : list u8 * ErrorKind * list rx_event :=
  match rx with
  | [] => ([], WouldBlock, [])
  | RxEof :: _ => ([], UnexpectedEof, rx)
  | RxErr Interrupted :: r => rx_view r
  | RxErr k :: r => ([], k, r)
  | RxData bs :: r => let '(b, k, rest) := rx_view r in (bs ++ b, k, rest)
  end.

Definition buf_view (buf : list u8) (rx : list rx_event) : list u8 * ErrorKind * list rx_event :=
  let '(b, k, rest) := rx_view rx in (buf ++ b, k, rest).

Definition reader_view (br : BufReader) (w : World) : list u8 * ErrorKind * list rx_event :=
  buf_view (br_buf br) (rx (sock (br_sock br) w)).

(** All the bytes of a script, also those after an error. *)
Definition rx_total (rx : list rx_event) : nat :=
  sum_list_with (fun e => match e with RxData bs => length bs | _ => O end) rx.

Definition reader_total (br : BufReader) (w : World) : nat :=
  length (br_buf br) + rx_total (rx (sock (br_sock br) w)).

Lemma rx_view_total rx b k rest :
  rx_view rx = (b, k, rest) -> rx_total rx = (length b + rx_total rest)%nat.
Proof.
  revert b k rest. induction rx as [|[bs|k'|] rx IH]; intros b k rest; simpl.
  - by intros [= <- <- <-].
  - destruct (rx_view rx) as [[b' k''] r']. intros [= <- <- <-].
    rewrite length_app, (IH _ _ _ eq_refl). lia.
  - destruct k'; intros E; first [by apply IH in E|by injection E as <- <- <-].
  - by intros [= <- <- <-].
Qed.

Lemma buf_view_total buf rx b k rest :
  buf_view buf rx = (b, k, rest) ->
  (length buf + rx_total rx = length b + rx_total rest)%nat.
Proof.
  unfold buf_view. destruct (rx_view rx) as [[b' k'] r'] eqn:E. intros [= <- <- <-].
  rewrite length_app, (rx_view_total _ _ _ _ E). lia.
Qed.

Lemma buf_view_nil rx : buf_view [] rx = rx_view rx.
Proof. unfold buf_view. by destruct (rx_view rx) as [[? ?] ?]. Qed.

(** ** One read system call *)
Lemma rx_read_view n rx0 r rx1 b k rest :
  (0 < n)%nat -> rx_view rx0 = (b, k, rest) -> rx_read n rx0 = (r, rx1) ->
  (length rx1 <= length rx0)%nat /\
  match r with
  | Ok [] => b = [] /\ k = UnexpectedEof /\ rx1 = rest
  | Ok bs => (length bs <= n)%nat /\ exists b', b = bs ++ b' /\ rx_view rx1 = (b', k, rest)
  | Err Interrupted => rx_view rx1 = (b, k, rest) /\ (length rx1 < length rx0)%nat
  | Err k' => b = [] /\ k' = k /\ rx1 = rest
  end.
Proof.
  intros Hn. revert r rx1 b k rest.
  induction rx0 as [|[[|c bs]|k'|] rx0 IH]; intros r rx1 b k rest; simpl.
  - intros [= <- <- <-] [= <- <-]. done.
  - destruct (rx_view rx0) as [[b' k''] r'] eqn:E. intros [= <- <- <-] Hr.
    destruct (IH _ _ _ _ _ eq_refl Hr) as [Hlen H]. split; [lia|].
    destruct r as [[|? ?]|[]]; try done. destruct H. split; [done|lia].
  - destruct (rx_view rx0) as [[b' k''] r'] eqn:E. intros [= <- <- <-] [= <- <-].
    destruct n as [|n]; [lia|]. simpl.
    destruct (Nat.leb_spec (length bs) n) as [Hle|Hlt]; simpl; (split; [lia|]).
    + rewrite take_ge by lia. split; [lia|]. by exists b'.
    + split; [rewrite length_take; lia|]. exists (drop n bs ++ b').
      rewrite E, app_assoc, take_drop. done.
  - intros Hv [= <- <-]. split; [lia|]. destruct k'; simplify_eq; auto.
  - intros [= <- <- <-] [= <- <-]. done.
Qed.

Lemma sock_set_sock sid s w : sock sid (set_sock sid s w) = s.
Proof. unfold sock, set_sock. simpl. by rewrite lookup_insert_eq. Qed.
Lemma set_rx_set_rx sid a b w : set_rx sid a (set_rx sid b w) = set_rx sid a w.
Proof.
  unfold set_rx, set_sock. simpl. unfold sock. simpl. by rewrite !lookup_insert_eq, insert_insert_eq.
Qed.
Lemma rx_set_rx sid a w : rx (sock sid (set_rx sid a w)) = a.
Proof. unfold set_rx. by rewrite sock_set_sock. Qed.
Lemma set_rx_id sid s w : socks w !! sid = Some s -> set_rx sid (rx s) w = w.
Proof.
  intros Hs. unfold set_rx, set_sock, sock. rewrite Hs. simpl.
  destruct s, w; simpl in *. unfold with_socks; simpl. by rewrite insert_id.
Qed.

(** ** [BufReader::read] *)
Lemma buf_read_view n br w b k rest :
  (0 < n)%nat -> reader_view br w = (b, k, rest) ->
  exists r br' rx',
    buf_read n br w = Ret (r, br') (if br_buf br is [] then set_rx (br_sock br) rx' w else w) /\
    rx' = (if br_buf br is [] then rx' else rx (sock (br_sock br) w)) /\
    br_sock br' = br_sock br /\
    (length rx' <= length (rx (sock (br_sock br) w)))%nat /\
    match r with
    | Ok [] => b = [] /\ k = UnexpectedEof /\ rx' = rest /\ br_buf br' = []
    | Ok bs => (length bs <= n)%nat /\ exists b', b = bs ++ b' /\ buf_view (br_buf br') rx' = (b', k, rest)
    | Err Interrupted => buf_view (br_buf br') rx' = (b, k, rest) /\
        (length rx' < length (rx (sock (br_sock br) w)))%nat
    | Err k' => b = [] /\ k' = k /\ rx' = rest /\ br_buf br' = []
    end.
Proof.
  intros Hn. unfold reader_view, buf_read. destruct br as [sid [|c buf]];
    cbn [br_buf br_sock].
  - rewrite buf_view_nil. destruct (rx_view (rx (sock sid w))) as [[b' k'] rest'] eqn:Hv.
    intros [= <- <- <-]. unfold read, mbind, M_bind.
    destruct (Nat.leb_spec REC_BUF_SZ n) as [Hbig|Hsmall].
    + destruct (rx_read n (rx (sock sid w))) as [r rx1] eqn:Hr.
      destruct (rx_read_view _ _ _ _ _ _ _ Hn Hv Hr) as [Hlen H].
      exists r, (mkBuf sid []), rx1. do 4 (split; [done|]).
      destruct r as [[|? ?]|[]]; cbn [br_buf]; rewrite ?buf_view_nil; try done; try tauto.
    + destruct (rx_read REC_BUF_SZ (rx (sock sid w))) as [r rx1] eqn:Hr.
      pose proof REC_BUF_SZ_pos as Hsz.
      destruct (rx_read_view _ _ _ _ _ _ _ Hsz Hv Hr) as [Hlen H]. destruct r as [bs|e].
      * exists (Ok (take n bs)), (mkBuf sid (drop n bs)), rx1. do 4 (split; [done|]).
        destruct bs as [|x bs]; [rewrite take_nil, drop_nil; tauto|].
        destruct n as [|n]; [lia|]. simpl. destruct H as [_ (b'' & -> & Hv')].
        split; [rewrite length_take; lia|]. exists (drop n bs ++ b'').
        unfold buf_view. by rewrite Hv', app_assoc, take_drop.
      * exists (Err e), (mkBuf sid []), rx1. do 4 (split; [done|]).
        destruct e; cbn [br_buf]; rewrite ?buf_view_nil; try done; tauto.
  - unfold buf_view. destruct (rx_view (rx (sock sid w))) as [[b' k'] rest'] eqn:Hv.
    intros [= <- <- <-]. destruct n as [|n]; [lia|].
    exists (Ok (take (S n) (c :: buf))), (mkBuf sid (drop (S n) (c :: buf))), (rx (sock sid w)).
    do 4 (split; [done|]). simpl. split; [rewrite length_take; lia|].
    exists (drop n buf ++ b'). rewrite Hv. split; [|done]. by rewrite app_assoc, take_drop.
Qed.

(** ** [Read::read_exact]

    With [n] bytes available it returns exactly those, and the reader is left
    at the byte after them; otherwise it returns the error that ends the
    stream and every byte before it is gone. *)
Definition read_exact_post (n : nat) (sid : nat) (w : World)
    (v : list u8 * ErrorKind * list rx_event)
    (res : Result (list u8) ErrorKind * BufReader) (w' : World) : Prop :=
  let '(b, k, rest) := v in
  if (n <=? length b)%nat then
    exists br' rx', res = (Ok (take n b), br') /\ w' = set_rx sid rx' w /\
      br_sock br' = sid /\ buf_view (br_buf br') rx' = (drop n b, k, rest)
  else res = (Err k, mkBuf sid []) /\ w' = set_rx sid rest w.

Lemma read_exact_body_spec n sid w b k rest acc br rx0 :
  (length acc <= n)%nat -> br_sock br = sid ->
  (exists b0, buf_view (br_buf br) rx0 = (b0, k, rest) /\ acc ++ b0 = b) ->
  wp (read_exact_body n (acc, br))
    (fun r w' => match r with
      | inl (acc', br') => exists rx1, w' = set_rx sid rx1 w /\
          (length acc' <= n)%nat /\ br_sock br' = sid /\
          (exists b0, buf_view (br_buf br') rx1 = (b0, k, rest) /\ acc' ++ b0 = b) /\
          ((n - length acc') + length rx1 < (n - length acc) + length rx0)%nat
      | inr res => read_exact_post n sid w (b, k, rest) res w'
      end) (fun _ => False) (set_rx sid rx0 w).
Proof.
  intros Hacc Hsid (b0 & Hview & Hb). unfold read_exact_body.
  destruct (Nat.leb_spec n (length acc)) as [Hdone|Hmore].
  { apply wp_ret. unfold read_exact_post. cbv beta iota. subst b. rewrite length_app.
    rewrite (proj2 (Nat.leb_le _ _)) by lia.
    exists br, rx0. rewrite take_app_length', drop_app_length' by lia. done. }
  assert (reader_view br (set_rx sid rx0 w) = (b0, k, rest)) as Hrv.
  { unfold reader_view. by rewrite Hsid, rx_set_rx. }
  destruct (buf_read_view (n - length acc) br _ _ _ _ ltac:(lia) Hrv)
    as (r & br' & rx' & Hrun & Hrx & Hsid' & Hlen & H).
  apply wp_bind. eapply wp_eq; [exact Hrun|].
  rewrite Hsid, rx_set_rx in *.
  assert ((if br_buf br is [] then set_rx sid rx' (set_rx sid rx0 w) else set_rx sid rx0 w)
          = set_rx sid rx' w) as ->.
  { destruct (br_buf br); [by rewrite set_rx_set_rx|by rewrite Hrx]. }
  destruct r as [[|x bs]|e].
  - destruct H as (-> & -> & -> & Hbuf). apply wp_ret. unfold read_exact_post. cbv beta iota.
    rewrite app_nil_r in Hb. subst acc. rewrite (proj2 (Nat.leb_gt _ _)) by lia. split; [|done].
    destruct br'; simpl in *. by subst.
  - destruct H as (Hle & b1 & -> & Hv). apply wp_ret. exists rx'. split; [done|].
    rewrite length_app. split; [lia|]. split; [congruence|]. split.
    + exists b1. by rewrite <-app_assoc.
    + simpl in *. lia.
  - destruct e; try
      (destruct H as (-> & <- & -> & Hbuf); apply wp_ret; unfold read_exact_post; cbv beta iota;
       rewrite app_nil_r in Hb; subst acc;
       rewrite (proj2 (Nat.leb_gt _ _)) by lia; split; [|done];
       destruct br'; simpl in *; by subst).
    destruct H as (Hv & Hlt). apply wp_ret. exists rx'. split; [done|].
    split; [lia|]. split; [congruence|]. split; [by exists b0|lia].
Qed.

Lemma read_exact_spec n br w s v :
  socks w !! br_sock br = Some s -> reader_view br w = v ->
  wp (read_exact n br) (read_exact_post n (br_sock br) w v) (fun _ => False) w.
Proof.
  intros Hs Hv. destruct v as [[b k] rest].
  set (sid := br_sock br). assert (set_rx sid (rx s) w = w) as Hid by by apply set_rx_id.
  assert (rx (sock sid w) = rx s) as Hrx by (unfold sock; fold sid in Hs; by rewrite Hs).
  unfold read_exact.
  change (wp (loop (S (n + length (rx (sock sid w)))) (read_exact_body n) ([], br))
            (read_exact_post n sid w (b, k, rest)) (fun _ => False) w).
  apply (wp_loop
    (fun a w' => exists rx0, w' = set_rx sid rx0 w /\ (length a.1 <= n)%nat /\ br_sock a.2 = sid /\
       exists b0, buf_view (br_buf a.2) rx0 = (b0, k, rest) /\ a.1 ++ b0 = b)
    (fun a w' => ((n - length a.1) + length (rx (sock sid w')))%nat)).
  - intros [acc br0] w0 (rx0 & -> & Hacc & Hsid & Hb). simpl in *.
    eapply wp_mono; [by eapply (read_exact_body_spec _ _ _ b k rest)| |done].
    intros [[acc' br']|res] w'; [|done].
    intros (rx1 & -> & ? & ? & ? & ?). split; [by exists rx1|]. simpl. rewrite !rx_set_rx. done.
  - exists (rx s). rewrite Hid. split; [done|]. simpl. split; [lia|]. split; [done|].
    exists b. unfold reader_view in Hv. fold sid in Hv. rewrite Hrx in Hv. done.
  - simpl. lia.
Qed.

(** Bytes are consumed exactly, and never invented. *)
Lemma read_exact_total n sid w b k rest res w' total :
  (length b + rx_total rest = total)%nat ->
  read_exact_post n sid w (b, k, rest) res w' ->
  (exists bs br', res = (Ok bs, br') /\ length bs = n /\ br_sock br' = sid /\
     (reader_total br' w' + n = total)%nat) \/
  (exists br', res = (Err k, br') /\ br_sock br' = sid /\ (reader_total br' w' <= total)%nat).
Proof.
  intros Ht. unfold read_exact_post. destruct (Nat.leb_spec n (length b)).
  - intros (br' & rx' & -> & -> & Hsid & Hv). left. exists (take n b), br'.
    split; [done|]. split; [rewrite length_take; lia|]. split; [done|].
    unfold reader_total. rewrite Hsid, rx_set_rx.
    rewrite (buf_view_total _ _ _ _ _ Hv), length_drop. lia.
  - intros [-> ->]. right. eexists. split; [done|]. split; [done|].
    unfold reader_total. simpl. rewrite rx_set_rx. lia.
Qed.

(** ** [Write::write_all] *)
Lemma write_all_run sid bs w :
  exists r tx' out,
    write_all sid bs w =
      Ret r (set_sock sid (mkSocket (rx (sock sid w)) tx' (sent (sock sid w) ++ out)) w) /\
    out `prefix_of` bs /\ (r = Ok tt -> out = bs).
Proof.
  unfold write_all. destruct (tx_write_all _ _) as [[r tx'] out] eqn:E.
  exists r, tx', out. split; [done|]. by apply tx_write_all_prefix in E.
Qed.
End Io.
