(* ===== verification/Wire.v ===== *)
(** The wire format (tcp_handler.rs): message headers, trace records, the
    checks on an incoming header; and the TLV grammar of
    doc/tlv_documentation.txt as a reference decoder that shares nothing with
    them, with the magic number as an argument. *)

From S2P Require Import Prelude Platform Types.

Definition HEADER_LEN : Z := 12.
(** 'RuSt' *)
Definition MAGIC_NUMB : list u8 := [Byte.x52; Byte.x75; Byte.x53; Byte.x74].

Inductive Command :=
| TracepointListRequest
| TracepointListReply
| TracepointEnableRequest
| TracepointDisableRequest
| TracePush
| Invalid.

#[export] Instance Command_eq_dec : EqDecision Command.
Proof. solve_decision. Defined.

(** [cmd as u16] *)
Definition command_number (c : Command) : Z :=
  match c with
  | TracepointListRequest => 1
  | TracepointListReply => 2
  | TracepointEnableRequest => 3
  | TracepointDisableRequest => 4
  | TracePush => 5
  | Invalid => 42
  end.

(** * Encoding *)

(** [for b in bytes { que.push_back(b) }], [for b in bytes.rev() { que.push_front(b) }] *)
Definition push_back_all (que bytes : list u8) : list u8 := foldl (fun q b => q ++ [b]) que bytes.
Definition push_front_all (que bytes : list u8) : list u8 := foldl (fun q b => b :: q) que (rev bytes).

Definition push_front_header (que : list u8) (cmd : Command) : list u8 :=
  let flags := 0 in
  let length := u32_of (zlen que) in
  let que := push_front_all que (u32_to_be_bytes length) in
  let que := push_front_all que (u16_to_be_bytes (command_number cmd)) in
  let que := push_front_all que (u16_to_be_bytes flags) in
  push_front_all que MAGIC_NUMB.

Definition timestamp_to_u64 (time : SystemTime) : Z :=
  match duration_since_epoch time with
  | Some n =>
      let secs := as_secs n in
      let nanos := subsec_nanos n in
      u64_of (u64_of (secs * 1000000000) + nanos)
  | None => 0
  end.

Definition encode_append_trace_data (que : list u8) (bufelm : BufferElement) : list u8 :=
  let tp_len := u16_of (zlen (elem_tracepoint bufelm)) in
  let que := push_back_all que (u16_to_be_bytes tp_len) in
  let que := push_back_all que (elem_tracepoint bufelm) in
  let que := push_back_all que (u64_to_be_bytes (timestamp_to_u64 (elem_timestamp bufelm))) in
  let data_len := u16_of (zlen (elem_data bufelm)) in
  let que := push_back_all que (u16_to_be_bytes data_len) in
  push_back_all que (elem_data bufelm).

(** * Decoding a header *)

Definition check_magic_number (number : list u8) : bool :=
  bool_decide (number !! 0%nat = MAGIC_NUMB !! 0%nat) && bool_decide (number !! 1%nat = MAGIC_NUMB !! 1%nat)
  && bool_decide (number !! 2%nat = MAGIC_NUMB !! 2%nat) && bool_decide (number !! 3%nat = MAGIC_NUMB !! 3%nat).

Definition check_flags (flags : Z) : Result unit unit :=
  if flags =? 0 then Ok tt else Err tt.

Definition cmd_number_to_enum (cmd : Z) : Command :=
  if cmd =? command_number TracepointListRequest then TracepointListRequest
  else if cmd =? command_number TracepointEnableRequest then TracepointEnableRequest
  else if cmd =? command_number TracepointDisableRequest then TracepointDisableRequest
  else if cmd =? command_number TracepointListReply then TracepointListReply
  else if cmd =? command_number TracePush then TracePush
  else Invalid.

Definition check_cmd_validity (cmd : Command) (len : Z) : Result unit unit :=
  match cmd with
  | TracepointListRequest => if negb (len =? 0) then Err tt else Ok tt
  | TracepointEnableRequest => if len =? 0 then Err tt else Ok tt
  | TracepointDisableRequest => if len =? 0 then Err tt else Ok tt
  | _ => Err tt
  end.

(** The result of [check_cmd_validity] is only printed. *)
Definition check_parse_header (header : list u8) : Result (Command * Z) unit :=
  let magic_no := slice 0 4 header in
  if negb (check_magic_number magic_no) then Err tt
  else
    let flags := from_be_bytes (slice 4 6 header) in
    let command := from_be_bytes (slice 6 8 header) in
    let len := from_be_bytes (slice 8 12 header) in
    let cmd := cmd_number_to_enum command in
    let _ := check_cmd_validity cmd len in
    match check_flags flags with
    | Err e => Err e
    | Ok _ => Ok (cmd, len)
    end.

(** * The TLV grammar (doc/tlv_documentation.txt)

    A reference decoder, written from the document and not from the code.  It
    takes the magic number as an argument: the document and the code differ in
    it, and only in it.  The payload of a TRACE_PUSH is a sequence of records,
    that of a list message a sequence of names. *)
Definition tlv_name (bs : list u8) : option (list u8 * list u8) :=
  '(l, r) ← take_exact 2 bs; take_exact (Z.to_nat (from_be_bytes l)) r.

Definition tlv_record (bs : list u8) : option (list u8 * Z * list u8 * list u8) :=
  '(name, r) ← tlv_name bs;
  '(ts, r) ← take_exact 8 r;
  '(data, r) ← tlv_name r;
  Some (name, from_be_bytes ts, data, r).

Fixpoint tlv_records_aux (fuel : nat) (bs : list u8) : option (list (list u8 * Z * list u8)) :=
  match bs, fuel with
  | [], _ => Some []
  | _, O => None
  | _, S n =>
      '(rec, r) ← tlv_record bs; recs ← tlv_records_aux n r; Some (rec :: recs)
  end.
Definition tlv_records (bs : list u8) := tlv_records_aux (length bs) bs.

Fixpoint tlv_names_aux (fuel : nat) (bs : list u8) : option (list (list u8)) :=
  match bs, fuel with
  | [], _ => Some []
  | _, O => None
  | _, S n => '(name, r) ← tlv_name bs; names ← tlv_names_aux n r; Some (name :: names)
  end.
Definition tlv_names (bs : list u8) := tlv_names_aux (length bs) bs.

(** The command numbers of the document. *)
Definition tlv_command (number : Z) : option Command :=
  match number with
  | 1 => Some TracepointListRequest
  | 2 => Some TracepointListReply
  | 3 => Some TracepointEnableRequest
  | 4 => Some TracepointDisableRequest
  | 5 => Some TracePush
  | _ => None
  end.

(** A whole message: magic number, flags, command, length, payload. *)
Definition tlv_message (magic bs : list u8) : option (Command * list u8 * list u8) :=
  '(m, r) ← take_exact 4 bs;
  '(flags, r) ← take_exact 2 r;
  '(number, r) ← take_exact 2 r;
  '(len, r) ← take_exact 4 r;
  if decide (m = magic /\ flags = [Byte.x00; Byte.x00]) then
    cmd ← tlv_command (be_value number);
    '(body, r) ← take_exact (Z.to_nat (be_value len)) r;
    Some (cmd, body, r)
  else None.

Fixpoint tlv_stream_aux (magic : list u8) (fuel : nat) (bs : list u8) : option (list (Command * list u8)) :=
  match bs, fuel with
  | [], _ => Some []
  | _, O => None
  | _, S n =>
      '(cmd, body, r) ← tlv_message magic bs;
      ms ← tlv_stream_aux magic n r;
      Some ((cmd, body) :: ms)
  end.

(** The magic number of the document, and the one that is in use. *)
Definition documented_magic : list u8 := [Byte.x00; Byte.x00; Byte.xbe; Byte.xef].
Definition actual_magic : list u8 := lit "RuSt".

Definition tlv_stream_with (magic bs : list u8) := tlv_stream_aux magic (length bs) bs.
Definition tlv_stream (bs : list u8) := tlv_stream_with actual_magic bs.

(** * Lemmas *)

Lemma push_back_all_app que bytes : push_back_all que bytes = que ++ bytes.
Proof.
  unfold push_back_all. revert que. induction bytes as [|b r IH]; intros que; simpl.
  - by rewrite app_nil_r.
  - by rewrite IH, <-app_assoc.
Qed.

Lemma push_front_all_app que bytes : push_front_all que bytes = bytes ++ que.
Proof.
  unfold push_front_all. induction bytes as [|b r IH]; [done|]. simpl.
  by rewrite foldl_app, IH.
Qed.

Definition header_bytes (cmd : Command) (len : Z) : list u8 :=
  MAGIC_NUMB ++ u16_to_be_bytes 0 ++ u16_to_be_bytes (command_number cmd) ++ u32_to_be_bytes len.

Definition encode_record (e : BufferElement) : list u8 := encode_append_trace_data [] e.

Lemma push_front_header_eq que cmd :
  push_front_header que cmd = header_bytes cmd (u32_of (zlen que)) ++ que.
Proof. unfold push_front_header, header_bytes. by rewrite !push_front_all_app, <-!app_assoc. Qed.

Lemma encode_append_eq que e : encode_append_trace_data que e = que ++ encode_record e.
Proof.
  unfold encode_record, encode_append_trace_data. by rewrite !push_back_all_app, <-!app_assoc.
Qed.

Lemma encode_record_eq e :
  encode_record e =
    u16_to_be_bytes (u16_of (zlen (elem_tracepoint e))) ++ elem_tracepoint e ++
    u64_to_be_bytes (timestamp_to_u64 (elem_timestamp e)) ++
    u16_to_be_bytes (u16_of (zlen (elem_data e))) ++ elem_data e.
Proof. unfold encode_record, encode_append_trace_data. by rewrite !push_back_all_app, <-!app_assoc. Qed.

Lemma length_header cmd len : length (header_bytes cmd len) = 12%nat.
Proof. done. Qed.

Lemma zlen_push_front_header que cmd : zlen (push_front_header que cmd) = zlen que + HEADER_LEN.
Proof. rewrite push_front_header_eq, zlen_app. unfold zlen at 1. rewrite length_header. unfold HEADER_LEN. lia. Qed.

Lemma zlen_encode_record e : zlen (encode_record e) = BufferElement_len e + 4.
Proof.
  rewrite encode_record_eq. unfold BufferElement_len, TIMESTAMP_LEN.
  unfold u16_to_be_bytes, u64_to_be_bytes. autorewrite with tracy. lia.
Qed.

Lemma cmd_number_roundtrip cmd : cmd_number_to_enum (command_number cmd) = cmd.
Proof. by destruct cmd. Qed.

Lemma from_to_u16 z : 0 <= z < 2 ^ 16 -> from_be_bytes (u16_to_be_bytes z) = z.
Proof. intros. unfold from_be_bytes, u16_to_be_bytes. rewrite be_value_bytes. by apply Z.mod_small. Qed.
Lemma from_to_u32 z : 0 <= z < 2 ^ 32 -> from_be_bytes (u32_to_be_bytes z) = z.
Proof. intros. unfold from_be_bytes, u32_to_be_bytes. rewrite be_value_bytes. by apply Z.mod_small. Qed.
Lemma from_to_u64 z : 0 <= z < 2 ^ 64 -> from_be_bytes (u64_to_be_bytes z) = z.
Proof. intros. unfold from_be_bytes, u64_to_be_bytes. rewrite be_value_bytes. by apply Z.mod_small. Qed.

(** The header fields of a message that is built here. *)
Lemma check_parse_header_bytes cmd len :
  0 <= len < 2 ^ 32 -> check_parse_header (header_bytes cmd len) = Ok (cmd, len).
Proof.
  intros Hlen. unfold check_parse_header.
  change (slice 0 4 (header_bytes cmd len)) with MAGIC_NUMB.
  change (slice 4 6 (header_bytes cmd len)) with (u16_to_be_bytes 0).
  change (slice 6 8 (header_bytes cmd len)) with (u16_to_be_bytes (command_number cmd)).
  change (slice 8 12 (header_bytes cmd len)) with (u32_to_be_bytes len).
  rewrite !from_to_u16, from_to_u32 by (try destruct cmd; simpl; lia).
  by rewrite cmd_number_roundtrip.
Qed.

(** ** The reference decoder inverts the encoders *)

Lemma take_exact_zlen {A} (l k : list A) z :
  z = zlen l -> take_exact (Z.to_nat z) (l ++ k) = Some (l, k).
Proof. intros ->. apply take_exact_app. unfold zlen. lia. Qed.

Lemma tlv_name_app name r :
  zlen name < 2 ^ 16 -> tlv_name (u16_to_be_bytes (u16_of (zlen name)) ++ name ++ r) = Some (name, r).
Proof.
  intros Hn. pose proof (zlen_nonneg name). unfold tlv_name. rewrite take_exact_app by done.
  cbn [mbind option_bind].
  apply take_exact_zlen. unfold u16_of. rewrite wrap_small by lia. by apply from_to_u16.
Qed.

Lemma timestamp_range t : 0 <= timestamp_to_u64 t < 2 ^ 64.
Proof. unfold timestamp_to_u64. case_match; [by apply wrap_range|lia]. Qed.

Lemma tlv_record_app e r :
  zlen (elem_tracepoint e) < 2 ^ 16 -> zlen (elem_data e) < 2 ^ 16 ->
  tlv_record (encode_record e ++ r) =
    Some (elem_tracepoint e, timestamp_to_u64 (elem_timestamp e), elem_data e, r).
Proof.
  intros Hn Hd. rewrite encode_record_eq, <-!app_assoc. unfold tlv_record.
  rewrite tlv_name_app by done. cbn [mbind option_bind]. rewrite take_exact_app by done.
  cbn [mbind option_bind]. rewrite tlv_name_app by done. cbn [mbind option_bind].
  by rewrite from_to_u64 by apply timestamp_range.
Qed.

Definition encodable (e : BufferElement) : Prop :=
  zlen (elem_tracepoint e) < 2 ^ 16 /\ zlen (elem_data e) < 2 ^ 16.

Lemma encode_record_cons e : exists b r, encode_record e = b :: r.
Proof. rewrite encode_record_eq. by do 2 eexists. Qed.

Lemma tlv_records_encode es n :
  Forall encodable es -> (length (concat (map encode_record es)) <= n)%nat ->
  tlv_records_aux n (concat (map encode_record es)) =
    Some (map (fun e => (elem_tracepoint e, timestamp_to_u64 (elem_timestamp e), elem_data e)) es).
Proof.
  intros Hes. revert n. induction Hes as [|e es [Hn Hd] _ IH]; intros n Hlen; [by destruct n|].
  simpl in *. destruct (encode_record_cons e) as (b & r & E). rewrite length_app, E in Hlen.
  simpl in Hlen. destruct n as [|n]; [lia|]. rewrite E at 1. simpl app. cbn [tlv_records_aux].
  rewrite app_comm_cons, <-E, tlv_record_app by done. cbn [mbind option_bind]. rewrite IH by lia. done.
Qed.

(** A message the document knows: its command, and a length that fits. *)
Definition sendable_message (m : Command * list u8) : Prop := m.1 <> Invalid /\ zlen m.2 < 2 ^ 32.

Lemma tlv_command_number cmd : cmd <> Invalid -> tlv_command (command_number cmd) = Some cmd.
Proof. by destruct cmd. Qed.

Lemma tlv_message_app cmd bs r :
  cmd <> Invalid -> zlen bs < 2 ^ 32 -> tlv_message actual_magic (push_front_header bs cmd ++ r) = Some (cmd, bs, r).
Proof.
  intros Hcmd Hb. pose proof (zlen_nonneg bs). rewrite push_front_header_eq. unfold header_bytes, tlv_message.
  rewrite <-!app_assoc. do 4 (rewrite take_exact_app by done; cbn [mbind option_bind]).
  rewrite decide_True by done. unfold u32_of. rewrite wrap_small by lia.
  change be_value with from_be_bytes. rewrite from_to_u16 by (by destruct cmd).
  rewrite tlv_command_number by done. cbn [mbind option_bind]. by rewrite from_to_u32, take_exact_zlen by lia.
Qed.

(** Nothing is read under another magic number. *)
Lemma tlv_message_foreign magic cmd bs r :
  magic <> actual_magic -> tlv_message magic (push_front_header bs cmd ++ r) = None.
Proof.
  intros Hm. rewrite push_front_header_eq. unfold header_bytes, tlv_message. rewrite <-!app_assoc.
  do 4 (rewrite take_exact_app by done; cbn [mbind option_bind]).
  rewrite decide_False; [done|]. intros [E _]. by destruct Hm.
Qed.

Lemma tlv_stream_messages ms n :
  Forall sendable_message ms ->
  (length (concat (map (fun m => push_front_header m.2 m.1) ms)) <= n)%nat ->
  tlv_stream_aux actual_magic n (concat (map (fun m => push_front_header m.2 m.1) ms)) = Some ms.
Proof.
  intros Hms. revert n. induction Hms as [|[cmd bs] ms [Hc Hb] _ IH]; intros n Hlen; [by destruct n|].
  cbn [map concat fst snd] in *. rewrite length_app in Hlen.
  assert (length (push_front_header bs cmd) = 12 + length bs)%nat as Hl.
  { by rewrite push_front_header_eq, length_app. }
  destruct n as [|n]; [lia|].
  destruct (push_front_header bs cmd) as [|b r] eqn:E; [done|].
  cbn [app]. cbn [tlv_stream_aux].
  rewrite app_comm_cons, <-E, tlv_message_app by done. cbn [mbind option_bind]. rewrite IH by lia. done.
Qed.

(** * Properties *)

(** C20: Of an incoming header only the magic number and the flags are checked:
    a header is accepted exactly when it is 'RuSt', two zero flag bytes, any
    command number and any length, and it is then decoded field by field.  In
    particular command numbers that are not requests, and lengths that make no
    sense for the command, are accepted: the result of [check_cmd_validity] is
    only printed. *)
Theorem check_parse_header_spec header cmd len :
  length header = 12%nat ->
  check_parse_header header = Ok (cmd, len) <->
    exists number, 0 <= number < 2 ^ 16 /\ 0 <= len < 2 ^ 32 /\ cmd = cmd_number_to_enum number /\
      header = MAGIC_NUMB ++ [Byte.x00; Byte.x00] ++ u16_to_be_bytes number ++ u32_to_be_bytes len.
Proof.
  intros Hlen. do 12 (destruct header as [|? header]; [done|]). destruct header; [|done]. clear Hlen.
  unfold check_parse_header, slice. cbn [drop take Nat.sub].
  assert (forall a b : u8, from_be_bytes [a; b] = 0 <-> a = Byte.x00 /\ b = Byte.x00) as Hflags.
  { intros x y. unfold from_be_bytes. split; [|by intros [-> ->]]. intros E.
    pose proof (be_bytes_value [x; y]) as H. rewrite E in H. by injection H as <- <-. }
  split.
  - destruct (check_magic_number _) eqn:Hm; [|done]. simpl negb. cbv iota.
    unfold check_flags. destruct (Z.eqb_spec (from_be_bytes [b3; b4]) 0) as [Hf|]; [|done].
    intros [= <- <-]. apply Hflags in Hf as [-> ->].
    unfold check_magic_number in Hm. rewrite !andb_true_iff, !bool_decide_eq_true in Hm.
    destruct Hm as [[[[= ->] [= ->]] [= ->]] [= ->]].
    exists (from_be_bytes [b5; b6]). unfold from_be_bytes, u16_to_be_bytes, u32_to_be_bytes.
    pose proof (be_value_range [b5; b6]). pose proof (be_value_range [b7; b8; b9; b10]).
    split; [done|]. split; [done|]. split; [done|].
    pose proof (be_bytes_value [b5; b6]) as E1. pose proof (be_bytes_value [b7; b8; b9; b10]) as E2.
    cbn [length] in E1, E2. rewrite E1.
    change (u8_to_Z b7 * _ + _) with (be_value [b7; b8; b9; b10]). by rewrite E2.
  - intros (number & Hn & Hl & -> & E).
    assert ([b5; b6] = u16_to_be_bytes number /\ [b7; b8; b9; b10] = u32_to_be_bytes len /\
      [b; b0; b1; b2] = MAGIC_NUMB /\ b3 = Byte.x00 /\ b4 = Byte.x00) as (E1 & E2 & E3 & -> & ->).
    { unfold u16_to_be_bytes, u32_to_be_bytes, be_bytes in *. cbn [app MAGIC_NUMB] in E.
      injection E as -> -> -> -> -> -> -> -> -> -> -> ->. done. }
    rewrite E1, E2, E3, from_to_u16, from_to_u32 by done. done.
Qed.

Lemma check_parse_header_spec_witness :
  let h := MAGIC_NUMB ++ [Byte.x00; Byte.x00; Byte.x00; Byte.x07; Byte.x00; Byte.x00; Byte.x01; Byte.x00] in
  check_parse_header h = Ok (Invalid, 256) <->
    exists number, 0 <= number < 2 ^ 16 /\ 0 <= 256 < 2 ^ 32 /\ Invalid = cmd_number_to_enum number /\
      h = MAGIC_NUMB ++ [Byte.x00; Byte.x00] ++ u16_to_be_bytes number ++ u32_to_be_bytes 256.
Proof. intros h. apply (check_parse_header_spec h). reflexivity. Defined.

(** The timestamp of a record is the number of nanoseconds since the epoch
    modulo 2^64, and 0 for an instant before the epoch: the wrapping product
    of the seconds and the added nanoseconds recombine exactly. *)
Theorem timestamp_to_u64_spec t :
  timestamp_to_u64 t = if t <? 0 then 0 else t mod 2 ^ 64.
Proof.
  unfold timestamp_to_u64, duration_since_epoch, as_secs, subsec_nanos, u64_of, wrap.
  destruct (Z.ltb_spec t 0) as [Hneg|Hpos].
  - by rewrite (proj2 (Z.leb_gt _ _)).
  - rewrite (proj2 (Z.leb_le _ _)) by done. rewrite Zplus_mod_idemp_l. f_equal.
    rewrite (Z.div_mod t 1000000000) at 3 by lia. lia.
Qed.
