(* ===== verification/Tcp.v ===== *)
(** The TCP handler (tcp_handler.rs): listening, accepting the client,
    receiving its requests, and sending the tracepoint list and the buffered
    trace data. *)

From S2P Require Import Prelude Monad Platform Types Worlds Strings Context Io Wire.

Section Tcp_defs.
Context `{P : Platform}.

(** [for port in 61455..u16::MAX]: the first port that can be bound. *)
Fixpoint init_from (ports : list Z) : M World (option TcpListener) :=
  match ports with
  | [] => mret None
  | port :: r =>
      bound ← succeeds;
      if (bound : bool) then mret (Some (mkListener (Some port))) else init_from r
  end.
Definition init : M World (option TcpListener) := init_from (seqZ 61455 (65535 - 61455)).

(** [TcpListener::accept]: the next pending connection, as a new socket. *)
Definition accept : M World (Result nat ErrorKind) := fun w =>
  match backlog w with
  | [] => Ret (Err WouldBlock) w
  | inl k :: r => Ret (Err k) (with_backlog r w)
  | inr s :: r =>
      let sid := next_sock w in
      Ret (Ok sid) (with_next_sock (S sid) (set_sock sid s (with_backlog r w)))
  end.

Definition establish_connection : M World unit :=
  r ← accept;
  match r with
  | Ok socket =>
      temp_con ← try_clone_unwrap socket;
      in_ctx (with_connection (Some socket));;
      c ← gets ctx;
      atomic_store (ctx_client_connected c) true;;
      registered ← succeeds;
      if (registered : bool) then log_call (PollRegister temp_con) else panic
  | Err _ => mret tt
  end.

(** ** Sending *)

Definition send_slices (que : list u8) : M World (Result unit ErrorKind) :=
  c ← gets ctx;
  sid ← unwrap (connection c);
  r ← write_all sid que;
  match r with
  | Err WouldBlock => mret (Ok tt)
  | Err e => mret (Err e)
  | Ok _ => mret (Ok tt)
  end.

Definition tracepoint_list_msg (keys : list (list u8)) : list u8 :=
  foldl (fun msg tracepoint =>
    push_back_all (push_back_all msg (u16_to_be_bytes (u16_of (zlen tracepoint)))) tracepoint)
    [] keys.

Definition send_tracepoint_list : M World unit :=
  c ← gets ctx;
  let msg := push_front_header (tracepoint_list_msg (hash_keys (ctx_tracepoints c))) TracepointListReply in
  r ← send_slices msg;
  if is_ok r then mret tt else close_and_clean_connection.

(** One iteration of the [while let] of [send_trace_data] on the send queue
    and [last_was_complete]; [inr None] is the early return. *)
Definition send_trace_data_body (a : list u8 * bool) :
    M World (list u8 * bool + option (list u8 * bool)) :=
  let '(que, last_was_complete) := a in
  c ← gets ctx;
  match buffer c with
  | [] => mret (inr (Some (que, last_was_complete)))
  | front :: rest =>
      if BufferElement_len front + zlen que + HEADER_LEN <? QUEUE_TOTAL_SIZE then
        in_ctx (with_buffer rest);;
        mret (inl (encode_append_trace_data que front, false))
      else
        let que := push_front_header que TracePush in
        r ← send_slices que;
        if is_ok r then mret (inl ([], true))
        else close_and_clean_connection;; mret (inr None)
  end.

Definition send_trace_data_loop (fuel : nat) : M World unit :=
  res ← loop fuel send_trace_data_body ([], true);
  match res with
  | None => mret tt
  | Some (que, last_was_complete) =>
      if negb last_was_complete then
        let que := push_front_header que TracePush in
        r ← send_slices que;
        if is_ok r then mret tt else close_and_clean_connection
      else mret tt
  end.

(** Every element is taken in at most two iterations, one more sees the empty
    buffer. *)
Definition send_fuel (w : World) : nat := S (2 * length (buffer (ctx w))).
Definition send_trace_data : M World unit := fun w =>
  send_trace_data_loop (send_fuel w) w.

(** ** Receiving *)

(** One iteration of the [while i < len] of [set_tracepoints]. *)
Definition set_tracepoints_body (len : Z) (state : bool) (a : Z * BufReader) :
    M World (Z * BufReader + BufReader) :=
  let '(i, reader) := a in
  if negb (i <? len) then mret (inr reader)
  else
    r1 ← read_exact 2 reader;
    match r1 with
    | (Err _, reader) => close_and_clean_connection;; mret (inr reader)
    | (Ok name_len_arr, reader) =>
        let name_len := from_be_bytes name_len_arr in
        let i := u32_of (i + 2) in
        if u16_of MAX_TRACEPOINT_NAME_LEN <? name_len then
          close_and_clean_connection;; mret (inr reader)
        else
          r2 ← read_exact (Z.to_nat name_len) reader;
          match r2 with
          | (Err _, reader) => close_and_clean_connection;; mret (inr reader)
          | (Ok bytes, reader) =>
              let i := u32_of (i + name_len) in
              let tp_name := default [] (from_utf8 bytes) in
              c ← gets ctx;
              (match ctx_tracepoints c !! tp_name with
               | Some val_ref => atomic_store val_ref state
               | None => mret tt
               end);;
              mret (inl (i, reader))
          end
    end.

(** Fuel: each iteration that continues takes at least the two length bytes. *)
Definition set_tracepoints (len : Z) (reader : BufReader) (state : bool) : M World BufReader :=
  fun w => loop (S (reader_total reader w)) (set_tracepoints_body len state) (0, reader) w.

Definition execute_command (cmd : Command) (len : Z) (reader : BufReader) : M World BufReader :=
  match cmd with
  | TracepointListRequest => send_tracepoint_list;; mret reader
  | TracepointEnableRequest => set_tracepoints len reader true
  | TracepointDisableRequest => set_tracepoints len reader false
  | _ => mret reader
  end.

Definition read_empty_body (reader : BufReader) : M World (BufReader + BufReader) :=
  r ← buf_read 64 reader;
  match r with
  | (Ok [], reader) => mret (inr reader)
  | (Ok _, reader) => mret (inl reader)
  | (Err WouldBlock, reader) => mret (inr reader)
  | (Err _, reader) => close_and_clean_connection;; mret (inr reader)
  end.

Definition read_empty (reader : BufReader) : M World BufReader := fun w =>
  loop (S (reader_total reader w)) read_empty_body reader w.

(** One iteration of the [loop] of [receive]. *)
Definition receive_body (reader : BufReader) : M World (BufReader + unit) :=
  r ← read_exact 12 reader;
  match r with
  | (Err e, _) =>
      (if bool_decide (e = WouldBlock) then mret tt else close_and_clean_connection);;
      mret (inr tt)
  | (Ok header, reader) =>
      match check_parse_header header with
      | Err _ =>
          close_and_clean_connection;;
          read_empty reader;;
          mret (inr tt)
      | Ok (cmd, len) =>
          reader ← execute_command cmd len reader;
          mret (inl reader)
      end
  end.

(** Fuel: each iteration that continues takes a header of twelve bytes. *)
Definition receive_loop (reader : BufReader) : M World unit := fun w =>
  loop (S (reader_total reader w)) receive_body reader w.

Definition receive : M World unit :=
  c ← gets ctx;
  sid ← unwrap (connection c);
  sid ← try_clone_unwrap sid;
  receive_loop (mkBuf sid []).

End Tcp_defs.

(** * Properties of the listener *)

Section listener.
Context {P : Platform}.

Lemma init_from_skips k r first n w :
  oracle w = replicate k false ++ r -> Z.of_nat k <= n ->
  init_from (seqZ first n) w =
    init_from (seqZ (first + Z.of_nat k) (n - Z.of_nat k)) (with_oracle r w).
Proof.
  revert first n w. induction k as [|k IH]; intros first n w Ho Hn.
  - simpl in Ho. rewrite Z.add_0_r, Z.sub_0_r, <-Ho. by destruct w.
  - simpl in Ho. rewrite (seqZ_cons first n) by lia. cbn [init_from].
    unfold succeeds, mbind, M_bind. rewrite Ho. cbv beta iota zeta.
    rewrite IH by (simpl; done || lia). f_equal. f_equal; lia.
Qed.

(** The server listens on the first of the ports 61455 to 65534 that can be
    bound; when none of these 4080 can, there is no listener -- port 65535 is
    never tried. *)
Theorem init_first_free k r w :
  oracle w = replicate k false ++ true :: r ->
  init w =
    if decide (k < 4080)%nat
    then Ret (Some (mkListener (Some (61455 + Z.of_nat k)))) (with_oracle r w)
    else Ret None (with_oracle (replicate (k - 4080) false ++ true :: r) w).
Proof.
  intros Ho. unfold init. case_decide as Hk.
  - rewrite (init_from_skips k (true :: r)) by (done || lia).
    rewrite seqZ_cons by lia. done.
  - rewrite (init_from_skips 4080 (replicate (k - 4080) false ++ true :: r)); [done| |lia].
    rewrite Ho, app_assoc, <-replicate_add. do 2 f_equal. lia.
Qed.
End listener.

Lemma init_first_free_witness :
  let w := with_oracle [false; false; true] (idle_world []) in
  init w = Ret (Some (mkListener (Some 61457))) (with_oracle [] w).
Proof. intros w. apply (init_first_free 2 [] w). reflexivity. Defined.
