(* ===== verification/Beacon.v ===== *)
(** The discovery beacon (udp_beacon.rs): binding the announce socket, the
    announcement and its JSON payload. *)

From S2P Require Import Prelude Monad Platform Types Worlds Context Wire.

(** [{}] of an unsigned integer. *)
Definition decimal (z : Z) : list u8 := lit (pretty z).
(** The double quote. *)
Definition quote : list u8 := [Byte.x22].
Definition quoted (s : list u8) : list u8 := quote ++ s ++ quote.

Section Beacon.
Context `{P : Platform}.

(** [UdpSocket::bind((addr, 0))?], on the given interface or on any. *)
Definition init (iface : option (list u8)) : M World (Result (list u8) unit) :=
  match iface with
  | Some addr => bound ← succeeds; if (bound : bool) then mret (Ok addr) else mret (Err tt)
  | None => bound ← succeeds; if (bound : bool) then mret (Ok (lit "0.0.0.0")) else mret (Err tt)
  end.

(** The interval as it is announced: whole seconds plus the milliseconds of
    the last fraction of a second. *)
Definition update_interval (d : Duration) : Z :=
  let announce_interval := as_secs d in
  u64_of (announce_interval + subsec_millis d).

Definition format_json (c : TracerContext) : M World (list u8) :=
  let announce_interval := update_interval (announce_interval (app_cfg c)) in
  port ← unwrap (local_port (listener c));
  mret (lit "{ " ++ quoted (lit "sequence_nr") ++ lit ": " ++ decimal (sequence_no c) ++ lit ","
    ++ quoted (lit "server_version") ++ lit ": " ++ quoted SERVER_VERSION ++ lit ", "
    ++ quoted (lit "protocoll_version") ++ lit ": " ++ quoted PROTOCOLL_VERSION ++ lit ","
    ++ quoted (lit "update_interval_msecs") ++ lit ": " ++ decimal announce_interval ++ lit ","
    ++ quoted (lit "hostname") ++ lit ": " ++ quoted (hostname (app_cfg c)) ++ lit ", "
    ++ quoted (lit "process_name") ++ lit ": " ++ quoted (process_name (app_cfg c)) ++ lit ","
    ++ quoted (lit "port") ++ lit ": " ++ decimal port ++ lit "}").

Definition announce_tracer : M World unit :=
  c ← gets ctx;
  tracer_data ← format_json c;
  let announce_msg := MAGIC_NUMB ++ tracer_data in
  (match udp_sock c with
   | Some _ =>
       addr ← unwrap (announce_addr (app_cfg c));
       log_call (UdpSendTo announce_msg addr)
   | None => mret tt
   end);;
  in_ctx (fun c => with_sequence_no (u64_of (sequence_no c + 1)) c).

End Beacon.

(** * Properties *)

(** The field called [update_interval_msecs] does not hold the announce
    interval in milliseconds: the whole seconds are added to the remaining
    milliseconds, so an interval of [ms] milliseconds is announced as
    [ms / 1000 + ms mod 1000], which is right below one second only. *)
Theorem update_interval_spec ms :
  0 <= ms < 2 ^ 32 ->
  update_interval (from_millis ms) = ms / 1000 + ms mod 1000 /\
  (update_interval (from_millis ms) = ms <-> ms < 1000).
Proof.
  intros Hms.
  assert (update_interval (from_millis ms) = ms / 1000 + ms mod 1000) as E.
  { unfold update_interval, u64_of, from_millis, as_secs, subsec_millis.
    pose proof (Z.mod_pos_bound ms 1000 ltac:(lia)). pose proof (Z.div_mod ms 1000 ltac:(lia)).
    replace (ms * 1000000) with (ms mod 1000 * 1000000 + ms / 1000 * 1000000000) by lia.
    rewrite Z.div_add, Z.div_small, Z.add_0_l by lia.
    rewrite Z.mod_add, Z.mod_small, Z.div_mul by lia. apply wrap_small. lia. }
  rewrite E. pose proof (Z.mod_pos_bound ms 1000 ltac:(lia)). pose proof (Z.div_mod ms 1000 ltac:(lia)).
  split; [done|]. split; intros; [lia|]. rewrite Z.div_small, Z.mod_small by lia. lia.
Qed.

Lemma update_interval_spec_witness :
  update_interval (from_millis 5000) = 5 /\ (update_interval (from_millis 5000) = 5000 <-> 5000 < 1000).
Proof. apply (update_interval_spec 5000). lia. Defined.

Section announcements.
Context {P : Platform}.

(** The payload of an announcement. *)
Definition json (c : TracerContext) (port : Z) : list u8 :=
  lit "{ " ++ quoted (lit "sequence_nr") ++ lit ": " ++ decimal (sequence_no c) ++ lit ","
    ++ quoted (lit "server_version") ++ lit ": " ++ quoted (lit "1.1.0") ++ lit ", "
    ++ quoted (lit "protocoll_version") ++ lit ": " ++ quoted (lit "1.1.0") ++ lit ","
    ++ quoted (lit "update_interval_msecs") ++ lit ": "
    ++ decimal (update_interval (announce_interval (app_cfg c))) ++ lit ","
    ++ quoted (lit "hostname") ++ lit ": " ++ quoted (hostname (app_cfg c)) ++ lit ", "
    ++ quoted (lit "process_name") ++ lit ": " ++ quoted (process_name (app_cfg c)) ++ lit ","
    ++ quoted (lit "port") ++ lit ": " ++ decimal port ++ lit "}".

Lemma announce_tracer_run w a p iface :
  udp_sock (ctx w) = Some iface -> announce_addr (app_cfg (ctx w)) = Some a ->
  local_port (listener (ctx w)) = Some p ->
  announce_tracer w =
    Ret tt (with_log (log w ++ [UdpSendTo (MAGIC_NUMB ++ json (ctx w) p) a])
              (upd_ctx (with_sequence_no (u64_of (sequence_no (ctx w) + 1))) w)).
Proof.
  intros Hsock Ha Hp.
  unfold announce_tracer, format_json, log_call, in_ctx, modify, gets, mbind, M_bind, mret, M_ret.
  cbn -[app lit decimal]. rewrite Hp. cbn -[app lit decimal]. by rewrite Hsock, Ha.
Qed.

(** The message of the [i]-th announcement from here on. *)
Definition announcement (c : TracerContext) (p : Z) (i : nat) : list u8 :=
  MAGIC_NUMB ++ json (with_sequence_no (u64_of (sequence_no c + Z.of_nat i)) c) p.

Lemma announcements_run (l : list nat) w a p iface :
  udp_sock (ctx w) = Some iface -> announce_addr (app_cfg (ctx w)) = Some a ->
  local_port (listener (ctx w)) = Some p -> 0 <= sequence_no (ctx w) < 2 ^ 64 ->
  exists w', for_each l (fun _ => announce_tracer) w = Ret tt w' /\
    sequence_no (ctx w') = u64_of (sequence_no (ctx w) + zlen l) /\
    log w' = log w ++ map (fun i => UdpSendTo (announcement (ctx w) p i) a) (seq 0 (length l)).
Proof.
  revert w. induction l as [|x l IH]; intros w Hsock Ha Hp Hseq.
  - exists w. simpl. rewrite app_nil_r. split_and!; try done.
    rewrite zlen_nil, Z.add_0_r. symmetry. by apply wrap_small.
  - destruct (IH (with_log (log w ++ [UdpSendTo (MAGIC_NUMB ++ json (ctx w) p) a])
        (upd_ctx (with_sequence_no (u64_of (sequence_no (ctx w) + 1))) w))) as (w' & Hrun & Hseq' & Hlog);
      try done.
    { simpl. by apply wrap_range. }
    exists w'. cbn [for_each]. unfold mbind, M_bind.
    rewrite (announce_tracer_run w a p iface) by done. split; [done|].
    simpl in Hseq', Hlog. split.
    + rewrite Hseq', zlen_cons, Z.add_assoc. unfold u64_of, wrap. by rewrite Zplus_mod_idemp_l.
    + rewrite Hlog, <-app_assoc. f_equal. cbn [length seq map]. cbn [app]. f_equal.
      * unfold announcement, u64_of. rewrite Z.add_0_r, wrap_small by done.
        destruct (ctx w). done.
      * rewrite <-seq_shift, map_map. apply map_ext. intros i. f_equal.
        unfold announcement. simpl sequence_no. rewrite Nat2Z.inj_succ.
        replace (sequence_no (ctx w) + Z.succ (Z.of_nat i)) with (sequence_no (ctx w) + 1 + Z.of_nat i) by lia.
        unfold u64_of at 1 2, wrap. rewrite Zplus_mod_idemp_l. by destruct (ctx w).
Qed.

(** C28: Successive announcements go to the configured address, each made of the
    magic number and the JSON description of the tracer, and carry consecutive
    sequence numbers modulo 2^64. *)
Theorem announcements_numbered n w a p iface :
  udp_sock (ctx w) = Some iface -> announce_addr (app_cfg (ctx w)) = Some a ->
  local_port (listener (ctx w)) = Some p -> 0 <= sequence_no (ctx w) < 2 ^ 64 ->
  exists w', for_each (seq 0 n) (fun _ => announce_tracer) w = Ret tt w' /\
    sequence_no (ctx w') = u64_of (sequence_no (ctx w) + Z.of_nat n) /\
    log w' = log w ++ map (fun i => UdpSendTo (announcement (ctx w) p i) a) (seq 0 n).
Proof.
  intros Hsock Ha Hp Hseq.
  destruct (announcements_run (seq 0 n) w a p iface Hsock Ha Hp Hseq) as (w' & H).
  unfold zlen in H. rewrite length_seq in H. by exists w'.
Qed.
End announcements.

Lemma announcements_numbered_witness :
  let w := upd_ctx (with_sequence_no (2 ^ 64 - 1)) (idle_world []) in
  exists w', for_each (seq 0 3) (fun _ => announce_tracer) w = Ret tt w' /\
    sequence_no (ctx w') = u64_of (2 ^ 64 - 1 + Z.of_nat 3) /\
    log w' = [] ++ map (fun i => UdpSendTo (announcement (ctx w) 61455 i) (lit "225.0.0.1:64042")) (seq 0 3).
Proof.
  intros w. apply (announcements_numbered 3 w _ 61455 (lit "127.0.0.1")); try reflexivity.
  vm_compute. split; [discriminate|reflexivity].
Defined.
