(* ===== verification/App.v ===== *)
(** The C interface (lib.rs), as run by the application's threads, and the
    formatting wrapper of tracy.h. *)

From S2P Require Import Prelude Monad Platform Types Strings.

Section App.
Context `{P : Platform}.

(** The arguments [tracy_init] hands to the thread it spawns. *)
Record Spawn := mkSpawn {
  spawn_data : InitData;
  spawn_connected : nat;
  spawn_rec : nat;
  spawn_announce : bool;
}.

(** What the application's side can reach: the live [TracerNg] structs by
    address, the shared flags and channels, the threads spawned. *)
Record App := mkApp {
  handles : gmap nat TracerNg;
  app_heap : gmap nat bool;
  app_chans : gmap nat (channel ChannelMessage);
  spawned : list Spawn;
}.

(** Raw pointers: null, or an address. *)
Definition ptr : Type := option nat.

Definition with_handles (v : gmap nat TracerNg) (a : App) : App :=
  mkApp v (app_heap a) (app_chans a) (spawned a).
Definition with_app_heap (v : gmap nat bool) (a : App) : App :=
  mkApp (handles a) v (app_chans a) (spawned a).
Definition with_app_chans (v : gmap nat (channel ChannelMessage)) (a : App) : App :=
  mkApp (handles a) (app_heap a) v (spawned a).
Definition with_spawned (v : list Spawn) (a : App) : App :=
  mkApp (handles a) (app_heap a) (app_chans a) v.

(** [Arc::new(AtomicBool::new(b))], [channel::channel()], [Box::into_raw(Box::new(_))] *)
Definition new_atomic (b : bool) : M App nat := fun a =>
  let l := fresh (dom (app_heap a)) in Ret l (with_app_heap (<[l := b]> (app_heap a)) a).
Definition new_channel : M App nat := fun a =>
  let q := fresh (dom (app_chans a)) in
  Ret q (with_app_chans (<[q := channel_new]> (app_chans a)) a).
Definition box_into_raw (t : TracerNg) : M App ptr := fun a =>
  let p := fresh (dom (handles a)) in Ret (Some p) (with_handles (<[p := t]> (handles a)) a).

Definition load (l : nat) : M App bool := gets (fun a => default false (app_heap a !! l)).

(** [&*p]: undefined unless [p] is the address of a live struct. *)
Definition deref_handle (p : ptr) : M App (nat * TracerNg) :=
  addr ← deref p; a ← get; t ← deref (handles a !! addr); mret (addr, t).

Definition is_null {A} (p : option A) : bool := negb (bool_decide (is_Some p)).

Definition tracy_init (hostname process_name : c_str)
    (buffer_flush_interval announce_interval : Z)
    (announce_iface announce_mcast_addr : c_str) (flags : Z) : M App ptr :=
  if is_null hostname || is_null process_name || (buffer_flush_interval =? 0) then mret None
  else
    client_connected ← new_atomic false;
    rec ← new_channel;
    hostname ← unwrap (rawpt_to_str hostname);
    process_name ← unwrap (rawpt_to_str process_name);
    let init_data :=
      mkInitData hostname process_name (from_millis buffer_flush_interval)
        (from_millis announce_interval) (rawpt_to_addr announce_mcast_addr)
        (rawpt_to_str announce_iface) in
    let tracey := mkTracerNg rec client_connected ∅ in
    let announce :=
      (0 <? announce_interval) && bool_decide (is_Some (Types.announce_iface init_data))
      && bool_decide (is_Some (announce_addr init_data)) in
    modify (fun a => with_spawned (spawned a ++ [mkSpawn init_data client_connected rec announce]) a);;
    box_into_raw tracey.

(** A failed send is only printed. *)
Definition send_to_tracer (tracey : TracerNg) (msg : ChannelMessage) : M App unit := fun a =>
  match app_chans a !! send_to_tracer_thread tracey with
  | Some q =>
      Ret tt (with_app_chans (<[send_to_tracer_thread tracey := (channel_send q msg).1]> (app_chans a)) a)
  | None => Ret tt a
  end.

Definition tracy_register (tracy : ptr) (tp_name_param : c_str) : M App Z :=
  tracepoint_state ← new_atomic false;
  if is_null tracy then mret (-1)
  else
    h ← deref_handle tracy;
    let '(addr, tracey) := h in
    s ← deref tp_name_param;
    let tp_name := to_string_lossy s in
    match fix_tracepoint_str tp_name with
    | Err _ => mret (-1)
    | Ok tp_name_repaired =>
        let tracepoint := mkTracepoint tp_name_repaired tracepoint_state in
        if negb (bool_decide (is_Some (tracepoints tracey !! tp_name_repaired))) then
          let tracey' :=
            mkTracerNg (send_to_tracer_thread tracey) (client_connected tracey)
              (<[tp_name_repaired := tracepoint_state]> (tracepoints tracey)) in
          modify (fun a => with_handles (<[addr := tracey']> (handles a)) a);;
          send_to_tracer tracey' (NewTracepoint tracepoint);;
          mret 0
        else mret (-1)
    end.

Definition tracepoint_enabled (tracey : TracerNg) (tracepoint : list u8) : M App bool :=
  match tracepoints tracey !! tracepoint with
  | Some truth => load truth
  | None => mret false
  end.

Definition tracy_tracepoint_enabled (tracy : ptr) (tp_name_param : c_str) : M App bool :=
  h ← deref_handle tracy;
  s ← deref tp_name_param;
  let tp_name := to_string_lossy s in
  tracepoint_enabled h.2 tp_name.

(** [Box::from_raw] takes the struct over and frees it. *)
Definition tracy_finit (tracey : ptr) : M App unit :=
  h ← deref_handle tracey;
  let '(addr, tracer) := h in
  send_to_tracer tracer MsgTerminate;;
  modify (fun a => with_handles (delete addr (handles a)) a).

(** [slice::from_raw_parts(data, data_len)]: the bytes must be there. *)
Definition from_raw_parts (data : list u8) (data_len : Z) : M App (list u8) :=
  if data_len <=? zlen data then mret (take (Z.to_nat data_len) data) else undefined.

(** [data] is null or the memory the pointer may be used to read; [now] is the
    reading of the system clock. *)
Definition tracy_submit (tmp_tracey : ptr) (tp_name_param : c_str)
    (data : option (list u8)) (data_len : Z) (now : SystemTime) : M App unit :=
  if is_null tmp_tracey || is_null tp_name_param || is_null data then mret tt
  else if (data_len =? 0) || (MAX_SUBMIT_LEN <? data_len) then mret tt
  else
    h ← deref_handle tmp_tracey;
    let tracey := h.2 in
    connected ← load (client_connected tracey);
    if negb connected then mret tt
    else
      s ← deref tp_name_param;
      let tracepoint := to_string_lossy s in
      match fix_tracepoint_str tracepoint with
      | Err _ => mret tt
      | Ok tracepoint_repaired =>
          enabled ← tracepoint_enabled tracey tracepoint_repaired;
          if negb enabled then mret tt
          else
            bytes ← deref data;
            bytes ← from_raw_parts bytes data_len;
            let buffer_element := mkElement tracepoint_repaired now bytes in
            send_to_tracer tracey (Payload buffer_element)
      end.

(** [tracy_submit_printf] of tracy.h. [formatted] is the whole output of the
    format, [None] when [vsnprintf] fails; the buffer receives what fits with a
    terminating zero, and holds [junk] after it. *)
Definition TRACY_MAX_SBMTPRNT_LEN : Z := 256.

Definition vsnprintf_buffer (formatted junk : list u8) : list u8 :=
  let n := Z.to_nat (TRACY_MAX_SBMTPRNT_LEN - 1) in
  take (Z.to_nat TRACY_MAX_SBMTPRNT_LEN) (take n formatted ++ [Byte.x00] ++ junk).

Definition tracy_submit_printf (tracer : ptr) (tracepoint_name fmt : c_str)
    (formatted : option (list u8)) (junk : list u8) (now : SystemTime) : M App unit :=
  if is_null tracer || is_null tracepoint_name || is_null fmt then mret tt
  else
    match formatted with
    | None => mret tt
    | Some out => tracy_submit tracer tracepoint_name (Some (vsnprintf_buffer out junk)) (zlen out) now
    end.

End App.
Arguments App {P}.
Arguments Spawn {P}.
