(* ===== verification/Handlers.v ===== *)
(** The tracer thread (lib.rs): the handlers of channel, timer and socket
    events, the dispatch of a batch of events and the main loop. *)

From S2P Require Import Prelude Monad Platform Types Context Io Wire Tcp Beacon.

Section Handlers.
Context `{P : Platform}.

Definition try_recv : M World (option ChannelMessage) := fun w =>
  let id := rec (ctx w) in
  match chans w !! id with
  | Some q =>
      let '(q', m) := channel_try_recv q in Ret m (with_chans (<[id := q']> (chans w)) w)
  | None => Ret None w
  end.

Definition channel_data_handler (data : BufferElement) : M World unit :=
  in_ctx (append data);;
  c ← gets ctx;
  if QUEUE_TOTAL_SIZE <? buffer_occupancy c then
    in_ctx check_stop_queue_timer;;
    send_trace_data
  else
    in_ctx check_start_queue_timer.

Definition channel_handler_body (ret : TracerState) : M World (TracerState + TracerState) :=
  m ← try_recv;
  match m with
  | None => mret (inr ret)
  | Some (Payload payload) => channel_data_handler payload;; mret (inl DataProcessed)
  | Some (NewTracepoint tracepoint) => in_ctx (insert_tracepoint tracepoint);; mret (inl DataProcessed)
  | Some MsgTerminate =>
      c ← gets ctx;
      (if bool_decide (is_Some (connection c)) then send_trace_data else mret tt);;
      mret (inr Terminate)
  end.

(** The messages waiting in the channel. *)
Definition queued (w : World) : list ChannelMessage :=
  match chans w !! rec (ctx w) with Some q => channel_contents q | None => [] end.

(** Fuel: each iteration that continues takes a message. *)
Definition channel_handler : M World TracerState := fun w =>
  loop (S (length (queued w))) channel_handler_body Normal w.

Definition poll_timer : M World (option Z) := fun w =>
  let '(t, s) := timer_poll (ctx_timer (ctx w)) in Ret s (upd_ctx (with_ctx_timer t) w).

Definition timer_handler_body (_ : unit) : M World (unit + unit) :=
  s ← poll_timer;
  match s with
  | None => mret (inr tt)
  | Some timeout =>
      (if timeout =? QUEUE_TIMEOUT_IDENT then
         in_ctx (with_queue_timeout None);; send_trace_data
       else if timeout =? UDP_TIMEOUT_IDENT then
         in_ctx (with_udp_timeout None);; announce_tracer;; in_ctx check_start_udp_timer
       else mret tt);;
      mret (inl tt)
  end.

(** Fuel: each iteration that continues takes an expired timeout. *)
Definition timer_handler : M World unit := fun w =>
  loop (S (timer_due (ctx_timer (ctx w)))) timer_handler_body tt w.

Fixpoint event_handler_from (events : list Z) (ret : TracerState) : M World TracerState :=
  match events with
  | [] => mret ret
  | token :: events =>
      if token =? CHAN then
        state ← channel_handler;
        match state with
        | Terminate => mret Terminate
        | state => event_handler_from events state
        end
      else if token =? TIMER then timer_handler;; event_handler_from events ret
      else if token =? CON_NEW then
        c ← gets ctx;
        (if bool_decide (connection c = None) then
           establish_connection;; in_ctx check_stop_udp_timer
         else mret tt);;
        event_handler_from events ret
      else if token =? CON_DATA then receive;; event_handler_from events ret
      else event_handler_from events ret
  end.

Definition event_handler (events : list Z) : M World TracerState := event_handler_from events Normal.

(** [expect] on a call that may fail. *)
Definition expect_success : M World unit := ok ← succeeds; if (ok : bool) then mret tt else panic.

(** The set-up of [tracer_thread_main]: the context, the announce socket, the
    registrations. *)
Definition tracer_thread_setup (app_cfg_data : InitData) (client_connected_in rec_param : nat)
    (announce : bool) : M World unit :=
  let udp_iface := announce_iface app_cfg_data in
  expect_success;;
  l ← Tcp.init;
  l ← unwrap l;
  modify (with_ctx (mkCtx app_cfg_data [] 0 rec_param timer_default None None None l None
                      client_connected_in ∅ 0));;
  (if (announce : bool) then
     s ← Beacon.init udp_iface;
     in_ctx (with_udp_sock (match s with Ok sock => Some sock | Err _ => None end));;
     in_ctx check_start_udp_timer
   else mret tt);;
  expect_success;; expect_success;; expect_success.

(** The main loop on the batches of events [poll] returns; with no further
    batch the thread is blocked in [poll]. The result says whether it ended. *)
Fixpoint tracer_thread_loop (batches : list (list Z)) : M World bool :=
  match batches with
  | [] => mret false
  | events :: batches =>
      expect_success;;
      state ← event_handler events;
      match state with
      | Terminate => mret true
      | _ => tracer_thread_loop batches
      end
  end.

Definition tracer_thread_main (app_cfg_data : InitData) (client_connected_in rec_param : nat)
    (announce : bool) (batches : list (list Z)) : M World bool :=
  tracer_thread_setup app_cfg_data client_connected_in rec_param announce;;
  tracer_thread_loop batches.

End Handlers.
