(* ===== verification/Relational.v ===== *)
(** Relational reasoning: two runs side by side.  [rwp m1 m2 Q R w1 w2] says
    that [m1] from [w1] and [m2] from [w2] end in the same way: they return
    results and states related by [Q], or panic in states related by [R], or are
    both undefined or both without end. *)

From S2P Require Import Prelude Monad.

Section rwp.
Context {W : Type}.
Implicit Types w : W.

Definition rwp {A B} (m1 : M W A) (m2 : M W B) (Q : A -> W -> B -> W -> Prop) (R : W -> W -> Prop)
    w1 w2 : Prop :=
  match m1 w1, m2 w2 with
  | Ret a w1', Ret b w2' => Q a w1' b w2'
  | Panic w1', Panic w2' => R w1' w2'
  | Undef, Undef => True
  | Hang, Hang => True
  | _, _ => False
  end.

Lemma rwp_mono {A B} (m1 : M W A) (m2 : M W B) (Q Q' : A -> W -> B -> W -> Prop) (R R' : W -> W -> Prop) w1 w2 :
  rwp m1 m2 Q R w1 w2 -> (forall a w1' b w2', Q a w1' b w2' -> Q' a w1' b w2') ->
  (forall w1' w2', R w1' w2' -> R' w1' w2') -> rwp m1 m2 Q' R' w1 w2.
Proof. unfold rwp. destruct (m1 w1), (m2 w2); naive_solver. Qed.

Lemma rwp_ret {A B} (a : A) (b : B) (Q : A -> W -> B -> W -> Prop) R w1 w2 :
  Q a w1 b w2 -> rwp (mret a) (mret b) Q R w1 w2.
Proof. done. Qed.

Lemma rwp_bind {A B A' B'} (m1 : M W A) (m2 : M W B) (f1 : A -> M W A') (f2 : B -> M W B') Q R w1 w2 :
  rwp m1 m2 (fun a w1' b w2' => rwp (f1 a) (f2 b) Q R w1' w2') R w1 w2 ->
  rwp (m1 ≫= f1) (m2 ≫= f2) Q R w1 w2.
Proof. unfold rwp, mbind, M_bind. destruct (m1 w1), (m2 w2); done. Qed.

Lemma rwp_gets {A} (f : W -> A) (Q : A -> W -> A -> W -> Prop) R w1 w2 :
  Q (f w1) w1 (f w2) w2 -> rwp (gets f) (gets f) Q R w1 w2.
Proof. done. Qed.

Lemma rwp_modify (f : W -> W) (Q : unit -> W -> unit -> W -> Prop) R w1 w2 :
  Q tt (f w1) tt (f w2) -> rwp (modify f) (modify f) Q R w1 w2.
Proof. done. Qed.

Lemma rwp_panic {A B} (Q : A -> W -> B -> W -> Prop) R w1 w2 : R w1 w2 -> rwp panic panic Q R w1 w2.
Proof. done. Qed.

Lemma rwp_unwrap {A} (o : option A) (Q : A -> W -> A -> W -> Prop) (R : W -> W -> Prop) w1 w2 :
  (forall a, o = Some a -> Q a w1 a w2) -> (o = None -> R w1 w2) -> rwp (unwrap o) (unwrap o) Q R w1 w2.
Proof. destruct o; naive_solver. Qed.

Lemma rwp_eq {A B} (m1 : M W A) (m2 : M W B) Q R a b w1 w2 w1' w2' :
  m1 w1 = Ret a w1' -> m2 w2 = Ret b w2' -> Q a w1' b w2' -> rwp m1 m2 Q R w1 w2.
Proof. unfold rwp. by intros -> ->. Qed.

(** Two loops in lockstep, [I] relating the loop variables and states. *)
Lemma rwp_loop {A1 A2 B1 B2} (I : A1 -> W -> A2 -> W -> Prop)
    (body1 : A1 -> M W (A1 + B1)) (body2 : A2 -> M W (A2 + B2)) Q R :
  (forall a1 w1 a2 w2, I a1 w1 a2 w2 ->
     rwp (body1 a1) (body2 a2)
       (fun r1 w1' r2 w2' =>
          match r1, r2 with
          | inl a1', inl a2' => I a1' w1' a2' w2'
          | inr b1, inr b2 => Q b1 w1' b2 w2'
          | _, _ => False
          end) R w1 w2) ->
  forall fuel a1 w1 a2 w2, I a1 w1 a2 w2 -> rwp (loop fuel body1 a1) (loop fuel body2 a2) Q R w1 w2.
Proof.
  intros Hbody fuel. induction fuel as [|fuel IH]; intros a1 w1 a2 w2 HI; [done|]. cbn [loop].
  apply rwp_bind. eapply rwp_mono; [by apply Hbody| |done].
  intros [a1'|b1] w1' [a2'|b2] w2'; try done. intros HI'. by apply IH.
Qed.

Lemma rwp_for_each {A} (l : list A) (body : A -> M W unit) (I R : W -> W -> Prop) w1 w2 :
  (forall x w1 w2, I w1 w2 -> rwp (body x) (body x) (fun _ w1' _ w2' => I w1' w2') R w1 w2) ->
  I w1 w2 -> rwp (for_each l body) (for_each l body) (fun _ w1' _ w2' => I w1' w2') R w1 w2.
Proof.
  intros Hb. revert w1 w2. induction l as [|x l IH]; intros w1 w2 HI; [done|]. cbn [for_each].
  apply rwp_bind. eapply rwp_mono; [by apply Hb| |done]. intros [] w1' [] w2'. apply IH.
Qed.
End rwp.
