(* ===== verification/Segments.v ===== *)
(** The behaviour of the tracer thread does not depend on the sizes of the pieces
    in which the bytes that are there are read: from two worlds whose sockets
    hold the same bytes between the same pauses, in different pieces, every batch
    of events is handled in the same way.  Where the pauses fall does matter. *)

From S2P Require Import Prelude Monad Relational Platform Types Worlds Strings Context Io Wire Tcp Beacon Handlers.

(** * Streams

    What a script means: the bytes one by one, and the conditions between them. *)
Inductive item := Byte (b : u8) | Cond (k : ErrorKind) | Eof.

Definition items_of (e : rx_event) : list item :=
  match e with RxData bs => map Byte bs | RxErr k => [Cond k] | RxEof => [Eof] end.
Definition items (rx : list rx_event) : list item := concat (map items_of rx).

(** Two scripts that differ in the pieces only: the conditions -- also the pauses,
    [WouldBlock] -- are met after the same bytes. *)
Definition same_stream (rx1 rx2 : list rx_event) : Prop := items rx1 = items rx2.

#[export] Instance same_stream_equivalence : Equivalence same_stream.
Proof. split; [intros x|intros x y|intros x y z]; unfold same_stream; congruence. Qed.

#[export] Instance items_proper : Proper (same_stream ==> eq) items.
Proof. by intros x y. Qed.

Lemma items_app r1 r2 : items (r1 ++ r2) = items r1 ++ items r2.
Proof. unfold items. by rewrite map_app, concat_app. Qed.

#[export] Instance app_proper : Proper (same_stream ==> same_stream ==> same_stream) app.
Proof. intros x x' Hx y y' Hy. unfold same_stream in *. rewrite !items_app. congruence. Qed.

Lemma map_Byte_app bs bs' : map Byte (bs ++ bs') = map Byte bs ++ map Byte bs'.
Proof. apply map_app. Qed.

(** Where a piece is cut does not matter. *)
Lemma same_stream_split a b r : same_stream (RxData (a ++ b) :: r) (RxData a :: RxData b :: r).
Proof. unfold same_stream, items. simpl. by rewrite map_Byte_app, app_assoc. Qed.

(** ** Reading from a stream *)

(** [read_exact] on a stream. *)
Fixpoint exact (s : list item) (n : nat) : Result (list u8) ErrorKind * list item :=
  match n with
  | O => (Ok [], s)
  | S m =>
      match s with
      | [] => (Err WouldBlock, [])
      | Byte b :: s =>
          match exact s m with (Ok bs, r) => (Ok (b :: bs), r) | (Err k, r) => (Err k, r) end
      | Cond Interrupted :: s => exact s n
      | Cond k :: s => (Err k, s)
      | Eof :: _ => (Err UnexpectedEof, s)
      end
  end.

(** [read_empty] on a stream: the error that makes it close the connection. *)
Fixpoint drain (s : list item) : option ErrorKind * list item :=
  match s with
  | [] => (None, [])
  | Byte _ :: s => drain s
  | Cond WouldBlock :: s => (None, s)
  | Cond k :: s => (Some k, s)
  | Eof :: _ => (None, s)
  end.

Fixpoint bytes_in (s : list item) : nat :=
  match s with [] => O | Byte _ :: s => S (bytes_in s) | _ :: s => bytes_in s end.

Lemma exact_bytes bs s n :
  (length bs <= n)%nat ->
  exact (map Byte bs ++ s) n =
    match exact s (n - length bs) with (Ok bs', r) => (Ok (bs ++ bs'), r) | (Err k, r) => (Err k, r) end.
Proof.
  revert n. induction bs as [|b bs IH]; intros n Hn; simpl.
  - rewrite Nat.sub_0_r. by destruct (exact s n) as [[]].
  - simpl in Hn. destruct n as [|n]; [lia|]. rewrite IH by lia. simpl.
    by destruct (exact s _) as [[]].
Qed.

Lemma drain_bytes bs s : drain (map Byte bs ++ s) = drain s.
Proof. by induction bs. Qed.

Lemma bytes_in_app s s' : bytes_in (s ++ s') = (bytes_in s + bytes_in s')%nat.
Proof. induction s as [|[] s IH]; simpl; lia. Qed.

Lemma bytes_in_map bs : bytes_in (map Byte bs) = length bs.
Proof. induction bs; simpl; lia. Qed.

Lemma rx_total_items rx : rx_total rx = bytes_in (items rx).
Proof.
  unfold rx_total, items. induction rx as [|[bs|k|] rx IH]; [done| | |]; simpl; [|done|done].
  rewrite bytes_in_app, bytes_in_map. lia.
Qed.

Lemma rx_read_items n rx r rx' :
  (0 < n)%nat -> rx_read n rx = (r, rx') ->
  (length rx' <= length rx)%nat /\
  match r with
  | Ok [] => items rx' = items rx /\ exists t, items rx = Eof :: t
  | Ok bs => (length bs <= n)%nat /\ items rx = map Byte bs ++ items rx'
  | Err k => (items rx = Cond k :: items rx' /\ (length rx' < length rx)%nat) \/
             (items rx = [] /\ items rx' = [] /\ k = WouldBlock)
  end.
Proof.
  intros Hn. induction rx as [|[[|b bs]|k|] rx IH]; cbn [rx_read].
  - intros [= <- <-]. split; [done|by right].
  - intros Hr. destruct (IH Hr) as [Hlen H]. split; [simpl; lia|].
    change (items (RxData [] :: rx)) with (items rx). destruct r as [[|? ?]|]; try done.
    destruct H as [[? ?]|?]; [left; simpl; split; [done|lia]|by right].
  - destruct n as [|n]; [lia|]. cbn [take drop]. intros [= <- <-]. unfold items. simpl.
    rewrite length_take. destruct (Nat.leb_spec (length bs) n) as [Hle|Hgt].
    + rewrite take_ge by done. split; [lia|]. split; [lia|done].
    + split; [simpl; lia|]. split; [lia|]. simpl. by rewrite app_assoc, <-map_Byte_app, take_drop.
  - intros [= <- <-]. split; [simpl; lia|]. left. split; [done|simpl; lia].
  - intros [= <- <-]. split; [done|]. split; [done|]. by eexists.
Qed.

(** * Readers *)

Section Readers.
Context {P : Platform}.

(** What a reader has not yet handed out. *)
Definition unread (br : BufReader) (w : World) : list item :=
  map Byte (br_buf br) ++ items (rx (sock (br_sock br) w)).

(** [w'] differs from [w] in the position of the socket at most. *)
Definition moved (sid : nat) (w w' : World) : Prop := w' = w \/ exists rx', w' = set_rx sid rx' w.

Lemma moved_set sid rx' w : moved sid w (set_rx sid rx' w).
Proof. right. by eexists. Qed.

Lemma moved_trans sid w1 w2 w3 : moved sid w1 w2 -> moved sid w2 w3 -> moved sid w1 w3.
Proof.
  intros [->|[r1 ->]] [->|[r2 ->]]; unfold moved; eauto. right. exists r2. by rewrite set_rx_set_rx.
Qed.

Lemma buf_read_items n br w :
  (0 < n)%nat ->
  exists r br' w', buf_read n br w = Ret (r, br') w' /\ moved (br_sock br) w w' /\ br_sock br' = br_sock br /\
    (length (rx (sock (br_sock br) w')) <= length (rx (sock (br_sock br) w)))%nat /\
    match r with
    | Ok [] => br_buf br' = [] /\ unread br' w' = unread br w /\ exists t, unread br w = Eof :: t
    | Ok bs => (length bs <= n)%nat /\ unread br w = map Byte bs ++ unread br' w'
    | Err k => br_buf br' = [] /\
               ((unread br w = Cond k :: unread br' w' /\
                 (length (rx (sock (br_sock br) w')) < length (rx (sock (br_sock br) w)))%nat) \/
                (unread br w = [] /\ unread br' w' = [] /\ k = WouldBlock))
    end.
Proof.
  intros Hn. unfold buf_read, unread. destruct br as [sid [|c buf]]; cbn [br_buf br_sock].
  - unfold read, mbind, M_bind. destruct (Nat.leb_spec REC_BUF_SZ n) as [_|Hsmall].
    + destruct (rx_read n _) as [r rx1] eqn:Hr. destruct (rx_read_items _ _ _ _ Hn Hr) as [Hlen H].
      exists r, (mkBuf sid []), (set_rx sid rx1 w). cbn [br_buf br_sock map app].
      rewrite rx_set_rx. split; [done|]. split; [apply moved_set|]. do 2 (split; [done|]).
      by destruct r as [[|? ?]|].
    + pose proof REC_BUF_SZ_pos as Hsz. destruct (rx_read REC_BUF_SZ _) as [r rx1] eqn:Hr.
      destruct (rx_read_items _ _ _ _ Hsz Hr) as [Hlen H]. destruct r as [bs|k].
      * exists (Ok (take n bs)), (mkBuf sid (drop n bs)), (set_rx sid rx1 w). cbn [br_buf br_sock map app].
        rewrite rx_set_rx. split_and!; [done|apply moved_set|done|done|].
        destruct bs as [|x bs]; [by rewrite take_nil, drop_nil|]. destruct n as [|n]; [lia|].
        cbn [take drop]. destruct H as [_ H]. split; [simpl; rewrite length_take; lia|]. rewrite H. simpl.
        by rewrite app_assoc, <-map_Byte_app, take_drop.
      * exists (Err k), (mkBuf sid []), (set_rx sid rx1 w). cbn [br_buf br_sock map app].
        rewrite rx_set_rx. split; [done|]. split; [apply moved_set|]. by do 2 (split; [done|]).
  - destruct n as [|n]; [lia|]. exists (Ok (take (S n) (c :: buf))), (mkBuf sid (drop (S n) (c :: buf))), w.
    cbn [br_buf br_sock take drop]. split; [done|]. split; [by left|]. do 2 (split; [done|]). split; [simpl; rewrite length_take; lia|].
    simpl. by rewrite app_assoc, <-map_Byte_app, take_drop.
Qed.

Lemma read_exact_loop n fuel acc br w :
  (length acc <= n)%nat -> (n - length acc + length (rx (sock (br_sock br) w)) < fuel)%nat ->
  exists r br' w', loop fuel (read_exact_body n) (acc, br) w = Ret (r, br') w' /\
    moved (br_sock br) w w' /\ br_sock br' = br_sock br /\
    match exact (unread br w) (n - length acc) with
    | (Ok bs, s) => r = Ok (acc ++ bs) /\ unread br' w' = s
    | (Err k, s) => r = Err k /\ unread br' w' = s /\ br_buf br' = []
    end.
Proof.
  revert acc br w. induction fuel as [|fuel IH]; intros acc br w Hacc Hfuel; [lia|].
  cbn [loop]. unfold mbind at 1, M_bind at 1. unfold read_exact_body at 1.
  destruct (Nat.leb_spec n (length acc)) as [Hle|Hgt].
  { exists (Ok acc), br, w. replace (n - length acc)%nat with 0%nat by lia.
    split; [done|]. split; [by left|]. split; [done|]. by destruct (unread br w); simpl; rewrite app_nil_r. }
  destruct (buf_read_items (n - length acc) br w ltac:(lia)) as (r & br1 & w1 & Hrun & Hmv & Hsock & Hlen & Hr).
  unfold mbind, M_bind. rewrite Hrun. destruct r as [[|b bs]|k].
  - destruct Hr as (Hb & Hu & [t Ht]). exists (Err UnexpectedEof), br1, w1. split; [done|]. split; [done|]. split; [done|].
    rewrite Hu, Ht. by destruct (n - length acc)%nat eqn:E; [lia|].
  - destruct Hr as [Hbs Hu]. destruct (IH (acc ++ b :: bs) br1 w1) as (r2 & br2 & w2 & Hrun2 & Hmv2 & Hsock2 & Hr2).
    { rewrite length_app. lia. }
    { rewrite length_app, Hsock. simpl in *. lia. }
    exists r2, br2, w2. split; [exact Hrun2|]. rewrite Hsock in *. split; [by eapply moved_trans|].
    split; [done|]. rewrite Hu, exact_bytes by done. rewrite length_app, Nat.sub_add_distr in Hr2.
    destruct (exact (unread br1 w1) _) as [[bs'|k] s]; [|done]. by rewrite <-app_assoc in Hr2.
  - destruct Hr as [Hb [[Hu Hlt]|(Hu & Hu' & ->)]].
    + destruct (n - length acc)%nat as [|m] eqn:Em; [lia|].
      destruct (decide (k = Interrupted)) as [->|Hk].
      * destruct (IH acc br1 w1 ltac:(lia) ltac:(rewrite Hsock; lia)) as (r2 & br2 & w2 & Hrun2 & Hmv2 & Hsock2 & Hr2).
        exists r2, br2, w2. split; [exact Hrun2|]. rewrite Hsock in *. split; [by eapply moved_trans|].
        split; [done|]. rewrite Hu. by rewrite Em in Hr2.
      * exists (Err k), br1, w1. rewrite Hu. by destruct k.
    + exists (Err WouldBlock), br1, w1. rewrite Hu. by destruct (n - length acc)%nat eqn:E; [lia|].
Qed.

(** [read_exact] is [exact] on what is unread. *)
Lemma read_exact_items n br w :
  exists r br' w', read_exact n br w = Ret (r, br') w' /\ moved (br_sock br) w w' /\
    br_sock br' = br_sock br /\ exact (unread br w) n = (r, unread br' w') /\
    (is_ok r = false -> br_buf br' = []).
Proof.
  destruct (read_exact_loop n (S (n + length (rx (sock (br_sock br) w)))) [] br w) as
    (r & br' & w' & Hrun & Hmv & Hsock & Hr); [simpl; lia..|].
  exists r, br', w'. split; [done|]. split; [done|]. split; [done|]. simpl in Hr. rewrite Nat.sub_0_r in Hr.
  destruct (exact _ _) as [[bs|k] s]; [by destruct Hr as [-> ->]|by destruct Hr as (-> & -> & Hb)].
Qed.

Lemma reader_total_items br w : reader_total br w = bytes_in (unread br w).
Proof. unfold reader_total, unread. by rewrite bytes_in_app, bytes_in_map, rx_total_items. Qed.

(** [read_empty] is [drain] on what is unread. *)
Lemma read_empty_items fuel br w :
  (bytes_in (unread br w) < fuel)%nat ->
  exists br' w', loop fuel read_empty_body br w =
      ((if (drain (unread br w)).1 is Some _ then close_and_clean_connection else mret tt);; mret br') w' /\
    moved (br_sock br) w w' /\ br_sock br' = br_sock br /\ unread br' w' = (drain (unread br w)).2 /\
    br_buf br' = [].
Proof.
  revert br w. induction fuel as [|fuel IH]; intros br w Hfuel; [lia|].
  destruct (buf_read_items 64 br w ltac:(lia)) as (r & br1 & w1 & Hrun & Hmv & Hsock & _ & Hr).
  cbn [loop]. unfold mbind at 1, M_bind at 1. unfold read_empty_body at 1, mbind at 1, M_bind at 1. rewrite Hrun.
  destruct r as [[|x bs]|k].
  - destruct Hr as (Hb & Hu & [t Ht]). exists br1, w1. rewrite Hu, Ht. by split_and!.
  - destruct Hr as [_ Hu]. destruct (IH br1 w1) as (br2 & w2 & Hrun2 & Hmv2 & Hsock2 & Hu2).
    { rewrite Hu, bytes_in_app, bytes_in_map in Hfuel. simpl in Hfuel. lia. }
    exists br2, w2. unfold mret at 1, M_ret at 1. rewrite Hu, drain_bytes, <-Hsock.
    rewrite Hsock in Hmv2. split; [exact Hrun2|]. rewrite Hsock2, Hsock. split; [by eapply moved_trans|done].
  - destruct Hr as [Hb [[Hu _]|(Hu & Hu' & ->)]].
    + exists br1, w1. rewrite Hu. destruct k; split_and!; try done;
        unfold mbind, M_bind; simpl; by destruct (close_and_clean_connection w1).
    + exists br1, w1. rewrite Hu. by split_and!.
Qed.

(** * Worlds that differ in what the sockets hold

    [agree r]: the two worlds are the same but for the scripts of the sockets,
    which are related by [r]; connections still waiting hold the same streams. *)
Definition same_pending (x y : ErrorKind + Socket) : Prop :=
  match x, y with
  | inl k, inl k' => k = k'
  | inr s, inr s' => same_stream (rx s) (rx s') /\ tx s = tx s' /\ sent s = sent s'
  | _, _ => False
  end.

Record agree (r : nat -> list rx_event -> list rx_event -> Prop) (w1 w2 : World) : Prop := {
  ag_ctx : ctx w1 = ctx w2;
  ag_heap : heap w1 = heap w2;
  ag_chans : chans w1 = chans w2;
  ag_next : next_sock w1 = next_sock w2;
  ag_oracle : oracle w1 = oracle w2;
  ag_log : log w1 = log w2;
  ag_backlog : Forall2 same_pending (backlog w1) (backlog w2);
  ag_rx : forall sid, r sid (rx (sock sid w1)) (rx (sock sid w2));
  ag_tx : forall sid, tx (sock sid w1) = tx (sock sid w2);
  ag_sent : forall sid, sent (sock sid w1) = sent (sock sid w2);
}.

(** The same streams in all sockets. *)
Definition resegmented : World -> World -> Prop := agree (fun _ => same_stream).

(** Whatever the sockets hold. *)
Definition alike : World -> World -> Prop := agree (fun _ _ _ => True).

Lemma agree_mono r r' w1 w2 :
  (forall sid, r sid (rx (sock sid w1)) (rx (sock sid w2)) -> r' sid (rx (sock sid w1)) (rx (sock sid w2))) ->
  agree r w1 w2 -> agree r' w1 w2.
Proof. intros Hr []. split; try done. intros sid. by apply Hr. Qed.

Lemma agree_alike r w1 w2 : agree r w1 w2 -> alike w1 w2.
Proof. by apply agree_mono. Qed.

(** From worlds related by [agree r], [m] ends alike: returning the same in
    worlds related by [agree r], or panicking in worlds that are alike (the
    bytes a reader has buffered are lost with it). *)
Definition respects (r : nat -> list rx_event -> list rx_event -> Prop) {A} (m : M World A) : Prop :=
  forall w1 w2, agree r w1 w2 -> rwp m m (fun a w1' b w2' => a = b /\ agree r w1' w2') alike w1 w2.

(** An operation that does not look at the scripts of the sockets; one that
    depends on the streams only. *)
Definition blind {A} (m : M World A) : Prop := forall r, respects r m.
Definition segment_free {A} (m : M World A) : Prop := respects (fun _ => same_stream) m.

Lemma blind_segment_free {A} (m : M World A) : blind m -> segment_free m.
Proof. intros Hm. apply Hm. Qed.
End Readers.

#[export] Instance same_pending_equivalence : Equivalence same_pending.
Proof.
  split; [intros [k|s]|intros [k|s] [k'|s']|intros [k|s] [k'|s'] [k''|s'']]; simpl; try done.
  - intros (? & ? & ?). split_and!; done.
  - congruence.
  - intros (? & ? & ?) (? & ? & ?). split_and!; [by etrans|congruence|congruence].
Qed.

#[export] Instance resegmented_equivalence {P : Platform} : Equivalence (@resegmented P).
Proof.
  split.
  - intros w. by split.
  - intros x y []. split; try done; intros; by symmetry.
  - intros x y z [] []. split; try congruence; intros; by etrans.
Qed.

(** * Operations that do not look at the scripts *)

Section respects_rules.
Context {P : Platform} (R : nat -> list rx_event -> list rx_event -> Prop).

Lemma respects_ret {A} (a : A) : respects R (mret a).
Proof. by intros w1 w2 Hw. Qed.

Lemma respects_bind {A B} (m : M World A) (f : A -> M World B) :
  respects R m -> (forall a, respects R (f a)) -> respects R (m ≫= f).
Proof.
  intros Hm Hf w1 w2 Hw. apply rwp_bind. eapply rwp_mono; [by apply Hm| |done].
  intros a w1' b w2' [<- Hw']. by apply Hf.
Qed.

Lemma respects_gets {A} (f : World -> A) : (forall w1 w2, agree R w1 w2 -> f w1 = f w2) -> respects R (gets f).
Proof. intros Hf w1 w2 Hw. split; [by apply Hf|done]. Qed.

Lemma respects_modify (f : World -> World) : (forall w1 w2, agree R w1 w2 -> agree R (f w1) (f w2)) -> respects R (modify f).
Proof. intros Hf w1 w2 Hw. split; [done|by apply Hf]. Qed.

Lemma respects_panic {A} : respects R (@panic _ A).
Proof. intros w1 w2 Hw. by apply (agree_alike R). Qed.

Lemma respects_unwrap {A} (o : option A) : respects R (unwrap o).
Proof. destruct o; [apply respects_ret|apply respects_panic]. Qed.

Lemma respects_loop {A B} (body : A -> M World (A + B)) fuel a :
  (forall a, respects R (body a)) -> respects R (loop fuel body a).
Proof.
  intros Hb w1 w2 Hw. apply (rwp_loop (fun a1 w1 a2 w2 => a1 = a2 /\ agree R w1 w2)); [|done].
  intros a1 w1' a2 w2' [<- Hw']. eapply rwp_mono; [by apply Hb| |done].
  intros r w1'' ? w2'' [<- ?]. by destruct r.
Qed.

Lemma respects_for_each {A} (l : list A) (body : A -> M World unit) :
  (forall a, respects R (body a)) -> respects R (for_each l body).
Proof.
  intros Hb. induction l as [|a l IH]; cbn [for_each]; [apply respects_ret|]. by apply respects_bind.
Qed.

(** The fuel is computed from the state. *)
Lemma respects_measured {A} (n : World -> nat) (f : nat -> M World A) :
  (forall w1 w2, agree R w1 w2 -> n w1 = n w2) -> (forall k, respects R (f k)) -> respects R (fun w => f (n w) w).
Proof. intros Hn Hf w1 w2 Hw. unfold rwp. rewrite (Hn w1 w2 Hw). by apply Hf. Qed.
End respects_rules.

Create HintDb blind.

Ltac respects :=
  repeat first
    [ solve [auto with blind]
    | exact (respects_ret _ _) | exact (respects_panic _) | exact (respects_unwrap _ _)
    | refine (respects_loop _ _ _ _ _); intros | refine (respects_for_each _ _ _ _); intros
    | refine (respects_bind _ _ _ _ _); intros
    | match goal with |- respects _ (match ?x with _ => _ end) => destruct x end ].

Section blind.
Context {P : Platform}.
Implicit Types r : nat -> list rx_event -> list rx_event -> Prop.

Lemma agree_with_heap r h w1 w2 : agree r w1 w2 -> agree r (with_heap h w1) (with_heap h w2).
Proof. intros []. by split. Qed.
Lemma agree_with_chans r h w1 w2 : agree r w1 w2 -> agree r (with_chans h w1) (with_chans h w2).
Proof. intros []. by split. Qed.
Lemma agree_with_ctx r c w1 w2 : agree r w1 w2 -> agree r (with_ctx c w1) (with_ctx c w2).
Proof. intros []. by split. Qed.
Lemma agree_with_log r l w1 w2 : agree r w1 w2 -> agree r (with_log l w1) (with_log l w2).
Proof. intros []. by split. Qed.
Lemma agree_with_oracle r l w1 w2 : agree r w1 w2 -> agree r (with_oracle l w1) (with_oracle l w2).
Proof. intros []. by split. Qed.

Lemma gets_ctx_blind r : respects r (gets ctx).
Proof. apply respects_gets. by intros w1 w2 []. Qed.

Lemma atomic_store_blind r l b : respects r (atomic_store l b).
Proof. apply respects_modify. intros w1 w2 Hw. rewrite (ag_heap _ _ _ Hw). by apply agree_with_heap. Qed.

Lemma log_call_blind r c : respects r (log_call c).
Proof. apply respects_modify. intros w1 w2 Hw. rewrite (ag_log _ _ _ Hw). by apply agree_with_log. Qed.

Lemma in_ctx_blind r f : respects r (in_ctx f).
Proof.
  apply respects_modify. intros w1 w2 Hw. unfold upd_ctx. rewrite (ag_ctx _ _ _ Hw). by apply agree_with_ctx.
Qed.

Lemma succeeds_blind r : respects r succeeds.
Proof.
  intros w1 w2 Hw. unfold rwp, succeeds. rewrite (ag_oracle _ _ _ Hw). destruct (oracle w2) as [|b l]; [done|].
  split; [done|]. by apply agree_with_oracle.
Qed.

Lemma write_all_blind r sid bs : respects r (write_all sid bs).
Proof.
  intros w1 w2 Hw. unfold rwp, write_all. rewrite (ag_tx _ _ _ Hw). destruct (tx_write_all _ _) as [[res tx'] out].
  split; [done|]. destruct Hw. split; try done; intros sid'.
  all: destruct (decide (sid' = sid)) as [->|Hne];
    [rewrite !sock_set_sock; simpl; first [done|by f_equal]|].
  all: unfold sock in *; simpl; by rewrite !lookup_insert_ne.
Qed.
End blind.

#[export] Hint Resolve gets_ctx_blind atomic_store_blind log_call_blind in_ctx_blind succeeds_blind
  write_all_blind : blind.

Section blind_operations.
Context {P : Platform}.
Implicit Types r : nat -> list rx_event -> list rx_event -> Prop.

Lemma try_clone_blind r sid : respects r (try_clone_unwrap sid).
Proof. unfold try_clone_unwrap. respects. Qed.
#[local] Hint Resolve try_clone_blind : blind.

Lemma close_blind r : respects r close_and_clean_connection.
Proof. unfold close_and_clean_connection. respects. Qed.
#[local] Hint Resolve close_blind : blind.

Lemma send_slices_blind r que : respects r (send_slices que).
Proof. unfold send_slices. respects. Qed.
#[local] Hint Resolve send_slices_blind : blind.

Lemma send_tracepoint_list_blind r : respects r send_tracepoint_list.
Proof. unfold send_tracepoint_list. respects. Qed.

Lemma send_trace_data_blind r : respects r send_trace_data.
Proof.
  apply (respects_measured _ send_fuel send_trace_data_loop).
  - intros w1 w2 Hw. unfold send_fuel. by rewrite (ag_ctx _ _ _ Hw).
  - intros k. unfold send_trace_data_loop, send_trace_data_body. respects.
Qed.
#[local] Hint Resolve send_trace_data_blind : blind.

Lemma try_recv_blind r : respects r try_recv.
Proof.
  intros w1 w2 Hw. unfold rwp, try_recv. rewrite (ag_ctx _ _ _ Hw), (ag_chans _ _ _ Hw).
  destruct (chans w2 !! _) as [q|]; [|done]. destruct (channel_try_recv q). split; [done|].
  by apply agree_with_chans.
Qed.
#[local] Hint Resolve try_recv_blind : blind.

Lemma channel_handler_blind r : respects r channel_handler.
Proof.
  apply (respects_measured _ (fun w => S (length (queued w))) (fun k => loop k channel_handler_body Normal)).
  - intros w1 w2 Hw. unfold queued. by rewrite (ag_ctx _ _ _ Hw), (ag_chans _ _ _ Hw).
  - intros k. unfold channel_handler_body, channel_data_handler. respects.
Qed.

Lemma poll_timer_blind r : respects r poll_timer.
Proof.
  intros w1 w2 Hw. unfold rwp, poll_timer, upd_ctx. rewrite (ag_ctx _ _ _ Hw). destruct (timer_poll _).
  split; [done|]. by apply agree_with_ctx.
Qed.
#[local] Hint Resolve poll_timer_blind : blind.

Lemma announce_blind r : respects r announce_tracer.
Proof. unfold announce_tracer, format_json. respects. Qed.
#[local] Hint Resolve announce_blind : blind.

Lemma timer_handler_blind r : respects r timer_handler.
Proof.
  apply (respects_measured _ (fun w => S (timer_due (ctx_timer (ctx w)))) (fun k => loop k timer_handler_body tt)).
  - intros w1 w2 Hw. by rewrite (ag_ctx _ _ _ Hw).
  - intros k. unfold timer_handler_body. respects.
Qed.

Lemma expect_success_blind r : respects r expect_success.
Proof. unfold expect_success. respects. Qed.
#[local] Hint Resolve expect_success_blind : blind.

Lemma init_from_blind r ports : respects r (init_from ports).
Proof. induction ports as [|port ports IH]; cbn [init_from]; respects. Qed.

Lemma init_blind r : respects r Tcp.init.
Proof. apply init_from_blind. Qed.
#[local] Hint Resolve init_blind : blind.

Lemma with_ctx_blind r c : respects r (modify (with_ctx c)).
Proof. apply respects_modify. intros w1 w2. apply agree_with_ctx. Qed.
#[local] Hint Resolve with_ctx_blind : blind.

Lemma setup_blind r cfg cc q announce : respects r (tracer_thread_setup cfg cc q announce).
Proof. unfold tracer_thread_setup, Beacon.init. respects. Qed.
End blind_operations.

#[export] Hint Resolve try_clone_blind close_blind send_slices_blind send_tracepoint_list_blind
  send_trace_data_blind channel_handler_blind timer_handler_blind expect_success_blind setup_blind : blind.

(** * Accepting and receiving *)

Section Segment_free.
Context {P : Platform}.

Lemma accept_segment_free : segment_free accept.
Proof.
  intros w1 w2 Hw. unfold rwp, accept. pose proof (ag_backlog _ _ _ Hw) as Hb.
  destruct Hb as [|x1 x2 l1 l2 Hx Hl]; [done|].
  destruct x1 as [k1|s1], x2 as [k2|s2]; try done; simpl in Hx.
  - subst. split; [done|]. destruct Hw. by split.
  - destruct Hx as (Hrx & Htx & Hsent). rewrite (ag_next _ _ _ Hw). split; [done|].
    destruct Hw. split; try done; intros sid.
    all: unfold sock in *; simpl; rewrite !lookup_insert; case_decide; simpl; done.
Qed.

Lemma establish_connection_segment_free : segment_free establish_connection.
Proof.
  pose proof accept_segment_free. unfold segment_free, establish_connection in *. respects.
Qed.

(** Two readers of the same socket that are at the same point of the stream,
    though they may have buffered different amounts. *)
Definition reading (br1 br2 : BufReader) (sid : nat) (rx1 rx2 : list rx_event) : Prop :=
  if decide (sid = br_sock br1) then map Byte (br_buf br1) ++ items rx1 = map Byte (br_buf br2) ++ items rx2
  else same_stream rx1 rx2.

Definition at_same_point (br1 : BufReader) (w1 : World) (br2 : BufReader) (w2 : World) : Prop :=
  br_sock br1 = br_sock br2 /\ agree (reading br1 br2) w1 w2.

Lemma same_unread br1 w1 br2 w2 : at_same_point br1 w1 br2 w2 -> unread br1 w1 = unread br2 w2.
Proof.
  intros [Hs Hw]. pose proof (ag_rx _ _ _ Hw (br_sock br1)) as H. unfold reading in H.
  rewrite decide_True in H by done. unfold unread. by rewrite <-Hs.
Qed.

Lemma moved_sock sid sid' w w' : moved sid w w' -> sid' <> sid -> sock sid' w' = sock sid' w.
Proof. intros [->|[r ->]] Hne; [done|]. unfold sock. simpl. by rewrite lookup_insert_ne. Qed.

Lemma moved_fields sid w w' :
  moved sid w w' ->
  ctx w' = ctx w /\ heap w' = heap w /\ chans w' = chans w /\ next_sock w' = next_sock w /\
  oracle w' = oracle w /\ log w' = log w /\ backlog w' = backlog w /\
  (forall sid', tx (sock sid' w') = tx (sock sid' w) /\ sent (sock sid' w') = sent (sock sid' w)).
Proof.
  intros Hm. destruct (Hm) as [->|[r ->]]; [done|]. split_and!; try done. intros sid'.
  destruct (decide (sid' = sid)) as [->|Hne].
  - unfold set_rx. by rewrite sock_set_sock.
  - by rewrite (moved_sock _ _ _ _ Hm Hne).
Qed.

(** Both readers move on to the same point. *)
Lemma moved_same_point br1 w1 br1' w1' br2 w2 br2' w2' :
  at_same_point br1 w1 br2 w2 ->
  moved (br_sock br1) w1 w1' -> br_sock br1' = br_sock br1 ->
  moved (br_sock br2) w2 w2' -> br_sock br2' = br_sock br2 ->
  unread br1' w1' = unread br2' w2' -> at_same_point br1' w1' br2' w2'.
Proof.
  intros [Hs Hw] Hm1 Hs1 Hm2 Hs2 Hu. split; [congruence|].
  destruct (moved_fields _ _ _ Hm1) as (? & ? & ? & ? & ? & ? & ? & Hts1).
  destruct (moved_fields _ _ _ Hm2) as (? & ? & ? & ? & ? & ? & ? & Hts2).
  destruct Hw as [? ? ? ? ? ? Hback Hrx Htx Hsent]. split; try congruence.
  - intros sid. unfold reading. case_decide as Hd.
    + subst sid. unfold unread in Hu. by rewrite Hs2, <-Hs, <-Hs1 in Hu.
    + rewrite (moved_sock _ _ _ _ Hm1), (moved_sock _ _ _ _ Hm2) by congruence.
      specialize (Hrx sid). unfold reading in Hrx. rewrite decide_False in Hrx by congruence. done.
  - intros sid. destruct (Hts1 sid) as [E1 _], (Hts2 sid) as [E2 _]. by rewrite E1, E2, Htx.
  - intros sid. destruct (Hts1 sid) as [_ E1], (Hts2 sid) as [_ E2]. by rewrite E1, E2, Hsent.
Qed.

(** Two reads: the same result, and on an error nothing is left in the
    buffers. *)
Definition reads_alike {A E} (x : Result A E * BufReader) w1 (y : Result A E * BufReader) w2 : Prop :=
  x.1 = y.1 /\ at_same_point x.2 w1 y.2 w2 /\ (is_ok x.1 = false -> br_buf x.2 = [] /\ br_buf y.2 = []).

Lemma read_exact_alike n br1 w1 br2 w2 R :
  at_same_point br1 w1 br2 w2 -> rwp (read_exact n br1) (read_exact n br2) reads_alike R w1 w2.
Proof.
  intros Hw. destruct (read_exact_items n br1 w1) as (r1 & br1' & w1' & Hrun1 & Hm1 & Hs1 & H1 & Hb1).
  destruct (read_exact_items n br2 w2) as (r2 & br2' & w2' & Hrun2 & Hm2 & Hs2 & H2 & Hb2).
  eapply rwp_eq; [done|done|]. rewrite (same_unread _ _ _ _ Hw), H2 in H1. injection H1 as <- Hu.
  split; [done|]. simpl. split; [by eapply moved_same_point|]. intros H. by split; [apply Hb1|apply Hb2].
Qed.

Lemma blind_at_same_point {A} (m : M World A) br1 w1 br2 w2 :
  blind m -> at_same_point br1 w1 br2 w2 ->
  rwp m m (fun a w1' b w2' => a = b /\ at_same_point br1 w1' br2 w2') alike w1 w2.
Proof.
  intros Hm [Hs Hw]. eapply rwp_mono; [by apply Hm| |done]. intros a w1' b w2' [<- Hw']. by split.
Qed.

(** At the end of a reader nothing may be left in its buffer. *)
Lemma done_reading br1 w1 br2 w2 :
  at_same_point br1 w1 br2 w2 -> br_buf br1 = [] -> br_buf br2 = [] -> resegmented w1 w2.
Proof.
  intros [_ Hw] H1 H2. unfold resegmented. eapply agree_mono; [|exact Hw]. intros sid. unfold reading.
  case_decide; [|done]. by rewrite H1, H2.
Qed.

Definition both_done (b1 : BufReader) w1 (b2 : BufReader) w2 : Prop :=
  at_same_point b1 w1 b2 w2 /\ br_buf b1 = [] /\ br_buf b2 = [].

Lemma read_empty_alike br1 w1 br2 w2 :
  at_same_point br1 w1 br2 w2 -> rwp (read_empty br1) (read_empty br2) both_done alike w1 w2.
Proof.
  intros Hw. pose proof (same_unread _ _ _ _ Hw) as Hu. unfold rwp, read_empty.
  destruct (read_empty_items (S (reader_total br1 w1)) br1 w1) as (br1' & w1' & -> & Hm1 & Hs1 & Hu1 & Hb1);
    [rewrite reader_total_items; lia|].
  destruct (read_empty_items (S (reader_total br2 w2)) br2 w2) as (br2' & w2' & -> & Hm2 & Hs2 & Hu2 & Hb2);
    [rewrite reader_total_items; lia|].
  rewrite Hu in *. assert (at_same_point br1' w1' br2' w2') as Hw'.
  { eapply moved_same_point; try done. congruence. }
  match goal with |- match (?m1 ≫= _) w1' with _ => _ end =>
    change (rwp (m1;; mret br1') (m1;; mret br2') both_done alike w1' w2') end.
  apply rwp_bind. eapply rwp_mono; [apply (blind_at_same_point _ br1' _ br2' _); [|exact Hw']| |done].
  - intros r. destruct (drain _).1; respects.
  - intros [] w1'' [] w2'' [_ Hw'']. by split.
Qed.

Definition iteration_alike (x : Z * BufReader) w1 (y : Z * BufReader) w2 : Prop :=
  x.1 = y.1 /\ at_same_point x.2 w1 y.2 w2.

(** Closing the connection and going on with the reader. *)
Lemma close_alike {A} (f : BufReader -> A) (Q : A -> World -> A -> World -> Prop) br1 w1 br2 w2 :
  at_same_point br1 w1 br2 w2 ->
  (forall w1' w2', at_same_point br1 w1' br2 w2' -> Q (f br1) w1' (f br2) w2') ->
  rwp (close_and_clean_connection;; mret (f br1)) (close_and_clean_connection;; mret (f br2)) Q alike w1 w2.
Proof.
  intros Hw HQ. apply rwp_bind. eapply rwp_mono; [eapply blind_at_same_point; [|exact Hw]| |done].
  - intros r. apply close_blind.
  - intros [] w1' [] w2' [_ Hw']. by apply HQ.
Qed.

Lemma set_tracepoints_body_alike len state i br1 w1 br2 w2 :
  at_same_point br1 w1 br2 w2 ->
  rwp (set_tracepoints_body len state (i, br1)) (set_tracepoints_body len state (i, br2))
    (fun r1 w1' r2 w2' =>
       match r1, r2 with
       | inl a1, inl a2 => iteration_alike a1 w1' a2 w2'
       | inr b1, inr b2 => at_same_point b1 w1' b2 w2'
       | _, _ => False
       end) alike w1 w2.
Proof.
  intros Hw. unfold set_tracepoints_body. destruct (negb _); [done|].
  apply rwp_bind. eapply rwp_mono; [by apply (read_exact_alike _ _ _ _ _ alike)| |done].
  intros [[l1|k1] b1] w1' [r2 b2] w2' (E & Hw' & _); simpl in E, Hw'; subst r2; [|by apply (close_alike inr)].
  case_match; [by apply (close_alike inr)|].
  apply rwp_bind. eapply rwp_mono; [by apply (read_exact_alike _ _ _ _ _ alike)| |done].
  intros [[n1|k1] c1] w1'' [r2 c2] w2'' (E & Hw'' & _); simpl in E, Hw''; subst r2; [|by apply (close_alike inr)].
  apply rwp_bind, rwp_gets. destruct Hw'' as [Hs Hag]. rewrite (ag_ctx _ _ _ Hag).
  apply rwp_bind. eapply rwp_mono; [apply (blind_at_same_point _ c1 _ c2 _); [|by split]| |done].
  - intros r. respects.
  - intros [] w1''' [] w2''' [_ ?]. by split.
Qed.

Lemma set_tracepoints_alike len state br1 w1 br2 w2 :
  at_same_point br1 w1 br2 w2 ->
  rwp (set_tracepoints len br1 state) (set_tracepoints len br2 state) at_same_point alike w1 w2.
Proof.
  intros Hw. unfold rwp, set_tracepoints. rewrite !reader_total_items, (same_unread _ _ _ _ Hw).
  apply (rwp_loop iteration_alike); [|by split].
  intros [i1 b1] w1' [i2 b2] w2' [E Hw']. simpl in E, Hw'. subst i2. by apply set_tracepoints_body_alike.
Qed.

Lemma execute_command_alike cmd len br1 w1 br2 w2 :
  at_same_point br1 w1 br2 w2 ->
  rwp (execute_command cmd len br1) (execute_command cmd len br2) at_same_point alike w1 w2.
Proof.
  intros Hw. destruct cmd; simpl; try done; try by apply set_tracepoints_alike.
  apply rwp_bind. eapply rwp_mono; [eapply blind_at_same_point; [|exact Hw]| |done].
  - intros r. apply send_tracepoint_list_blind.
  - by intros [] w1' [] w2' [_ ?].
Qed.

Lemma receive_body_alike br1 w1 br2 w2 :
  at_same_point br1 w1 br2 w2 ->
  rwp (receive_body br1) (receive_body br2)
    (fun r1 w1' r2 w2' =>
       match r1, r2 with
       | inl b1, inl b2 => at_same_point b1 w1' b2 w2'
       | inr _, inr _ => resegmented w1' w2'
       | _, _ => False
       end) alike w1 w2.
Proof.
  intros Hw. unfold receive_body. apply rwp_bind.
  eapply rwp_mono; [by apply (read_exact_alike _ _ _ _ _ alike)| |done].
  intros [[h1|k1] b1] w1' [r2 b2] w2' (E & Hw' & Hb); simpl in E, Hw', Hb; subst r2.
  - destruct (check_parse_header h1) as [[cmd len]|].
    + apply rwp_bind. eapply rwp_mono; [by apply execute_command_alike| |done]. done.
    + apply rwp_bind. eapply rwp_mono; [eapply blind_at_same_point; [intros r; apply close_blind|exact Hw']| |done].
      intros [] w1'' [] w2'' [_ Hw'']. apply rwp_bind.
      eapply rwp_mono; [by apply read_empty_alike| |done]. intros c1 ? c2 ? (Hc & H1 & H2).
      by apply (done_reading c1 _ c2).
  - destruct (Hb eq_refl) as [H1 H2]. apply rwp_bind.
    eapply rwp_mono; [eapply blind_at_same_point; [|exact Hw']| |done].
    + intros r. case_bool_decide; respects.
    + intros [] w1'' [] w2'' [_ Hw'']. by apply (done_reading b1 _ b2).
Qed.

Lemma receive_segment_free : segment_free receive.
Proof.
  unfold receive. refine (respects_bind _ _ _ _ _); [apply gets_ctx_blind|]. intros c.
  refine (respects_bind _ _ _ _ _); [apply respects_unwrap|]. intros sid.
  refine (respects_bind _ _ _ _ _); [apply try_clone_blind|]. intros sid' w1 w2 Hw.
  assert (at_same_point (mkBuf sid' []) w1 (mkBuf sid' []) w2) as Hpt.
  { split; [done|]. eapply agree_mono; [|exact Hw]. intros k H. unfold reading. by case_decide. }
  unfold rwp, receive_loop. rewrite !reader_total_items, (same_unread _ _ _ _ Hpt).
  apply (rwp_loop at_same_point); [|done]. intros b1 w1' b2 w2' Hw'.
  eapply rwp_mono; [by apply receive_body_alike| |done].
  intros [c1|[]] ? [c2|[]] ?; done.
Qed.

(** * The thread *)

Lemma event_handler_segment_free events : segment_free (event_handler events).
Proof.
  unfold event_handler. generalize Normal. induction events as [|token events IH]; intros ret; cbn [event_handler_from].
  { apply respects_ret. }
  pose proof receive_segment_free. pose proof establish_connection_segment_free. unfold segment_free in *. respects.
Qed.

Lemma thread_loop_segment_free batches : segment_free (tracer_thread_loop batches).
Proof.
  induction batches as [|events batches IH]; cbn [tracer_thread_loop]; [apply respects_ret|].
  pose proof (event_handler_segment_free events). unfold segment_free in *. respects.
Qed.

(** C12: The behaviour of the tracer thread does not depend on the sizes of the
    pieces in which it reads what has arrived: from two worlds that differ only
    in how the bytes between two pauses -- or the end, or an error -- of the
    sockets, and of connections not yet accepted, are split up, any sequence of
    batches of events is handled in the same way -- the same ending, the same
    state of the thread, the same flags and channels, the same calls to the
    system and the same bytes sent to every client -- and if it does not panic
    the sockets hold the same streams afterwards.  The pauses are the same in
    both: a pause inside a request is another matter. *)
Theorem thread_ignores_read_sizes cfg cc q announce batches w1 w2 :
  resegmented w1 w2 ->
  rwp (tracer_thread_main cfg cc q announce batches) (tracer_thread_main cfg cc q announce batches)
    (fun ended1 w1' ended2 w2' => ended1 = ended2 /\ resegmented w1' w2') alike w1 w2.
Proof.
  revert w1 w2. change (segment_free (tracer_thread_main cfg cc q announce batches)).
  refine (respects_bind _ _ _ _ _); [apply setup_blind|]. intros _. apply thread_loop_segment_free.
Qed.
End Segment_free.

(** * An instance *)

Definition list_request : list u8 := push_front_header [] TracepointListRequest.

(** "cpu" is being registered; a client that asks for the list is waiting. *)
Definition segment_world (pieces : list (list u8)) : World :=
  with_chans {[ 0%nat := Ref.mk_channel [NewTracepoint (mkTracepoint cpu 1)] true ]}
    (idle_world [inr (mkSocket (map RxData pieces) [] [])]).

Definition at_once : World := segment_world [list_request].
Definition byte_by_byte : World := segment_world (map (fun b => [b]) list_request).
Definition segment_batches : list (list Z) := [[CHAN]; [CON_NEW; CON_DATA]].
Definition segment_run : M World bool := tracer_thread_main example_cfg 0 0 true segment_batches.

Lemma thread_ignores_read_sizes_witness :
  rwp segment_run segment_run (fun ended1 w1' ended2 w2' => ended1 = ended2 /\ resegmented w1' w2') alike
    at_once byte_by_byte.
Proof.
  apply (thread_ignores_read_sizes example_cfg 0 0 true segment_batches). split; try reflexivity.
  repeat constructor.
Defined.

(** The client is answered. *)
Example segment_run_answers :
  match segment_run byte_by_byte with
  | Ret _ w => sent (sock 0 w) = push_front_header (tracepoint_list_msg [cpu]) TracepointListReply
  | _ => False
  end.
Proof. vm_compute. reflexivity. Qed.

(** A pause inside the request: it is lost. *)
Example segment_run_pause :
  match segment_run (with_backlog [inr (mkSocket
      [RxData (take 6 list_request); RxErr WouldBlock; RxData (drop 6 list_request)] [] [])] at_once) with
  | Ret _ w => sent (sock 0 w) = []
  | _ => False
  end.
Proof. vm_compute. reflexivity. Qed.
