(* ===== verification/Invariant.v ===== *)
(** The invariant of the tracer thread, and the proof that the operations of
    the context and of the TCP handler keep it -- also in the state they leave
    behind when they panic -- and never hang. *)

From S2P Require Import Prelude Monad Platform Types Strings Context Io Wire Tcp Beacon Handlers.

(** An element that fits a message of its own: what [send_trace_data] needs to
    make progress. *)
Definition fits (e : BufferElement) : Prop :=
  BufferElement_len e + HEADER_LEN < QUEUE_TOTAL_SIZE.

Section Invariant_defs.
Context `{P : Platform}.

(** A flag of a tracepoint: allocated, and not the [client_connected] flag. *)
Definition tp_cell (w : World) (l : nat) : Prop :=
  is_Some (heap w !! l) /\ l <> ctx_client_connected (ctx w).

Definition msg_ok (w : World) (m : ChannelMessage) : Prop :=
  match m with
  | Payload e => fits e
  | NewTracepoint t => normal_name (tp_name t) /\ tp_cell w (tp_state t)
  | MsgTerminate => True
  end.

Record Inv (w : World) : Prop := {
  inv_timer : timer_ok (ctx w);
  inv_fits : Forall fits (buffer (ctx w));
  inv_connected :
    heap w !! ctx_client_connected (ctx w) = Some (bool_decide (is_Some (connection (ctx w))));
  inv_sock : forall sid, connection (ctx w) = Some sid -> is_Some (socks w !! sid);
  inv_cells : forall name l, ctx_tracepoints (ctx w) !! name = Some l ->
    normal_name name /\ tp_cell w l;
  inv_udp : is_Some (udp_sock (ctx w)) -> is_Some (announce_addr (app_cfg (ctx w)));
  inv_queue : Forall (msg_ok w) (queued w);
  inv_port : is_Some (local_port (listener (ctx w)));
}.

(** What the operations below leave alone. *)
Record frame0 (w w' : World) : Prop := {
  fr_rec : rec (ctx w') = rec (ctx w);
  fr_chans : chans w' = chans w;
  fr_due : (timer_due (ctx_timer (ctx w')) <= timer_due (ctx_timer (ctx w)))%nat;
  fr_socks : forall sid, is_Some (socks w !! sid) -> is_Some (socks w' !! sid);
  fr_tracepoints : ctx_tracepoints (ctx w') = ctx_tracepoints (ctx w);
  fr_cc : ctx_client_connected (ctx w') = ctx_client_connected (ctx w);
  fr_cfg : app_cfg (ctx w') = app_cfg (ctx w);
}.

Definition frame (w w' : World) : Prop :=
  frame0 w w' /\ forall sid, rx (sock sid w') = rx (sock sid w).

#[local] Instance frame0_preorder : PreOrder frame0.
Proof.
  split.
  - intros w. split; auto.
  - intros a b c [] []. split; try congruence; [lia|auto].
Qed.

#[local] Instance frame_preorder : PreOrder frame.
Proof.
  split.
  - intros w. by split.
  - intros a b c [? Hab] [? Hbc]. split; [by etrans|]. intros sid. by rewrite Hbc.
Qed.

Lemma frame_frame0 w w' : frame w w' -> frame0 w w'.
Proof. by intros []. Qed.

(** [safe F m]: from a state of the invariant, [m] neither hangs nor is
    undefined, keeps the invariant on every outcome, and respects [F]. *)
Definition safe (F : World -> World -> Prop) {A} (m : M World A) : Prop :=
  forall w, Inv w -> wp m (fun _ w' => Inv w' /\ F w w') Inv w.

Section safe_rules.
Context (F : World -> World -> Prop) `{!PreOrder F}.

Lemma safe_ret {A} (a : A) : safe F (mret a).
Proof. intros w Hw. apply wp_ret. by split. Qed.

Lemma safe_bind {A B} (m : M World A) (f : A -> M World B) :
  safe F m -> (forall a, safe F (f a)) -> safe F (m ≫= f).
Proof.
  intros Hm Hf w Hw. apply wp_bind. eapply wp_mono; [by apply Hm| |done].
  intros a w1 [Hw1 HF]. eapply wp_mono; [by apply Hf| |done].
  intros b w2 [Hw2 HF2]. split; [done|by etrans].
Qed.

Lemma safe_gets {A} (f : World -> A) : safe F (gets f).
Proof. intros w Hw. apply wp_gets. by split. Qed.

Lemma safe_panic {A} : safe F (@panic _ A).
Proof. by intros w Hw. Qed.

Lemma safe_unwrap {A} (o : option A) : safe F (unwrap o).
Proof. destruct o; [apply safe_ret|apply safe_panic]. Qed.

Lemma safe_modify (f : World -> World) :
  (forall w, Inv w -> Inv (f w) /\ F w (f w)) -> safe F (modify f).
Proof. intros H w Hw. apply wp_modify. by apply H. Qed.

(** Continue from a spec that says more than [safe]. *)
Lemma safe_step {A B} (m : M World A) (f : A -> M World B) (Q : A -> World -> World -> Prop) :
  (forall w, Inv w -> wp m (fun a w' => Inv w' /\ F w w' /\ Q a w w') Inv w) ->
  (forall a w w', Inv w -> Inv w' -> Q a w w' ->
     wp (f a) (fun _ w'' => Inv w'' /\ F w' w'') Inv w') ->
  safe F (m ≫= f).
Proof.
  intros Hm Hf w Hw. apply wp_bind. eapply wp_mono; [by apply Hm| |done].
  intros a w1 (Hw1 & HF & HQ). eapply wp_mono; [exact (Hf _ _ _ Hw Hw1 HQ)| |done].
  intros b w2 [Hw2 HF2]. split; [done|by etrans].
Qed.
End safe_rules.

Lemma safe_weaken (F G : World -> World -> Prop) {A} (m : M World A) :
  (forall w w', F w w' -> G w w') -> safe F m -> safe G m.
Proof. intros HFG Hm w Hw. eapply wp_mono; [by apply Hm| |done]. intros a w' []. auto. Qed.

Lemma safe_frame0 {A} (m : M World A) : safe frame m -> safe frame0 m.
Proof. apply safe_weaken, frame_frame0. Qed.

(** ** Ingredients of the invariant *)

Lemma tp_cell_mono w w' l :
  (forall k, is_Some (heap w !! k) -> is_Some (heap w' !! k)) ->
  ctx_client_connected (ctx w') = ctx_client_connected (ctx w) ->
  tp_cell w l -> tp_cell w' l.
Proof. intros Hh Hc [? ?]. split; [auto|congruence]. Qed.

Lemma msg_ok_mono w w' m :
  (forall k, is_Some (heap w !! k) -> is_Some (heap w' !! k)) ->
  ctx_client_connected (ctx w') = ctx_client_connected (ctx w) ->
  msg_ok w m -> msg_ok w' m.
Proof. intros Hh Hc. destruct m; simpl; [done| |done]. intros []. eauto using tp_cell_mono. Qed.

(** The invariant survives every change that keeps the parts it reads. *)
Lemma Inv_update w w' :
  Inv w ->
  timer_ok (ctx w') ->
  Forall fits (buffer (ctx w')) ->
  heap w' !! ctx_client_connected (ctx w') = Some (bool_decide (is_Some (connection (ctx w')))) ->
  (forall sid, connection (ctx w') = Some sid -> is_Some (socks w' !! sid)) ->
  (forall k, is_Some (heap w !! k) -> is_Some (heap w' !! k)) ->
  ctx_client_connected (ctx w') = ctx_client_connected (ctx w) ->
  ctx_tracepoints (ctx w') = ctx_tracepoints (ctx w) ->
  (is_Some (udp_sock (ctx w')) -> is_Some (announce_addr (app_cfg (ctx w')))) ->
  queued w' = queued w -> listener (ctx w') = listener (ctx w) ->
  Inv w'.
Proof.
  intros [] Ht Hf Hc Hs Hh Hcc Htp Hu Hq Hport. split; rewrite ?Hport; try done.
  - intros name l. rewrite Htp. intros Hl. destruct (inv_cells0 _ _ Hl). eauto using tp_cell_mono.
  - rewrite Hq. eapply Forall_impl; [done|]. intros. by eapply msg_ok_mono.
Qed.

Lemma queued_frame w w' :
  rec (ctx w') = rec (ctx w) -> chans w' = chans w -> queued w' = queued w.
Proof. unfold queued. by intros -> ->. Qed.
End Invariant_defs.

#[export] Existing Instance frame0_preorder.
#[export] Existing Instance frame_preorder.

(** The operations already proved safe. *)
Create HintDb safe.

(** Decompose a handler into operations proved safe. *)
Ltac safe_auto :=
  repeat first
    [ solve [auto with safe]
    | apply safe_ret; apply _ | apply safe_gets; apply _ | apply safe_unwrap; apply _
    | apply safe_panic; apply _ | (apply safe_bind; [apply _| |intros ?]) | case_match ].

Section ops.
Context {P : Platform} {TL : TimerLaws P} {HL : HashLaws P}.

(** ** Context *)

Lemma in_ctx_timers_safe (f : TracerContext -> TracerContext) :
  timers_only f -> (forall c, timer_ok c -> timer_ok (f c)) -> safe frame (in_ctx f).
Proof.
  intros Hf Hok. apply safe_modify. intros w Hw. pose proof (Hok _ (inv_timer _ Hw)) as Ht.
  destruct (Hf (ctx w)) as (t & q & u & E & Hle). unfold upd_ctx in *. rewrite E in *.
  split.
  - destruct Hw. by apply (Inv_update w).
  - by split.
Qed.

Lemma start_queue_safe : safe frame (in_ctx check_start_queue_timer).
Proof. apply in_ctx_timers_safe; [apply start_queue_timers|auto with timer_ok]. Qed.
Lemma stop_queue_safe : safe frame (in_ctx check_stop_queue_timer).
Proof. apply in_ctx_timers_safe; [apply stop_queue_timers|auto with timer_ok]. Qed.
Lemma start_udp_safe : safe frame (in_ctx check_start_udp_timer).
Proof. apply in_ctx_timers_safe; [apply start_udp_timers|auto with timer_ok]. Qed.
Lemma stop_udp_safe : safe frame (in_ctx check_stop_udp_timer).
Proof. apply in_ctx_timers_safe; [apply stop_udp_timers|auto with timer_ok]. Qed.

Lemma closed_heap_cc c h :
  closed_heap c h !! ctx_client_connected c = Some false.
Proof.
  unfold closed_heap. rewrite lookup_clear_flags. case_decide; [done|]. by rewrite lookup_insert_eq.
Qed.

Lemma closed_heap_dom c h k : is_Some (h !! k) -> is_Some (closed_heap c h !! k).
Proof.
  intros Hk. unfold closed_heap. rewrite lookup_clear_flags. case_decide; [by eexists|].
  rewrite lookup_insert. case_decide; [by eexists|done].
Qed.

Lemma timer_ok_closed c : timer_ok c -> timer_ok (closed_ctx c).
Proof.
  intros H. apply timer_ok_start_udp, timer_ok_stop_queue. by destruct H as [Hp Hn]; split.
Qed.

Lemma close_inv w w' :
  Inv w -> ctx w' = closed_ctx (ctx w) -> heap w' = closed_heap (ctx w) (heap w) ->
  chans w' = chans w -> socks w' = socks w -> Inv w' /\ frame w w'.
Proof.
  intros Hw Hctx Hheap Hch Hso. pose proof (timer_ok_closed _ (inv_timer _ Hw)) as Ht.
  destruct (closed_ctx_shape (ctx w)) as (t & q & u & E & Hle). rewrite E in *. split.
  - apply (Inv_update w); rewrite ?Hctx; simpl; try done.
    + apply inv_fits, Hw.
    + rewrite Hheap. apply closed_heap_cc.
    + rewrite Hheap. apply closed_heap_dom.
    + apply inv_udp, Hw.
    + apply queued_frame; [by rewrite Hctx|done].
  - split; [split|]; rewrite ?Hctx, ?Hso; simpl; try done. intros sid. unfold sock. by rewrite Hso.
Qed.

Lemma close_safe : safe frame close_and_clean_connection.
Proof.
  intros w Hw. destruct (connection (ctx w)) as [sid|] eqn:Hc.
  - destruct (close_run w sid Hc) as (w' & Hrun & Hctx & Hheap & Hch & Hso & _).
    eapply wp_eq; [exact Hrun|]. by apply close_inv.
  - unfold wp. rewrite close_panics by done. pose proof Hw as [].
    apply (Inv_update w); simpl; try done.
    + by rewrite lookup_insert_eq, Hc.
    + intros k Hk. rewrite lookup_insert. case_decide; [by eexists|done].
Qed.

(** A store into the flag of a registered tracepoint. *)
Lemma store_safe_at l b w :
  Inv w -> tp_cell w l -> wp (atomic_store l b) (fun _ w' => Inv w' /\ frame w w') Inv w.
Proof.
  intros Hw [_ Hne]. apply wp_modify. split; [|by split].
  pose proof Hw as []. apply (Inv_update w); simpl; try done.
  - by rewrite lookup_insert_ne.
  - intros k Hk. rewrite lookup_insert. case_decide; [by eexists|done].
Qed.

Lemma append_safe e : fits e -> safe frame (in_ctx (append e)).
Proof.
  intros He. apply safe_modify. intros w Hw. split; [|by split].
  pose proof Hw as []. apply (Inv_update w); simpl; try done. apply Forall_app. by split; [|constructor].
Qed.

(** The elements of the buffer may be dropped from the front. *)
Lemma drop_front_safe_at e rest w :
  Inv w -> buffer (ctx w) = e :: rest ->
  wp (in_ctx (with_buffer rest)) (fun _ w' => Inv w' /\ frame w w' /\ buffer (ctx w') = rest) Inv w.
Proof.
  intros Hw Hb. apply wp_modify. split; [|split; [by split|done]].
  pose proof Hw as []. rewrite Hb in *. apply (Inv_update w); simpl; try done. by inversion inv_fits0.
Qed.

(** ** Sending *)

Lemma set_sock_inv sid s w :
  Inv w -> Inv (set_sock sid s w) /\ frame0 w (set_sock sid s w).
Proof.
  intros Hw. assert (forall k, is_Some (socks w !! k) -> is_Some (socks (set_sock sid s w) !! k)).
  { intros k Hk. simpl. rewrite lookup_insert. case_decide; [by eexists|done]. }
  split; [|by split]. pose proof Hw as []. apply (Inv_update w); simpl; try done. auto.
Qed.

Lemma write_all_safe sid bs : safe frame (write_all sid bs).
Proof.
  intros w Hw. destruct (write_all_run sid bs w) as (r & tx' & out & Hrun & _).
  eapply wp_eq; [exact Hrun|].
  destruct (set_sock_inv sid (mkSocket (rx (sock sid w)) tx' (sent (sock sid w) ++ out)) w Hw).
  split; [done|]. split; [done|]. intros k. unfold sock at 1. simpl. rewrite lookup_insert.
  case_decide; [by subst|done].
Qed.

#[local] Hint Resolve start_queue_safe stop_queue_safe start_udp_safe stop_udp_safe close_safe
  append_safe write_all_safe : safe.

Lemma send_slices_safe que : safe frame (send_slices que).
Proof. unfold send_slices. safe_auto. Qed.
#[local] Hint Resolve send_slices_safe : safe.

Lemma send_tracepoint_list_safe : safe frame send_tracepoint_list.
Proof. unfold send_tracepoint_list. safe_auto. Qed.

(** An empty send queue takes any element of the invariant, so an iteration
    that sends instead of taking had something to send. *)
Definition send_measure (a : list u8 * bool) (w : World) : nat :=
  2 * length (buffer (ctx w)) + (if a.1 is [] then 0 else 1).

Lemma send_trace_data_body_safe w0 a w :
  Inv w -> frame w0 w ->
  wp (send_trace_data_body a)
    (fun r w' => Inv w' /\ frame w0 w' /\
       match r with inl a' => (send_measure a' w' < send_measure a w)%nat | inr _ => True end) Inv w.
Proof.
  intros Hw Hfr. destruct a as [que last]. unfold send_trace_data_body. apply wp_bind, wp_gets.
  destruct (buffer (ctx w)) as [|e rest] eqn:Hb; [by apply wp_ret|].
  destruct (Z.ltb_spec (BufferElement_len e + zlen que + HEADER_LEN) QUEUE_TOTAL_SIZE) as [Hlt|Hge].
  - apply wp_bind. eapply wp_mono; [by eapply drop_front_safe_at| |done].
    intros _ w' (Hw' & Hfr' & Hb'). apply wp_ret. split; [done|]. split; [by etrans|].
    unfold send_measure. rewrite Hb, Hb'. simpl. destruct (encode_append_trace_data que e); simpl; lia.
  - assert (que <> []) as Hq.
    { intros ->. pose proof (inv_fits _ Hw) as Hf. rewrite Hb in Hf. inversion Hf as [|? ? Hfe]; subst.
      unfold fits in Hfe. rewrite zlen_nil in Hge. lia. }
    apply wp_bind. unfold send_slices. apply wp_bind, wp_gets, wp_bind, wp_unwrap; [|done].
    intros sid Hsid. apply wp_bind.
    destruct (write_all_run sid (push_front_header que TracePush) w) as (r & tx' & out & Hrun & _).
    pose proof (write_all_safe sid (push_front_header que TracePush) w Hw) as Hsafe.
    pose proof (wp_inv _ _ _ _ _ _ Hsafe Hrun) as [Hw' Hfr']. eapply wp_eq; [exact Hrun|].
    assert (frame w0 (set_sock sid (mkSocket (rx (sock sid w)) tx' (sent (sock sid w) ++ out)) w))
      as Hfr0 by by etrans.
    set (w' := set_sock _ _ _) in *.
    assert (send_measure ([], true) w' < send_measure (que, last) w)%nat as Hm.
    { unfold send_measure. simpl. destruct que; [done|]. simpl. lia. }
    destruct r as [u|e']; [|destruct e']; apply wp_ret; try (by apply wp_ret);
      (apply wp_bind; eapply wp_mono; [by apply close_safe| |done];
       intros _ w2 [Hw2 Hfr2]; apply wp_ret; split; [done|]; split; [by etrans|done]).
Qed.

Lemma send_trace_data_safe : safe frame send_trace_data.
Proof.
  intros w Hw. unfold send_trace_data, send_trace_data_loop. apply wp_bind.
  eapply wp_mono.
  - eapply (wp_loop (fun a w' => Inv w' /\ frame w w') send_measure
      send_trace_data_body (fun _ w' => Inv w' /\ frame w w') Inv).
    + intros a w1 [Hw1 Hfr1]. eapply wp_mono; [by apply send_trace_data_body_safe| |done].
      intros [a'|b] w2; tauto.
    + by split.
    + unfold send_measure, send_fuel. simpl. lia.
  - intros res w1 [Hw1 Hfr1].
    enough (safe frame (match res with
      | None => mret tt
      | Some (que, last_was_complete) =>
          if negb last_was_complete then
            r ← send_slices (push_front_header que TracePush);
            if is_ok r then mret tt else close_and_clean_connection
          else mret tt
      end)) as Hs.
    { eapply wp_mono; [by apply Hs| |done]. intros _ w2 [? ?]. split; [done|by etrans]. }
    safe_auto.
  - done.
Qed.
End ops.

#[export] Hint Resolve start_queue_safe stop_queue_safe start_udp_safe stop_udp_safe close_safe
  append_safe write_all_safe send_slices_safe send_tracepoint_list_safe send_trace_data_safe : safe.

(** ** Receiving *)

Section receiving.
Context {P : Platform} {TL : TimerLaws P} {HL : HashLaws P}.

Lemma reader_total_frame br w w' : frame w w' -> reader_total br w' = reader_total br w.
Proof. intros [_ Hrx]. unfold reader_total. by rewrite Hrx. Qed.

(** What a step of the receiver keeps: the invariant, a reader of the same
    socket, and no more bytes to come than before. *)
Definition reads (w0 : World) (br0 br : BufReader) (w : World) : Prop :=
  Inv w /\ frame0 w0 w /\ br_sock br = br_sock br0 /\ is_Some (socks w !! br_sock br) /\
  (reader_total br w <= reader_total br0 w0)%nat.

Lemma reads_refl w br : Inv w -> is_Some (socks w !! br_sock br) -> reads w br br w.
Proof. intros. unfold reads. by split_and!. Qed.

Lemma reads_trans w0 br0 w1 br1 w2 br2 :
  reads w0 br0 br1 w1 -> reads w1 br1 br2 w2 -> reads w0 br0 br2 w2.
Proof.
  intros (_ & Hf & Hs & _ & Ht) (? & Hf' & Hs' & ? & Ht').
  split; [done|]. split; [by etrans|]. split; [congruence|]. split; [done|lia].
Qed.

Lemma reads_frame w0 br0 br w w' :
  reads w0 br0 br w -> Inv w' -> frame w w' -> reads w0 br0 br w'.
Proof.
  intros (_ & Hf & Hs & Hsome & Ht) ? Hfr. split; [done|].
  split; [by etrans; [|apply frame_frame0]|]. split; [done|].
  split; [by apply Hfr|]. by rewrite (reader_total_frame _ w).
Qed.

(** An operation that does not read, between two reads. *)
Lemma reads_safe {A} (m : M World A) w0 br0 br w :
  safe frame m -> reads w0 br0 br w -> wp m (fun _ w' => reads w0 br0 br w') Inv w.
Proof.
  intros Hm Hr. eapply wp_mono; [apply Hm, Hr| |done]. intros a w' []. by eapply reads_frame.
Qed.

Lemma set_rx_inv sid rx' w : Inv w -> Inv (set_rx sid rx' w) /\ frame0 w (set_rx sid rx' w).
Proof. apply set_sock_inv. Qed.

Lemma set_rx_some sid rx' w k : is_Some (socks w !! k) -> is_Some (socks (set_rx sid rx' w) !! k).
Proof. intros. simpl. rewrite lookup_insert. case_decide; [by eexists|done]. Qed.

Lemma read_exact_reads n w0 br0 br w :
  reads w0 br0 br w ->
  wp (read_exact n br)
    (fun r w' => reads w0 br0 r.2 w' /\
       match r.1 with
       | Ok bs => length bs = n /\ (reader_total r.2 w' + n = reader_total br w)%nat
       | Err _ => True
       end) Inv w.
Proof.
  intros (Hw & Hf & Hs & [s Hsome] & Ht).
  destruct (reader_view br w) as [[b k] rest] eqn:Hv.
  eapply wp_mono; [by eapply read_exact_spec| |done]. intros [r br'] w' Hpost. simpl.
  assert (exists rx', w' = set_rx (br_sock br) rx' w) as [rx' Hw'].
  { revert Hpost. unfold read_exact_post. case_match; [intros (? & rx' & _ & -> & _)|intros [_ ->]]; eauto. }
  destruct (set_rx_inv (br_sock br) rx' w Hw) as [Hinv Hfr].
  destruct (read_exact_total n (br_sock br) w b k rest (r, br') w' (reader_total br w)) as [H|H]; [|done|..].
  - symmetry. by eapply buf_view_total.
  - destruct H as (bs & br2 & [= -> ->] & Hlen & Hs' & Htot).
    split; [|done]. subst w'. split; [done|]. split; [by etrans|]. split; [congruence|].
    rewrite Hs'. split; [by apply set_rx_some; eexists|lia].
  - destruct H as (br2 & [= -> ->] & Hs' & Htot).
    split; [|done]. subst w'. split; [done|]. split; [by etrans|]. split; [congruence|].
    rewrite Hs'. split; [by apply set_rx_some; eexists|lia].
Qed.

Lemma close_reads {A} (a : A) w0 br0 br w :
  reads w0 br0 br w ->
  wp (close_and_clean_connection;; mret a) (fun a' w' => a' = a /\ reads w0 br0 br w') Inv w.
Proof.
  intros Hr. apply wp_bind. eapply wp_mono; [by apply (reads_safe _ w0 br0 br); [apply close_safe|]| |done].
  intros ? w' Hr'. by apply wp_ret.
Qed.

Lemma set_tracepoints_body_reads len state w0 br0 i br w :
  reads w0 br0 br w ->
  wp (set_tracepoints_body len state (i, br))
    (fun r w' => match r with
       | inl (i', br') => reads w0 br0 br' w' /\ (reader_total br' w' < reader_total br w)%nat
       | inr br' => reads w0 br0 br' w'
       end) Inv w.
Proof.
  intros Hr. unfold set_tracepoints_body. destruct (i <? len); [|by apply wp_ret]. simpl negb.
  cbv beta iota. apply wp_bind. eapply wp_mono; [by apply (read_exact_reads _ w0 br0)| |done].
  intros [[bs|e] br1] w1; simpl; [intros (Hr1 & Hlen & Ht1)|intros [Hr1 _]].
  2: { eapply wp_mono; [by apply (close_reads _ w0 br0 br1)| |done]. by intros ? ? [-> ?]. }
  case_match.
  { eapply wp_mono; [by apply (close_reads _ w0 br0 br1)| |done]. by intros ? ? [-> ?]. }
  apply wp_bind. eapply wp_mono; [by apply (read_exact_reads _ w0 br0)| |done].
  intros [[nm|e] br2] w2; simpl; [intros (Hr2 & Hlen2 & Ht2)|intros [Hr2 _]].
  2: { eapply wp_mono; [by apply (close_reads _ w0 br0 br2)| |done]. by intros ? ? [-> ?]. }
  apply wp_bind, wp_gets, wp_bind.
  destruct (ctx_tracepoints (ctx w2) !! default [] (from_utf8 nm)) as [l|] eqn:Hl.
  - pose proof Hr2 as (Hw2 & _). destruct (inv_cells _ Hw2 _ _ Hl) as [_ Hcell].
    eapply wp_mono; [by apply store_safe_at| |done]. intros ? w3 [Hw3 Hfr3]. apply wp_ret.
    split; [by eapply reads_frame|]. rewrite (reader_total_frame _ _ _ Hfr3). lia.
  - apply wp_ret, wp_ret. split; [done|lia].
Qed.

Lemma set_tracepoints_reads len state w0 br0 br w :
  reads w0 br0 br w ->
  wp (set_tracepoints len br state) (fun br' w' => reads w0 br0 br' w') Inv w.
Proof.
  intros Hr. unfold set_tracepoints.
  eapply (wp_loop (fun a w' => reads w0 br0 a.2 w') (fun a w' => reader_total a.2 w')).
  - intros [i br1] w1 Hr1. eapply wp_mono; [by apply (set_tracepoints_body_reads _ _ w0 br0)| |done].
    by intros [[i' br']|br'] w'.
  - done.
  - simpl. lia.
Qed.

Lemma execute_command_reads cmd len w0 br0 br w :
  reads w0 br0 br w ->
  wp (execute_command cmd len br) (fun br' w' => reads w0 br0 br' w') Inv w.
Proof.
  intros Hr. destruct cmd; simpl; try (by apply wp_ret); try by apply set_tracepoints_reads.
  apply wp_bind. eapply wp_mono; [by apply (reads_safe _ w0 br0 br); [apply send_tracepoint_list_safe|]| |done].
  intros ? w' Hr'. by apply wp_ret.
Qed.

Lemma buf_read_reads n w0 br0 br w :
  (0 < n)%nat -> reads w0 br0 br w ->
  wp (buf_read n br)
    (fun r w' => reads w0 br0 r.2 w' /\
       match r.1 with
       | Ok (_ :: _) => (reader_total r.2 w' < reader_total br w)%nat
       | _ => True
       end) Inv w.
Proof.
  intros Hn (Hw & Hf & Hs & Hsome & Ht).
  destruct (reader_view br w) as [[b k] rest] eqn:Hv.
  destruct (buf_read_view n br w b k rest Hn Hv) as (r & br' & rx' & Hrun & Hrx & Hs' & Hlen & H).
  eapply wp_eq; [exact Hrun|]. simpl.
  set (w' := if br_buf br is [] then _ else w) in *.
  assert (Inv w' /\ frame0 w w' /\ is_Some (socks w' !! br_sock br) /\ rx (sock (br_sock br) w') = rx')
    as (Hw' & Hf' & Hsome' & Hrx').
  { unfold w'. destruct (br_buf br).
    - destruct (set_rx_inv (br_sock br) rx' w Hw). split; [done|]. split; [done|].
      split; [by apply set_rx_some|apply rx_set_rx].
    - by split. }
  assert ((reader_total br w = length b + rx_total rest)%nat) as Htot by by eapply buf_view_total.
  assert ((reader_total br' w' = length (br_buf br') + rx_total rx')%nat) as Htot'.
  { unfold reader_total. by rewrite Hs', Hrx'. }
  assert (reader_total br' w' <= reader_total br w /\
          (forall x bs, r = Ok (x :: bs) -> reader_total br' w' < reader_total br w))%nat as [Hle Hlt].
  { destruct r as [[|x bs]|e].
    - destruct H as (-> & _ & -> & Hb). rewrite Htot', Hb. simpl in *. split; [lia|done].
    - destruct H as (_ & b' & -> & Hv'). eapply buf_view_total in Hv'. rewrite length_app in Htot.
      simpl in Htot. split; [lia|]. intros _ _ _. lia.
    - split; [|done]. destruct e; first
        [destruct H as (-> & _ & -> & Hb); rewrite Htot', Hb; simpl in *; lia
        |destruct H as (Hv' & _); eapply buf_view_total in Hv'; lia]. }
  split.
  - split; [done|]. split; [by etrans|]. split; [congruence|]. split; [by rewrite Hs'|lia].
  - destruct r as [[|x bs]|e]; [done| |done]. by eapply Hlt.
Qed.

Lemma read_empty_reads w0 br0 br w :
  reads w0 br0 br w -> wp (read_empty br) (fun br' w' => reads w0 br0 br' w') Inv w.
Proof.
  intros Hr. unfold read_empty.
  eapply (wp_loop (fun a w' => reads w0 br0 a w') reader_total).
  - intros br1 w1 Hr1. unfold read_empty_body. apply wp_bind.
    eapply wp_mono; [by apply (buf_read_reads _ w0 br0); [lia|]| |done].
    intros [[[|x bs]|e] br2] w2 [Hr2 Hlt]; simpl in *; [by apply wp_ret|by apply wp_ret|].
    destruct e; try (by apply wp_ret);
      (eapply wp_mono; [by apply (close_reads _ w0 br0 br2)| |done]; by intros ? ? [-> ?]).
  - done.
  - lia.
Qed.

Lemma receive_body_reads w0 br0 br w :
  reads w0 br0 br w ->
  wp (receive_body br)
    (fun r w' => match r with
       | inl br' => reads w0 br0 br' w' /\ (reader_total br' w' < reader_total br w)%nat
       | inr _ => Inv w' /\ frame0 w0 w'
       end) Inv w.
Proof.
  intros Hr. unfold receive_body. apply wp_bind.
  eapply wp_mono; [by apply (read_exact_reads _ w0 br0)| |done].
  intros [[header|e] br1] w1; simpl; [intros (Hr1 & Hlen & Ht1)|intros [Hr1 _]].
  - destruct (check_parse_header header) as [[cmd len]|u].
    + assert (reads w1 br1 br1 w1) as Hr1' by (apply reads_refl; apply Hr1).
      apply wp_bind. eapply wp_mono; [by apply (execute_command_reads cmd len w1 br1)| |done].
      intros br2 w2 Hr2. apply wp_ret. split; [by eapply reads_trans|].
      destruct Hr2 as (_ & _ & _ & _ & Ht2). lia.
    + apply wp_bind. eapply wp_mono; [by apply (reads_safe _ w0 br0 br1); [apply close_safe|]| |done].
      intros ? w2 Hr2. apply wp_bind. eapply wp_mono; [by apply (read_empty_reads w0 br0)| |done].
      intros br3 w3 (? & ? & _). by apply wp_ret.
  - apply wp_bind. case_bool_decide.
    + apply wp_ret, wp_ret. by destruct Hr1 as (? & ? & _).
    + eapply wp_mono; [by apply (reads_safe _ w0 br0 br1); [apply close_safe|]| |done].
      intros ? w2 (? & ? & _). by apply wp_ret.
Qed.

Lemma receive_safe : safe frame0 receive.
Proof.
  intros w Hw. unfold receive. apply wp_bind, wp_gets, wp_bind, wp_unwrap; [|done].
  intros sid Hsid. apply wp_bind. unfold try_clone_unwrap. apply wp_bind.
  assert (forall w', Inv w' -> frame0 w w' -> connection (ctx w') = Some sid ->
    wp (receive_loop (mkBuf sid [])) (fun _ w' => Inv w' /\ frame0 w w') Inv w') as Hloop.
  { intros w1 Hw1 Hf1 Hsid1. unfold receive_loop.
    assert (reads w1 (mkBuf sid []) (mkBuf sid []) w1) as Hr1 by (apply reads_refl; [done|by apply inv_sock]).
    eapply (wp_loop (fun br w' => reads w1 (mkBuf sid []) br w') reader_total); [|done|lia].
    intros br2 w2 Hr2. eapply wp_mono; [by apply (receive_body_reads w1 (mkBuf sid []))| |done].
    intros [br3|[]] w3; [done|]. intros []. split; [done|by etrans]. }
  unfold succeeds, wp. destruct (oracle w) as [|b r] eqn:Ho; simpl.
  - by apply Hloop.
  - assert (Inv (with_oracle r w) /\ frame0 w (with_oracle r w)) as [Hw' Hf'].
    { split; [|by split]. pose proof Hw as []. by apply (Inv_update w). }
    destruct b; simpl; [|done]. by apply Hloop.
Qed.
End receiving.

#[export] Hint Resolve receive_safe : safe.

(** ** Beacon, channel, timer and the event loop *)

Section handlers.
Context {P : Platform} {TL : TimerLaws P} {HL : HashLaws P} {CL : ChannelLaws P}.

(** The registrations of a queue entered into a set of tracepoints. *)
Definition registered (m : gmap (list u8) nat) (ms : list ChannelMessage) : gmap (list u8) nat :=
  foldl (fun m msg => match msg with NewTracepoint t => <[tp_name t := tp_state t]> m | _ => m end) m ms.

(** The tracepoints the thread knows or is going to know. *)
Definition known (w : World) : gmap (list u8) nat := registered (ctx_tracepoints (ctx w)) (queued w).

Definition chan_open (w : World) : bool :=
  match chans w !! rec (ctx w) with Some q => channel_open q | None => false end.

(** What every event keeps: the identity of the shared objects, and the
    tracepoints known to the thread or on their way to it. *)
Record keeps (w w' : World) : Prop := {
  kp_rec : rec (ctx w') = rec (ctx w);
  kp_cc : ctx_client_connected (ctx w') = ctx_client_connected (ctx w);
  kp_known : known w' = known w;
  kp_open : chan_open w' = chan_open w;
  kp_queue : (length (queued w') <= length (queued w))%nat;
}.

#[local] Instance keeps_preorder : PreOrder keeps.
Proof.
  split; [by intros w; split|]. intros a b c [] []. split; try congruence. lia.
Qed.

Lemma frame0_keeps w w' : frame0 w w' -> keeps w w'.
Proof.
  intros []. split; try done.
  - unfold known. by rewrite fr_tracepoints0, (queued_frame w w').
  - unfold chan_open. by rewrite fr_chans0, fr_rec0.
  - by rewrite (queued_frame w w').
Qed.

(** A change outside the context, the channels and the heap. *)
Lemma keeps_eq w w' :
  ctx w' = ctx w -> chans w' = chans w -> keeps w w'.
Proof. intros Hctx Hch. split; unfold known, queued, chan_open; by rewrite Hctx, ?Hch. Qed.

Lemma safe_keeps {A} (m : M World A) : safe frame0 m -> safe keeps m.
Proof. apply safe_weaken, frame0_keeps. Qed.

Lemma log_call_safe c : safe frame (log_call c).
Proof.
  apply safe_modify. intros w Hw. split; [|by split]. pose proof Hw as []. by apply (Inv_update w).
Qed.

Lemma with_sequence_no_safe f : safe frame (in_ctx (fun c => with_sequence_no (f c) c)).
Proof.
  apply safe_modify. intros w Hw. split; [|by split]. pose proof Hw as []. by apply (Inv_update w).
Qed.

Lemma succeeds_safe : safe frame succeeds.
Proof.
  intros w Hw. unfold succeeds, wp. destruct (oracle w) as [|b r]; [by split|].
  split; [|by split]. pose proof Hw as []. by apply (Inv_update w).
Qed.
#[local] Hint Resolve log_call_safe with_sequence_no_safe succeeds_safe : safe.

Lemma announce_tracer_safe : safe frame announce_tracer.
Proof. unfold announce_tracer, format_json. safe_auto. Qed.

Lemma channel_data_handler_safe e : fits e -> safe frame (channel_data_handler e).
Proof. intros He. unfold channel_data_handler. safe_auto. Qed.

Lemma insert_tracepoint_inv t w :
  Inv w -> msg_ok w (NewTracepoint t) -> Inv (upd_ctx (insert_tracepoint t) w).
Proof.
  intros Hw [Hn Hc]. pose proof Hw as []. split; simpl; try done.
  intros name l. rewrite lookup_insert. case_decide; [|by apply inv_cells0].
  subst. by intros [= <-].
Qed.

Lemma try_recv_run w :
  match queued w with
  | [] => try_recv w = Ret None w
  | m :: r => exists w', try_recv w = Ret (Some m) w' /\ queued w' = r /\
      ctx w' = ctx w /\ heap w' = heap w /\ socks w' = socks w
  end.
Proof.
  unfold queued, try_recv. destruct (chans w !! rec (ctx w)) as [q|] eqn:Hq; [|done].
  destruct (channel_contents q) as [|m r] eqn:Hc.
  - rewrite (recv_nil _ _ Hc). f_equal. unfold with_chans. rewrite insert_id by done. by destruct w.
  - destruct (recv_cons _ _ _ _ Hc) as (Hm & Hr & _). destruct (channel_try_recv q) as [q' m'].
    simpl in *. subst. eexists. split; [reflexivity|]. simpl. by rewrite lookup_insert_eq.
Qed.

Lemma try_recv_open m w w' : try_recv w = Ret m w' -> chan_open w' = chan_open w.
Proof.
  unfold try_recv, chan_open. destruct (chans w !! rec (ctx w)) as [q|] eqn:Hq; [|by intros [= _ <-]; rewrite Hq].
  destruct (channel_try_recv q) as [q' m'] eqn:E. intros [= _ <-]. simpl. rewrite lookup_insert_eq.
  destruct (channel_contents q) as [|x r] eqn:Hc.
  - rewrite (recv_nil _ _ Hc) in E. congruence.
  - destruct (recv_cons _ _ _ _ Hc) as (_ & _ & Ho). by rewrite E in Ho.
Qed.

Lemma try_recv_inv w w' m r :
  Inv w -> queued w = m :: r -> queued w' = r -> ctx w' = ctx w -> heap w' = heap w ->
  socks w' = socks w -> Inv w' /\ msg_ok w' m.
Proof.
  intros [] Hq Hq' Hctx Hheap Hso. rewrite Hq in *. inversion inv_queue0 as [|? ? Hm Hr]; subst.
  assert (forall m0, msg_ok w m0 -> msg_ok w' m0) as Hmono.
  { intros m0. apply msg_ok_mono; [by rewrite Hheap|by rewrite Hctx]. }
  split; [|auto]. split; rewrite ?Hctx, ?Hheap, ?Hso; try done.
  - intros name l Hl. destruct (inv_cells0 _ _ Hl). split; [done|].
    eapply tp_cell_mono; [..|done]; [by rewrite Hheap|by rewrite Hctx].
  - eapply Forall_impl; [exact Hr|auto].
Qed.

(** One message: the channel gets shorter, the registration is entered. *)
Lemma received_keeps w w1 w2 m r :
  try_recv w = Ret (Some m) w1 -> queued w = m :: r -> queued w1 = r -> ctx w1 = ctx w ->
  rec (ctx w2) = rec (ctx w1) -> chans w2 = chans w1 ->
  ctx_client_connected (ctx w2) = ctx_client_connected (ctx w1) ->
  ctx_tracepoints (ctx w2) = registered (ctx_tracepoints (ctx w1)) [m] ->
  keeps w w2.
Proof.
  intros Hrun Hq Hq1 Hctx Hrec Hch Hcc Htp.
  pose proof (try_recv_open _ _ _ Hrun) as Hopen. split.
  - by rewrite Hrec, Hctx.
  - by rewrite Hcc, Hctx.
  - unfold known. rewrite (queued_frame w1 w2) by done. by rewrite Htp, Hq1, Hq, Hctx.
  - rewrite <-Hopen. unfold chan_open. by rewrite Hrec, Hch.
  - rewrite (queued_frame w1 w2) by done. rewrite Hq1, Hq. simpl. lia.
Qed.

Lemma channel_handler_body_safe ret w :
  Inv w ->
  wp (channel_handler_body ret)
    (fun r w' => Inv w' /\ keeps w w' /\
       match r with inl _ => (length (queued w') < length (queued w))%nat | inr _ => True end) Inv w.
Proof.
  intros Hw. unfold channel_handler_body. apply wp_bind. pose proof (try_recv_run w) as Hrecv.
  destruct (queued w) as [|m r] eqn:Hq.
  { eapply wp_eq; [exact Hrecv|]. by apply wp_ret. }
  destruct Hrecv as (w1 & Hrun & Hq1 & Hctx & Hheap & Hso). eapply wp_eq; [exact Hrun|].
  destruct (try_recv_inv _ _ _ _ Hw Hq Hq1 Hctx Hheap Hso) as [Hw1 Hm].
  assert (forall w2, rec (ctx w2) = rec (ctx w1) -> chans w2 = chans w1 ->
    (length (queued w2) < length (m :: r))%nat) as Hlen.
  { intros w2 ? ?. rewrite (queued_frame w1 w2) by done. rewrite Hq1. simpl. lia. }
  destruct m as [e|t|].
  - apply wp_bind. eapply wp_mono; [by apply (channel_data_handler_safe e Hm)| |done].
    intros ? w2 [Hw2 [[] _]]. apply wp_ret. split; [done|]. split; [|by apply Hlen].
    by eapply received_keeps.
  - apply wp_bind, wp_modify, wp_ret. split; [by apply insert_tracepoint_inv|]. split; [|by apply Hlen].
    by eapply received_keeps.
  - apply wp_bind, wp_gets, wp_bind. case_bool_decide.
    + eapply wp_mono; [by apply send_trace_data_safe| |done]. intros ? w2 [? [[] _]]. apply wp_ret.
      split; [done|]. split; [|done]. by eapply received_keeps.
    + apply wp_ret, wp_ret. split; [done|]. split; [|done]. by eapply received_keeps.
Qed.

Lemma channel_handler_safe : safe keeps channel_handler.
Proof.
  intros w Hw. unfold channel_handler.
  eapply (wp_loop (fun _ w' => Inv w' /\ keeps w w') (fun _ w => length (queued w))); [|done|lia].
  intros a w1 [Hw1 Hk]. eapply wp_mono; [by apply channel_handler_body_safe| |done].
  intros [?|?] w2 (? & ? & ?); (split; [split; [done|by etrans]|done]) || (split; [done|by etrans]).
Qed.

(** A timeout that fires leaves one fewer expired; the handlers do not add
    any. *)
Lemma poll_timer_run w :
  exists t s, timer_poll (ctx_timer (ctx w)) = (t, s) /\ poll_timer w = Ret s (upd_ctx (with_ctx_timer t) w).
Proof. unfold poll_timer. destruct (timer_poll _) as [t s]. eauto. Qed.

Lemma fired_inv (f : TracerContext -> TracerContext) w t s :
  Inv w -> timer_poll (ctx_timer (ctx w)) = (t, Some s) ->
  (forall c, timer_ok c -> timer_poll (ctx_timer c) = (t, Some s) -> timer_ok (f (with_ctx_timer t c))) ->
  (forall c, exists q u, f c = with_timers (ctx_timer c) q u c) ->
  Inv (upd_ctx f (upd_ctx (with_ctx_timer t) w)) /\
  (timer_due (ctx_timer (ctx (upd_ctx f (upd_ctx (with_ctx_timer t) w)))) < timer_due (ctx_timer (ctx w)))%nat.
Proof.
  intros Hw Hpoll Hok Hshape. pose proof Hw as [].
  pose proof (Hok _ inv_timer0 Hpoll) as Hok'. simpl.
  destruct (Hshape (with_ctx_timer t (ctx w))) as (q & u & E).
  unfold upd_ctx. simpl. rewrite E in *. split; [by apply (Inv_update w)|].
  simpl. by destruct (poll_some _ _ _ Hpoll).
Qed.

Lemma timer_handler_body_safe u w :
  Inv w ->
  wp (timer_handler_body u)
    (fun r w' => Inv w' /\ keeps w w' /\
       match r with
       | inl _ => (timer_due (ctx_timer (ctx w')) < timer_due (ctx_timer (ctx w)))%nat
       | inr _ => True
       end) Inv w.
Proof.
  intros Hw. unfold timer_handler_body. apply wp_bind.
  destruct (poll_timer_run w) as (t & s & Hpoll & Hrun). eapply wp_eq; [exact Hrun|].
  destruct s as [s|].
  2: { apply wp_ret. split; [|split; [by split|done]]. destruct (poll_none _ _ Hpoll) as [Hp _]. pose proof Hw as [].
       apply (Inv_update w); simpl; try done. destruct inv_timer0 as [? ?]. split; simpl; by rewrite Hp. }
  apply wp_bind.
  destruct (timer_ok_fire_ident _ _ _ (inv_timer _ Hw) Hpoll) as [-> | ->]; simpl.
  - apply wp_bind, wp_modify.
    destruct (fired_inv (with_queue_timeout None) w t _ Hw Hpoll) as [Hw1 Hd].
    { intros c Hc Hpc. by apply timer_ok_fire_queue. }
    { intros c. exists None, (udp_timeout c). by destruct c. }
    eapply wp_mono; [by apply send_trace_data_safe| |done].
    intros ? w2 [Hw2 [Hfr _]]. apply wp_ret. split; [done|].
    split; [by destruct (frame0_keeps _ _ Hfr); split|]. destruct Hfr. lia.
  - apply wp_bind, wp_modify.
    destruct (fired_inv (with_udp_timeout None) w t _ Hw Hpoll) as [Hw1 Hd].
    { intros c Hc Hpc. by apply timer_ok_fire_udp. }
    { intros c. exists (queue_timeout c), None. by destruct c. }
    assert (safe frame (announce_tracer;; in_ctx check_start_udp_timer)) as Hs.
    { pose proof announce_tracer_safe. safe_auto. }
    eapply wp_mono; [by apply Hs| |done].
    intros ? w2 [Hw2 [Hfr _]]. apply wp_ret. split; [done|].
    split; [by destruct (frame0_keeps _ _ Hfr); split|]. destruct Hfr. lia.
Qed.

Lemma timer_handler_safe : safe keeps timer_handler.
Proof.
  intros w Hw. unfold timer_handler.
  eapply (wp_loop (fun _ w' => Inv w' /\ keeps w w') (fun _ w => timer_due (ctx_timer (ctx w)))); [|done|lia].
  intros a w1 [Hw1 Hk]. eapply wp_mono; [by apply timer_handler_body_safe| |done].
  intros [?|?] w2 (? & ? & ?); (split; [split; [done|by etrans]|done]) || (split; [done|by etrans]).
Qed.

(** Connecting: the socket is stored and the flag raised together. *)
Lemma establish_connection_safe : safe keeps establish_connection.
Proof.
  intros w Hw. unfold establish_connection, accept. apply wp_bind. unfold wp at 1.
  destruct (backlog w) as [|[k|s] r].
  { by apply wp_ret. }
  { apply wp_ret. split; [|by apply keeps_eq]. pose proof Hw as []. by apply (Inv_update w). }
  set (sid := next_sock w). set (w1 := with_next_sock _ _).
  assert (Inv w1) as Hw1.
  { destruct (set_sock_inv sid s w Hw) as [H _]. pose proof H as []. by apply (Inv_update (set_sock sid s w)). }
  assert (is_Some (socks w1 !! sid)) as Hsid by (simpl; rewrite lookup_insert_eq; by eexists).
  assert (keeps w w1) as Hk1 by by apply keeps_eq.
  clearbody w1. apply wp_bind. unfold try_clone_unwrap. apply wp_bind.
  assert (forall w2, Inv w2 -> is_Some (socks w2 !! sid) -> keeps w w2 ->
    wp (in_ctx (with_connection (Some sid));;
        c ← gets ctx;
        atomic_store (ctx_client_connected c) true;;
        registered ← succeeds;
        if (registered : bool) then log_call (PollRegister sid) else panic)
      (fun _ w' => Inv w' /\ keeps w w') Inv w2) as Hrest.
  { intros w2 Hw2 Hsid2 Hk2. apply wp_bind, wp_modify, wp_bind, wp_gets, wp_bind, wp_modify.
    assert (safe frame (registered ← succeeds; if (registered : bool) then log_call (PollRegister sid)
              else @panic World unit)) as Hs by safe_auto.
    eapply wp_mono; [apply Hs| |done].
    - pose proof Hw2 as []. apply (Inv_update w2); simpl; try done.
      + by rewrite lookup_insert_eq.
      + by intros ? [= <-].
      + intros k Hk. rewrite lookup_insert. case_decide; [by eexists|done].
    - intros ? w3 [? Hfr]. split; [done|]. etrans; [exact Hk2|].
      etrans; [|apply frame0_keeps, Hfr]. by split. }
  eapply wp_mono; [by apply succeeds_safe| |done].
  intros [] w2 [Hw2 Hfr]; simpl; [|done]. apply wp_ret. apply Hrest; [done|by apply Hfr|].
  etrans; [exact Hk1|apply frame0_keeps, Hfr].
Qed.

#[local] Hint Resolve channel_handler_safe timer_handler_safe establish_connection_safe : safe.

(** Every batch of events keeps the invariant. *)
Lemma event_handler_from_safe events ret : safe keeps (event_handler_from events ret).
Proof.
  pose proof (safe_keeps _ receive_safe). pose proof (safe_keeps _ (safe_frame0 _ stop_udp_safe)).
  revert ret. induction events as [|token events IH]; intros ret; simpl; safe_auto.
Qed.

Lemma event_handler_safe events : safe keeps (event_handler events).
Proof. apply event_handler_from_safe. Qed.

Lemma tracer_thread_loop_safe batches : safe keeps (tracer_thread_loop batches).
Proof.
  pose proof (safe_keeps _ (safe_frame0 _ succeeds_safe)). pose proof event_handler_safe.
  induction batches as [|events batches IH]; simpl; [apply safe_ret; apply _|].
  unfold expect_success. safe_auto.
Qed.
End handlers.

#[export] Existing Instance keeps_preorder.
#[export] Hint Resolve channel_handler_safe timer_handler_safe establish_connection_safe
  announce_tracer_safe event_handler_safe tracer_thread_loop_safe succeeds_safe log_call_safe : safe.
