(* ===== verification/Quiet.v ===== *)
(** Reads that are not interrupted: the operations of tcp_handler.rs add nothing
    to what a socket will answer, so a script without interruptions stays one. *)

From S2P Require Import Prelude Monad Platform Types Strings Context Io Wire Tcp.

(** * Scripts without interrupted reads *)

(** No read is interrupted by a signal, and none fails with [UnexpectedEof],
    which no system call does. *)
Definition quiet_event (e : rx_event) : Prop := e <> RxErr Interrupted /\ e <> RxErr UnexpectedEof.
Definition quiet (rx : list rx_event) : Prop := Forall quiet_event rx.

Definition quiet_result {A} (r : Result A ErrorKind) : Prop := r <> Err Interrupted /\ r <> Err UnexpectedEof.

Create HintDb calm.

Section calm_rules.
Context {P : Platform}.

(** [calm m]: [m] leaves no such event in any socket. *)
Definition calm {A} (m : M World A) : Prop :=
  forall w a w', m w = Ret a w' -> forall sid, quiet (rx (sock sid w)) -> quiet (rx (sock sid w')).

Lemma calm_ret {A} (a : A) : calm (mret a).
Proof. by intros w ? w' [= _ <-]. Qed.

Lemma calm_gets {A} (f : World -> A) : calm (gets f).
Proof. by intros w ? w' [= _ <-]. Qed.

Lemma calm_bind {A B} (m : M World A) (f : A -> M World B) :
  calm m -> (forall a, calm (f a)) -> calm (m ≫= f).
Proof.
  intros Hm Hf w b w'. unfold mbind, M_bind. destruct (m w) as [a w1| | |] eqn:E; try done.
  intros Hrun sid Hq. eapply Hf; [exact Hrun|]. by eapply Hm.
Qed.

Lemma calm_modify f : (forall w, socks (f w) = socks w) -> calm (modify f).
Proof. intros Hf w ? w' [= _ <-] sid. unfold sock. by rewrite Hf. Qed.

Lemma calm_unwrap {A} (o : option A) : calm (unwrap o).
Proof. destruct o; [apply calm_ret|done]. Qed.

Lemma calm_loop {A B} (body : A -> M World (A + B)) fuel a :
  (forall a, calm (body a)) -> calm (loop fuel body a).
Proof.
  intros Hb. revert a. induction fuel as [|fuel IH]; intros a; [done|]. cbn [loop].
  apply calm_bind; [apply Hb|]. intros [a'|b]; [apply IH|apply calm_ret].
Qed.

Lemma calm_for_each {A} (l : list A) (body : A -> M World unit) :
  (forall a, calm (body a)) -> calm (for_each l body).
Proof.
  intros Hb. induction l as [|a l IH]; cbn [for_each]; [apply calm_ret|]. by apply calm_bind.
Qed.

Lemma calm_measured {A} (n : World -> nat) (f : nat -> M World A) :
  (forall k, calm (f k)) -> calm (fun w => f (n w) w).
Proof. intros Hf w a w' Hrun. by eapply Hf. Qed.
End calm_rules.

Ltac calm :=
  repeat first
    [ solve [auto with calm]
    | apply calm_ret | apply calm_gets | apply calm_unwrap | (apply calm_modify; done)
    | apply calm_loop; intros | apply calm_for_each; intros
    | apply calm_bind; intros
    | match goal with |- calm (match ?x with _ => _ end) => destruct x end ].

Section operations.
Context {P : Platform}.

Lemma rx_read_quiet n rx r rx' :
  quiet rx -> rx_read n rx = (r, rx') -> quiet_result r /\ quiet rx'.
Proof.
  induction 1 as [|e rx He Hrx IH]; cbn [rx_read].
  - intros [= <- <-]. split; [done|by apply Forall_nil].
  - destruct e as [[|b bs]|k|]; [done| | |].
    + intros [= <- <-]. split; [done|]. case_match; [done|]. by apply Forall_cons.
    + intros [= <- <-]. destruct He. split; [split; congruence|done].
    + intros [= <- <-]. split; [done|]. by apply Forall_cons.
Qed.

Lemma buf_read_quiet n br w r br' w' :
  quiet (rx (sock (br_sock br) w)) -> buf_read n br w = Ret (r, br') w' ->
  quiet_result r /\ quiet (rx (sock (br_sock br) w')).
Proof.
  intros Hq. unfold buf_read. destruct (br_buf br) as [|c l].
  - unfold read, mbind, M_bind, mret, M_ret. destruct (_ <=? _)%nat.
    + destruct (rx_read _ _) as [r0 rx0] eqn:E. intros [= <- _ <-]. rewrite rx_set_rx.
      by eapply rx_read_quiet.
    + destruct (rx_read _ _) as [r0 rx0] eqn:E. apply rx_read_quiet in E as [Hr Hq0]; [|done].
      destruct r0; intros [= <- _ <-]; rewrite rx_set_rx; by split.
  - by intros [= <- _ <-].
Qed.

Lemma read_calm sid n : calm (read sid n).
Proof.
  intros w r w'. unfold read. destruct (rx_read n _) as [r0 rx'] eqn:E. intros [= <- <-] sid' Hq.
  destruct (decide (sid' = sid)) as [->|Hne].
  - rewrite rx_set_rx. by eapply rx_read_quiet.
  - unfold sock. simpl. by rewrite lookup_insert_ne.
Qed.

Lemma write_all_calm sid bs : calm (write_all sid bs).
Proof.
  intros w r w'. unfold write_all. destruct (tx_write_all _ _) as [[r0 tx'] out]. intros [= <- <-] sid'.
  destruct (decide (sid' = sid)) as [->|Hne].
  - by rewrite sock_set_sock.
  - unfold sock. simpl. by rewrite lookup_insert_ne.
Qed.
#[local] Hint Resolve read_calm write_all_calm : calm.

Lemma succeeds_calm : calm succeeds.
Proof. intros w r w'. unfold succeeds. destruct (oracle w); by intros [= _ <-]. Qed.
#[local] Hint Resolve succeeds_calm : calm.

Lemma close_calm : calm close_and_clean_connection.
Proof. unfold close_and_clean_connection, atomic_store, log_call, in_ctx. calm. Qed.
#[local] Hint Resolve close_calm : calm.

Lemma buf_read_calm n br : calm (buf_read n br).
Proof. unfold buf_read. calm. Qed.
#[local] Hint Resolve buf_read_calm : calm.

Lemma read_exact_calm n br : calm (read_exact n br).
Proof.
  apply (calm_measured _ (fun k => loop k (read_exact_body n) ([], br))). intros k.
  unfold read_exact_body. calm.
Qed.
#[local] Hint Resolve read_exact_calm : calm.

Lemma send_tracepoint_list_calm : calm send_tracepoint_list.
Proof. unfold send_tracepoint_list, send_slices. calm. Qed.
#[local] Hint Resolve send_tracepoint_list_calm : calm.

Lemma set_tracepoints_calm len br state : calm (set_tracepoints len br state).
Proof.
  apply (calm_measured _ (fun k => loop k (set_tracepoints_body len state) (0, br))). intros k.
  unfold set_tracepoints_body, atomic_store. calm.
Qed.
#[local] Hint Resolve set_tracepoints_calm : calm.

Lemma read_empty_calm br : calm (read_empty br).
Proof.
  apply (calm_measured _ (fun k => loop k read_empty_body br)). intros k.
  unfold read_empty_body. calm.
Qed.
#[local] Hint Resolve read_empty_calm : calm.

Lemma receive_body_calm br : calm (receive_body br).
Proof. unfold receive_body, execute_command. calm. Qed.
End operations.

#[export] Hint Resolve read_calm write_all_calm succeeds_calm close_calm buf_read_calm read_exact_calm
  send_tracepoint_list_calm set_tracepoints_calm read_empty_calm receive_body_calm : calm.
