(* ===== verification/Flush.v ===== *)
(** [send_trace_data] against its specification: the buffer is cut greedily
    into messages, every message is sent whole, and what the client decodes is
    the buffered records in order.  Also the ways in which a flush does not
    deliver. *)

From S2P Require Import Prelude Monad Platform Types Worlds Context Io Wire Tcp Invariant.

(** * The specification *)

Definition body (es : list BufferElement) : list u8 := concat (map encode_record es).

(** [chunks_from cur es]: the messages for [es], the first of which already
    holds [cur]. *)
Fixpoint chunks_from (cur es : list BufferElement) : list (list BufferElement) :=
  match es with
  | [] => match cur with [] => [] | _ => [cur] end
  | e :: r =>
      if BufferElement_len e + zlen (body cur) + HEADER_LEN <? QUEUE_TOTAL_SIZE
      then chunks_from (cur ++ [e]) r
      else cur :: chunks_from [e] r
  end.
Definition chunks (es : list BufferElement) : list (list BufferElement) := chunks_from [] es.

Definition trace_push (es : list BufferElement) : list u8 := push_front_header (body es) TracePush.

(** The bytes of a flush. *)
Definition flush_bytes (es : list BufferElement) : list u8 := concat (map trace_push (chunks es)).

(** What the client is meant to receive for one element. *)
Definition record_of (e : BufferElement) : list u8 * Z * list u8 :=
  (elem_tracepoint e, timestamp_to_u64 (elem_timestamp e), elem_data e).

(** A socket that takes every byte, possibly in several or interrupted writes. *)
Definition healthy (tx : list tx_event) : Prop :=
  Forall (fun ev => match ev with TxAccept (S _) => True | TxErr Interrupted => True | _ => False end) tx.

Lemma tx_write_all_healthy tx bs :
  healthy tx -> exists tx', tx_write_all tx bs = (Ok tt, tx', bs) /\ healthy tx'.
Proof.
  revert bs. induction tx as [|ev tx IH]; intros bs Hh.
  { exists []. by rewrite tx_write_all_nil. }
  destruct bs as [|b bs]; [by eexists|]. inversion Hh as [|? ? Hev Htx]; subst.
  destruct ev as [[|n]|[]]; try done; simpl; [|by apply IH].
  destruct (IH (drop n bs) Htx) as (tx' & -> & ?). exists tx'. by rewrite take_drop.
Qed.

(** ** Properties of the cut *)

Lemma body_snoc cur e : body (cur ++ [e]) = encode_append_trace_data (body cur) e.
Proof. unfold body. rewrite map_app, concat_app. simpl. by rewrite app_nil_r, encode_append_eq. Qed.

Lemma body_nil_len : zlen (body []) = 0.
Proof. done. Qed.

Lemma zlen_body_pos e es : 0 < zlen (body (e :: es)).
Proof.
  unfold body. simpl. rewrite zlen_app, zlen_encode_record. unfold BufferElement_len, TIMESTAMP_LEN.
  pose proof (zlen_nonneg (elem_tracepoint e)). pose proof (zlen_nonneg (elem_data e)).
  pose proof (zlen_nonneg (concat (map encode_record es))). lia.
Qed.

Lemma concat_chunks_from cur es : concat (chunks_from cur es) = cur ++ es.
Proof.
  revert cur. induction es as [|e es IH]; intros cur; simpl.
  - destruct cur; simpl; by rewrite ?app_nil_r.
  - case_match; simpl; rewrite IH; [by rewrite <-app_assoc|done].
Qed.

(** The cut loses nothing and keeps the order. *)
Lemma concat_chunks es : concat (chunks es) = es.
Proof. apply concat_chunks_from. Qed.

Definition chunk_ok (c : list BufferElement) : Prop :=
  c <> [] /\ zlen (body c) <= QUEUE_TOTAL_SIZE - HEADER_LEN + 3.

Lemma chunks_from_ok cur es :
  Forall fits es -> (cur = [] \/ chunk_ok cur) -> Forall chunk_ok (chunks_from cur es).
Proof.
  revert cur. induction es as [|e es IH]; intros cur Hf Hc; simpl.
  - destruct cur; [constructor|]. destruct Hc; [done|]. constructor; [done|constructor].
  - inversion Hf as [|? ? He Hes]; subst. unfold fits in He.
    destruct (Z.ltb_spec (BufferElement_len e + zlen (body cur) + HEADER_LEN) QUEUE_TOTAL_SIZE).
    + apply IH; [done|]. right. split; [by destruct cur|].
      rewrite body_snoc, encode_append_eq, zlen_app, zlen_encode_record. lia.
    + constructor.
      * destruct Hc as [->|]; [|done]. unfold body in *. simpl in *. rewrite zlen_nil in *. lia.
      * apply IH; [done|]. right. split; [done|]. unfold body. simpl.
        rewrite app_nil_r, zlen_encode_record. lia.
Qed.

Lemma chunks_ok es : Forall fits es -> Forall chunk_ok (chunks es).
Proof. intros. apply chunks_from_ok; auto. Qed.

(** * The loop implements the cut *)

Section flush.
Context {P : Platform}.

(** The state after [bytes] went out on [sid] and the buffer was emptied. *)
Definition flushed (sid : nat) (tx' : list tx_event) (bytes : list u8) (w : World) : World :=
  upd_ctx (with_buffer [])
    (set_sock sid (mkSocket (rx (sock sid w)) tx' (sent (sock sid w) ++ bytes)) w).

(** The end of [send_trace_data] on the result of its loop. *)
Definition finish (res : option (list u8 * bool)) : M World unit :=
  match res with
  | None => mret tt
  | Some (que, last_was_complete) =>
      if negb last_was_complete then
        r ← send_slices (push_front_header que TracePush);
        if is_ok r then mret tt else close_and_clean_connection
      else mret tt
  end.

Lemma send_slices_healthy w sid que :
  connection (ctx w) = Some sid -> healthy (tx (sock sid w)) ->
  exists tx', healthy tx' /\
    send_slices que w =
      Ret (Ok tt) (set_sock sid (mkSocket (rx (sock sid w)) tx' (sent (sock sid w) ++ que)) w).
Proof.
  intros Hc Hh. unfold send_slices, gets, write_all, mbind, M_bind. rewrite Hc. simpl.
  destruct (tx_write_all_healthy _ que Hh) as (tx' & -> & ?). by exists tx'.
Qed.

Lemma set_sock_set_sock sid a b w : set_sock sid a (set_sock sid b w) = set_sock sid a w.
Proof. unfold set_sock. simpl. by rewrite insert_insert_eq. Qed.

Definition is_nil {A} (l : list A) : bool := match l with [] => true | _ => false end.

(** An iteration that takes the front element, and one that sends the queue. *)
Lemma body_takes w e rest cur :
  buffer (ctx w) = e :: rest ->
  BufferElement_len e + zlen (body cur) + HEADER_LEN < QUEUE_TOTAL_SIZE ->
  send_trace_data_body (body cur, is_nil cur) w =
    Ret (inl (body (cur ++ [e]), is_nil (cur ++ [e]))) (upd_ctx (with_buffer rest) w).
Proof.
  intros Hb Hlt. unfold send_trace_data_body, gets, in_ctx, modify, mbind, M_bind, mret, M_ret.
  rewrite Hb, (proj2 (Z.ltb_lt _ _)) by done. rewrite body_snoc. by destruct cur.
Qed.

Lemma body_sends w sid e rest cur :
  buffer (ctx w) = e :: rest -> connection (ctx w) = Some sid -> healthy (tx (sock sid w)) ->
  QUEUE_TOTAL_SIZE <= BufferElement_len e + zlen (body cur) + HEADER_LEN ->
  exists tx', healthy tx' /\
    send_trace_data_body (body cur, is_nil cur) w =
      Ret (inl ([], true))
        (set_sock sid (mkSocket (rx (sock sid w)) tx' (sent (sock sid w) ++ trace_push cur)) w).
Proof.
  intros Hb Hc Hh Hge. unfold send_trace_data_body, gets, mbind at 1, M_bind at 1.
  rewrite Hb, (proj2 (Z.ltb_ge _ _)) by done.
  destruct (send_slices_healthy w sid (trace_push cur) Hc Hh) as (tx' & ? & Hrun).
  exists tx'. split; [done|]. unfold mbind, M_bind. fold (trace_push cur). by rewrite Hrun.
Qed.

Lemma flushed_id sid s w :
  socks w !! sid = Some s -> buffer (ctx w) = [] -> flushed sid (tx s) [] w = w.
Proof.
  intros Hs Hb. unfold flushed, set_sock, sock. rewrite Hs. simpl. rewrite app_nil_r.
  destruct s, w as [[] ? ? ? ? ? ? ?]. simpl in *. subst. unfold upd_ctx, with_ctx, with_socks. simpl.
  by rewrite insert_id.
Qed.

(** The two steps of the loop, seen from the final state. *)
Lemma flushed_take sid tx' bytes rest w :
  flushed sid tx' bytes (upd_ctx (with_buffer rest) w) = flushed sid tx' bytes w.
Proof. done. Qed.

Lemma flushed_send sid tx1 tx2 a b w :
  flushed sid tx2 b (set_sock sid (mkSocket (rx (sock sid w)) tx1 (sent (sock sid w) ++ a)) w)
  = flushed sid tx2 (a ++ b) w.
Proof. unfold flushed. by rewrite set_sock_set_sock, sock_set_sock, app_assoc. Qed.

Lemma set_sock_flushed sid s' w :
  buffer (ctx w) = [] -> set_sock sid s' w = upd_ctx (with_buffer []) (set_sock sid s' w).
Proof. intros Hb. destruct w as [[] ? ? ? ? ? ? ?]. simpl in *. by subst. Qed.

Lemma finish_run sid s w cur :
  connection (ctx w) = Some sid -> socks w !! sid = Some s -> healthy (tx s) ->
  buffer (ctx w) = [] ->
  exists tx', healthy tx' /\
    finish (Some (body cur, is_nil cur)) w =
      Ret tt (flushed sid tx' (concat (map trace_push (chunks_from cur []))) w).
Proof.
  intros Hc Hs Hh Hb. destruct cur as [|c cur]; simpl.
  - exists (tx s). split; [done|]. by rewrite (flushed_id _ s).
  - assert (healthy (tx (sock sid w))) as Hh' by (unfold sock; by rewrite Hs).
    destruct (send_slices_healthy w sid (trace_push (c :: cur)) Hc Hh') as (tx' & ? & Hrun).
    exists tx'. split; [done|]. fold (trace_push (c :: cur)).
    unfold mbind, M_bind. rewrite Hrun. simpl. unfold mret, M_ret, flushed.
    by rewrite app_nil_r, set_sock_flushed.
Qed.

Lemma send_loop_run sid fuel w s cur :
  connection (ctx w) = Some sid -> socks w !! sid = Some s -> healthy (tx s) ->
  Forall fits (buffer (ctx w)) ->
  (2 * length (buffer (ctx w)) + (if is_nil cur then 0 else 1) < fuel)%nat ->
  exists tx', healthy tx' /\
    (loop fuel send_trace_data_body (body cur, is_nil cur) ≫= finish) w =
      Ret tt (flushed sid tx' (concat (map trace_push (chunks_from cur (buffer (ctx w))))) w).
Proof.
  revert w s cur. induction fuel as [|n IH]; intros w s cur Hc Hs Hh Hf Hfuel; [lia|].
  cbn [loop]. destruct (buffer (ctx w)) as [|e rest] eqn:Hb.
  - destruct (finish_run sid s w cur Hc Hs Hh Hb) as (tx' & ? & Hrun). exists tx'. split; [done|].
    rewrite <-Hrun. unfold send_trace_data_body, gets, mbind, M_bind. simpl. by rewrite Hb.
  - inversion Hf as [|? ? He Hrest]; subst. simpl chunks_from. simpl in Hfuel.
    destruct (Z.ltb_spec (BufferElement_len e + zlen (body cur) + HEADER_LEN) QUEUE_TOTAL_SIZE) as [Hlt|Hge].
    + pose proof (body_takes w e rest cur Hb Hlt) as Hstep.
      destruct (IH (upd_ctx (with_buffer rest) w) s (cur ++ [e])) as (tx' & ? & Hrun); try done.
      { simpl. destruct cur; simpl; lia. }
      exists tx'. split; [done|]. rewrite flushed_take in Hrun.
      change (buffer (ctx (upd_ctx (with_buffer rest) w))) with rest in Hrun. rewrite <-Hrun.
      unfold mbind, M_bind. rewrite Hstep. done.
    + assert (healthy (tx (sock sid w))) as Hh' by (unfold sock; by rewrite Hs).
      assert (is_nil cur = false) as Hcur.
      { destruct cur; [|done]. unfold body, fits in *. simpl in *. rewrite zlen_nil in Hge. lia. }
      destruct (body_sends w sid e rest cur Hb Hc Hh' Hge) as (tx1 & Hh1 & Hstep).
      set (w1 := set_sock _ _ _) in Hstep.
      destruct (IH w1 (mkSocket (rx (sock sid w)) tx1 (sent (sock sid w) ++ trace_push cur)) [])
        as (tx' & ? & Hrun); try done.
      { simpl. by rewrite lookup_insert_eq. }
      { simpl. by rewrite Hb. }
      { simpl. rewrite Hb, Hcur in *. simpl. lia. }
      exists tx'. split; [done|]. cbn [map concat]. unfold w1 in Hrun at 3. rewrite flushed_send in Hrun.
      change (buffer (ctx w1)) with (buffer (ctx w)) in Hrun. rewrite Hb in Hrun. cbn [chunks_from app] in Hrun.
      rewrite body_nil_len in Hrun.
      rewrite (proj2 (Z.ltb_lt _ _)) in Hrun by (unfold fits in He; lia).
      change (body [], is_nil []) with (@nil u8, true) in Hrun.
      rewrite <-Hrun. unfold mbind, M_bind. rewrite Hstep. done.
Qed.
End flush.

(** * Decoding what was sent *)

Lemma fits_encodable e : fits e -> encodable e.
Proof.
  unfold fits, encodable, BufferElement_len, TIMESTAMP_LEN, HEADER_LEN, QUEUE_TOTAL_SIZE.
  pose proof (zlen_nonneg (elem_tracepoint e)). pose proof (zlen_nonneg (elem_data e)). lia.
Qed.

Lemma tlv_records_body es : Forall fits es -> tlv_records (body es) = Some (map record_of es).
Proof.
  intros Hf. apply tlv_records_encode; [|done].
  eapply Forall_impl; [exact Hf|apply fits_encodable].
Qed.

Lemma tlv_stream_flush es :
  Forall fits es ->
  tlv_stream (flush_bytes es) = Some (map (fun c => (TracePush, body c)) (chunks es)).
Proof.
  intros Hf. unfold flush_bytes, tlv_stream, tlv_stream_with.
  assert (map trace_push (chunks es) =
    map (fun m : Command * list u8 => push_front_header m.2 m.1) (map (fun c => (TracePush, body c)) (chunks es)))
    as -> by by rewrite map_map.
  apply tlv_stream_messages; [|done]. apply Forall_map. eapply Forall_impl; [by apply chunks_ok|].
  intros c [_ Hc]. split; [done|]. simpl. unfold QUEUE_TOTAL_SIZE, HEADER_LEN in *. lia.
Qed.

(** A reader that expects another magic number reads nothing. *)
Lemma tlv_stream_foreign magic es :
  magic <> actual_magic -> es <> [] -> tlv_stream_with magic (flush_bytes es) = None.
Proof.
  intros Hm Hes. destruct (chunks es) as [|c rest] eqn:E.
  { destruct Hes. by rewrite <-(concat_chunks es), E. }
  unfold flush_bytes, tlv_stream_with. rewrite E. cbn [map concat]. unfold trace_push at 1 3.
  pose proof (tlv_message_foreign magic TracePush (body c) (concat (map trace_push rest)) Hm) as H.
  rewrite push_front_header_eq in *. cbn [app header_bytes MAGIC_NUMB length] in *. cbn [tlv_stream_aux]. by rewrite H.
Qed.

Lemma Forall_concat {A} (Pr : A -> Prop) (ls : list (list A)) :
  Forall Pr (concat ls) <-> Forall (Forall Pr) ls.
Proof.
  induction ls as [|l ls IH]; simpl; [by rewrite !Forall_nil|].
  by rewrite Forall_app, Forall_cons, IH.
Qed.

Lemma mapM_records cs :
  Forall (Forall fits) cs ->
  mapM tlv_records (map body cs) = Some (map (map record_of) cs).
Proof.
  induction 1 as [|c cs Hc _ IH]; [done|]. simpl. by rewrite tlv_records_body, IH.
Qed.

(** * Properties *)

Section properties.
Context {P : Platform}.

Lemma send_trace_data_unfold w :
  send_trace_data w = (loop (send_fuel w) send_trace_data_body ([], true) ≫= finish) w.
Proof. done. Qed.

Lemma flush_run w sid s :
  connection (ctx w) = Some sid -> socks w !! sid = Some s -> healthy (tx s) ->
  Forall fits (buffer (ctx w)) ->
  exists tx', healthy tx' /\
    send_trace_data w = Ret tt (flushed sid tx' (flush_bytes (buffer (ctx w))) w).
Proof.
  intros Hc Hs Hh Hf. rewrite send_trace_data_unfold.
  apply (send_loop_run sid (send_fuel w) w s []); try done. unfold send_fuel. simpl. lia.
Qed.

(** C9: On a connection that takes every write, [send_trace_data] returns, the
    buffer is empty afterwards, the bytes added to the stream are exactly the
    flush of the buffer, and nothing else of the thread's state changed. *)
Theorem flush_delivers w sid s :
  connection (ctx w) = Some sid -> socks w !! sid = Some s -> healthy (tx s) ->
  Forall fits (buffer (ctx w)) ->
  exists w', send_trace_data w = Ret tt w' /\
    sent (sock sid w') = sent s ++ flush_bytes (buffer (ctx w)) /\
    ctx w' = with_buffer [] (ctx w) /\ heap w' = heap w /\ chans w' = chans w /\ log w' = log w /\
    (forall k, k <> sid -> socks w' !! k = socks w !! k).
Proof.
  intros Hc Hs Hh Hf. destruct (flush_run w sid s Hc Hs Hh Hf) as (tx' & _ & ->).
  eexists. split; [reflexivity|]. split; [|split_and!; try done].
  - unfold flushed, sock. simpl. rewrite lookup_insert_eq, Hs. done.
  - intros k Hk. simpl. by rewrite lookup_insert_ne.
Qed.

(** C10: The bytes of a flush parse, under the TLV grammar of the documentation
    with the magic number 'RuSt' in place of the documented one, into
    TRACE_PUSH messages whose records are the buffered elements: none lost,
    none duplicated, in order, with name, timestamp and data intact.  Under the
    documented magic number, 0x0000beef, nothing of them can be read. *)
Theorem flush_decodes es :
  Forall fits es ->
  (exists payloads,
    tlv_stream (flush_bytes es) = Some (map (pair TracePush) payloads) /\
    (fun recs => concat recs) <$> mapM tlv_records payloads = Some (map record_of es)) /\
  (es <> [] -> tlv_stream_with documented_magic (flush_bytes es) = None).
Proof.
  intros Hf. split; [|by apply tlv_stream_foreign]. exists (map body (chunks es)). split.
  - rewrite tlv_stream_flush by done. by rewrite map_map.
  - rewrite mapM_records; [|apply Forall_concat; by rewrite concat_chunks].
    simpl. by rewrite <-concat_map, concat_chunks.
Qed.

(** Two elements that exceed the limit of a message by three bytes. *)
Definition tight : list BufferElement :=
  [mkElement (replicate 32 Byte.x61) 0 (replicate 2048 Byte.x62);
   mkElement (replicate 32 Byte.x61) 0 (replicate 1951 Byte.x62)].

(** C26: Every message of a flush carries at least one record and is at most
    [QUEUE_TOTAL_SIZE + 3] bytes long with its header -- the two length fields
    of a record are not counted by [BufferElement::len], so the limit of
    [QUEUE_TOTAL_SIZE] itself is exceeded by two submitted elements that fit
    the check. *)
Theorem flush_message_bounds :
  (forall es, Forall fits es ->
     Forall (fun m => HEADER_LEN < zlen m <= QUEUE_TOTAL_SIZE + 3) (map trace_push (chunks es))) /\
  (Forall fits tight /\ map zlen (map trace_push (chunks tight)) = [QUEUE_TOTAL_SIZE + 3]).
Proof.
  split; [|split; [by repeat constructor|by vm_compute]].
  intros es Hf. apply Forall_map. eapply Forall_impl; [by apply chunks_ok|].
  intros c [Hne Hc]. unfold trace_push. rewrite zlen_push_front_header.
  destruct c as [|e c]; [done|]. pose proof (zlen_body_pos e c). unfold HEADER_LEN in *. lia.
Qed.

#[export] Instance fits_dec e : Decision (fits e).
Proof. unfold fits. apply _. Defined.

(** With an element that fits no message in the buffer, the loop never ends. *)
Lemma send_loop_diverges sid fuel w s cur :
  connection (ctx w) = Some sid -> socks w !! sid = Some s -> healthy (tx s) ->
  ~ Forall fits (buffer (ctx w)) ->
  loop fuel send_trace_data_body (body cur, is_nil cur) w = Hang.
Proof.
  revert w s cur. induction fuel as [|n IH]; intros w s cur Hc Hs Hh Hb; [done|].
  assert (healthy (tx (sock sid w))) as Hh' by (unfold sock; by rewrite Hs).
  destruct (buffer (ctx w)) as [|e rest] eqn:Hbuf; [destruct Hb; by apply Forall_nil|].
  cbn [loop]. unfold mbind, M_bind.
  destruct (Z.ltb_spec (BufferElement_len e + zlen (body cur) + HEADER_LEN) QUEUE_TOTAL_SIZE) as [Hlt|Hge].
  - rewrite (body_takes w e rest cur Hbuf Hlt). apply (IH _ s); try done. simpl. intros Hrest. apply Hb.
    apply Forall_cons. split; [|done]. pose proof (zlen_nonneg (body cur)). unfold fits. lia.
  - destruct (body_sends w sid e rest cur Hbuf Hc Hh' Hge) as (tx1 & ? & Hstep). rewrite Hstep.
    apply (IH _ (mkSocket (rx (sock sid w)) tx1 (sent (sock sid w) ++ trace_push cur)) []); try done.
    + simpl. by rewrite lookup_insert_eq.
    + simpl. by rewrite Hbuf.
Qed.

Lemma send_trace_data_loop_diverges sid fuel w s :
  connection (ctx w) = Some sid -> socks w !! sid = Some s -> healthy (tx s) ->
  ~ Forall fits (buffer (ctx w)) -> send_trace_data_loop fuel w = Hang.
Proof.
  intros Hc Hs Hh Hb. pose proof (send_loop_diverges sid fuel w s [] Hc Hs Hh Hb) as H.
  change (body [], is_nil []) with (@nil u8, true) in H. unfold send_trace_data_loop, mbind, M_bind. by rewrite H.
Qed.

(** C25: On a connection that takes every write, flushing terminates exactly when
    every buffered element fits a message: then twice the length of the buffer
    plus one iterations are enough, and more change nothing; otherwise no number
    of iterations is enough, the loop sends empty messages for ever.  (Elements
    accepted by [tracy_submit] always fit.) *)
Theorem flush_terminates w sid s :
  connection (ctx w) = Some sid -> socks w !! sid = Some s -> healthy (tx s) ->
  ((exists fuel, send_trace_data_loop fuel w <> Hang) <-> Forall fits (buffer (ctx w))) /\
  (Forall fits (buffer (ctx w)) -> forall fuel, (2 * length (buffer (ctx w)) < fuel)%nat ->
   send_trace_data_loop fuel w = send_trace_data w /\ returns send_trace_data w).
Proof.
  intros Hc Hs Hh. split; [split|].
  - intros [fuel Hfuel]. destruct (decide (Forall fits (buffer (ctx w)))) as [|Hb]; [done|]. destruct Hfuel.
    by apply (send_trace_data_loop_diverges sid fuel w s).
  - intros Hf. destruct (flush_run w sid s Hc Hs Hh Hf) as (tx' & _ & Hrun). exists (send_fuel w).
    unfold send_trace_data in Hrun. by rewrite Hrun.
  - intros Hf fuel Hfuel. destruct (flush_run w sid s Hc Hs Hh Hf) as (tx' & _ & Hrun).
    split; [|by do 2 eexists]. pose proof Hrun as Hne. unfold send_trace_data, send_trace_data_loop in Hne |- *.
    replace fuel with (send_fuel w + (fuel - send_fuel w))%nat by (unfold send_fuel; lia).
    unfold mbind, M_bind in *. rewrite loop_fuel_mono; [done|]. intros Hhang. by rewrite Hhang in Hne.
Qed.

(** An element too large for a message of its own makes [send_trace_data] loop
    for ever: whatever the fuel, the loop is still running. *)
Theorem flush_diverges w sid s e rest fuel :
  connection (ctx w) = Some sid -> socks w !! sid = Some s -> healthy (tx s) ->
  buffer (ctx w) = e :: rest -> ~ fits e ->
  send_trace_data_loop fuel w = Hang.
Proof.
  intros Hc Hs Hh Hb He. apply (send_trace_data_loop_diverges sid fuel w s Hc Hs Hh).
  rewrite Hb. by intros [? ?]%Forall_cons.
Qed.

(** ** Failing writes *)

Lemma with_buffer_id w : upd_ctx (with_buffer (buffer (ctx w))) w = w.
Proof. by destruct w as [[] ? ? ? ? ? ? ?]. Qed.

(** Up to the first write the loop only takes elements; what follows depends
    on that write. *)
Lemma send_loop_first fuel w cur c1 rest :
  chunks_from cur (buffer (ctx w)) = c1 :: rest ->
  (cur = [] \/ chunk_ok cur) -> Forall fits (buffer (ctx w)) ->
  (length (buffer (ctx w)) < fuel)%nat ->
  let w1 := upd_ctx (with_buffer (concat rest)) w in
  let run := (loop fuel send_trace_data_body (body cur, is_nil cur) ≫= finish) w in
  (forall e w2 w3, send_slices (trace_push c1) w1 = Ret (Err e) w2 ->
     close_and_clean_connection w2 = Ret tt w3 -> run = Ret tt w3) /\
  (rest = [] -> forall w2, send_slices (trace_push c1) w1 = Ret (Ok tt) w2 -> run = Ret tt w2) /\
  (forall w2, send_slices (trace_push c1) w1 = Panic w2 -> run = Panic w2).
Proof.
  revert w cur. induction fuel as [|n IH]; intros w cur Hch Hcur Hf Hfuel; [lia|].
  cbn zeta. cbn [loop]. destruct (buffer (ctx w)) as [|e0 r0] eqn:Hb.
  - destruct cur as [|c cur]; [done|]. cbn [chunks_from] in Hch. injection Hch as <- <-.
    assert (upd_ctx (with_buffer (concat [])) w = w) as ->.
    { rewrite <-(with_buffer_id w) at 2. by rewrite Hb. }
    unfold send_trace_data_body, gets, mbind, M_bind. rewrite Hb. cbn [is_nil].
    unfold mret, M_ret, finish, mbind, M_bind. cbn [negb]. fold (trace_push (c :: cur)).
    split_and!; [intros e w2 w3 -> Hcl; simpl; exact Hcl|intros _ w2 ->; done|intros w2 ->; done].
  - cbn [chunks_from] in Hch. inversion Hf as [|? ? He Hr]; subst. simpl in Hfuel.
    destruct (Z.ltb_spec (BufferElement_len e0 + zlen (body cur) + HEADER_LEN) QUEUE_TOTAL_SIZE) as [Hlt|Hge].
    + destruct (IH (upd_ctx (with_buffer r0) w) (cur ++ [e0])) as (IH1 & IH2 & IH3); try done.
      { right. split; [by destruct cur|]. rewrite body_snoc, encode_append_eq, zlen_app, zlen_encode_record. lia. }
      { simpl. lia. }
      unfold mbind, M_bind. rewrite (body_takes w e0 r0 cur Hb Hlt). by split_and!.
    + injection Hch as <- <-. rewrite concat_chunks_from.
      assert (upd_ctx (with_buffer ([e0] ++ r0)) w = w) as ->.
      { rewrite <-(with_buffer_id w) at 2. by rewrite Hb. }
      split_and!.
      * intros e w2 w3 Hsend Hcl. unfold send_trace_data_body, gets, mbind, M_bind.
        rewrite Hb, (proj2 (Z.ltb_ge _ _)) by done. fold (trace_push cur). rewrite Hsend. simpl.
        by rewrite Hcl.
      * intros Hnil. pose proof (concat_chunks_from [e0] r0) as Hcc. by rewrite Hnil in Hcc.
      * intros w2 Hsend. unfold send_trace_data_body, gets, mbind, M_bind.
        rewrite Hb, (proj2 (Z.ltb_ge _ _)) by done. fold (trace_push cur). by rewrite Hsend.
Qed.

Lemma flush_first w c1 rest :
  chunks (buffer (ctx w)) = c1 :: rest -> Forall fits (buffer (ctx w)) ->
  let w1 := upd_ctx (with_buffer (concat rest)) w in
  (forall e w2 w3, send_slices (trace_push c1) w1 = Ret (Err e) w2 ->
     close_and_clean_connection w2 = Ret tt w3 -> send_trace_data w = Ret tt w3) /\
  (rest = [] -> forall w2, send_slices (trace_push c1) w1 = Ret (Ok tt) w2 -> send_trace_data w = Ret tt w2) /\
  (forall w2, send_slices (trace_push c1) w1 = Panic w2 -> send_trace_data w = Panic w2).
Proof.
  intros Hch Hf. rewrite send_trace_data_unfold.
  apply (send_loop_first (send_fuel w) w [] c1 rest); [done|by left|done|unfold send_fuel; lia].
Qed.

(** A flush whose first write fails, and one without a connection. *)
Lemma flush_error_run w sid s k t c1 rest :
  connection (ctx w) = Some sid -> socks w !! sid = Some s ->
  tx s = TxErr k :: t -> k <> WouldBlock -> k <> Interrupted ->
  Forall fits (buffer (ctx w)) -> chunks (buffer (ctx w)) = c1 :: rest ->
  exists w2 w', close_and_clean_connection w2 = Ret tt w' /\ send_trace_data w = Ret tt w' /\
    ctx w' = closed_ctx (with_buffer (concat rest) (ctx w)) /\ heap w' = closed_heap (ctx w) (heap w) /\
    chans w' = chans w /\ sent (sock sid w') = sent s.
Proof.
  intros Hc Hs Htx Hk1 Hk2 Hf Hch. destruct (flush_first w c1 rest Hch Hf) as (Herr & _).
  set (w1 := upd_ctx (with_buffer (concat rest)) w) in *.
  set (w2 := set_sock sid (mkSocket (rx s) t (sent s ++ [])) w1).
  assert (send_slices (trace_push c1) w1 = Ret (Err k) w2) as Hsend.
  { unfold send_slices, gets, write_all, mbind, M_bind. simpl ctx. simpl connection. rewrite Hc.
    assert (sock sid w1 = s) as Hsock by (unfold sock; simpl; by rewrite Hs).
    simpl unwrap. unfold mret, M_ret. rewrite Hsock, Htx.
    destruct (trace_push c1) as [|b m] eqn:E.
    { unfold trace_push in E. by rewrite push_front_header_eq in E. }
    by destruct k. }
  destruct (close_run w2 sid Hc) as (w3 & Hcl & Hctx & Hheap & Hch3 & Hso & _).
  exists w2, w3. split_and!; try done.
  - by eapply Herr.
  - unfold sock. rewrite Hso. simpl. by rewrite lookup_insert_eq, app_nil_r.
Qed.

Lemma chunks_cons e es : exists c1 rest, chunks (e :: es) = c1 :: rest.
Proof.
  destruct (chunks (e :: es)) as [|c1 rest] eqn:E; [|eauto].
  pose proof (concat_chunks (e :: es)) as H. by rewrite E in H.
Qed.

Lemma flush_unconnected_run w e es :
  connection (ctx w) = None -> buffer (ctx w) = e :: es -> Forall fits (buffer (ctx w)) ->
  exists w', send_trace_data w = Panic w' /\ connection (ctx w') = None.
Proof.
  intros Hc Hb Hf. destruct (chunks_cons e es) as (c1 & rest & Hch). rewrite <-Hb in Hch.
  destruct (flush_first w c1 rest Hch Hf) as (_ & _ & Hpanic).
  eexists. split; [apply Hpanic|].
  - unfold send_slices, gets, mbind, M_bind. simpl. by rewrite Hc.
  - exact Hc.
Qed.

(** C30: When the first write fails (with anything but [WouldBlock] or an
    interruption) the connection is torn down; the elements of the message
    that failed are gone, the others stay in the buffer with no timer to send
    them. *)
Theorem flush_write_error w sid s k t c1 rest :
  connection (ctx w) = Some sid -> socks w !! sid = Some s ->
  tx s = TxErr k :: t -> k <> WouldBlock -> k <> Interrupted ->
  Forall fits (buffer (ctx w)) -> chunks (buffer (ctx w)) = c1 :: rest ->
  exists w', send_trace_data w = Ret tt w' /\
    connection (ctx w') = None /\ queue_timeout (ctx w') = None /\
    buffer (ctx w') = concat rest /\ sent (sock sid w') = sent s /\
    heap w' !! ctx_client_connected (ctx w) = Some false.
Proof.
  intros Hc Hs Htx Hk1 Hk2 Hf Hch.
  destruct (flush_error_run w sid s k t c1 rest Hc Hs Htx Hk1 Hk2 Hf Hch)
    as (w2 & w' & _ & Hrun & Hctx & Hheap & _ & Hsent).
  exists w'. rewrite Hctx, Hheap.
  assert (forall c, connection (closed_ctx c) = None /\ queue_timeout (closed_ctx c) = None /\
    buffer (closed_ctx c) = buffer c) as Hclosed.
  { intros c. unfold closed_ctx, check_start_udp_timer, check_stop_queue_timer. by repeat case_match. }
  destruct (Hclosed (with_buffer (concat rest) (ctx w))) as (-> & -> & ->).
  split_and!; try done. apply closed_heap_cc.
Qed.

(** A write that would block half way is treated as a success: the client
    has received a truncated message, its remaining bytes and the records in
    them are lost, and the connection goes on as if nothing had happened. *)
Theorem flush_would_block_truncates w sid s n t :
  connection (ctx w) = Some sid -> socks w !! sid = Some s ->
  tx s = TxAccept (S n) :: TxErr WouldBlock :: t ->
  Forall fits (buffer (ctx w)) -> chunks (buffer (ctx w)) = [buffer (ctx w)] ->
  (S n < length (flush_bytes (buffer (ctx w))))%nat ->
  exists w', send_trace_data w = Ret tt w' /\
    connection (ctx w') = Some sid /\ buffer (ctx w') = [] /\
    sent (sock sid w') = sent s ++ take (S n) (flush_bytes (buffer (ctx w))).
Proof.
  intros Hc Hs Htx Hf Hch Hn. destruct (flush_first w _ [] Hch Hf) as (_ & Hok & _).
  unfold flush_bytes in *. rewrite Hch in *. cbn [map concat] in *. rewrite app_nil_r in *.
  set (m := trace_push (buffer (ctx w))) in *. set (w1 := upd_ctx _ w) in *.
  exists (set_sock sid (mkSocket (rx s) t (sent s ++ take (S n) m)) w1). split_and!; try done.
  2: { by rewrite sock_set_sock. }
  apply Hok; [done|]. unfold send_slices, gets, write_all, mbind, M_bind. simpl ctx. simpl connection.
  rewrite Hc. assert (sock sid w1 = s) as Hsock by (unfold sock; simpl; by rewrite Hs).
  simpl unwrap. unfold mret, M_ret. rewrite Hsock, Htx.
  destruct m as [|b m'] eqn:E; [simpl in Hn; lia|]. cbn [tx_write_all].
  destruct (drop (S n) (b :: m')) as [|b2 m2] eqn:Ed.
  { apply (f_equal length) in Ed. rewrite length_drop in Ed. simpl in *. lia. }
  simpl. by rewrite app_nil_r.
Qed.
End properties.

(** * Instances *)

Definition example_elements : list BufferElement :=
  [element cpu 1500000000000000001 4; element mem (-1) 2].

Lemma example_elements_fit : Forall fits example_elements.
Proof. repeat constructor; reflexivity. Defined.

Lemma flush_delivers_witness :
  let w := busy_world example_elements [] [TxAccept 7; TxErr Interrupted] [] in
  exists w', send_trace_data w = Ret tt w' /\
    sent (sock 0 w') = [] ++ flush_bytes (buffer (ctx w)) /\
    ctx w' = with_buffer [] (ctx w) /\ heap w' = heap w /\ chans w' = chans w /\ log w' = log w /\
    (forall k, k <> 0%nat -> socks w' !! k = socks w !! k).
Proof.
  intros w. apply (flush_delivers w 0 (sock 0 w)); try reflexivity; [|apply example_elements_fit].
  by repeat constructor.
Defined.

Lemma flush_decodes_witness :
  (exists payloads,
    tlv_stream (flush_bytes tight) = Some (map (pair TracePush) payloads) /\
    (fun recs => concat recs) <$> mapM tlv_records payloads = Some (map record_of tight)) /\
  (tight <> [] -> tlv_stream_with documented_magic (flush_bytes tight) = None).
Proof. apply flush_decodes. repeat constructor; vm_compute; reflexivity. Defined.

Lemma flush_terminates_witness :
  (let w := busy_world [element cpu 0 4090] [] [] [] in
   (exists fuel, send_trace_data_loop fuel w <> Hang) <-> Forall fits (buffer (ctx w))) /\
  (let w := busy_world [element cpu 0 100; element mem 1 200] [] [] [] in
   send_trace_data_loop 1000 w = send_trace_data w /\ returns send_trace_data w).
Proof.
  split.
  - apply (flush_terminates (busy_world [element cpu 0 4090] [] [] []) 0 (mkSocket [] [] [])); [done|done|constructor].
  - intros w. apply (flush_terminates w 0 (mkSocket [] [] [])); [done|done|constructor| |simpl; lia].
    by repeat constructor.
Defined.

Lemma flush_diverges_witness :
  let w := busy_world [element cpu 0 4090] [] [] [] in send_trace_data_loop 100 w = Hang.
Proof.
  intros w. apply (flush_diverges w 0 (sock 0 w) (element cpu 0 4090) []); try reflexivity.
  - by apply Forall_nil_2.
  - vm_compute. discriminate.
Defined.

Lemma flush_write_error_witness :
  let w := busy_world tight [] [TxErr BrokenPipe] [] in
  exists w', send_trace_data w = Ret tt w' /\
    connection (ctx w') = None /\ queue_timeout (ctx w') = None /\
    buffer (ctx w') = concat [] /\ sent (sock 0 w') = [] /\
    heap w' !! 0%nat = Some false.
Proof.
  intros w. apply (flush_write_error w 0 (sock 0 w) BrokenPipe [] tight []); try done.
  repeat constructor; vm_compute; reflexivity.
Defined.

Lemma flush_would_block_truncates_witness :
  let w := busy_world example_elements [] [TxAccept 15; TxErr WouldBlock] [] in
  exists w', send_trace_data w = Ret tt w' /\
    connection (ctx w') = Some 0%nat /\ buffer (ctx w') = [] /\
    sent (sock 0 w') = [] ++ take 15 (flush_bytes (buffer (ctx w))).
Proof.
  intros w. apply (flush_would_block_truncates w 0 (sock 0 w) 14 []); try reflexivity;
    [apply example_elements_fit|vm_compute; lia].
Defined.

Lemma flush_message_bounds_witness :
  Forall (fun m => HEADER_LEN < zlen m <= QUEUE_TOTAL_SIZE + 3) (map trace_push (chunks example_elements)).
Proof. apply (proj1 flush_message_bounds example_elements). apply example_elements_fit. Defined.
