(* ===== verification/Delivery.v ===== *)
(** From the channel to the client: what [channel_handler] does with the
    messages of the application on a healthy connection, and the accounting of
    the buffer occupancy. *)

From S2P Require Import Prelude Monad Platform Types Worlds Strings Context Io Wire Tcp Handlers Invariant Flush.

(** * The trace messages sent so far, as a list of cuts *)

Definition pushes (cuts : list (list BufferElement)) : list u8 := concat (map trace_push cuts).
Definition cuts_ok (cuts : list (list BufferElement)) : Prop :=
  Forall (fun c => chunk_ok c /\ Forall fits c) cuts.

Lemma pushes_app a b : pushes (a ++ b) = pushes a ++ pushes b.
Proof. unfold pushes. by rewrite map_app, concat_app. Qed.

Lemma chunks_cuts_ok es : Forall fits es -> cuts_ok (chunks es).
Proof.
  intros Hf. apply Forall_and. split; [by apply chunks_ok|].
  apply Forall_concat. by rewrite concat_chunks.
Qed.

(** The client reads back the records of the cuts, in order. *)
Lemma pushes_decode cuts :
  cuts_ok cuts ->
  tlv_stream (pushes cuts) = Some (map (pair TracePush) (map body cuts)) /\
  (fun recs => concat recs) <$> mapM tlv_records (map body cuts) = Some (map record_of (concat cuts)).
Proof.
  intros Hok. split.
  - unfold pushes, tlv_stream, tlv_stream_with.
    assert (map trace_push cuts = map (fun m : Command * list u8 => push_front_header m.2 m.1)
      (map (pair TracePush) (map body cuts))) as -> by by rewrite !map_map.
    apply tlv_stream_messages; [|done]. rewrite map_map. apply Forall_map.
    eapply Forall_impl; [exact Hok|]. intros c [[_ Hc] _]. split; [done|]. simpl.
    unfold QUEUE_TOTAL_SIZE, HEADER_LEN in *. lia.
  - rewrite mapM_records; [simpl; by rewrite <-concat_map|].
    eapply Forall_impl; [exact Hok|]. by intros c [_ ?].
Qed.

Section Delivery.
Context {P : Platform} {TL : TimerLaws P} {CL : ChannelLaws P}.

(** A connection whose client reads, and a buffer that can be flushed. *)
Definition session (sid : nat) (w : World) : Prop :=
  connection (ctx w) = Some sid /\ Forall fits (buffer (ctx w)) /\
  exists s, socks w !! sid = Some s /\ healthy (tx s).

(** Between [w] and [w'] the elements [es] were accepted: what was sent,
    followed by what is still in the buffer, is what was in the buffer followed
    by [es]. *)
Definition delivers (sid : nat) (es : list BufferElement) (w w' : World) : Prop :=
  session sid w' /\ heap w' = heap w /\ rec (ctx w') = rec (ctx w) /\
  exists cuts, cuts_ok cuts /\ sent (sock sid w') = sent (sock sid w) ++ pushes cuts /\
    concat cuts ++ buffer (ctx w') = buffer (ctx w) ++ es.

Lemma delivers_trans sid es1 es2 w1 w2 w3 :
  delivers sid es1 w1 w2 -> delivers sid es2 w2 w3 -> delivers sid (es1 ++ es2) w1 w3.
Proof.
  intros (_ & Hh1 & Hr1 & c1 & Hok1 & Hs1 & Hc1) (Hses & Hh2 & Hr2 & c2 & Hok2 & Hs2 & Hc2).
  split; [done|]. split; [congruence|]. split; [congruence|]. exists (c1 ++ c2). split_and!.
  - by apply Forall_app.
  - by rewrite Hs2, Hs1, pushes_app, app_assoc.
  - by rewrite concat_app, <-app_assoc, Hc2, app_assoc, Hc1, <-app_assoc.
Qed.

Lemma flush_delivers_all sid w :
  session sid w ->
  exists w', send_trace_data w = Ret tt w' /\ delivers sid [] w w' /\ buffer (ctx w') = [] /\
    chans w' = chans w /\ ctx w' = with_buffer [] (ctx w) /\
    sent (sock sid w') = sent (sock sid w) ++ flush_bytes (buffer (ctx w)).
Proof.
  intros (Hc & Hf & s & Hs & Hh). destruct (flush_run w sid s Hc Hs Hh Hf) as (tx' & Hh' & Hrun).
  eexists. split; [exact Hrun|].
  assert (sent (sock sid (flushed sid tx' (flush_bytes (buffer (ctx w))) w)) =
    sent (sock sid w) ++ flush_bytes (buffer (ctx w))) as Hsent.
  { unfold flushed, sock at 1. simpl. by rewrite lookup_insert_eq. }
  split_and!; try done. split.
  - split; [done|]. split; [constructor|]. eexists. split; [apply lookup_insert_eq|done].
  - split; [done|]. split; [done|]. exists (chunks (buffer (ctx w))).
    split; [by apply chunks_cuts_ok|]. split; [exact Hsent|].
    simpl. by rewrite concat_chunks, !app_nil_r.
Qed.

(** The elements appended, the timers changed. *)
Lemma delivers_append sid e w t q u :
  session sid w -> fits e ->
  delivers sid [e] w (with_ctx (with_timers t q u (append e (ctx w))) w).
Proof.
  intros (Hc & Hf & s & Hs & Hh) He. split.
  - split; [done|]. split; [apply Forall_app; split; [done|by constructor]|]. by exists s.
  - split; [done|]. split; [done|]. exists []. split; [constructor|]. split; [|done].
    unfold pushes. simpl. by rewrite app_nil_r.
Qed.

(** ** One payload *)
Lemma channel_data_handler_run sid e w :
  session sid w -> fits e ->
  exists w', channel_data_handler e w = Ret tt w' /\ delivers sid [e] w w' /\ chans w' = chans w /\
    ctx_tracepoints (ctx w') = ctx_tracepoints (ctx w) /\
    buffer_occupancy (ctx w') = usize_of (buffer_occupancy (ctx w) + BufferElement_len e) /\
    (QUEUE_TOTAL_SIZE < buffer_occupancy (ctx w') ->
       buffer (ctx w') = [] /\
       sent (sock sid w') = sent (sock sid w) ++ flush_bytes (buffer (ctx w) ++ [e])) /\
    (buffer_occupancy (ctx w') <= QUEUE_TOTAL_SIZE ->
       buffer (ctx w') = buffer (ctx w) ++ [e] /\ is_Some (queue_timeout (ctx w')) /\
       sent (sock sid w') = sent (sock sid w)).
Proof.
  intros Hses He. unfold channel_data_handler, in_ctx, modify, gets.
  unfold mbind at 1 2, M_bind at 1 2. cbn [buffer_occupancy ctx upd_ctx with_ctx].
  change (buffer_occupancy (append e (ctx w))) with (usize_of (buffer_occupancy (ctx w) + BufferElement_len e)).
  destruct (Z.ltb_spec QUEUE_TOTAL_SIZE (usize_of (buffer_occupancy (ctx w) + BufferElement_len e))) as [Hgt|Hle].
  - unfold upd_ctx at 1. simpl ctx. destruct (stop_queue_timers (append e (ctx w))) as (t & q & u & E & _).
    unfold mbind, M_bind, upd_ctx. simpl. rewrite E.
    pose proof (delivers_append sid e w t q u Hses He) as Hd.
    set (w1 := with_ctx (with_timers t q u (append e (ctx w))) w) in *.
    change (with_ctx _ (with_ctx _ w)) with w1.
    destruct (flush_delivers_all sid w1) as (w2 & Hrun & Hd2 & Hb & Hch & Hctx & Hsent); [by destruct Hd|].
    exists w2. split; [exact Hrun|]. split; [by apply (delivers_trans sid [e] [] w w1 w2)|].
    rewrite Hctx. split_and!; try done.
    intros Hbad. change (usize_of (buffer_occupancy (ctx w) + BufferElement_len e) <= QUEUE_TOTAL_SIZE) in Hbad. lia.
  - unfold upd_ctx. simpl. destruct (start_queue_timers (append e (ctx w))) as (t & q & u & E & _).
    assert (is_Some (queue_timeout (check_start_queue_timer (append e (ctx w))))) as Hq.
    { unfold check_start_queue_timer. repeat case_match; simpl; eauto. }
    rewrite E in *. eexists. split; [reflexivity|].
    split; [by apply (delivers_append sid e w t q u)|]. split_and!; try done.
    intros Hbad. change (QUEUE_TOTAL_SIZE < usize_of (buffer_occupancy (ctx w) + BufferElement_len e)) in Hbad. lia.
Qed.

(** ** A queue of messages *)

Definition payloads (ms : list ChannelMessage) : list BufferElement :=
  omap (fun m => match m with Payload e => Some e | _ => None end) ms.

(** A message the handler goes on after. *)
Definition continues (m : ChannelMessage) : Prop :=
  match m with Payload e => fits e | NewTracepoint _ => True | MsgTerminate => False end.

Lemma session_eq sid w w' :
  ctx w' = ctx w -> socks w' = socks w -> session sid w -> session sid w'.
Proof. unfold session. by intros -> ->. Qed.

Lemma delivers_eq sid es w0 w w' :
  ctx w0 = ctx w -> socks w0 = socks w -> heap w0 = heap w -> delivers sid es w0 w' -> delivers sid es w w'.
Proof. unfold delivers, sock. by intros -> -> ->. Qed.

Lemma session_delivers_nil sid w : session sid w -> delivers sid [] w w.
Proof.
  intros H. split; [done|]. split; [done|]. split; [done|]. exists []. split; [constructor|].
  unfold pushes. simpl. by rewrite !app_nil_r.
Qed.

Lemma channel_handler_body_run sid ret w m r :
  session sid w -> queued w = m :: r -> continues m ->
  exists w', channel_handler_body ret w = Ret (inl DataProcessed) w' /\
    delivers sid (payloads [m]) w w' /\ queued w' = r /\
    ctx_tracepoints (ctx w') = registered (ctx_tracepoints (ctx w)) [m].
Proof.
  intros Hses Hq Hm. pose proof (try_recv_run w) as Hrecv. rewrite Hq in Hrecv.
  destruct Hrecv as (w1 & Hrun & Hq1 & Hctx & Hheap & Hso).
  assert (session sid w1) as Hses1 by by eapply session_eq.
  unfold channel_handler_body, mbind, M_bind. rewrite Hrun. destruct m as [e|t|]; [| |done].
  - destruct (channel_data_handler_run sid e w1 Hses1 Hm) as (w2 & Hrun2 & Hd & Hch & Htp & _).
    exists w2. rewrite Hrun2. split; [done|]. split; [by apply (delivers_eq sid _ w1 w)|].
    split; [|by rewrite Htp, Hctx].
    rewrite <-Hq1. apply queued_frame; [|done]. by destruct Hd as (_ & _ & ? & _).
  - eexists. split; [reflexivity|]. split; [|split; [|simpl; by rewrite Hctx]].
    + destruct Hses1 as (Hc & Hf & Hs). apply (delivers_eq sid _ w1 w); [done..|].
      split; [done|]. split; [done|]. split; [done|]. exists []. split; [constructor|].
      unfold pushes. simpl. by rewrite !app_nil_r.
    + rewrite <-Hq1. by apply queued_frame.
Qed.

Lemma channel_loop_run sid ms r w fuel ret :
  session sid w -> queued w = ms ++ r -> Forall continues ms -> (length ms <= fuel)%nat ->
  exists w', loop fuel channel_handler_body ret w =
      loop (fuel - length ms) channel_handler_body (if ms is [] then ret else DataProcessed) w' /\
    delivers sid (payloads ms) w w' /\ queued w' = r /\
    ctx_tracepoints (ctx w') = registered (ctx_tracepoints (ctx w)) ms.
Proof.
  intros Hses Hq Hms. revert w fuel ret Hses Hq.
  induction Hms as [|m ms Hm _ IH]; intros w fuel ret Hses Hq Hfuel.
  - exists w. simpl. rewrite Nat.sub_0_r. split_and!; try done. by apply session_delivers_nil.
  - destruct (channel_handler_body_run sid ret w m (ms ++ r) Hses Hq Hm) as (w1 & Hstep & Hd1 & Hq1 & Htp1).
    simpl in Hfuel. destruct fuel as [|fuel]; [lia|].
    destruct (IH w1 fuel DataProcessed) as (w2 & Hrun & Hd2 & Hq2 & Htp2); try done; [by destruct Hd1|lia|].
    exists w2. split; [|split_and!; try done].
    + cbn [loop]. unfold mbind at 1, M_bind at 1. rewrite Hstep, Hrun. by destruct ms.
    + replace (payloads (m :: ms)) with (payloads [m] ++ payloads ms) by by destruct m.
      by eapply delivers_trans.
    + rewrite Htp2, Htp1. done.
Qed.
End Delivery.

(** * Properties *)

Section properties.
Context {P : Platform} {TL : TimerLaws P} {CL : ChannelLaws P}.

(** C8: On a healthy connection [channel_handler] works off the whole queue:
    every registration is entered, and what the client receives -- messages of
    the TLV grammar -- followed by what is left in the buffer is
    exactly what was in the buffer followed by the payloads, in the order they
    were submitted; the flags are not touched. *)
Theorem channel_handler_delivers w sid :
  session sid w -> Forall continues (queued w) ->
  exists w' cuts, channel_handler w = Ret (if queued w is [] then Normal else DataProcessed) w' /\
    queued w' = [] /\ heap w' = heap w /\
    ctx_tracepoints (ctx w') = registered (ctx_tracepoints (ctx w)) (queued w) /\
    sent (sock sid w') = sent (sock sid w) ++ pushes cuts /\
    tlv_stream (pushes cuts) = Some (map (pair TracePush) (map body cuts)) /\
    (fun recs => concat recs ++ map record_of (buffer (ctx w'))) <$> mapM tlv_records (map body cuts) =
      Some (map record_of (buffer (ctx w) ++ payloads (queued w))).
Proof.
  intros Hses Hms.
  destruct (channel_loop_run sid (queued w) [] w (S (length (queued w))) Normal) as (w' & Hrun & Hd & Hq & Htp);
    try done; [by rewrite app_nil_r|lia|].
  destruct Hd as (_ & Hheap & _ & cuts & Hok & Hsent & Hcat).
  destruct (pushes_decode cuts Hok) as [Hstream Hrecs].
  exists w', cuts. split_and!; try done.
  - unfold channel_handler. rewrite Hrun.
    replace (S (length (queued w)) - length (queued w))%nat with 1%nat by lia. cbn [loop].
    unfold channel_handler_body. pose proof (try_recv_run w') as Hrecv. rewrite Hq in Hrecv.
    unfold mbind, M_bind. rewrite Hrecv. by destruct (queued w).
  - destruct (mapM tlv_records (map body cuts)) as [recs|]; [|done]. simpl in *.
    injection Hrecs as Hrecs. by rewrite Hrecs, <-map_app, Hcat.
Qed.


(** C39: [buffer_occupancy] is only ever added to (nothing calls
    [clear_buffer]): once it has exceeded [QUEUE_TOTAL_SIZE], every later
    payload is written to the socket at once in a message of its own, for the
    rest of the life of the thread. *)
Theorem occupancy_never_reset w sid es :
  session sid w -> Forall fits es -> buffer (ctx w) = [] ->
  QUEUE_TOTAL_SIZE < buffer_occupancy (ctx w) ->
  buffer_occupancy (ctx w) + 4096 * zlen es < 2 ^ 64 ->
  exists w', for_each es channel_data_handler w = Ret tt w' /\ buffer (ctx w') = [] /\
    buffer_occupancy (ctx w) <= buffer_occupancy (ctx w') /\
    sent (sock sid w') = sent (sock sid w) ++ pushes (map (fun e => [e]) es).
Proof.
  intros Hses Hes. revert w Hses. induction Hes as [|e es He _ IH]; intros w Hses Hb Ho Hbound.
  { exists w. unfold pushes. simpl. rewrite app_nil_r. by split_and!. }
  rewrite zlen_cons in Hbound. pose proof (zlen_nonneg es).
  destruct (channel_data_handler_run sid e w Hses He) as (w1 & Hrun & Hd & _ & _ & Hocc & Hover & _).
  assert (0 <= BufferElement_len e < 4096) as Hlen.
  { unfold fits, BufferElement_len, TIMESTAMP_LEN, HEADER_LEN, QUEUE_TOTAL_SIZE in *.
    pose proof (zlen_nonneg (elem_tracepoint e)). pose proof (zlen_nonneg (elem_data e)). lia. }
  unfold usize_of in Hocc. unfold QUEUE_TOTAL_SIZE in *. rewrite wrap_small in Hocc by lia.
  destruct (Hover ltac:(lia)) as [Hb1 Hsent1].
  destruct (IH w1) as (w2 & Hrun2 & Hb2 & Hocc2 & Hsent2); [by destruct Hd|done|lia|lia|].
  exists w2. cbn [for_each]. unfold mbind, M_bind. rewrite Hrun. split_and!; try done; [lia|].
  rewrite Hsent2, Hsent1, Hb. rewrite <-app_assoc. f_equal.
  change (pushes (map (fun e => [e]) (e :: es))) with (pushes ([[e]] ++ map (fun e => [e]) es)).
  rewrite pushes_app. f_equal. unfold flush_bytes, pushes, chunks. simpl app. cbn [chunks_from].
  rewrite body_nil_len. unfold fits, QUEUE_TOTAL_SIZE in *. by rewrite (proj2 (Z.ltb_lt _ _)) by lia.
Qed.
End properties.

(** * Instances *)

Definition example_messages : list ChannelMessage :=
  [NewTracepoint (mkTracepoint (lit "disk") 3); Payload (element cpu 1 2000); Payload (element mem 2 2000);
   Payload (element cpu 3 700)].

Lemma example_session es tx msgs :
  Forall fits es -> healthy tx -> session 0 (busy_world es [] tx msgs).
Proof. intros. split; [done|]. split; [done|]. by eexists. Defined.

Lemma channel_handler_delivers_witness :
  let w := busy_world [element cpu 0 9] [] [TxAccept 5] example_messages in
  exists w' cuts, channel_handler w = Ret DataProcessed w' /\
    queued w' = [] /\ heap w' = heap w /\
    ctx_tracepoints (ctx w') = registered (ctx_tracepoints (ctx w)) (queued w) /\
    sent (sock 0 w') = sent (sock 0 w) ++ pushes cuts /\
    tlv_stream (pushes cuts) = Some (map (pair TracePush) (map body cuts)) /\
    (fun recs => concat recs ++ map record_of (buffer (ctx w'))) <$> mapM tlv_records (map body cuts) =
      Some (map record_of (buffer (ctx w) ++ payloads (queued w))).
Proof.
  intros w. apply (channel_handler_delivers w 0).
  - apply example_session; by repeat constructor.
  - repeat constructor; vm_compute; reflexivity.
Defined.


(** Three payloads after the limit was passed: three messages. *)
Lemma occupancy_never_reset_witness :
  let w := upd_ctx (with_buffer_occupancy 4097) (busy_world [] [] [] []) in
  let es := [element cpu 1 1; element cpu 2 1; element cpu 3 1] in
  exists w', for_each es channel_data_handler w = Ret tt w' /\ buffer (ctx w') = [] /\
    4097 <= buffer_occupancy (ctx w') /\
    sent (sock 0 w') = sent (sock 0 w) ++ pushes (map (fun e => [e]) es).
Proof.
  intros w es. apply (occupancy_never_reset w 0 es); try reflexivity.
  - split; [done|]. split; [constructor|]. eexists. split; [reflexivity|constructor].
  - repeat constructor; vm_compute; reflexivity.
Defined.
