(* ===== verification/Receive.v ===== *)
(** [receive] against its specification: a stream of well-formed requests is
    executed request by request, however the bytes are split into reads; and
    what happens on truncated and on malformed input. *)

From S2P Require Import Prelude Monad Platform Types Strings Context Io Wire Tcp Quiet Invariant Flush.

(** * Requests *)

Inductive request :=
| ReqList
| ReqSet (state : bool) (names : list (list u8)).

Definition encode_name (n : list u8) : list u8 := u16_to_be_bytes (zlen n) ++ n.
Definition encode_names (ns : list (list u8)) : list u8 := concat (map encode_name ns).

Definition set_command (state : bool) : Command :=
  if state then TracepointEnableRequest else TracepointDisableRequest.

(** The message of a request: a TLV message with the magic number of the code. *)
Definition encode_request (r : request) : list u8 :=
  match r with
  | ReqList => push_front_header [] TracepointListRequest
  | ReqSet state ns => push_front_header (encode_names ns) (set_command state)
  end.

Definition name_ok (n : list u8) : Prop :=
  zlen n <= MAX_TRACEPOINT_NAME_LEN /\ from_utf8 n = Some n.

Definition request_ok (r : request) : Prop :=
  match r with
  | ReqList => True
  | ReqSet _ ns => Forall name_ok ns /\ zlen (encode_names ns) < 2 ^ 32
  end.

(** The effect of a request on the flags: the registered ones among the names
    are set, unknown names are ignored. *)
Definition set_flags (m : gmap (list u8) nat) (b : bool) (ns : list (list u8))
    (h : gmap nat bool) : gmap nat bool :=
  foldl (fun h n => match m !! n with Some l => <[l := b]> h | None => h end) h ns.

Definition apply_request (m : gmap (list u8) nat) (h : gmap nat bool) (r : request) : gmap nat bool :=
  match r with
  | ReqList => h
  | ReqSet b ns => set_flags m b ns h
  end.

Lemma zlen_encode_name n : zlen (encode_name n) = 2 + zlen n.
Proof. unfold encode_name, u16_to_be_bytes. autorewrite with tracy. lia. Qed.

Lemma name_ok_range n : name_ok n -> 0 <= zlen n <= 32.
Proof. intros [H _]. pose proof (zlen_nonneg n). unfold MAX_TRACEPOINT_NAME_LEN in *. lia. Qed.

Section Receive.
Context {P : Platform}.

(** The bytes of the reply to a list request. *)
Definition list_reply (m : gmap (list u8) nat) : list u8 :=
  push_front_header (tracepoint_list_msg (hash_keys m)) TracepointListReply.

Definition reply (m : gmap (list u8) nat) (r : request) : list u8 :=
  match r with ReqList => list_reply m | ReqSet _ _ => [] end.

(** * Reading a known prefix *)

Lemma read_prefix n br w s bs b' k rest :
  socks w !! br_sock br = Some s -> reader_view br w = (bs ++ b', k, rest) -> length bs = n ->
  exists br' rx', read_exact n br w = Ret (Ok bs, br') (set_rx (br_sock br) rx' w) /\
    br_sock br' = br_sock br /\ reader_view br' (set_rx (br_sock br) rx' w) = (b', k, rest).
Proof.
  intros Hs Hv Hn.
  destruct (wp_returns _ _ _ (read_exact_spec n br w s _ Hs Hv)) as ([r br'] & w' & Hrun & Hpost).
  unfold read_exact_post in Hpost. rewrite length_app, (proj2 (Nat.leb_le _ _)) in Hpost by lia.
  destruct Hpost as (br2 & rx' & [= -> ->] & -> & Hsock & Hview).
  rewrite take_app_length', drop_app_length' in * by done.
  exists br2, rx'. split; [done|]. split; [done|]. unfold reader_view. by rewrite Hsock, rx_set_rx.
Qed.

Lemma read_short n br w s b k rest :
  socks w !! br_sock br = Some s -> reader_view br w = (b, k, rest) -> (length b < n)%nat ->
  read_exact n br w = Ret (Err k, mkBuf (br_sock br) []) (set_rx (br_sock br) rest w).
Proof.
  intros Hs Hv Hn.
  destruct (wp_returns _ _ _ (read_exact_spec n br w s _ Hs Hv)) as ([r br'] & w' & Hrun & Hpost).
  unfold read_exact_post in Hpost. rewrite (proj2 (Nat.leb_gt _ _)) in Hpost by lia.
  destruct Hpost as [[= -> ->] ->]. done.
Qed.

Lemma set_rx_lookup sid rx' w s :
  socks w !! sid = Some s -> socks (set_rx sid rx' w) !! sid = Some (mkSocket rx' (tx s) (sent s)).
Proof. intros Hs. simpl. rewrite lookup_insert_eq. unfold sock. by rewrite Hs. Qed.

(** * [set_tracepoints] *)

(** One name: the length field, the name, the store. *)
Lemma set_tracepoints_body_name len state i br w s n b' k rest :
  socks w !! br_sock br = Some s -> name_ok n ->
  reader_view br w = (encode_name n ++ b', k, rest) ->
  0 <= i -> i + zlen (encode_name n) <= len -> len < 2 ^ 32 ->
  exists br' rx',
    let w1 := with_heap (set_flags (ctx_tracepoints (ctx w)) state [n] (heap w)) (set_rx (br_sock br) rx' w) in
    set_tracepoints_body len state (i, br) w = Ret (inl (i + zlen (encode_name n), br')) w1 /\
    br_sock br' = br_sock br /\ reader_view br' w1 = (b', k, rest).
Proof.
  intros Hs Hn Hv Hi Hle Hlen. pose proof (name_ok_range n Hn) as Hrange.
  rewrite zlen_encode_name in *. unfold encode_name in Hv. rewrite <-app_assoc in Hv.
  destruct (read_prefix 2 br w s _ _ _ _ Hs Hv) as (br1 & rx1 & Hrun1 & Hsock1 & Hv1).
  { done. }
  assert (exists s1, socks (set_rx (br_sock br) rx1 w) !! br_sock br1 = Some s1) as [s1 Hs1].
  { rewrite Hsock1. eexists. by apply set_rx_lookup. }
  destruct (read_prefix (Z.to_nat (zlen n)) br1 _ s1 _ _ _ _ Hs1 Hv1) as (br2 & rx2 & Hrun2 & Hsock2 & Hv2).
  { unfold zlen. lia. }
  rewrite Hsock1, set_rx_set_rx in *. exists br2, rx2. cbn zeta. split; [|split; [congruence|]].
  - unfold set_tracepoints_body. rewrite (proj2 (Z.ltb_lt _ _)) by lia. cbn [negb].
    unfold mbind, M_bind. rewrite Hrun1. rewrite from_to_u16 by lia.
    change (u16_of MAX_TRACEPOINT_NAME_LEN) with 32. rewrite (proj2 (Z.ltb_ge _ _)) by lia.
    rewrite Hrun2. destruct Hn as [_ ->]. unfold u32_of.
    rewrite !wrap_small by (rewrite ?wrap_small; lia).
    unfold gets. replace (i + (2 + zlen n)) with (i + 2 + zlen n) by lia.
    change (ctx_tracepoints (ctx (set_rx (br_sock br) rx2 w))) with (ctx_tracepoints (ctx w)).
    change (default [] (Some n)) with n. unfold set_flags. cbn [foldl].
    by destruct (ctx_tracepoints (ctx w) !! n).
  - exact Hv2.
Qed.

Lemma with_heap_set_flags m b n ns w rx1 rx2 sid :
  with_heap (set_flags m b ns (heap (with_heap (set_flags m b [n] (heap w)) (set_rx sid rx1 w))))
    (set_rx sid rx2 (with_heap (set_flags m b [n] (heap w)) (set_rx sid rx1 w)))
  = with_heap (set_flags m b (n :: ns) (heap w)) (set_rx sid rx2 w).
Proof.
  rewrite <-(set_rx_set_rx sid rx2 rx1 w). done.
Qed.

(** All the names of a body, and no byte more. *)
Lemma set_tracepoints_names len state ns fuel i br w s b' k rest :
  socks w !! br_sock br = Some s -> Forall name_ok ns ->
  reader_view br w = (encode_names ns ++ b', k, rest) ->
  0 <= i -> i + zlen (encode_names ns) <= len -> len < 2 ^ 32 ->
  (length ns <= fuel)%nat ->
  exists br' rx',
    let w1 := with_heap (set_flags (ctx_tracepoints (ctx w)) state ns (heap w)) (set_rx (br_sock br) rx' w) in
    loop fuel (set_tracepoints_body len state) (i, br) w =
      loop (fuel - length ns) (set_tracepoints_body len state) (i + zlen (encode_names ns), br') w1 /\
    br_sock br' = br_sock br /\ reader_view br' w1 = (b', k, rest).
Proof.
  intros Hs Hns. revert fuel i br w s Hs.
  induction Hns as [|n ns Hn _ IH]; intros fuel i br w s Hs Hv Hi Hle Hlen Hfuel.
  - exists br, (rx s). cbn zeta. rewrite set_rx_id by done.
    replace (with_heap (set_flags _ state [] (heap w)) w) with w by by destruct w.
    unfold encode_names, zlen. simpl. by rewrite Z.add_0_r, Nat.sub_0_r.
  - unfold encode_names in *. cbn [map concat] in *. rewrite <-app_assoc in Hv. rewrite zlen_app in *.
    pose proof (zlen_nonneg (concat (map encode_name ns))). pose proof (zlen_nonneg (encode_name n)).
    destruct (set_tracepoints_body_name len state i br w s n _ k rest Hs Hn Hv Hi ltac:(lia) Hlen)
      as (br1 & rx1 & Hstep & Hsock1 & Hv1). cbn zeta in *.
    set (w1 := with_heap _ _) in Hstep, Hv1.
    assert (socks w1 !! br_sock br1 = Some (mkSocket rx1 (tx s) (sent s))) as Hs1.
    { rewrite Hsock1. apply (set_rx_lookup _ _ _ _ Hs). }
    simpl in Hfuel. destruct fuel as [|fuel]; [lia|].
    destruct (IH fuel (i + zlen (encode_name n)) br1 w1 _ Hs1 Hv1) as (br2 & rx2 & Hrun & Hsock2 & Hv2);
      try lia.
    exists br2, rx2. cbn zeta in *. unfold w1 in Hrun at 2 3, Hv2. rewrite Hsock1 in Hrun, Hv2.
    change (ctx_tracepoints (ctx w1)) with (ctx_tracepoints (ctx w)) in Hrun.
    change (ctx_tracepoints (ctx (with_heap _ _))) with (ctx_tracepoints (ctx w)) in Hv2.
    rewrite with_heap_set_flags in Hrun, Hv2. split; [|split; [congruence|done]].
    cbn [loop length]. unfold mbind, M_bind. rewrite Hstep. rewrite Hrun.
    by rewrite Z.add_assoc.
Qed.

Lemma length_encode_names ns : (length ns <= length (encode_names ns))%nat.
Proof.
  unfold encode_names. induction ns as [|n ns IH]; [done|]. cbn [map concat]. rewrite length_app.
  unfold encode_name at 1. rewrite length_app. unfold u16_to_be_bytes. rewrite length_be_bytes. simpl in *. lia.
Qed.

Lemma reader_view_total br w b k rest :
  reader_view br w = (b, k, rest) -> (length b <= reader_total br w)%nat.
Proof. intros Hv. apply buf_view_total in Hv. unfold reader_total. lia. Qed.

Lemma set_tracepoints_run state ns br w s b' k rest :
  socks w !! br_sock br = Some s -> Forall name_ok ns ->
  reader_view br w = (encode_names ns ++ b', k, rest) -> zlen (encode_names ns) < 2 ^ 32 ->
  exists br' rx',
    let w1 := with_heap (set_flags (ctx_tracepoints (ctx w)) state ns (heap w)) (set_rx (br_sock br) rx' w) in
    set_tracepoints (zlen (encode_names ns)) br state w = Ret br' w1 /\
    br_sock br' = br_sock br /\ reader_view br' w1 = (b', k, rest).
Proof.
  intros Hs Hns Hv Hlen. set (len := zlen (encode_names ns)).
  pose proof (reader_view_total _ _ _ _ _ Hv) as Ht. rewrite length_app in Ht.
  pose proof (length_encode_names ns).
  destruct (set_tracepoints_names len state ns (S (reader_total br w)) 0 br w s b' k rest)
    as (br' & rx' & Hrun & Hsock & Hv'); try done; try (unfold len; lia).
  exists br', rx'. cbn zeta in *. split; [|done]. unfold set_tracepoints. rewrite Hrun.
  replace (S (reader_total br w) - length ns)%nat with (S (reader_total br w - length ns)) by lia.
  cbn [loop]. unfold set_tracepoints_body. rewrite Z.add_0_l.
  fold len. by rewrite Z.ltb_irrefl.
Qed.

Lemma set_tracepoints_body_short len state i br w s b k rest :
  socks w !! br_sock br = Some s -> reader_view br w = (b, k, rest) -> (length b < 2)%nat ->
  i < len ->
  set_tracepoints_body len state (i, br) w =
    (close_and_clean_connection;; mret (inr (mkBuf (br_sock br) []))) (set_rx (br_sock br) rest w).
Proof.
  intros Hs Hv Hb Hi. unfold set_tracepoints_body. rewrite (proj2 (Z.ltb_lt _ _)) by done.
  cbn [negb]. unfold mbind, M_bind. by rewrite (read_short 2 br w s b k rest).
Qed.

(** The length field says more bytes than there are. *)
Lemma set_tracepoints_body_partial len state i br w s n tail k rest :
  socks w !! br_sock br = Some s -> name_ok n ->
  reader_view br w = (tail, k, rest) -> tail `prefix_of` encode_name n -> tail <> encode_name n ->
  i < len ->
  set_tracepoints_body len state (i, br) w =
    (close_and_clean_connection;; mret (inr (mkBuf (br_sock br) []))) (set_rx (br_sock br) rest w).
Proof.
  intros Hs Hn Hv [more Hmore] Hne Hi.
  destruct (decide (length tail < 2)%nat) as [Hlt|Hge]; [by eapply set_tracepoints_body_short|].
  pose proof (name_ok_range n Hn) as Hrange. unfold encode_name in *.
  assert (exists p, tail = u16_to_be_bytes (zlen n) ++ p /\ n = p ++ more) as (p & -> & Hp).
  { destruct tail as [|a [|b p]]; [simpl in Hge; lia..|]. exists p.
    unfold u16_to_be_bytes, be_bytes in *. simpl in *. by simplify_eq. }
  assert (length p < length n)%nat as Hlp.
  { rewrite Hp, length_app. destruct more; [|simpl; lia]. rewrite app_nil_r in Hp. by subst. }
  destruct (read_prefix 2 br w s _ _ _ _ Hs Hv) as (br1 & rx1 & Hrun1 & Hsock1 & Hv1); [done|].
  assert (exists s1, socks (set_rx (br_sock br) rx1 w) !! br_sock br1 = Some s1) as [s1 Hs1].
  { rewrite Hsock1. eexists. by apply set_rx_lookup. }
  unfold set_tracepoints_body. rewrite (proj2 (Z.ltb_lt _ _)) by done. cbn [negb].
  unfold mbind, M_bind. rewrite Hrun1. rewrite from_to_u16 by lia.
  change (u16_of MAX_TRACEPOINT_NAME_LEN) with 32. rewrite (proj2 (Z.ltb_ge _ _)) by lia.
  rewrite (read_short (Z.to_nat (zlen n)) br1 _ s1 _ _ _ Hs1 Hv1) by (unfold zlen; lia).
  by rewrite Hsock1, set_rx_set_rx.
Qed.

(** A body that ends before its announced length: the connection is closed in
    the state reached so far. *)
Lemma set_tracepoints_short state len ns n tail br w s k rest :
  socks w !! br_sock br = Some s -> Forall name_ok ns -> name_ok n ->
  reader_view br w = (encode_names ns ++ tail, k, rest) ->
  tail `prefix_of` encode_name n -> tail <> encode_name n ->
  zlen (encode_names ns) < len -> len < 2 ^ 32 ->
  set_tracepoints len br state w =
    (close_and_clean_connection;; mret (mkBuf (br_sock br) []))
      (with_heap (set_flags (ctx_tracepoints (ctx w)) state ns (heap w)) (set_rx (br_sock br) rest w)).
Proof.
  intros Hs Hns Hn Hv Htail Htail' Hlt Hlen.
  pose proof (reader_view_total _ _ _ _ _ Hv) as Ht. rewrite length_app in Ht.
  pose proof (length_encode_names ns). pose proof (zlen_nonneg (encode_names ns)).
  destruct (set_tracepoints_names len state ns (S (reader_total br w)) 0 br w s tail k rest)
    as (br' & rx' & Hrun & Hsock & Hv'); try done; try lia.
  cbn zeta in *. unfold set_tracepoints. rewrite Hrun. set (w1 := with_heap _ _) in *.
  replace (S (reader_total br w) - length ns)%nat with (S (reader_total br w - length ns)) by lia.
  cbn [loop]. rewrite Z.add_0_l.
  assert (socks w1 !! br_sock br' = Some (mkSocket rx' (tx s) (sent s))) as Hs1.
  { rewrite Hsock. apply (set_rx_lookup _ _ _ _ Hs). }
  unfold mbind at 1, M_bind at 1.
  rewrite (set_tracepoints_body_partial len state _ br' w1 _ n _ _ _ Hs1 Hn Hv' Htail Htail') by lia.
  rewrite Hsock.
  assert (set_rx (br_sock br) rest w1 =
    with_heap (set_flags (ctx_tracepoints (ctx w)) state ns (heap w)) (set_rx (br_sock br) rest w)) as ->.
  { unfold w1. rewrite <-(set_rx_set_rx (br_sock br) rest rx' w). done. }
  unfold mbind, M_bind. by destruct (close_and_clean_connection _).
Qed.

(** A name longer than the protocol allows. *)
Lemma set_tracepoints_violation state len nl br w s b' k rest :
  socks w !! br_sock br = Some s -> 32 < nl < 2 ^ 16 -> 0 < len ->
  reader_view br w = (u16_to_be_bytes nl ++ b', k, rest) ->
  exists br' rx', br_sock br' = br_sock br /\
    reader_view br' (set_rx (br_sock br) rx' w) = (b', k, rest) /\
    set_tracepoints len br state w =
      (close_and_clean_connection;; mret br') (set_rx (br_sock br) rx' w).
Proof.
  intros Hs Hnl Hlen Hv.
  destruct (read_prefix 2 br w s _ _ _ _ Hs Hv) as (br1 & rx1 & Hrun1 & Hsock1 & Hv1); [done|].
  exists br1, rx1. split; [done|]. split; [done|].
  assert (set_tracepoints_body len state (0, br) w =
    (close_and_clean_connection;; mret (inr br1)) (set_rx (br_sock br) rx1 w)) as Hbody.
  { unfold set_tracepoints_body. rewrite (proj2 (Z.ltb_lt _ _)) by done. cbn [negb].
    unfold mbind, M_bind. rewrite Hrun1. rewrite from_to_u16 by lia.
    change (u16_of MAX_TRACEPOINT_NAME_LEN) with 32. by rewrite (proj2 (Z.ltb_lt _ _)) by lia. }
  unfold set_tracepoints. cbn [loop]. unfold mbind at 1, M_bind at 1. rewrite Hbody.
  unfold mbind, M_bind. by destruct (close_and_clean_connection _).
Qed.

(** * One message *)

Lemma header_prefix que cmd : push_front_header que cmd = header_bytes cmd (u32_of (zlen que)) ++ que.
Proof. apply push_front_header_eq. Qed.

Lemma receive_body_header br w s cmd len b' k rest :
  socks w !! br_sock br = Some s -> 0 <= len < 2 ^ 32 ->
  reader_view br w = (header_bytes cmd len ++ b', k, rest) ->
  exists br' rx',
    let w1 := set_rx (br_sock br) rx' w in
    receive_body br w = (reader ← execute_command cmd len br'; mret (inl reader)) w1 /\
    br_sock br' = br_sock br /\ reader_view br' w1 = (b', k, rest).
Proof.
  intros Hs Hlen Hv.
  destruct (read_prefix 12 br w s _ _ _ _ Hs Hv) as (br' & rx' & Hrun & Hsock & Hv').
  { apply length_header. }
  exists br', rx'. cbn zeta. split; [|done]. unfold receive_body. unfold mbind at 1, M_bind at 1.
  rewrite Hrun. by rewrite check_parse_header_bytes.
Qed.

(** The state of a connection that is up and whose client reads. *)
Definition up (sid : nat) (w : World) : Prop :=
  connection (ctx w) = Some sid /\ exists s, socks w !! sid = Some s /\ healthy (tx s).

(** Only the socket [sid] is involved. *)
Definition outside (sid : nat) (w w' : World) : Prop :=
  log w' = log w /\ next_sock w' = next_sock w /\ backlog w' = backlog w /\ oracle w' = oracle w /\
  forall k, k <> sid -> socks w' !! k = socks w !! k.

Lemma outside_refl sid w : outside sid w w.
Proof. by split_and!. Qed.

Lemma outside_trans sid w1 w2 w3 : outside sid w1 w2 -> outside sid w2 w3 -> outside sid w1 w3.
Proof.
  intros (? & ? & ? & ? & Ha) (? & ? & ? & ? & Hb). split_and!; try congruence.
  intros k Hk. by rewrite Hb, Ha.
Qed.

Lemma outside_set_sock sid s w : outside sid w (set_sock sid s w).
Proof. split_and!; try done. intros k Hk. simpl. by rewrite lookup_insert_ne. Qed.

(** What executing a request changes, apart from the bytes still to be read. *)
Definition executed (sid : nat) (r : request) (w w' : World) : Prop :=
  ctx w' = ctx w /\ chans w' = chans w /\ outside sid w w' /\
  heap w' = apply_request (ctx_tracepoints (ctx w)) (heap w) r /\
  sent (sock sid w') = sent (sock sid w) ++ reply (ctx_tracepoints (ctx w)) r /\
  up sid w'.

Lemma up_set_rx sid rx' w : up sid w -> up sid (set_rx sid rx' w).
Proof.
  intros [Hc (s & Hs & Hh)]. split; [done|]. eexists. split; [by apply set_rx_lookup|done].
Qed.

Lemma sent_set_rx sid rx' w : sent (sock sid (set_rx sid rx' w)) = sent (sock sid w).
Proof. unfold set_rx. by rewrite sock_set_sock. Qed.

(** Enabling and disabling do not depend on the connection being up. *)
Lemma set_request_step state ns br w s b' k rest :
  socks w !! br_sock br = Some s -> request_ok (ReqSet state ns) ->
  reader_view br w = (encode_request (ReqSet state ns) ++ b', k, rest) ->
  exists br' rx',
    let w1 := with_heap (set_flags (ctx_tracepoints (ctx w)) state ns (heap w)) (set_rx (br_sock br) rx' w) in
    receive_body br w = Ret (inl br') w1 /\ br_sock br' = br_sock br /\
    reader_view br' w1 = (b', k, rest).
Proof.
  intros Hs [Hns Hlen] Hv. cbn [encode_request] in Hv. rewrite push_front_header_eq, <-app_assoc in Hv.
  pose proof (zlen_nonneg (encode_names ns)).
  unfold u32_of in Hv. rewrite wrap_small in Hv by lia.
  assert (0 <= zlen (encode_names ns) < 2 ^ 32) as Hb by lia.
  destruct (receive_body_header _ _ _ _ _ _ _ _ Hs Hb Hv) as (br' & rx' & Hrun & Hsock & Hv').
  cbn zeta in *. pose proof (set_rx_lookup _ rx' _ _ Hs) as Hs1.
  replace (socks (set_rx (br_sock br) rx' w) !! br_sock br)
    with (socks (set_rx (br_sock br) rx' w) !! br_sock br') in Hs1 by by rewrite Hsock.
  destruct (set_tracepoints_run state ns br' _ _ b' k rest Hs1 Hns Hv' Hlen) as (br2 & rx2 & Hrun2 & Hsock2 & Hv2).
  cbn zeta in *. rewrite Hsock, set_rx_set_rx in *.
  exists br2, rx2. split; [|split; [congruence|exact Hv2]].
  rewrite Hrun. unfold mbind, M_bind.
  destruct state; cbn [execute_command set_command]; by rewrite Hrun2.
Qed.

Lemma list_request_step sid br w b' k rest :
  up sid w -> br_sock br = sid ->
  reader_view br w = (encode_request ReqList ++ b', k, rest) ->
  exists br' w', receive_body br w = Ret (inl br') w' /\ executed sid ReqList w w' /\
    br_sock br' = sid /\ reader_view br' w' = (b', k, rest).
Proof.
  intros Hup Hsid Hv. pose proof Hup as [Hc (s & Hs & Hh)]. subst sid.
  cbn [encode_request] in Hv. rewrite push_front_header_eq, <-app_assoc in Hv.
  destruct (receive_body_header _ _ _ _ _ _ _ _ Hs ltac:(done) Hv) as (br' & rx' & Hrun & Hsock & Hv').
  cbn zeta in *. set (w1 := set_rx _ rx' w) in *. pose proof (up_set_rx _ rx' _ Hup) as [Hc1 (s1 & Hs1 & Hh1)].
  fold w1 in Hc1, Hs1. assert (healthy (tx (sock (br_sock br) w1))) as Hh1' by (unfold sock; by rewrite Hs1).
  destruct (send_slices_healthy w1 _ (list_reply (ctx_tracepoints (ctx w1))) Hc1 Hh1') as (tx' & Htx' & Hsend).
  set (w2 := set_sock _ _ w1) in Hsend. exists br', w2. unfold executed, up. split_and!; try done.
  - rewrite Hrun. cbn [execute_command]. unfold send_tracepoint_list, gets, mbind, M_bind.
    unfold list_reply in Hsend. by rewrite Hsend.
  - eapply outside_trans; apply outside_set_sock.
  - unfold w2. rewrite sock_set_sock. simpl. unfold w1. by rewrite sent_set_rx.
  - eexists. split; [apply lookup_insert_eq|done].
  - change ([] ++ b') with b' in Hv'. rewrite <-Hv'. unfold reader_view, w2. by rewrite Hsock, sock_set_sock.
Qed.

Lemma request_step sid r br w b' k rest :
  up sid w -> br_sock br = sid -> request_ok r ->
  reader_view br w = (encode_request r ++ b', k, rest) ->
  exists br' w', receive_body br w = Ret (inl br') w' /\ executed sid r w w' /\
    br_sock br' = sid /\ reader_view br' w' = (b', k, rest).
Proof.
  intros Hup Hsid Hr Hv. destruct r as [|state ns]; [by apply list_request_step|].
  pose proof Hup as [Hc (s & Hs & Hh)]. subst sid.
  destruct (set_request_step state ns br w s b' k rest Hs Hr Hv) as (br' & rx' & Hrun & Hsock & Hv').
  eexists br', _. split; [exact Hrun|]. split; [|done]. unfold executed. split_and!; try done.
  - apply (outside_set_sock (br_sock br) _ w).
  - simpl reply. rewrite app_nil_r.
    change (sock (br_sock br) (with_heap _ ?w)) with (sock (br_sock br) w). apply sent_set_rx.
  - apply (up_set_rx _ rx' _ Hup).
Qed.

(** * A stream of messages *)

Definition executed_all (sid : nat) (rs : list request) (w w' : World) : Prop :=
  ctx w' = ctx w /\ chans w' = chans w /\ outside sid w w' /\
  heap w' = foldl (apply_request (ctx_tracepoints (ctx w))) (heap w) rs /\
  sent (sock sid w') = sent (sock sid w) ++ concat (map (reply (ctx_tracepoints (ctx w))) rs) /\
  up sid w'.

Definition encode_requests (rs : list request) : list u8 := concat (map encode_request rs).

Lemma requests_run sid rs fuel br w b' k rest :
  up sid w -> br_sock br = sid -> Forall request_ok rs ->
  reader_view br w = (encode_requests rs ++ b', k, rest) -> (length rs <= fuel)%nat ->
  exists br' w', loop fuel receive_body br w = loop (fuel - length rs) receive_body br' w' /\
    executed_all sid rs w w' /\ br_sock br' = sid /\ reader_view br' w' = (b', k, rest) /\
    (quiet (rx (sock sid w)) -> quiet (rx (sock sid w'))).
Proof.
  intros Hup Hsid Hrs. revert fuel br w Hup Hsid.
  induction Hrs as [|r rs Hr _ IH]; intros fuel br w Hup Hsid Hv Hfuel.
  - exists br, w. unfold executed_all. simpl. rewrite app_nil_r, Nat.sub_0_r.
    by split_and!.
  - unfold encode_requests in *. cbn [map concat] in *. rewrite <-app_assoc in Hv.
    destruct (request_step sid r br w _ k rest Hup Hsid Hr Hv) as (br1 & w1 & Hstep & Hex & Hsock1 & Hv1).
    destruct Hex as (Hctx & Hch & Hlog & Hheap & Hsent & Hup1).
    simpl in Hfuel. destruct fuel as [|fuel]; [lia|].
    destruct (IH fuel br1 w1 Hup1 Hsock1 Hv1 ltac:(lia)) as (br2 & w2 & Hrun & Hex2 & Hsock2 & Hv2 & Hq).
    destruct Hex2 as (Hctx2 & Hch2 & Hlog2 & Hheap2 & Hsent2 & Hup2).
    assert (quiet (rx (sock sid w)) -> quiet (rx (sock sid w2))) as Hquiet.
    { intros Hw. apply Hq. revert Hw. by apply (receive_body_calm br w _ _ Hstep). }
    exists br2, w2. split; [|split; [|done]].
    + cbn [loop length]. unfold mbind at 1, M_bind at 1. rewrite Hstep. exact Hrun.
    + unfold executed_all. rewrite Hctx in *. cbn [foldl map concat]. rewrite Hheap in Hheap2.
      split_and!; try congruence; [by eapply outside_trans|]. rewrite Hsent2, Hsent. by rewrite app_assoc.
Qed.

Lemma receive_start w sid s :
  connection (ctx w) = Some sid -> socks w !! sid = Some s -> oracle w = [] ->
  receive w = loop (S (reader_total (mkBuf sid []) w)) receive_body (mkBuf sid []) w.
Proof.
  intros Hc Hs Ho. unfold receive, gets, try_clone_unwrap, succeeds, mbind, M_bind. rewrite Hc. simpl.
  by rewrite Ho.
Qed.

Lemma length_encode_requests rs : (length rs <= length (encode_requests rs))%nat.
Proof.
  unfold encode_requests. induction rs as [|r rs IH]; [done|]. cbn [map concat length]. rewrite length_app.
  assert (1 <= length (encode_request r))%nat; [|lia].
  destruct r; cbn [encode_request]; rewrite push_front_header_eq, length_app, length_header; lia.
Qed.

(** [receive] up to the end of the last whole request. *)
Lemma receive_requests_run w sid s rs b' k rest :
  connection (ctx w) = Some sid -> socks w !! sid = Some s -> healthy (tx s) -> oracle w = [] ->
  rx_view (rx s) = (encode_requests rs ++ b', k, rest) -> Forall request_ok rs ->
  exists fuel br' w', receive w = loop (S fuel) receive_body br' w' /\
    executed_all sid rs w w' /\ br_sock br' = sid /\ reader_view br' w' = (b', k, rest) /\
    (length b' <= fuel)%nat /\ (quiet (rx s) -> quiet (rx (sock sid w'))).
Proof.
  intros Hc Hs Hh Ho Hv Hrs. rewrite (receive_start w sid s) by done.
  assert (reader_view (mkBuf sid []) w = (encode_requests rs ++ b', k, rest)) as Hrv.
  { unfold reader_view, sock. simpl. rewrite Hs. simpl. by rewrite buf_view_nil. }
  pose proof (reader_view_total _ _ _ _ _ Hrv) as Ht. rewrite length_app in Ht.
  pose proof (length_encode_requests rs).
  destruct (requests_run sid rs (S (reader_total (mkBuf sid []) w)) (mkBuf sid []) w b' k rest)
    as (br' & w' & Hrun & Hex & Hsock & Hv' & Hq); try done; try lia.
  { split; [done|]. by exists s. }
  unfold sock at 1 in Hq. rewrite Hs in Hq.
  exists (reader_total (mkBuf sid []) w - length rs)%nat, br', w'. split; [|split_and!; try done; lia].
  rewrite Hrun. f_equal. lia.
Qed.

(** The end of the stream: an incomplete header. *)
Lemma receive_body_end br w s b k rest :
  socks w !! br_sock br = Some s -> reader_view br w = (b, k, rest) -> (length b < 12)%nat ->
  receive_body br w =
    ((if bool_decide (k = WouldBlock) then mret tt else close_and_clean_connection);; mret (inr tt))
      (set_rx (br_sock br) rest w).
Proof.
  intros Hs Hv Hb. unfold receive_body. unfold mbind at 1, M_bind at 1.
  by rewrite (read_short 12 br w s b k rest Hs Hv Hb).
Qed.
End Receive.
