(* ===== verification/Requests.v ===== *)
(** The properties of [receive]: request streams, list replies, disconnects,
    truncated and malformed input, each with an instance on a concrete
    connection. *)

From S2P Require Import Prelude Monad Platform Types Worlds Strings Context Io Wire Tcp Invariant Flush Receive.

(** * The payload of a list message *)

Lemma tracepoint_list_msg_from acc ns :
  Forall (fun n => zlen n < 2 ^ 16) ns ->
  foldl (fun msg tracepoint =>
    push_back_all (push_back_all msg (u16_to_be_bytes (u16_of (zlen tracepoint)))) tracepoint) acc ns
  = acc ++ encode_names ns.
Proof.
  intros Hns. revert acc. induction Hns as [|n ns Hn _ IH]; intros acc; cbn [foldl].
  - unfold encode_names. simpl. by rewrite app_nil_r.
  - rewrite IH, !push_back_all_app. unfold encode_names. cbn [map concat]. unfold encode_name at 2.
    pose proof (zlen_nonneg n). unfold u16_of. rewrite wrap_small by lia. by rewrite <-!app_assoc.
Qed.

Lemma tlv_names_encode ns fuel :
  Forall (fun n => zlen n < 2 ^ 16) ns -> (length (encode_names ns) <= fuel)%nat ->
  tlv_names_aux fuel (encode_names ns) = Some ns.
Proof.
  intros Hns. revert fuel. induction Hns as [|n ns Hn _ IH]; intros fuel Hfuel; [by destruct fuel|].
  unfold encode_names in *. cbn [map concat] in *. rewrite length_app in Hfuel.
  unfold encode_name at 1 in Hfuel. unfold encode_name at 1. rewrite length_app in Hfuel.
  unfold u16_to_be_bytes in Hfuel at 1. rewrite length_be_bytes in Hfuel.
  destruct fuel as [|fuel]; [lia|]. pose proof (tlv_name_app n (concat (map encode_name ns)) Hn) as Hname.
  pose proof (zlen_nonneg n). unfold u16_of in Hname. rewrite wrap_small in Hname by lia.
  rewrite <-app_assoc. unfold u16_to_be_bytes at 1, be_bytes. cbn [app tlv_names_aux].
  unfold u16_to_be_bytes at 1, be_bytes in Hname. cbn [app] in Hname. rewrite Hname.
  cbn [mbind option_bind]. by rewrite IH by lia.
Qed.

Lemma zlen_encode_names_le ns :
  Forall (fun n => zlen n <= MAX_TRACEPOINT_NAME_LEN) ns -> zlen (encode_names ns) <= 34 * zlen ns.
Proof.
  induction 1 as [|n ns Hn _ IH]; [done|]. unfold encode_names in *. cbn [map concat].
  rewrite zlen_app, zlen_encode_name, zlen_cons. unfold MAX_TRACEPOINT_NAME_LEN in *. lia.
Qed.

Section lemmas.
Context {P : Platform} {TL : TimerLaws P}.

(** The connection ended by the last header read. *)
Lemma receive_end_run w sid s rs tail k rest :
  connection (ctx w) = Some sid -> socks w !! sid = Some s -> healthy (tx s) -> oracle w = [] ->
  rx_view (rx s) = (encode_requests rs ++ tail, k, rest) -> (length tail < 12)%nat ->
  Forall request_ok rs ->
  exists w', executed_all sid rs w w' /\
    receive w =
      ((if bool_decide (k = WouldBlock) then mret tt else close_and_clean_connection);; mret tt)
        (set_rx sid rest w').
Proof.
  intros Hc Hs Hh Ho Hv Htail Hrs.
  destruct (receive_requests_run w sid s rs _ k rest Hc Hs Hh Ho Hv Hrs)
    as (fuel & br' & w' & Hrun & Hex & Hsock & Hv' & _).
  exists w'. split; [done|]. rewrite Hrun. cbn [loop]. unfold mbind at 1, M_bind at 1.
  destruct Hex as (_ & _ & _ & _ & _ & _ & s' & Hs' & _).
  assert (socks w' !! br_sock br' = Some s') as Hs2 by by rewrite Hsock.
  rewrite (receive_body_end br' w' _ _ _ _ Hs2 Hv' Htail), Hsock.
  case_bool_decide; [done|]. unfold mbind, M_bind. by destruct (close_and_clean_connection _).
Qed.

Lemma executed_set_rx sid rs rx' w w' :
  executed_all sid rs w w' -> executed_all sid rs w (set_rx sid rx' w').
Proof.
  intros (? & ? & ? & ? & Hsent & Hup). unfold executed_all. split_and!; try done.
  - eapply outside_trans; [done|apply outside_set_sock].
  - by rewrite sent_set_rx.
  - by apply up_set_rx.
Qed.

(** What is left of a closed connection. *)
Definition disconnected (w0 w : World) : Prop :=
  connection (ctx w) = None /\ queue_timeout (ctx w) = None /\ is_Some (udp_timeout (ctx w)) /\
  heap w !! ctx_client_connected (ctx w0) = Some false /\
  (forall name l, ctx_tracepoints (ctx w0) !! name = Some l -> heap w !! l = Some false).

Lemma closed_ctx_timers c :
  connection (closed_ctx c) = None /\ queue_timeout (closed_ctx c) = None /\
  is_Some (udp_timeout (closed_ctx c)).
Proof.
  unfold closed_ctx, check_start_udp_timer, check_stop_queue_timer.
  repeat case_match; simpl in *; simplify_eq; rewrite ?H, ?H0; eauto.
Qed.

Context {HL : HashLaws P}.

Lemma close_disconnected w w' :
  ctx w' = closed_ctx (ctx w) -> heap w' = closed_heap (ctx w) (heap w) -> disconnected w w'.
Proof.
  intros Hctx Hheap. destruct (closed_ctx_timers (ctx w)) as (? & ? & ?).
  unfold disconnected. rewrite Hctx, Hheap. split_and!; try done.
  - apply closed_heap_cc.
  - intros name l Hl. unfold closed_heap. rewrite lookup_clear_flags.
    rewrite decide_True; [done|]. apply elem_of_hash_values. by exists name.
Qed.

Lemma disconnected_eq w0 w1 w :
  ctx w0 = ctx w1 -> disconnected w1 w -> disconnected w0 w.
Proof. unfold disconnected. by intros ->. Qed.

(** Requests followed by one whose body stops short of its announced length:
    the connection is torn down and the loop goes on reading. *)
Lemma receive_truncated_run w sid s rs state len ns n tail k rest :
  connection (ctx w) = Some sid -> socks w !! sid = Some s -> healthy (tx s) -> oracle w = [] ->
  rx_view (rx s) = (encode_requests rs ++ header_bytes (set_command state) len ++ encode_names ns ++ tail, k, rest) ->
  Forall request_ok rs -> Forall name_ok ns -> name_ok n ->
  tail `prefix_of` encode_name n -> tail <> encode_name n ->
  zlen (encode_names ns) < len < 2 ^ 32 ->
  exists fuel w1 w2, close_and_clean_connection w1 = Ret tt w2 /\
    disconnected w w2 /\ rx (sock sid w2) = rest /\ is_Some (socks w2 !! sid) /\
    ctx_tracepoints (ctx w2) = ctx_tracepoints (ctx w) /\
    ctx_client_connected (ctx w2) = ctx_client_connected (ctx w) /\
    receive w = loop (S fuel) receive_body (mkBuf sid []) w2.
Proof.
  intros Hc Hs Hh Ho Hv Hrs Hns Hn Htail Htail' Hlen.
  destruct (receive_requests_run w sid s rs _ k rest Hc Hs Hh Ho Hv Hrs)
    as (fuel & br1 & w1 & Hrun & Hex & Hsock & Hv1 & Hfuel).
  rewrite !length_app in Hfuel. pose proof (length_header (set_command state) len).
  destruct fuel as [|fuel]; [lia|].
  destruct Hex as (Hctx & _ & _ & _ & _ & Hc1 & s1 & Hs1 & _).
  rewrite <-Hsock in Hs1. pose proof (zlen_nonneg (encode_names ns)).
  destruct (receive_body_header br1 w1 s1 (set_command state) len _ k rest Hs1 ltac:(lia) Hv1)
    as (br2 & rx2 & Hbody & Hsock2 & Hv2). cbn zeta in *. set (w2 := set_rx _ rx2 w1) in *.
  assert (exists s2, socks w2 !! br_sock br2 = Some s2) as [s2 Hs2].
  { rewrite Hsock2. eexists. by apply set_rx_lookup. }
  pose proof (set_tracepoints_short state len ns n tail br2 w2 s2 k rest Hs2 Hns Hn Hv2 Htail Htail' ltac:(lia) ltac:(lia)) as Hset.
  set (w3 := with_heap _ _) in Hset.
  assert (connection (ctx w3) = Some sid) as Hc3 by exact Hc1.
  destruct (close_run w3 sid Hc3) as (w4 & Hclose & Hctx4 & Hheap4 & _ & Hso4 & _).
  exists fuel, w3, w4. split; [done|]. split.
  { eapply (disconnected_eq _ w3); [by rewrite <-Hctx|]. by apply close_disconnected. }
  destruct (closed_ctx_shape (ctx w3)) as (t & q & u & E & _).
  split_and!.
  - unfold sock. rewrite Hso4. unfold w3. simpl. by rewrite Hsock2, Hsock, lookup_insert_eq.
  - rewrite Hso4. unfold w3. simpl. rewrite Hsock2, Hsock, lookup_insert_eq. by eexists.
  - rewrite Hctx4, E. simpl. by rewrite Hctx.
  - rewrite Hctx4, E. simpl. by rewrite Hctx.
  - rewrite Hrun. cbn [loop]. unfold mbind at 1, M_bind at 1. rewrite Hbody.
    assert ((reader ← execute_command (set_command state) len br2; mret (inl reader)) w2
      = Ret (@inl _ unit (mkBuf (br_sock br2) [])) w4) as ->.
    { unfold mbind, M_bind. replace (execute_command (set_command state) len br2 w2)
        with (set_tracepoints len br2 state w2) by by destruct state.
      rewrite Hset. unfold mbind, M_bind. by rewrite Hclose. }
    by rewrite Hsock2, Hsock.
Qed.

(** A request with an invalid name length: the connection is torn down, and the
    loop goes on with the bytes after the length. *)
Lemma violation_step w sid s state len nl more k rest :
  connection (ctx w) = Some sid -> socks w !! sid = Some s -> 32 < nl < 2 ^ 16 -> 0 < len < 2 ^ 32 ->
  reader_view (mkBuf sid []) w =
    (header_bytes (set_command state) len ++ u16_to_be_bytes nl ++ more, k, rest) ->
  exists br' w' s', receive_body (mkBuf sid []) w = Ret (inl br') w' /\ br_sock br' = sid /\
    ctx w' = closed_ctx (ctx w) /\ heap w' = closed_heap (ctx w) (heap w) /\
    socks w' !! sid = Some s' /\ reader_view br' w' = (more, k, rest).
Proof.
  intros Hc Hs Hnl Hlen Hrv.
  destruct (receive_body_header (mkBuf sid []) w s (set_command state) len _ _ _ Hs ltac:(lia) Hrv)
    as (br2 & rx2 & Hbody & Hsock2 & Hv2). cbn zeta in *. set (w2 := set_rx _ rx2 w) in *.
  simpl br_sock in *. pose proof (set_rx_lookup sid rx2 w s Hs) as Hs2. fold w2 in Hs2.
  rewrite <-Hsock2 in Hs2.
  destruct (set_tracepoints_violation state len nl br2 w2 _ _ _ _ Hs2 Hnl ltac:(lia) Hv2)
    as (br3 & rx3 & Hsock3 & Hv3 & Hset). rewrite Hsock2 in *. set (w3 := set_rx sid rx3 w2) in *.
  destruct (close_run w3 sid Hc) as (w4 & Hclose & Hctx4 & Hheap4 & _ & Hso4 & _).
  exists br3, w4, (mkSocket rx3 (tx s) (sent s)). split_and!; try done.
  - rewrite Hbody. unfold mbind, M_bind.
    replace (execute_command (set_command state) len br2 w2) with (set_tracepoints len br2 state w2)
      by by destruct state. rewrite Hset. unfold mbind, M_bind. by rewrite Hclose.
  - rewrite Hso4. apply (set_rx_lookup _ rx3 _ _ Hs2).
  - rewrite <-Hv3. unfold reader_view, sock. by rewrite Hso4.
Qed.
End lemmas.

Section properties.
Context {P : Platform} {TL : TimerLaws P} {HL : HashLaws P}.

(** C5: A stream of well-formed requests is executed request by request, in
    order, whatever the sizes of the reads that deliver it: afterwards the
    flags are those of the requests applied in turn (unknown names ignored),
    the replies to the list requests have been sent, and the context is as it
    was, ready for the next event. *)
Theorem receive_requests w sid s rs rest :
  connection (ctx w) = Some sid -> socks w !! sid = Some s -> healthy (tx s) -> oracle w = [] ->
  rx_view (rx s) = (encode_requests rs, WouldBlock, rest) -> Forall request_ok rs ->
  exists w', receive w = Ret tt w' /\ ctx w' = ctx w /\
    heap w' = foldl (apply_request (ctx_tracepoints (ctx w))) (heap w) rs /\
    sent (sock sid w') = sent s ++ concat (map (reply (ctx_tracepoints (ctx w))) rs) /\
    rx (sock sid w') = rest.
Proof.
  intros Hc Hs Hh Ho Hv Hrs.
  destruct (receive_end_run w sid s rs [] WouldBlock rest) as (w' & Hex & Hrun); try done.
  { by rewrite app_nil_r. }
  { simpl. lia. }
  exists (set_rx sid rest w'). split; [exact Hrun|].
  destruct (executed_set_rx _ _ rest _ _ Hex) as (Hctx & _ & _ & Hheap & Hsent & _).
  split_and!; try done.
  - rewrite Hsent. unfold sock. by rewrite Hs.
  - apply rx_set_rx.
Qed.

(** C24: The reply to a list request is one TRACEPOINT_LIST_REPLY message
    whose payload decodes to exactly the registered names. *)
Theorem list_reply_decodes (m : gmap (list u8) nat) :
  map_Forall (fun n _ => zlen n <= MAX_TRACEPOINT_NAME_LEN) m -> 34 * Z.of_nat (size m) < 2 ^ 32 ->
  exists body names, tlv_stream (list_reply m) = Some [(TracepointListReply, body)] /\
    tlv_names body = Some names /\ names ≡ₚ (map_to_list m).*1.
Proof.
  intros Hm Hsize.
  assert (Forall (fun n => zlen n <= MAX_TRACEPOINT_NAME_LEN) (hash_keys m)) as Hkeys.
  { apply Forall_forall. intros n [l Hl]%elem_of_hash_keys. by apply (Hm n l). }
  assert (Forall (fun n => zlen n < 2 ^ 16) (hash_keys m)) as Hkeys'.
  { eapply Forall_impl; [exact Hkeys|]. unfold MAX_TRACEPOINT_NAME_LEN. simpl. lia. }
  assert (zlen (hash_keys m) = Z.of_nat (size m)) as Hlen.
  { unfold zlen. by rewrite hash_keys_perm, length_fmap, length_map_to_list. }
  exists (encode_names (hash_keys m)), (hash_keys m). split_and!.
  - unfold list_reply, tracepoint_list_msg. rewrite tracepoint_list_msg_from by done. rewrite app_nil_l.
    rewrite <-(app_nil_r (push_front_header _ _)).
    apply (tlv_stream_messages [(TracepointListReply, encode_names (hash_keys m))]); [|done].
    constructor; [|constructor]. split; [done|]. simpl. pose proof (zlen_encode_names_le _ Hkeys). lia.
  - by apply tlv_names_encode.
  - apply hash_keys_perm.
Qed.

(** C15: When the client goes away (end of stream, or any read error) after a
    stream of whole requests and possibly part of a header, every whole
    request is still executed and answered, and then the connection is torn
    down: no client is connected, every registered tracepoint is disabled, the
    queue timer is off and the announce timer is on. *)
Theorem receive_disconnect w sid s rs tail k rest :
  connection (ctx w) = Some sid -> socks w !! sid = Some s -> healthy (tx s) -> oracle w = [] ->
  rx_view (rx s) = (encode_requests rs ++ tail, k, rest) -> (length tail < 12)%nat ->
  k <> WouldBlock -> Forall request_ok rs ->
  exists w', receive w = Ret tt w' /\ disconnected w w' /\
    sent (sock sid w') = sent s ++ concat (map (reply (ctx_tracepoints (ctx w))) rs).
Proof.
  intros Hc Hs Hh Ho Hv Htail Hk Hrs.
  destruct (receive_end_run w sid s rs tail k rest) as (w1 & Hex & Hrun); try done.
  rewrite bool_decide_false in Hrun by done.
  destruct (executed_set_rx _ _ rest _ _ Hex) as (Hctx & _ & _ & _ & Hsent & Hc1 & _).
  set (w2 := set_rx sid rest w1) in *.
  destruct (close_run w2 sid Hc1) as (w3 & Hclose & Hctx3 & Hheap3 & _ & Hso3 & _).
  exists w3. rewrite Hrun. unfold mbind, M_bind. rewrite Hclose. split; [done|]. split.
  - eapply (disconnected_eq _ w2); [done|]. by apply close_disconnected.
  - unfold sock at 1. rewrite Hso3. fold (sock sid w2). rewrite Hsent. unfold sock. by rewrite Hs.
Qed.

(** An enable or disable request whose body has not arrived completely
    when it is read -- a message split over two TCP segments is enough -- does
    not wait for the rest: the connection is torn down and every tracepoint
    disabled. *)
Theorem receive_split_body w sid s rs state len ns n tail :
  connection (ctx w) = Some sid -> socks w !! sid = Some s -> healthy (tx s) -> oracle w = [] ->
  rx_view (rx s) =
    (encode_requests rs ++ header_bytes (set_command state) len ++ encode_names ns ++ tail, WouldBlock, []) ->
  Forall request_ok rs -> Forall name_ok ns -> name_ok n ->
  tail `prefix_of` encode_name n -> tail <> encode_name n ->
  zlen (encode_names ns) < len < 2 ^ 32 ->
  exists w', receive w = Ret tt w' /\ disconnected w w'.
Proof.
  intros Hc Hs Hh Ho Hv Hrs Hns Hn Ht Ht' Hlen.
  destruct (receive_truncated_run w sid s rs state len ns n tail WouldBlock [] Hc Hs Hh Ho Hv)
    as (fuel & w1 & w2 & _ & Hdis & Hrx & [s2 Hs2] & _ & _ & Hrun); try done.
  exists (set_rx sid [] w2). split; [|exact Hdis]. rewrite Hrun. cbn [loop]. unfold mbind, M_bind.
  rewrite (receive_body_end (mkBuf sid []) w2 s2 [] WouldBlock []); simpl; try done; [|lia].
  unfold reader_view. simpl. by rewrite Hrx.
Qed.

(** C33: If instead the stream ends inside the body of a request, the tracer
    thread panics: the connection is closed when the name cannot be read, the
    loop reads a header from the ended stream and closes the connection a
    second time, which unwraps a connection that is no longer there. *)
Theorem receive_truncated_panics w sid s rs state len ns n tail r :
  connection (ctx w) = Some sid -> socks w !! sid = Some s -> healthy (tx s) -> oracle w = [] ->
  rx_view (rx s) =
    (encode_requests rs ++ header_bytes (set_command state) len ++ encode_names ns ++ tail,
     UnexpectedEof, RxEof :: r) ->
  Forall request_ok rs -> Forall name_ok ns -> name_ok n ->
  tail `prefix_of` encode_name n -> tail <> encode_name n ->
  zlen (encode_names ns) < len < 2 ^ 32 ->
  exists w', receive w = Panic w' /\ connection (ctx w') = None.
Proof.
  intros Hc Hs Hh Ho Hv Hrs Hns Hn Ht Ht' Hlen.
  destruct (receive_truncated_run w sid s rs state len ns n tail UnexpectedEof (RxEof :: r) Hc Hs Hh Ho Hv)
    as (fuel & w1 & w2 & _ & (Hnone & _) & Hrx & [s2 Hs2] & _ & _ & Hrun); try done.
  eexists. split.
  - rewrite Hrun. cbn [loop]. unfold mbind at 1, M_bind at 1.
    rewrite (receive_body_end (mkBuf sid []) w2 s2 [] UnexpectedEof (RxEof :: r)); simpl; try done; [| |lia].
    + unfold mbind, M_bind. by rewrite close_panics.
    + unfold reader_view. simpl. by rewrite Hrx.
  - exact Hnone.
Qed.

(** A header that arrives in two pieces, the second after the first has
    been read, is lost: both wake-ups return normally, nothing is executed or
    answered, and none of the bytes are left to be read.  (Every request is a
    header followed by its body; the list request is shown here.) *)
Theorem receive_split_header_lost w sid s h1 h2 :
  connection (ctx w) = Some sid -> socks w !! sid = Some s -> healthy (tx s) -> oracle w = [] ->
  rx s = [RxData h1; RxErr WouldBlock; RxData h2] ->
  h1 ++ h2 = encode_request ReqList -> h1 <> [] -> h2 <> [] ->
  exists w', (receive;; receive) w = Ret tt w' /\ ctx w' = ctx w /\ heap w' = heap w /\
    sent (sock sid w') = sent s /\ rx (sock sid w') = [].
Proof.
  intros Hc Hs Hh Ho Hrx Heq H1 H2.
  assert (length h1 + length h2 = 12)%nat as Hlen by by rewrite <-length_app, Heq.
  destruct h1 as [|a1 h1]; [done|]. destruct h2 as [|a2 h2]; [done|]. simpl in Hlen.
  assert (forall w0 s0 tail rest, connection (ctx w0) = Some sid -> socks w0 !! sid = Some s0 ->
    oracle w0 = [] -> rx_view (rx s0) = (tail, WouldBlock, rest) -> (length tail < 12)%nat ->
    receive w0 = Ret tt (set_rx sid rest w0)) as Hone.
  { intros w0 s0 tail rest Hc0 Hs0 Ho0 Hv0 Htail. rewrite (receive_start w0 sid s0) by done. cbn [loop].
    unfold mbind, M_bind. rewrite (receive_body_end (mkBuf sid []) w0 s0 tail WouldBlock rest); try done.
    unfold reader_view, sock. simpl. by rewrite Hs0, buf_view_nil. }
  exists (set_rx sid [] (set_rx sid [RxData (a2 :: h2)] w)). unfold mbind, M_bind.
  rewrite (Hone w s (a1 :: h1) [RxData (a2 :: h2)]); try done; simpl; [|rewrite Hrx; simpl; by rewrite app_nil_r|lia].
  rewrite (Hone _ (mkSocket [RxData (a2 :: h2)] (tx s) (sent s)) (a2 :: h2) []);
    try done; simpl; [|by apply (set_rx_lookup _ _ _ _ Hs)|by rewrite app_nil_r|lia].
  split_and!; try done.
  - rewrite !sent_set_rx. unfold sock. by rewrite Hs.
  - apply rx_set_rx.
Qed.

(** C38: A request whose name length exceeds the limit closes the connection,
    but the loop keeps executing what follows in the stream: a next enable
    request is carried out although no client is connected any more, so the
    tracepoint stays enabled after the teardown. *)
Theorem receive_after_violation w sid s state len nl name l :
  connection (ctx w) = Some sid -> socks w !! sid = Some s -> healthy (tx s) -> oracle w = [] ->
  32 < nl < 2 ^ 16 -> 0 < len < 2 ^ 32 ->
  name_ok name -> ctx_tracepoints (ctx w) !! name = Some l -> l <> ctx_client_connected (ctx w) ->
  rx_view (rx s) =
    (header_bytes (set_command state) len ++ u16_to_be_bytes nl ++ encode_request (ReqSet true [name]),
     WouldBlock, []) ->
  exists w', receive w = Ret tt w' /\ connection (ctx w') = None /\
    heap w' !! ctx_client_connected (ctx w) = Some false /\ heap w' !! l = Some true.
Proof.
  intros Hc Hs Hh Ho Hnl Hlen Hn Hl Hne Hv.
  rewrite (receive_start w sid s) by done. set (br := mkBuf sid []).
  assert (reader_view br w = (header_bytes (set_command state) len ++ u16_to_be_bytes nl ++
    encode_request (ReqSet true [name]), WouldBlock, [])) as Hrv.
  { unfold reader_view, sock. simpl. by rewrite Hs, buf_view_nil. }
  pose proof (reader_view_total _ _ _ _ _ Hrv) as Ht. rewrite length_app, length_header in Ht.
  destruct (reader_total br w) as [|[|fuel]]; [lia|lia|]. subst br.
  destruct (violation_step w sid s state len nl _ _ _ Hc Hs Hnl Hlen Hrv)
    as (br3 & w4 & s4 & Hstep1 & Hsock3 & Hctx4 & Hheap4 & Hs4 & Hv4).
  rewrite <-Hsock3 in Hs4. rewrite <-(app_nil_r (encode_request _)) in Hv4.
  assert (request_ok (ReqSet true [name])) as Hreq.
  { split; [by constructor|]. pose proof (name_ok_range _ Hn). unfold encode_names. cbn [map concat].
    rewrite app_nil_r, zlen_encode_name. lia. }
  destruct (set_request_step true [name] br3 w4 _ [] _ _ Hs4 Hreq Hv4) as (br5 & rx5 & Hstep2 & Hsock5 & Hv5).
  cbn zeta in *. set (w5 := with_heap _ _) in *.
  destruct (closed_ctx_shape (ctx w)) as (t & q & u & E & _).
  assert (ctx w5 = with_timers t q u (with_connection None (ctx w))) as Hctx5.
  { unfold w5. simpl. by rewrite Hctx4, E. }
  assert (heap w5 = <[l := true]> (closed_heap (ctx w) (heap w))) as Hheap5.
  { unfold w5. simpl. rewrite Hctx4, E, Hheap4. simpl. by rewrite Hl. }
  assert (exists s5, socks w5 !! br_sock br5 = Some s5) as [s5 Hs5].
  { unfold w5. simpl. rewrite Hsock5, lookup_insert_eq. by eexists. }
  exists (set_rx sid [] w5). split_and!.
  - cbn [loop]. unfold mbind at 1, M_bind at 1. rewrite Hstep1. cbn [loop].
    unfold mbind at 1, M_bind at 1. rewrite Hstep2. cbn [loop]. unfold mbind, M_bind.
    rewrite (receive_body_end br5 w5 s5 [] WouldBlock [] Hs5 Hv5) by (simpl; lia).
    by rewrite Hsock5, Hsock3.
  - change (ctx (set_rx sid [] w5)) with (ctx w5). by rewrite Hctx5.
  - change (heap (set_rx sid [] w5)) with (heap w5). rewrite Hheap5, lookup_insert_ne by done. apply closed_heap_cc.
  - change (heap (set_rx sid [] w5)) with (heap w5). by rewrite Hheap5, lookup_insert_eq.
Qed.
End properties.

(** * Instances *)

Definition example_requests : list request :=
  [ReqList; ReqSet true [cpu; mem; lit "gone"]; ReqSet false [mem]].

(** The bytes arrive in two reads, one of them interrupted. *)
Definition example_rx (bs : list u8) (last : list rx_event) : list rx_event :=
  [RxData (take 5 bs); RxErr Interrupted; RxData (drop 5 bs)] ++ last.

Lemma example_requests_ok : Forall request_ok example_requests.
Proof. by repeat constructor. Defined.

Lemma receive_requests_witness :
  let w := busy_world [] (example_rx (encode_requests example_requests) []) [TxAccept 3] [] in
  exists w', receive w = Ret tt w' /\ ctx w' = ctx w /\
    heap w' = foldl (apply_request (ctx_tracepoints (ctx w))) (heap w) example_requests /\
    sent (sock 0 w') = [] ++ concat (map (reply (ctx_tracepoints (ctx w))) example_requests) /\
    rx (sock 0 w') = [].
Proof.
  intros w. apply (receive_requests w 0 (sock 0 w) example_requests []);
    try reflexivity; [repeat constructor|apply example_requests_ok].
Defined.

Lemma list_reply_decodes_witness :
  exists body names, tlv_stream (@list_reply reference example_tracepoints) = Some [(TracepointListReply, body)] /\
    tlv_names body = Some names /\ names ≡ₚ (map_to_list example_tracepoints).*1.
Proof.
  apply list_reply_decodes; [|vm_compute; reflexivity].
  apply (bool_decide_unpack _). vm_compute. exact I.
Defined.

Lemma receive_disconnect_witness :
  let w := busy_world [] (example_rx (encode_requests example_requests ++ MAGIC_NUMB) [RxEof]) [] [] in
  exists w', receive w = Ret tt w' /\ disconnected w w' /\
    sent (sock 0 w') = [] ++ concat (map (reply (ctx_tracepoints (ctx w))) example_requests).
Proof.
  intros w. apply (receive_disconnect w 0 (sock 0 w) example_requests MAGIC_NUMB UnexpectedEof [RxEof]);
    try reflexivity; [by apply Forall_nil_2|simpl; lia|done|apply example_requests_ok].
Defined.

(** An enable request for "cpu" and "mem" of which the last byte is missing. *)
Definition example_cut (last : list rx_event) : list rx_event :=
  RxData (header_bytes TracepointEnableRequest 10 ++ encode_names [cpu] ++ take 4 (encode_name mem)) :: last.

Lemma receive_split_body_witness :
  let w := busy_world [] (example_cut []) [] [] in
  exists w', receive w = Ret tt w' /\ disconnected w w'.
Proof.
  intros w. apply (receive_split_body w 0 (sock 0 w) [] true 10 [cpu] mem (take 4 (encode_name mem)));
    try reflexivity; [by apply Forall_nil_2|by apply Forall_nil_2|by apply Forall_singleton|done|by exists [Byte.x6d]|done|done].
Defined.

Lemma receive_truncated_panics_witness :
  let w := busy_world [] (example_cut [RxEof]) [] [] in
  exists w', receive w = Panic w' /\ connection (ctx w') = None.
Proof.
  intros w. apply (receive_truncated_panics w 0 (sock 0 w) [] true 10 [cpu] mem (take 4 (encode_name mem)) []);
    try reflexivity; [by apply Forall_nil_2|by apply Forall_nil_2|by apply Forall_singleton|done|by exists [Byte.x6d]|done|done].
Defined.

Lemma receive_split_header_lost_witness :
  let w := busy_world [] [RxData (take 6 (encode_request ReqList)); RxErr WouldBlock;
    RxData (drop 6 (encode_request ReqList))] [] [] in
  exists w', (receive;; receive) w = Ret tt w' /\ ctx w' = ctx w /\ heap w' = heap w /\
    sent (sock 0 w') = [] /\ rx (sock 0 w') = [].
Proof.
  intros w. apply (receive_split_header_lost w 0 (sock 0 w) (take 6 (encode_request ReqList)) (drop 6 (encode_request ReqList))); try reflexivity; [by apply Forall_nil_2|done|done].
Defined.

Lemma receive_after_violation_witness :
  let w := busy_world [] [RxData (header_bytes TracepointEnableRequest 35 ++ u16_to_be_bytes 33 ++
      encode_request (ReqSet true [cpu]))] [] [] in
  exists w', receive w = Ret tt w' /\ connection (ctx w') = None /\
    heap w' !! 0%nat = Some false /\ heap w' !! 1%nat = Some true.
Proof.
  intros w. apply (receive_after_violation w 0 (sock 0 w) true 35 33 cpu 1);
    try reflexivity; try done; by apply Forall_nil_2.
Defined.
