(* ===== verification/Malformed.v ===== *)
(** Messages whose header is refused: [receive] closes the connection and
    discards what is left of the stream. *)

From S2P Require Import Prelude Monad Platform Types Worlds Strings Context Io Wire Tcp Quiet Invariant Flush Receive Requests.

Section Malformed.
Context {P : Platform}.

(** [read_empty] takes everything up to the condition that ends the stream; any
    condition but [WouldBlock] and the end of the stream closes the connection. *)
Lemma read_empty_loop fuel br w s b k rest :
  socks w !! br_sock br = Some s -> quiet (rx s) -> reader_view br w = (b, k, rest) ->
  (length b < fuel)%nat ->
  exists br', loop fuel read_empty_body br w =
    ((if bool_decide (k = WouldBlock \/ k = UnexpectedEof) then mret tt else close_and_clean_connection);;
     mret br') (set_rx (br_sock br) rest w).
Proof.
  revert br w s b. induction fuel as [|fuel IH]; intros br w s b Hs Hq Hv Hfuel; [lia|].
  destruct (buf_read_view 64 br w b k rest ltac:(lia) Hv) as (r & br' & rx' & Hrun & Hrx & Hsock & _ & Hr).
  assert (rx (sock (br_sock br) w) = rx s) as Hrxs by (unfold sock; by rewrite Hs).
  assert ((if br_buf br is [] then set_rx (br_sock br) rx' w else w) = set_rx (br_sock br) rx' w) as E.
  { destruct (br_buf br); [done|]. rewrite Hrx, Hrxs. by rewrite set_rx_id. }
  rewrite E in Hrun. pose proof Hrun as Hquiet. apply buf_read_quiet in Hquiet as [[Hint Heof] Hq']; [|by rewrite Hrxs].
  cbn [loop]. unfold mbind at 1, M_bind at 1. unfold read_empty_body at 1, mbind at 1, M_bind at 1.
  rewrite Hrun. destruct r as [[|x bs]|k'].
  - destruct Hr as (-> & -> & -> & _). exists br'. by rewrite bool_decide_true by by right.
  - destruct Hr as (_ & b' & -> & Hv'). rewrite rx_set_rx in Hq'.
    destruct (IH br' (set_rx (br_sock br) rx' w) (mkSocket rx' (tx s) (sent s)) b') as (br2 & Hloop).
    + rewrite Hsock. by apply set_rx_lookup.
    + done.
    + unfold reader_view. by rewrite Hsock, rx_set_rx.
    + rewrite length_app in Hfuel. simpl in Hfuel. lia.
    + exists br2. unfold mret at 1, M_ret at 1. rewrite Hloop, Hsock. by rewrite set_rx_set_rx.
  - exists br'. destruct k'; try done; destruct Hr as (-> & <- & -> & _).
    1: by rewrite bool_decide_true by by left.
    all: rewrite bool_decide_false by (by intros [|]); unfold mbind, M_bind;
      by destruct (close_and_clean_connection _).
Qed.

(** A refused header, read with the rest of the stream. *)
Lemma receive_body_bad br w s sid h junk k rest :
  connection (ctx w) = Some sid -> socks w !! br_sock br = Some s -> quiet (rx s) ->
  reader_view br w = (h ++ junk, k, rest) -> length h = 12%nat -> check_parse_header h = Err tt ->
  exists w1, receive_body br w =
      ((if bool_decide (k = WouldBlock \/ k = UnexpectedEof) then mret tt else close_and_clean_connection);;
       mret (inr tt)) (set_rx (br_sock br) rest w1) /\
    ctx w1 = closed_ctx (ctx w) /\ heap w1 = closed_heap (ctx w) (heap w) /\
    sent (sock sid w1) = sent (sock sid w).
Proof.
  intros Hc Hs Hq Hv Hh Hbad.
  destruct (read_prefix 12 br w s _ _ _ _ Hs Hv Hh) as (br1 & rx1 & Hrun & Hsock & Hv1).
  assert (rx (sock (br_sock br) w) = rx s) as Hrxs by (unfold sock; by rewrite Hs).
  pose proof (read_exact_calm 12 br w _ _ Hrun (br_sock br)) as Hq1.
  rewrite Hrxs, rx_set_rx in Hq1. specialize (Hq1 Hq).
  set (w2 := set_rx (br_sock br) rx1 w) in *.
  destruct (close_run w2 sid Hc) as (w3 & Hclose & Hctx3 & Hheap3 & _ & Hso3 & _).
  assert (socks w3 !! br_sock br1 = Some (mkSocket rx1 (tx s) (sent s))) as Hs3.
  { rewrite Hso3, Hsock. by apply set_rx_lookup. }
  assert (reader_view br1 w3 = (junk, k, rest)) as Hv3.
  { rewrite <-Hv1. unfold reader_view, sock. by rewrite Hso3. }
  pose proof (reader_view_total _ _ _ _ _ Hv3) as Htotal.
  destruct (read_empty_loop (S (reader_total br1 w3)) br1 w3 _ junk k rest Hs3 Hq1 Hv3 ltac:(lia))
    as (br2 & Hempty). fold (read_empty br1 w3) in Hempty.
  exists w3. split_and!; try done.
  - unfold receive_body. unfold mbind at 1, M_bind at 1. rewrite Hrun, Hbad.
    unfold mbind at 1, M_bind at 1. rewrite Hclose. unfold mbind at 1, M_bind at 1. rewrite Hempty, Hsock.
    case_bool_decide; [done|]. unfold mbind, M_bind. by destruct (close_and_clean_connection (set_rx _ _ w3)).
  - unfold sock at 1. rewrite Hso3. fold (sock sid w2). unfold w2.
    destruct (decide (sid = br_sock br)) as [->|Hne]; [by rewrite sent_set_rx|].
    unfold sock. simpl. by rewrite lookup_insert_ne.
Qed.

Context {TL : TimerLaws P} {HL : HashLaws P}.

(** C34: A message whose header is refused (a wrong magic number or nonzero
    flags), after any number of whole requests: these are executed and answered,
    then the connection is torn down as in a disconnect and everything behind
    the header is discarded.  When the discarding meets the end of what has
    arrived or of the stream, [receive] returns; when it meets a read error (a
    reset connection), it closes the connection a second time and the thread
    panics. *)
Theorem receive_bad_header w sid s rs h junk k rest :
  connection (ctx w) = Some sid -> socks w !! sid = Some s -> healthy (tx s) -> oracle w = [] ->
  rx_view (rx s) = (encode_requests rs ++ h ++ junk, k, rest) -> quiet (rx s) -> Forall request_ok rs ->
  length h = 12%nat -> check_parse_header h = Err tt ->
  exists w', disconnected w w' /\ rx (sock sid w') = rest /\
    sent (sock sid w') = sent s ++ concat (map (reply (ctx_tracepoints (ctx w))) rs) /\
    receive w = if bool_decide (k = WouldBlock \/ k = UnexpectedEof) then Ret tt w' else Panic w'.
Proof.
  intros Hc Hs Hh Ho Hv Hq Hrs Hlen Hbad.
  destruct (receive_requests_run w sid s rs _ k rest Hc Hs Hh Ho Hv Hrs)
    as (fuel & br & w1 & Hrun & Hex & Hsock & Hv1 & _ & Hq1). specialize (Hq1 Hq).
  destruct Hex as (Hctx & _ & _ & _ & Hsent & Hc1 & s1 & Hs1 & _). rewrite <-Hsock in Hs1.
  assert (rx (sock sid w1) = rx s1) as Hrx1 by (unfold sock; by rewrite <-Hsock, Hs1). rewrite Hrx1 in Hq1.
  destruct (receive_body_bad br w1 s1 sid h junk k rest Hc1 Hs1 Hq1 Hv1 Hlen Hbad)
    as (w2 & Hbody & Hctx2 & Hheap2 & Hsent2). rewrite Hsock in Hbody.
  set (w3 := set_rx sid rest w2) in *.
  assert (disconnected w w3) as Hdis.
  { eapply (disconnected_eq _ w1); [done|]. by apply close_disconnected. }
  assert (sent (sock sid w3) = sent s ++ concat (map (reply (ctx_tracepoints (ctx w))) rs)) as Hsent3.
  { unfold w3. rewrite sent_set_rx, Hsent2, Hsent. unfold sock. by rewrite Hs. }
  assert (rx (sock sid w3) = rest) as Hrx3 by apply rx_set_rx.
  rewrite Hrun. cbn [loop]. unfold mbind at 1, M_bind at 1. rewrite Hbody. case_bool_decide; [by exists w3|].
  unfold mbind, M_bind. destruct Hdis as (Hd1 & Hd2 & Hd3 & Hd4 & Hd5).
  rewrite (close_panics w3 Hd1).
  exists (with_heap (<[ctx_client_connected (ctx w3) := false]> (heap w3)) w3).
  split; [|split; [exact Hrx3|by split]].
  assert (ctx_client_connected (ctx w3) = ctx_client_connected (ctx w)) as Hcc.
  { change (ctx w3) with (ctx w2). rewrite Hctx2, Hctx. destruct (closed_ctx_shape (ctx w)) as (t & q & u & -> & _). done. }
  unfold disconnected. cbn [heap ctx with_heap]. rewrite Hcc, insert_id by done. by split_and!.
Qed.
End Malformed.

(** A list request, then a header with nonzero flags and some more bytes; the
    client waits, or resets the connection. *)
Definition bad_header : list u8 := MAGIC_NUMB ++ u16_to_be_bytes 3 ++ u16_to_be_bytes 0 ++ u32_to_be_bytes 5.

Lemma receive_bad_header_witness :
  let w last := busy_world [] (RxData (encode_requests [ReqList] ++ bad_header ++ cpu) :: last) [] [] in
  (exists w', disconnected (w []) w' /\ rx (sock 0 w') = [] /\
    sent (sock 0 w') = [] ++ concat (map (reply (ctx_tracepoints (ctx (w [])))) [ReqList]) /\
    receive (w []) = Ret tt w') /\
  (exists w', disconnected (w [RxErr ConnectionReset]) w' /\ rx (sock 0 w') = [] /\
    sent (sock 0 w') = [] ++ concat (map (reply (ctx_tracepoints (ctx (w [])))) [ReqList]) /\
    receive (w [RxErr ConnectionReset]) = Panic w').
Proof.
  intros w. split.
  - apply (receive_bad_header (w []) 0 (sock 0 (w [])) [ReqList] bad_header cpu WouldBlock []); try reflexivity;
      repeat (apply Forall_cons; split); first [by apply Forall_nil_2|done|by split].
  - apply (receive_bad_header (w [RxErr ConnectionReset]) 0 (sock 0 (w [RxErr ConnectionReset])) [ReqList]
      bad_header cpu ConnectionReset []); try reflexivity;
      repeat (apply Forall_cons; split); first [by apply Forall_nil_2|done|by split].
Defined.
