(* ===== verification/Client.v ===== *)
(** The example client (client/client.py): its requests, its parser, and how
    they fit the tracer. *)

From S2P Require Import Prelude Monad Platform Types Worlds Strings Context Io Wire Tcp Invariant Quiet Flush Receive Requests Malformed.

Module Client.

(** [class Tracy]: its fields, and the bytes written to the transport. A string
    is the list of its characters' codes, all of them ASCII; a raised exception
    is a [panic]; [on_con_lost] says whether that future has its result. *)
Record Tracy := mkTracy {
  tracepoints : list (list u8);
  rec_messages : list (list u8 * list u8 * list u8);
  all_tracepoints_enabled : bool;
  print_calls : Z;
  on_con_lost : bool;
  written : list u8;
}.

Definition with_tracepoints v t :=
  mkTracy v (rec_messages t) (all_tracepoints_enabled t) (print_calls t) (on_con_lost t) (written t).
Definition with_rec_messages v t :=
  mkTracy (tracepoints t) v (all_tracepoints_enabled t) (print_calls t) (on_con_lost t) (written t).
Definition with_all_tracepoints_enabled v t :=
  mkTracy (tracepoints t) (rec_messages t) v (print_calls t) (on_con_lost t) (written t).
Definition with_print_calls v t :=
  mkTracy (tracepoints t) (rec_messages t) (all_tracepoints_enabled t) v (on_con_lost t) (written t).
Definition with_on_con_lost v t :=
  mkTracy (tracepoints t) (rec_messages t) (all_tracepoints_enabled t) (print_calls t) v (written t).
Definition with_written v t :=
  mkTracy (tracepoints t) (rec_messages t) (all_tracepoints_enabled t) (print_calls t) (on_con_lost t) v.

Definition TRACEPOINT_LIST_REQUEST : list u8 := u16_to_be_bytes 1.
Definition TRACEPOINT_LIST_REPLY : list u8 := u16_to_be_bytes 2.
Definition TRACEPOINT_ENABLE_REQUEST : list u8 := u16_to_be_bytes 3.
Definition TRACE_PUSH : list u8 := u16_to_be_bytes 5.
Definition MAGIC_NO : list u8 := lit "RuSt".

(** [n.to_bytes(k, 'big')]: an [OverflowError] when it does not fit. *)
Definition to_bytes (k : nat) (n : Z) : M Tracy (list u8) :=
  if n <? 256 ^ Z.of_nat k then mret (be_bytes k n) else panic.

Definition generate_header (cmd : list u8) (msg_len : Z) : M Tracy (list u8) :=
  len ← to_bytes 4 msg_len; mret (MAGIC_NO ++ cmd ++ len).

Definition parse_header (head : list u8) (total_len : Z) : option (list u8) * Z :=
  let magic := slice 0 4 head in
  let cmd := slice 6 8 head in
  let rec_len := be_value (drop 8 head) in
  if negb (bool_decide (magic = MAGIC_NO)) then (None, 0)
  else if negb (total_len =? rec_len + 12) then (None, 0)
  else if bool_decide (cmd = TRACE_PUSH) || bool_decide (cmd = TRACEPOINT_LIST_REPLY) then (Some cmd, rec_len)
  else (None, 0).

Definition generate_tlv_submsg (msg : list u8) : M Tracy (list u8) :=
  len ← to_bytes 2 (zlen msg);
  if is_ascii msg then mret (len ++ msg) else panic.

Definition generate_enable_msg (tracepoints : list (list u8)) : M Tracy (list u8) :=
  let total_len := foldl (fun total_len tp => total_len + zlen tp) 0 tracepoints in
  msg ← generate_header TRACEPOINT_ENABLE_REQUEST total_len;
  foldl (fun m tracepoint => msg ← m; sub ← generate_tlv_submsg (to_lowercase tracepoint); mret (msg ++ sub))
    (mret msg) tracepoints.

Definition write (bs : list u8) : M Tracy unit :=
  modify (fun t => with_written (written t ++ bs) t).

Definition generate_tracepoint_list_request_msg : M Tracy (list u8) :=
  generate_header TRACEPOINT_LIST_REQUEST 0.

Definition req_tracepoint_list : M Tracy unit := msg ← generate_tracepoint_list_request_msg; write msg.

Definition set_enabled (b : bool) : M Tracy unit :=
  modify (with_all_tracepoints_enabled b).

Definition enable_tracepoints (tracepoints : list (list u8)) : M Tracy unit :=
  msg ← generate_enable_msg tracepoints; write msg;; set_enabled true.

Definition sub_msg_len (data : list u8) (offset : nat) : nat :=
  Z.to_nat (be_value (slice offset (offset + 2) data)).

(** One iteration of the [while] of [parse_trace_push_msg]. *)
Definition parse_trace_push_body (data : list u8) (tracer_msg_len : Z) (a : Z * nat) :
    M Tracy (Z * nat + nat) :=
  let '(parsed, old_offset) := a in
  if parsed <? tracer_msg_len then
    let offset := old_offset in
    let tp_name_len := sub_msg_len data offset in
    let offset := (offset + 2)%nat in
    let name := slice offset (offset + tp_name_len) data in
    let offset := (offset + tp_name_len)%nat in
    let timestamp := slice offset (offset + 8) data in
    let offset := (offset + 8)%nat in
    let data_len := sub_msg_len data offset in
    let offset := (offset + 2)%nat in
    let payload := slice offset (offset + data_len) data in
    let offset := (offset + data_len)%nat in
    modify (fun t => with_rec_messages (rec_messages t ++ [(name, timestamp, payload)]) t);;
    mret (inl (parsed + Z.of_nat (offset - old_offset), offset))
  else mret (inr old_offset).

(** Fuel: an iteration advances by at least twelve bytes. *)
Definition parse_trace_push_msg (data : list u8) (tracer_msg_len : Z) (offset : nat) : M Tracy nat :=
  loop (S (Z.to_nat tracer_msg_len)) (parse_trace_push_body data tracer_msg_len) (0, offset).

Definition parse_tracepoint_list_body (data : list u8) (tracer_msg_len : Z) (a : Z * nat) :
    M Tracy (Z * nat + nat) :=
  let '(parsed, old_offset) := a in
  if parsed <? tracer_msg_len then
    let offset := old_offset in
    let tp_name_len := sub_msg_len data offset in
    let offset := (offset + 2)%nat in
    let tracepoint := slice offset (offset + tp_name_len) data in
    let offset := (offset + tp_name_len)%nat in
    (if is_ascii tracepoint then mret tt else panic);;
    modify (fun t => with_tracepoints (tracepoints t ++ [tracepoint]) t);;
    mret (inl (parsed + Z.of_nat (offset - old_offset), offset))
  else mret (inr old_offset).

Definition parse_tracepoint_list_msg (data : list u8) (tracer_msg_len : Z) (offset : nat) : M Tracy nat :=
  offset ← loop (S (Z.to_nat tracer_msg_len)) (parse_tracepoint_list_body data tracer_msg_len) (0, offset);
  set_enabled false;;
  mret offset.

Definition parse_data_body (data : list u8) (offset : nat) : M Tracy (nat + unit) :=
  if (offset <? length data)%nat then
    let header := slice offset (offset + 12) data in
    let '(cmd, tracer_msg_len) := parse_header header (zlen data) in
    let offset := (offset + 12)%nat in
    match cmd with
    | None => mret (inr tt)
    | Some cmd =>
        if bool_decide (cmd = TRACE_PUSH) then
          offset ← parse_trace_push_msg data tracer_msg_len offset; mret (inl offset)
        else if bool_decide (cmd = TRACEPOINT_LIST_REPLY) then
          offset ← parse_tracepoint_list_msg data tracer_msg_len offset; mret (inl offset)
        else mret (inl offset)
    end
  else mret (inr tt).

Definition parse_data (data : list u8) : M Tracy unit :=
  loop (S (length data)) (parse_data_body data) O.

(** [print_payload], apart from the text it prints: the name is decoded first. *)
Definition print_payload (message : list u8 * list u8 * list u8) : M Tracy unit :=
  if is_ascii message.1.1 then mret tt else panic.

Definition print_all_messages_in_buf : M Tracy unit :=
  modify (fun t => with_print_calls (print_calls t + 1) t);;
  messages ← gets rec_messages;
  for_each messages print_payload;;
  modify (with_rec_messages []).

Definition data_received (data : list u8) : M Tracy unit :=
  parse_data data;;
  print_all_messages_in_buf;;
  t ← get;
  if negb (all_tracepoints_enabled t) then enable_tracepoints (tracepoints t) else mret tt.

(** [set_result] refuses a second result. *)
Definition connection_lost : M Tracy unit :=
  lost ← gets on_con_lost;
  if (lost : bool) then panic else modify (with_on_con_lost true).

(** [__init__], [connection_made]. The latter, which asyncio calls before anything
    arrives, is what sets [rec_messages]. *)
Definition init : Tracy := mkTracy [] [] false 0 false [].
Definition connection_made : M Tracy unit :=
  req_tracepoint_list;;
  modify (with_rec_messages []).

End Client.

(** * Reading what the tracer sends *)

(** A message as [parse_trace_push_msg] stores it. *)
Definition client_record (e : BufferElement) : list u8 * list u8 * list u8 :=
  (elem_tracepoint e, u64_to_be_bytes (timestamp_to_u64 (elem_timestamp e)), elem_data e).

Definition received (ms : list (list u8 * list u8 * list u8)) (t : Client.Tracy) : Client.Tracy :=
  Client.with_rec_messages (Client.rec_messages t ++ ms) t.

Lemma slice_mid {A} n m (a b c : list A) :
  length a = n -> (n + length b)%nat = m -> slice n m (a ++ b ++ c) = b.
Proof.
  intros <- <-. unfold slice. rewrite drop_app_length.
  replace (length a + length b - length a)%nat with (length b) by lia. by rewrite take_app_length.
Qed.

Lemma sub_msg_len_mid n z (a c : list u8) :
  length a = n -> 0 <= z < 2 ^ 16 ->
  Client.sub_msg_len (a ++ u16_to_be_bytes z ++ c) n = Z.to_nat z.
Proof.
  intros Hn Hz. unfold Client.sub_msg_len.
  rewrite (slice_mid n (n + 2) a (u16_to_be_bytes z) c) by done. f_equal. by apply from_to_u16.
Qed.

(** One record anywhere in the data. *)
Lemma parse_fields parsed len pre name ts data post t :
  length ts = 8%nat -> zlen name < 2 ^ 16 -> zlen data < 2 ^ 16 -> parsed < len ->
  Client.parse_trace_push_body
    (pre ++ u16_to_be_bytes (zlen name) ++ name ++ ts ++ u16_to_be_bytes (zlen data) ++ data ++ post)
    len (parsed, length pre) t =
    Ret (inl (parsed + (12 + zlen name + zlen data), (length pre + (12 + length name + length data))%nat))
      (received [(name, ts, data)] t).
Proof.
  intros Hts Hn Hd Hlt. pose proof (zlen_nonneg name). pose proof (zlen_nonneg data).
  assert (forall n : nat, (n + Z.to_nat (zlen name) = n + length name)%nat) as Hzn by (intros; unfold zlen; lia).
  assert (forall n : nat, (n + Z.to_nat (zlen data) = n + length data)%nat) as Hzd by (intros; unfold zlen; lia).
  unfold Client.parse_trace_push_body. rewrite (proj2 (Z.ltb_lt _ _)) by done.
  rewrite (sub_msg_len_mid (length pre) (zlen name) pre _) by (done || lia). rewrite Hzn.
  rewrite (app_assoc pre), (slice_mid (length pre + 2) _ (pre ++ u16_to_be_bytes (zlen name)) name)
    by (rewrite ?length_app; done).
  rewrite (app_assoc _ name).
  rewrite (slice_mid (length pre + 2 + length name) _ ((pre ++ u16_to_be_bytes (zlen name)) ++ name) ts)
    by (rewrite ?length_app, ?Hts; done).
  rewrite (app_assoc _ ts).
  rewrite (sub_msg_len_mid (length pre + 2 + length name + 8) (zlen data) (((pre ++ _) ++ name) ++ ts) _)
    by (rewrite ?length_app, ?Hts; done || lia).
  rewrite Hzd, (app_assoc _ (u16_to_be_bytes (zlen data))).
  rewrite (slice_mid _ _ ((((pre ++ _) ++ name) ++ ts) ++ _) data)
    by (rewrite ?length_app, ?Hts; simpl; lia).
  unfold mbind, M_bind, modify, mret, M_ret, received.
  assert (parsed + Z.of_nat (length pre + 2 + length name + 8 + 2 + length data - length pre) =
    parsed + (12 + zlen name + zlen data)) as -> by (unfold zlen; lia).
  by replace (length pre + 2 + length name + 8 + 2 + length data)%nat
    with (length pre + (12 + length name + length data))%nat by lia.
Qed.

Lemma parse_record parsed len pre e post t :
  encodable e -> parsed < len ->
  Client.parse_trace_push_body (pre ++ encode_record e ++ post) len (parsed, length pre) t =
    Ret (inl (parsed + zlen (encode_record e), length (pre ++ encode_record e))) (received [client_record e] t).
Proof.
  intros [Hn Hd] Hlt. pose proof (zlen_nonneg (elem_tracepoint e)). pose proof (zlen_nonneg (elem_data e)).
  rewrite zlen_encode_record, length_app, encode_record_eq. unfold u16_of.
  rewrite !(wrap_small 16) by lia. rewrite <-!app_assoc, parse_fields by done.
  unfold BufferElement_len, TIMESTAMP_LEN, client_record. rewrite !length_app. simpl.
  do 3 f_equal; [f_equal|]; lia.
Qed.

Lemma parse_records es n pre parsed len t :
  Forall encodable es -> parsed + zlen (body es) = len -> (length es < n)%nat ->
  loop n (Client.parse_trace_push_body (pre ++ body es) len) (parsed, length pre) t =
    Ret (length (pre ++ body es)) (received (map client_record es) t).
Proof.
  intros Hes. revert n pre parsed t. induction Hes as [|e es He _ IH]; intros n pre parsed t Hlen Hn.
  - destruct n as [|n]; [lia|]. unfold body, zlen in *. simpl in *. rewrite app_nil_r.
    unfold mbind, M_bind, Client.parse_trace_push_body. rewrite (proj2 (Z.ltb_ge _ _)) by lia.
    unfold received. rewrite app_nil_r. by destruct t.
  - change (body (e :: es)) with (encode_record e ++ body es) in *. rewrite zlen_app in Hlen.
    simpl in Hn. destruct n as [|n]; [lia|]. cbn [loop]. unfold mbind at 1, M_bind at 1.
    pose proof (zlen_nonneg (body es)). rewrite zlen_encode_record in Hlen.
    pose proof (zlen_nonneg (elem_tracepoint e)). pose proof (zlen_nonneg (elem_data e)).
    rewrite parse_record by (unfold BufferElement_len, TIMESTAMP_LEN in Hlen; first [done|lia]).
    rewrite (app_assoc pre), IH; [|rewrite zlen_encode_record; lia|lia].
    unfold received. simpl. by rewrite <-(app_assoc (Client.rec_messages t)).
Qed.

Lemma length_records es : (length es <= length (body es))%nat.
Proof.
  induction es as [|e es IH]; [done|]. change (body (e :: es)) with (encode_record e ++ body es).
  destruct (encode_record_cons e) as (b & r & ->). rewrite length_app. simpl. lia.
Qed.

(** The commands a client accepts. *)
Definition client_cmd (cmd : Command) : option (list u8) :=
  match cmd with
  | TracePush => Some Client.TRACE_PUSH
  | TracepointListReply => Some Client.TRACEPOINT_LIST_REPLY
  | _ => None
  end.

Lemma client_header cmd k len total :
  client_cmd cmd = Some k -> 0 <= len < 2 ^ 32 ->
  Client.parse_header (header_bytes cmd len) total = if total =? len + 12 then (Some k, len) else (None, 0).
Proof.
  intros Hk Hlen. unfold Client.parse_header.
  change (drop 8 (header_bytes cmd len)) with (u32_to_be_bytes len).
  change (be_value (u32_to_be_bytes len)) with (from_be_bytes (u32_to_be_bytes len)).
  rewrite from_to_u32 by done.
  change (slice 0 4 (header_bytes cmd len)) with Client.MAGIC_NO.
  assert (slice 6 8 (header_bytes cmd len) = k) as -> by by destruct cmd; simplify_eq/=.
  rewrite bool_decide_true by done.
  assert (bool_decide (k = Client.TRACE_PUSH) || bool_decide (k = Client.TRACEPOINT_LIST_REPLY) = true) as ->.
  { by destruct cmd; simplify_eq/=. }
  by destruct (total =? len + 12).
Qed.

(** A short read: what it takes for the length is less than what there is. *)
Lemma client_short_header data total :
  (length data < 12)%nat -> total = zlen data -> Client.parse_header (take 12 data) total = (None, 0).
Proof.
  intros Hd ->. rewrite take_ge by lia. unfold Client.parse_header. case_match; [done|].
  pose proof (be_value_range (drop 8 data)).
  rewrite (proj2 (Z.eqb_neq _ _)); [done|]. unfold zlen. lia.
Qed.

(** A header that is not accepted ends the parsing. *)
Lemma parse_data_refused data t :
  Client.parse_header (take 12 data) (zlen data) = (None, 0) -> Client.parse_data data t = Ret tt t.
Proof.
  intros Hh. assert (Client.parse_data_body data 0 t = Ret (inr tt) t) as Hbody.
  { unfold Client.parse_data_body. destruct (0 <? length data)%nat; [|done].
    change (slice 0 (0 + 12) data) with (take 12 data). by rewrite Hh. }
  unfold Client.parse_data. cbn [loop]. unfold mbind, M_bind. by rewrite Hbody.
Qed.

Lemma message_bytes cmd bs :
  zlen bs < 2 ^ 32 -> push_front_header bs cmd = header_bytes cmd (zlen bs) ++ bs.
Proof. intros H. pose proof (zlen_nonneg bs). rewrite push_front_header_eq. unfold u32_of. by rewrite wrap_small by lia. Qed.

Lemma client_refuses cmd bs d :
  is_Some (client_cmd cmd) -> zlen bs < 2 ^ 32 -> let m := push_front_header bs cmd in
  d <> m -> d `prefix_of` m \/ m `prefix_of` d -> Client.parse_header (take 12 d) (zlen d) = (None, 0).
Proof.
  intros [k Hk] Hbs m Hne Hd. pose proof (zlen_nonneg bs).
  assert (m = header_bytes cmd (zlen bs) ++ bs) as E by by apply message_bytes. clearbody m. subst m.
  destruct (decide (length d < 12)%nat) as [Hs|Hs]; [by apply client_short_header|].
  assert (take 12 d = header_bytes cmd (zlen bs) /\ zlen d <> zlen bs + 12) as [-> Hlen].
  2: { rewrite (client_header cmd k) by (done || lia). by rewrite (proj2 (Z.eqb_neq _ _)) by done. }
  assert (zlen (header_bytes cmd (zlen bs) ++ bs) = zlen bs + 12) as Htotal.
  { rewrite zlen_app. unfold zlen at 1. rewrite length_header. lia. }
  destruct Hd as [[r Hr]|[r ->]].
  - split.
    + transitivity (take 12 (d ++ r)); [by rewrite take_app_le by lia|]. rewrite <-Hr.
      by apply take_app_length'.
    + intros Hz. rewrite Hr, zlen_app in Htotal. destruct r; [by rewrite app_nil_r in Hr|].
      rewrite zlen_cons in Htotal. pose proof (zlen_nonneg r). lia.
  - split; [rewrite <-app_assoc; by apply take_app_length'|].
    rewrite zlen_app, Htotal. destruct r; [by rewrite app_nil_r in Hne|].
    rewrite zlen_cons. pose proof (zlen_nonneg r). lia.
Qed.

(** A message that is there as a whole. *)
Lemma parse_data_message cmd k bs t t' :
  client_cmd cmd = Some k -> zlen bs < 2 ^ 32 -> let m := push_front_header bs cmd in
  (if bool_decide (k = Client.TRACE_PUSH) then Client.parse_trace_push_msg m (zlen bs) 12
   else Client.parse_tracepoint_list_msg m (zlen bs) 12) t = Ret (length m) t' ->
  Client.parse_data m t = Ret tt t'.
Proof.
  intros Hk Hbs m Hparse. pose proof (zlen_nonneg bs).
  assert (m = header_bytes cmd (zlen bs) ++ bs) as E by by apply message_bytes. clearbody m.
  assert (length m = 12 + length bs)%nat as Hm by by subst m; rewrite length_app, length_header.
  assert (Client.parse_data_body m 0 t = Ret (inl (length m)) t') as Hbody.
  { unfold Client.parse_data_body. rewrite (proj2 (Nat.ltb_lt _ _)) by lia.
    replace (slice 0 (0 + 12) m) with (header_bytes cmd (zlen bs)) by by subst m.
    rewrite (client_header cmd k) by (done || lia). rewrite (proj2 (Z.eqb_eq _ _)) by (unfold zlen; lia).
    change (0 + 12)%nat with 12%nat.
    destruct cmd; try done; injection Hk as <-.
    - rewrite bool_decide_false in Hparse |- * by done. rewrite bool_decide_true by done. by rewrite (bind_ret _ _ _ _ _ Hparse).
    - rewrite bool_decide_true in Hparse |- * by done. by rewrite (bind_ret _ _ _ _ _ Hparse). }
  unfold Client.parse_data. rewrite Hm at 1. cbn [loop Nat.add]. rewrite (bind_ret _ _ _ _ _ Hbody).
  cbn [loop]. unfold mbind, M_bind, Client.parse_data_body. by rewrite Nat.ltb_irrefl.
Qed.

(** ** The list of the tracepoints *)

Definition listed (ns : list (list u8)) (t : Client.Tracy) : Client.Tracy :=
  Client.with_tracepoints (Client.tracepoints t ++ ns) t.

Definition readable (n : list u8) : Prop := is_ascii n = true /\ zlen n <= MAX_TRACEPOINT_NAME_LEN.

Lemma parse_name parsed len pre n post t :
  readable n -> parsed < len ->
  Client.parse_tracepoint_list_body (pre ++ encode_name n ++ post) len (parsed, length pre) t =
    Ret (inl (parsed + zlen (encode_name n), length (pre ++ encode_name n))) (listed [n] t).
Proof.
  intros [Ha Hn] Hlt. pose proof (zlen_nonneg n). unfold MAX_TRACEPOINT_NAME_LEN in Hn.
  unfold Client.parse_tracepoint_list_body, encode_name. rewrite (proj2 (Z.ltb_lt _ _)) by done.
  rewrite <-!app_assoc, (sub_msg_len_mid (length pre) (zlen n) pre _) by (done || lia).
  rewrite (app_assoc pre), (slice_mid (length pre + 2) _ (pre ++ u16_to_be_bytes (zlen n)) n)
    by (rewrite ?length_app; unfold zlen; simpl; lia).
  rewrite Ha. unfold mbind, M_bind, modify, mret, M_ret, listed. rewrite zlen_app, !length_app.
  change (zlen (u16_to_be_bytes (zlen n))) with 2. change (length (u16_to_be_bytes (zlen n))) with 2%nat.
  do 2 f_equal. f_equal; unfold zlen; lia.
Qed.

Lemma parse_names ns n pre parsed len t :
  Forall readable ns -> parsed + zlen (encode_names ns) = len -> (length ns < n)%nat ->
  loop n (Client.parse_tracepoint_list_body (pre ++ encode_names ns) len) (parsed, length pre) t =
    Ret (length (pre ++ encode_names ns)) (listed ns t).
Proof.
  intros Hns. revert n pre parsed t. induction Hns as [|x ns Hx _ IH]; intros n pre parsed t Hlen Hn.
  - destruct n as [|n]; [lia|]. unfold encode_names, zlen in *. simpl in *. rewrite app_nil_r.
    unfold mbind, M_bind, Client.parse_tracepoint_list_body. rewrite (proj2 (Z.ltb_ge _ _)) by lia.
    unfold listed. rewrite app_nil_r. by destruct t.
  - change (encode_names (x :: ns)) with (encode_name x ++ encode_names ns) in *. rewrite zlen_app in Hlen.
    simpl in Hn. destruct n as [|n]; [lia|]. cbn [loop].
    pose proof (zlen_nonneg (encode_names ns)). pose proof (zlen_nonneg x). pose proof (zlen_encode_name x).
    rewrite (bind_ret _ _ _ _ _ (parse_name parsed len pre x (encode_names ns) t Hx ltac:(lia))).
    rewrite (app_assoc pre), IH; [|lia|lia].
    unfold listed. simpl. by rewrite <-(app_assoc (Client.tracepoints t)).
Qed.

Lemma length_names ns : (length ns <= length (encode_names ns))%nat.
Proof.
  induction ns as [|n ns IH]; [done|]. change (encode_names (n :: ns)) with (encode_name n ++ encode_names ns).
  rewrite length_app. simpl. lia.
Qed.

(** C35: The client reads exactly one message at a time.  Data that is one
    message of the tracer is taken apart into the records it was built from,
    with the names, timestamps and payloads that went in, or into the names
    that were listed.  Data that holds less than a message or more than one --
    TCP delivers a stream, so several messages of a flush may arrive together --
    is dropped whole. *)
Theorem client_reads_message c ns t :
  chunk_ok c -> Forall encodable c -> Forall readable ns -> 34 * zlen ns < 2 ^ 32 ->
  let list_reply := push_front_header (tracepoint_list_msg ns) TracepointListReply in
  Client.parse_data (trace_push c) t = Ret tt (received (map client_record c) t) /\
  Client.parse_data list_reply t =
    Ret tt (Client.with_all_tracepoints_enabled false (listed ns t)) /\
  (forall m d, m = trace_push c \/ m = list_reply ->
   d <> m -> d `prefix_of` m \/ m `prefix_of` d -> Client.parse_data d t = Ret tt t).
Proof.
  intros [_ Hc] He Hns Hnum list_reply. assert (zlen (body c) < 2 ^ 32) as Hbody.
  { unfold QUEUE_TOTAL_SIZE, HEADER_LEN in Hc. lia. }
  assert (tracepoint_list_msg ns = encode_names ns) as Hmsg.
  { unfold tracepoint_list_msg. rewrite tracepoint_list_msg_from; [done|].
    eapply Forall_impl; [exact Hns|]. intros n [_ Hn]. unfold MAX_TRACEPOINT_NAME_LEN in Hn. simpl. lia. }
  unfold list_reply. rewrite Hmsg. clear list_reply Hmsg.
  assert (zlen (encode_names ns) < 2 ^ 32) as Hnames.
  { pose proof (zlen_encode_names_le ns ltac:(eapply Forall_impl; [exact Hns|by intros n []])). lia. }
  split; [|split].
  - apply (parse_data_message TracePush Client.TRACE_PUSH); [done|done|]. rewrite bool_decide_true by done.
    rewrite message_bytes by done. unfold Client.parse_trace_push_msg. pose proof (length_records c).
    apply (parse_records c _ (header_bytes TracePush _)); [done|done|unfold zlen; lia].
  - apply (parse_data_message TracepointListReply Client.TRACEPOINT_LIST_REPLY); [done|done|].
    rewrite bool_decide_false by done. rewrite message_bytes by done. unfold Client.parse_tracepoint_list_msg.
    pose proof (length_names ns).
    rewrite (bind_ret _ _ _ _ _ (parse_names ns (S (Z.to_nat (zlen (encode_names ns))))
      (header_bytes TracepointListReply (zlen (encode_names ns))) 0 _ t Hns eq_refl ltac:(unfold zlen; lia))).
    done.
  - intros m d Hm Hne Hd. apply parse_data_refused. destruct Hm as [-> | ->].
    + by apply (client_refuses TracePush (body c)).
    + by apply (client_refuses TracepointListReply (encode_names ns)).
Qed.

(** * Any data at all *)

(** A name the client can put into a request. *)
Definition sendable (n : list u8) : Prop := is_ascii n = true /\ zlen n < 2 ^ 16.

(** What a parser has added to the state. *)
Definition extends (t t' : Client.Tracy) : Prop :=
  exists ns ms, Client.tracepoints t' = Client.tracepoints t ++ ns /\ Forall sendable ns /\
    Client.rec_messages t' = Client.rec_messages t ++ ms /\ Client.written t' = Client.written t.

Lemma extends_refl t : extends t t.
Proof. exists [], []. by rewrite !app_nil_r. Qed.

Lemma extends_trans t1 t2 t3 : extends t1 t2 -> extends t2 t3 -> extends t1 t3.
Proof.
  intros (ns & ms & Hn & Ha & Hm & Hw) (ns' & ms' & Hn' & Ha' & Hm' & Hw'). exists (ns ++ ns'), (ms ++ ms').
  rewrite Hn', Hn, Hm', Hm, Hw', Hw, !app_assoc. split_and!; try done. by apply Forall_app.
Qed.

(** A loop of the parser, which counts the bytes it has passed. *)
Lemma parser_total (body : Z * nat -> M Client.Tracy (Z * nat + nat)) (R : Client.Tracy -> Prop) len off t :
  (forall parsed old t1, wp (body (parsed, old))
     (fun r t2 => extends t1 t2 /\
        match r with
        | inl (parsed', new) => parsed < len /\ (old < new)%nat /\ parsed' = parsed + Z.of_nat (new - old)
        | inr new => len <= parsed /\ new = old
        end) R t1) ->
  wp (loop (S (Z.to_nat len)) body (0, off))
    (fun new t' => extends t t' /\ (off + Z.to_nat len <= new)%nat) R t.
Proof.
  intros Hbody.
  apply (wp_loop (fun a t' => extends t t' /\ a.1 = Z.of_nat (a.2 - off) /\ (off <= a.2)%nat)
    (fun a _ => Z.to_nat (len - a.1))); [| |simpl; lia].
  - intros [parsed old] t1 (Hext & Hp & Hle). simpl in *.
    eapply wp_mono; [by apply Hbody| |done]. intros [[parsed' new]|new] t2 [Hext2 Hr]; simpl.
    + destruct Hr as (? & ? & ->). split; [|lia]. split; [by eapply extends_trans|]. lia.
    + destruct Hr as [? ->]. split; [by eapply extends_trans|lia].
  - simpl. split; [apply extends_refl|lia].
Qed.

Lemma push_total data len off t :
  wp (Client.parse_trace_push_msg data len off)
    (fun new t' => extends t t' /\ (off + Z.to_nat len <= new)%nat) (fun _ => False) t.
Proof.
  apply parser_total. intros parsed old t1. unfold Client.parse_trace_push_body.
  destruct (Z.ltb_spec parsed len).
  - apply wp_bind, wp_modify, wp_ret. split; [|lia].
    eexists [], [_]. simpl. by rewrite app_nil_r.
  - apply wp_ret. split; [apply extends_refl|done].
Qed.

(** A length field holds two bytes at most. *)
Lemma sub_msg_short data off off' :
  zlen (slice off' (off' + Client.sub_msg_len data off) data) < 2 ^ 16.
Proof.
  assert (length (slice off (off + 2) data) <= 2)%nat as Hl by (unfold slice; rewrite length_take; lia).
  unfold Client.sub_msg_len. pose proof (be_value_range (slice off (off + 2) data)) as Hr.
  assert (256 ^ zlen (slice off (off + 2) data) <= 256 ^ 2) by (apply Z.pow_le_mono_r; unfold zlen; lia).
  unfold zlen, slice at 1. rewrite length_take. lia.
Qed.

Lemma list_total data len off t :
  wp (Client.parse_tracepoint_list_msg data len off)
    (fun new t' => extends t t' /\ (off + Z.to_nat len <= new)%nat) (fun _ => True) t.
Proof.
  unfold Client.parse_tracepoint_list_msg. apply wp_bind. eapply wp_mono; [apply (parser_total _ (fun _ => True))| |done].
  - intros parsed old t1. unfold Client.parse_tracepoint_list_body.
    destruct (Z.ltb_spec parsed len); [|apply wp_ret; split; [apply extends_refl|done]].
    apply wp_bind. destruct (is_ascii _) eqn:Ha; [|done].
    apply wp_ret, wp_bind, wp_modify, wp_ret. split; [|lia].
    eexists [_], []. simpl. split_and!; [done| |by rewrite app_nil_r|done].
    apply Forall_singleton. split; [done|apply sub_msg_short].
  - intros new t1 [Hext ?]. apply wp_bind, wp_modify, wp_ret. split; [|done].
    eapply extends_trans; [exact Hext|]. exists [], []. simpl. by rewrite !app_nil_r.
Qed.

Lemma parse_header_accepts head total k len :
  Client.parse_header head total = (Some k, len) ->
  total = len + 12 /\ 0 <= len /\ k = slice 6 8 head /\ (k = Client.TRACE_PUSH \/ k = Client.TRACEPOINT_LIST_REPLY).
Proof.
  unfold Client.parse_header. pose proof (be_value_range (drop 8 head)).
  repeat case_match; intros [= <- <-]. split_and!; [|lia|done|].
  - by apply Z.eqb_eq, negb_false_iff.
  - match goal with H : _ || _ = true |- _ => by apply orb_prop in H as [H|H]; apply bool_decide_eq_true in H; auto end.
Qed.

Lemma parse_data_total data t :
  wp (Client.parse_data data) (fun _ t' => extends t t')
    (fun _ => slice 6 8 data = Client.TRACEPOINT_LIST_REPLY) t.
Proof.
  apply (wp_loop (fun off t' => extends t t' /\ (off = 0 \/ length data <= off)%nat)
    (fun off _ => (length data - off)%nat)); [| |lia].
  2: { split; [apply extends_refl|by left]. }
  intros off t1 [Hext Hoff]. unfold Client.parse_data_body.
  destruct (Nat.ltb_spec off (length data)) as [Hlt|]; [|by apply wp_ret].
  destruct Hoff as [-> | ?]; [|lia]. change (slice 0 (0 + 12) data) with (take 12 data).
  destruct (Client.parse_header (take 12 data) (zlen data)) as [[k|] len] eqn:Hh; [|by apply wp_ret].
  apply parse_header_accepts in Hh as (Htotal & Hlen & Hk & Hcase).
  assert (slice 6 8 (take 12 data) = slice 6 8 data) as Hslice.
  { unfold slice. by rewrite skipn_firstn_comm, take_take. }
  assert (forall new, (0 + 12 + Z.to_nat len <= new)%nat -> (length data <= new)%nat) as Hend.
  { intros new. unfold zlen in Htotal. lia. }
  destruct Hcase as [E|E]; rewrite E.
  - rewrite bool_decide_true by done. apply wp_bind. eapply wp_mono; [apply push_total| |done].
    intros new t2 [Hext2 Hnew%Hend]. apply wp_ret. split; [|lia]. split; [by eapply extends_trans|by right].
  - rewrite bool_decide_false, bool_decide_true by done. apply wp_bind.
    eapply wp_mono; [apply list_total| |intros _ _; congruence].
    intros new t2 [Hext2 Hnew%Hend]. apply wp_ret. split; [|lia]. split; [by eapply extends_trans|by right].
Qed.

(** *** The request that follows *)

Definition total_length (names : list (list u8)) : Z := foldl (fun n tp => n + zlen tp) 0 names.

Lemma enable_fold_total names m (R : Client.Tracy -> Prop) t :
  Forall sendable names -> wp m (fun _ t' => t' = t) R t ->
  wp (foldl (fun m tracepoint => msg ← m; sub ← Client.generate_tlv_submsg (to_lowercase tracepoint); mret (msg ++ sub))
       m names) (fun _ t' => t' = t) R t.
Proof.
  intros Hnames. revert m. induction Hnames as [|n names [Ha Hn] _ IH]; intros m Hm; [done|]. cbn [foldl]. apply IH.
  apply wp_bind. eapply wp_mono; [exact Hm| |done]. intros msg t1 ->. apply wp_bind.
  unfold Client.generate_tlv_submsg, Client.to_bytes. rewrite zlen_lowercase, is_ascii_lowercase, Ha.
  rewrite (proj2 (Z.ltb_lt _ _)) by done. by apply wp_bind, wp_ret.
Qed.

Lemma generate_enable_msg_total names t :
  Forall sendable names ->
  wp (Client.generate_enable_msg names) (fun _ t' => t' = t) (fun t' => t' = t /\ 2 ^ 32 <= total_length names) t.
Proof.
  intros Hnames. unfold Client.generate_enable_msg. fold (total_length names).
  unfold Client.generate_header, Client.to_bytes. apply wp_bind, wp_bind.
  destruct (Z.ltb_spec (total_length names) (256 ^ Z.of_nat 4)); [|done].
  by apply enable_fold_total.
Qed.

Lemma print_total t :
  wp Client.print_all_messages_in_buf
    (fun _ t' => t' = Client.with_rec_messages [] (Client.with_print_calls (Client.print_calls t + 1) t))
    (fun t' => Exists (fun m => is_ascii m.1.1 = false) (Client.rec_messages t')) t.
Proof.
  unfold Client.print_all_messages_in_buf. apply wp_bind, wp_modify, wp_bind, wp_gets, wp_bind.
  set (t1 := Client.with_print_calls _ t). set (ms := Client.rec_messages t1). set (R := fun t' : Client.Tracy => Exists _ _).
  eapply wp_mono; [apply (wp_for_each (fun r t' => t' = t1 /\ forall m, m ∈ r -> m ∈ ms) _ R)| |done].
  - intros m r t2 [-> Hr]. unfold Client.print_payload. destruct (is_ascii m.1.1) eqn:Ha.
    + apply wp_ret. split; [done|]. intros m' ?. apply Hr. by right.
    + apply wp_panic, Exists_exists. exists m. split; [apply Hr; by left|done].
  - done.
  - intros _ t2 [-> _]. by apply wp_modify.
Qed.

(** C36: Whatever bytes arrive, in whatever state: [data_received] comes to an
    end, and it keeps the names of the client such that they can be put into a
    request.  It gives the received records out, adds the listed names to those
    it had, and then all of them are enabled.  An exception is raised only for
    data that calls itself a list of names, for a record whose name is not
    ASCII, or when the names take 4 GiB. *)
Theorem client_total data t :
  Forall sendable (Client.tracepoints t) ->
  wp (Client.data_received data)
    (fun _ t' => Forall sendable (Client.tracepoints t') /\ Client.tracepoints t `prefix_of` Client.tracepoints t' /\
       Client.rec_messages t' = [] /\ Client.all_tracepoints_enabled t' = true /\
       Client.written t `prefix_of` Client.written t')
    (fun t' => slice 6 8 data = Client.TRACEPOINT_LIST_REPLY \/
       Exists (fun m => is_ascii m.1.1 = false) (Client.rec_messages t') \/
       2 ^ 32 <= total_length (Client.tracepoints t')) t.
Proof.
  intros Ht. unfold Client.data_received. apply wp_bind.
  eapply wp_mono; [apply parse_data_total| |by left]. intros _ t1 (ns & ms & Hn & Hns & _ & Hw).
  assert (Forall sendable (Client.tracepoints t1)) as Ht1 by by rewrite Hn; apply Forall_app.
  assert (Client.tracepoints t `prefix_of` Client.tracepoints t1) as Hp by by rewrite Hn; eexists.
  apply wp_bind. eapply wp_mono; [apply print_total| |by auto]. intros _ t2 ->. apply wp_bind, wp_get. simpl.
  destruct (Client.all_tracepoints_enabled t1) eqn:Hall; simpl.
  - apply wp_ret. simpl. rewrite Hw. split_and!; done.
  - unfold Client.enable_tracepoints. apply wp_bind.
    eapply wp_mono; [by apply generate_enable_msg_total| |].
    + intros msg t3 ->. apply wp_bind, wp_modify, wp_modify. simpl. rewrite Hw. split_and!; try done. by eexists.
    + intros t3 [-> H]. by right; right.
Qed.

(** * What the client sends *)

Lemma enable_fold names m t r t' :
  foldl (fun m tracepoint => msg ← m; sub ← Client.generate_tlv_submsg (to_lowercase tracepoint); mret (msg ++ sub))
    m names t = Ret r t' ->
  exists msg0 t0 more, m t = Ret msg0 t0 /\ r = msg0 ++ more /\ (2 * length names <= length more)%nat.
Proof.
  revert m. induction names as [|n names IH]; intros m; cbn [foldl].
  - intros ->. exists r, t', []. by rewrite app_nil_r.
  - intros Hrun. apply IH in Hrun as (msg1 & t1 & more & Hm & -> & Hlen). revert Hm.
    unfold mbind, M_bind. destruct (m t) as [msg0 t0| | |]; try done.
    unfold Client.generate_tlv_submsg, Client.to_bytes. destruct (_ <? _); [|done].
    unfold mbind, M_bind, mret, M_ret. destruct (is_ascii _); [|done]. intros [= <- _].
    eexists msg0, t0, _. split; [done|]. split; [by rewrite <-app_assoc|].
    rewrite length_app. simpl. lia.
Qed.

(** Ten bytes of header without the flags, then the names. *)
Lemma enable_msg_shape names t msg t' :
  Client.generate_enable_msg names t = Ret msg t' ->
  exists len more, msg = MAGIC_NUMB ++ u16_to_be_bytes 3 ++ be_bytes 4 len ++ more /\
    (2 * length names <= length more)%nat.
Proof.
  unfold Client.generate_enable_msg, Client.generate_header, Client.to_bytes.
  set (len := foldl _ _ _). destruct (len <? _); [|done]. unfold mbind at 1 2, M_bind at 1 2, mret at 1 2, M_ret at 1 2.
  intros Hrun. apply enable_fold in Hrun as (msg0 & t0 & more & [= <- _] & -> & Hlen).
  exists len, more. by split.
Qed.

(** The tracer reads the command as the flags. *)
Lemma enable_msg_header len more :
  (2 <= length more)%nat ->
  exists h junk, MAGIC_NUMB ++ u16_to_be_bytes 3 ++ be_bytes 4 len ++ more = h ++ junk /\
    length h = 12%nat /\ check_parse_header h = Err tt.
Proof.
  intros Hlen. exists (MAGIC_NUMB ++ u16_to_be_bytes 3 ++ be_bytes 4 len ++ take 2 more), (drop 2 more).
  rewrite <-!app_assoc, take_drop. split; [done|]. destruct more as [|a [|b more]]; [simpl in Hlen; lia..|].
  split; [done|]. unfold check_parse_header.
  replace (slice 4 6 _) with (u16_to_be_bytes 3) by reflexivity.
  rewrite from_to_u16 by lia. by case_match.
Qed.

Section rejected.
Context {P : Platform} {TL : TimerLaws P} {HL : HashLaws P}.

(** C37: The tracer does not understand the example client, whose headers lack
    the flags.  The request it sends on connecting is two bytes short of a
    header: the tracer drops it, sends nothing and changes nothing.  A request
    to enable tracepoints has its command where the flags belong: the tracer
    refuses the header and closes the connection. *)
Theorem client_requests_rejected w sid s :
  connection (ctx w) = Some sid -> socks w !! sid = Some s -> oracle w = [] ->
  (forall t, Client.connection_made Client.init = Ret tt t -> rx s = [RxData (Client.written t)] ->
   receive w = Ret tt (set_rx sid [] w)) /\
  (forall names t msg t', Client.generate_enable_msg names t = Ret msg t' -> names <> [] ->
   rx s = [RxData msg] ->
   exists w', receive w = Ret tt w' /\ disconnected w w' /\ sent (sock sid w') = sent s /\ rx (sock sid w') = []).
Proof.
  intros Hc Hs Ho. rewrite (receive_start w sid s) by done. split.
  - intros t [= <-] Hrx. cbn [loop]. unfold mbind, M_bind.
    by rewrite (receive_body_end (mkBuf sid []) w s (Client.written (Client.mkTracy [] [] false 0 false
        (Client.MAGIC_NO ++ Client.TRACEPOINT_LIST_REQUEST ++ be_bytes 4 0))) WouldBlock [])
      by (unfold reader_view, sock; simpl; rewrite ?Hs, ?buf_view_nil; simpl; rewrite ?Hrx; done || (simpl; lia)).
  - intros names t msg t' Hmsg Hnames Hrx. apply enable_msg_shape in Hmsg as (len & more & -> & Hlen).
    destruct names as [|n names]; [done|]. simpl in Hlen.
    destruct (enable_msg_header len more) as (h & junk & E & Hh & Hbad); [lia|]. rewrite E in Hrx.
    destruct (receive_body_bad (mkBuf sid []) w s sid h junk WouldBlock []) as (w1 & Hbody & Hctx & Hheap & Hsent);
      try done.
    { rewrite Hrx. apply Forall_cons. split; [by split|by apply Forall_nil]. }
    { unfold reader_view, sock. simpl. rewrite Hs, buf_view_nil. simpl. rewrite Hrx. simpl. by rewrite app_nil_r. }
    exists (set_rx sid [] w1). split_and!.
    + cbn [loop]. unfold mbind at 1, M_bind at 1. by rewrite Hbody, bool_decide_true by by left.
    + by apply close_disconnected.
    + rewrite sent_set_rx, Hsent. unfold sock. by rewrite Hs.
    + apply rx_set_rx.
Qed.
End rejected.

(** * Instances *)

Definition two_records : list BufferElement := [element cpu 1 3; element mem 2 5].

Lemma client_reads_message_witness :
  Client.parse_data (trace_push two_records) Client.init =
    Ret tt (received (map client_record two_records) Client.init) /\
  Client.parse_data (push_front_header (tracepoint_list_msg [cpu; mem]) TracepointListReply) Client.init =
    Ret tt (Client.with_tracepoints [cpu; mem] Client.init) /\
  Client.parse_data (trace_push two_records ++ trace_push two_records) Client.init = Ret tt Client.init.
Proof.
  destruct (client_reads_message two_records [cpu; mem] Client.init) as (H1 & H2 & H3).
  - split; [done|vm_compute; discriminate].
  - repeat (apply Forall_cons; split); try (by apply Forall_nil); by split.
  - repeat (apply Forall_cons; split); try (by apply Forall_nil); by split.
  - done.
  - split; [exact H1|]. split; [exact H2|]. apply (H3 (trace_push two_records)); [by left|by vm_compute|right; by eexists].
Defined.

Lemma client_requests_rejected_witness :
  let w bs := busy_world [] [RxData bs] [] [] in
  (forall t, Client.connection_made Client.init = Ret tt t ->
   receive (w (Client.written t)) = Ret tt (set_rx 0 [] (w (Client.written t)))) /\
  exists msg, Client.generate_enable_msg [cpu; mem] Client.init = Ret msg Client.init /\
    exists w', receive (w msg) = Ret tt w' /\ disconnected (w msg) w' /\
      sent (sock 0 w') = [] /\ rx (sock 0 w') = [].
Proof.
  intros w. split.
  - intros t Ht. destruct (client_requests_rejected (w (Client.written t)) 0 (sock 0 (w (Client.written t)))
      eq_refl eq_refl eq_refl) as [H _]. exact (H t Ht eq_refl).
  - eexists. split; [reflexivity|].
    match goal with |- context [w ?bs] =>
      destruct (client_requests_rejected (w bs) 0 (sock 0 (w bs)) eq_refl eq_refl eq_refl) as [_ H];
      exact (H [cpu; mem] Client.init bs Client.init eq_refl ltac:(done) eq_refl) end.
Defined.

(** Records arrive at a client that knows one tracepoint. *)
Lemma client_total_witness :
  let t := Client.with_tracepoints [cpu] Client.init in
  wp (Client.data_received (trace_push two_records))
    (fun _ t' => Forall sendable (Client.tracepoints t') /\ [cpu] `prefix_of` Client.tracepoints t' /\
       Client.rec_messages t' = [] /\ Client.all_tracepoints_enabled t' = true /\ [] `prefix_of` Client.written t')
    (fun t' => slice 6 8 (trace_push two_records) = Client.TRACEPOINT_LIST_REPLY \/
       Exists (fun m => is_ascii m.1.1 = false) (Client.rec_messages t') \/
       2 ^ 32 <= total_length (Client.tracepoints t')) t.
Proof. intros t. apply (client_total _ t). by repeat constructor. Defined.
