(* ===== verification/Thread.v ===== *)
(** The tracer thread as a whole: its set-up and main loop keep the invariant
    and always make progress; how it takes and refuses clients; and the
    sequences of events on which it panics. *)

From S2P Require Import Prelude Monad Platform Types Worlds Strings Context Io Wire Tcp Beacon Handlers Invariant Flush Delivery.

Section Setup.
Context {P : Platform}.

(** The context as [tracer_thread_main] first builds it. *)
Definition initial_ctx (cfg : InitData) (cc q : nat) (l : TcpListener) : TracerContext :=
  mkCtx cfg [] 0 q timer_default None None None l None cc ∅ 0.

(** What [tracy_init] hands over: a lowered [client_connected] flag, an
    address when there is to be announcing, and only well-formed messages in
    the channel. *)
Definition start_ok (cfg : InitData) (cc q : nat) (announce : bool) (w : World) : Prop :=
  heap w !! cc = Some false /\
  (announce = true -> is_Some (announce_addr cfg)) /\
  forall l, let w0 := with_ctx (initial_ctx cfg cc q l) w in Forall (msg_ok w0) (queued w0).

Lemma succeeds_run w : exists b r, succeeds w = Ret b (with_oracle r w).
Proof.
  unfold succeeds. destruct (oracle w) as [|b r] eqn:E; [|by exists b, r].
  exists true, []. rewrite <-E. by destruct w.
Qed.

Lemma wp_succeeds (Q : bool -> World -> Prop) R w :
  (forall b r, Q b (with_oracle r w)) -> wp succeeds Q R w.
Proof. intros H. destruct (succeeds_run w) as (b & r & E). eapply wp_eq; [exact E|done]. Qed.

Lemma init_from_run ports w :
  exists o r, init_from ports w = Ret o (with_oracle r w) /\ forall l, o = Some l -> is_Some (local_port l).
Proof.
  revert w. induction ports as [|p ports IH]; intros w; cbn [init_from].
  - exists None, (oracle w). split; [by destruct w|done].
  - destruct (succeeds_run w) as (b & r & E). unfold mbind, M_bind. rewrite E. destruct b.
    + eexists _, r. split; [done|]. intros l [= <-]. by eexists.
    + destruct (IH (with_oracle r w)) as (o & r' & -> & Hl). by exists o, r'.
Qed.

Lemma start_ok_oracle cfg cc q announce r w :
  start_ok cfg cc q announce w -> start_ok cfg cc q announce (with_oracle r w).
Proof.
  intros (Hcc & Ha & Hq). split; [done|]. split; [done|]. intros l. specialize (Hq l). cbn zeta in *.
  eapply Forall_impl; [exact Hq|]. intros m. by apply msg_ok_mono.
Qed.

Context {TL : TimerLaws P}.

Lemma initial_inv cfg cc q announce l w :
  start_ok cfg cc q announce w -> is_Some (local_port l) -> Inv (with_ctx (initial_ctx cfg cc q l) w).
Proof.
  intros (Hcc & _ & Hq) Hl. split; simpl; try done.
  by apply timer_ok_default.
Qed.
End Setup.

Section properties.
Context {P : Platform} {TL : TimerLaws P} {HL : HashLaws P} {CL : ChannelLaws P}.

Lemma expect_success_safe : safe keeps expect_success.
Proof.
  pose proof (safe_keeps _ (safe_frame0 _ succeeds_safe)).
  unfold expect_success. apply safe_bind; [apply _|done|]. intros []; [apply safe_ret|apply safe_panic]; apply _.
Qed.

(** A context just set up, sharing flags and channels with [w]. *)
Definition set_up (cc q : nat) (w w' : World) : Prop :=
  Inv w' /\ heap w' = heap w /\ chans w' = chans w /\ rec (ctx w') = q /\
  ctx_client_connected (ctx w') = cc /\ ctx_tracepoints (ctx w') = ∅ /\
  connection (ctx w') = None /\ buffer (ctx w') = [].

Lemma expect_success_run w : exists r, expect_success w = Ret tt (with_oracle r w) \/
  expect_success w = Panic (with_oracle r w).
Proof.
  unfold expect_success, mbind, M_bind. destruct (succeeds_run w) as (b & r & ->). exists r.
  destruct b; [by left|by right].
Qed.

Lemma set_up_oracle cc q w r w' : set_up cc q w w' -> set_up cc q w (with_oracle r w').
Proof. intros (Hw & ?). split; [|done]. pose proof Hw as []. by apply (Inv_update w'). Qed.

Lemma tracer_thread_setup_inv cfg cc q announce w :
  start_ok cfg cc q announce w ->
  wp (tracer_thread_setup cfg cc q announce) (fun _ w' => set_up cc q w w') (fun _ => True) w.
Proof.
  intros Hok. unfold tracer_thread_setup. apply wp_bind.
  destruct (expect_success_run w) as (r & [E|E]); unfold wp at 1; rewrite E; [|done].
  apply wp_bind. pose proof (start_ok_oracle _ _ _ _ r _ Hok) as Hok1.
  destruct (init_from_run (seqZ 61455 (65535 - 61455)) (with_oracle r w)) as (o & r2 & Hinit & Hport).
  eapply wp_eq; [exact Hinit|]. pose proof (start_ok_oracle _ _ _ _ r2 _ Hok1) as Hok2.
  apply wp_bind, wp_unwrap; [|done]. intros l Hl. apply wp_bind, wp_modify, wp_bind.
  pose proof (initial_inv _ _ _ _ l _ Hok2 (Hport l Hl)) as Hinv. set (w1 := with_ctx _ _) in *.
  assert (set_up cc q w w1) as Hup by done.
  assert (forall w2, set_up cc q w w2 -> wp (expect_success;; expect_success;; expect_success)
    (fun _ w' => set_up cc q w w') (fun _ => True) w2) as Hrest.
  { intros w2 Hw2. apply wp_bind.
    destruct (expect_success_run w2) as (r3 & [E3|E3]); unfold wp at 1; rewrite E3; [|done].
    apply wp_bind. destruct (expect_success_run (with_oracle r3 w2)) as (r4 & [E4|E4]);
      unfold wp at 1; rewrite E4; [|done].
    destruct (expect_success_run (with_oracle r4 (with_oracle r3 w2))) as (r5 & [E5|E5]);
      unfold wp; rewrite E5; [|done]. by repeat apply set_up_oracle. }
  destruct announce; [|by apply wp_ret, Hrest].
  apply wp_bind.
  assert (forall s r', wp (in_ctx (with_udp_sock s);; in_ctx check_start_udp_timer)
    (fun _ w' => set_up cc q w w') (fun _ => True) (with_oracle r' w1)) as Hsock.
  { intros s r'. apply wp_bind, wp_modify.
    assert (Inv (upd_ctx (with_udp_sock s) (with_oracle r' w1))) as Hinv2.
    { pose proof Hinv as []. apply (Inv_update w1); simpl; try done. intros _. by apply Hok2. }
    apply wp_modify. set (w2 := upd_ctx (with_udp_sock s) _) in *.
    destruct (start_udp_safe w2 Hinv2) as [Hinv3 _].
    destruct (start_udp_timers (ctx w2)) as (t & q' & u & E2 & _).
    split; [done|]. change (ctx (upd_ctx check_start_udp_timer w2)) with (check_start_udp_timer (ctx w2)).
    rewrite E2. done. }
  unfold Beacon.init. destruct (announce_iface cfg) as [addr|];
    (apply wp_bind, wp_succeeds; intros b r'; destruct b; apply wp_ret;
     (eapply wp_mono; [apply Hsock| |done]); intros ? w3 Hw3; by apply Hrest).
Qed.

(** C2: The tracer thread from its start, over every sequence of event
    batches: it never hangs and never touches memory it must not.  Either its
    set-up panics (no port could be bound, a registration failed), or every
    state from then on -- also the one a later panic leaves for the
    application -- satisfies the invariant: the pending timeouts are exactly
    the remembered ones, [client_connected] says whether there is a
    connection, every buffered element fits a message, every registered name
    is normal and has its own flag. *)
Theorem tracer_thread_main_safe cfg cc q announce batches w :
  start_ok cfg cc q announce w ->
  match tracer_thread_setup cfg cc q announce w with
  | Ret _ w1 =>
      Inv w1 /\
      tracer_thread_main cfg cc q announce batches w = tracer_thread_loop batches w1 /\
      wp (tracer_thread_loop batches) (fun _ w' => Inv w') Inv w1
  | Panic w1 => tracer_thread_main cfg cc q announce batches w = Panic w1
  | Undef => False
  | Hang => False
  end.
Proof.
  intros Hok. pose proof (tracer_thread_setup_inv cfg cc q announce w Hok) as Hsetup. unfold wp in Hsetup at 1.
  unfold tracer_thread_main, mbind, M_bind. destruct (tracer_thread_setup _ _ _ _ w) as [[] w1| | |]; try done.
  destruct Hsetup as [Hinv _]. split; [done|]. split; [done|].
  eapply wp_mono; [by apply tracer_thread_loop_safe| |done]. by intros ? ? [].
Qed.

(** ** Clients *)

Lemma stop_udp_none c : udp_timeout (check_stop_udp_timer c) = None.
Proof. by unfold check_stop_udp_timer. Qed.

Lemma stop_udp_armed c :
  timer_ok c ->
  (timer_armed (ctx_timer (check_stop_udp_timer c))).*2 ≡ₚ
    (armed_as (queue_timeout c) QUEUE_TIMEOUT_IDENT).*2.
Proof.
  intros Ht. destruct (timer_ok_stop_udp c Ht) as [Hp _]. rewrite Hp, stop_udp_none. simpl.
  rewrite app_nil_r. by destruct (queue_timeout c) eqn:E; unfold check_stop_udp_timer; simpl; destruct (udp_timeout c); simpl; rewrite E.
Qed.

(** C19: A connection request, by the state it meets.  With a client already
    connected it is ignored, and stays in the backlog.  Otherwise the client
    is accepted: its socket becomes the connection and is registered for
    reading, the application sees [client_connected], the announce timer is
    stopped. *)
Theorem connection_request w :
  Inv w -> oracle w = [] ->
  (forall sid, connection (ctx w) = Some sid -> event_handler [CON_NEW] w = Ret Normal w) /\
  (forall s r, connection (ctx w) = None -> backlog w = inr s :: r ->
     exists w', event_handler [CON_NEW] w = Ret Normal w' /\
       connection (ctx w') = Some (next_sock w) /\ socks w' !! next_sock w = Some s /\ backlog w' = r /\
       heap w' = <[ctx_client_connected (ctx w) := true]> (heap w) /\
       log w' = log w ++ [PollRegister (next_sock w)] /\ udp_timeout (ctx w') = None /\
       (timer_armed (ctx_timer (ctx w'))).*2 ≡ₚ (armed_as (queue_timeout (ctx w)) QUEUE_TIMEOUT_IDENT).*2).
Proof.
  intros Hw Ho. split.
  - intros sid Hc. unfold event_handler, event_handler_from, gets, mbind, M_bind. simpl. by rewrite Hc.
  - intros s r Hc Hb. set (sid := next_sock w).
    set (w1 := with_log (log w ++ [PollRegister sid]) (with_heap (<[ctx_client_connected (ctx w) := true]> (heap w))
      (upd_ctx (with_connection (Some sid)) (with_next_sock (S sid) (set_sock sid s (with_backlog r w)))))).
    exists (upd_ctx check_stop_udp_timer w1). split.
    { unfold event_handler, event_handler_from, establish_connection, accept, try_clone_unwrap, succeeds,
        log_call, atomic_store, in_ctx, modify, gets, mbind, M_bind, mret, M_ret.
      cbn -[check_stop_udp_timer]. rewrite Hc. cbn -[check_stop_udp_timer]. rewrite Hb.
      cbn -[check_stop_udp_timer]. rewrite Ho. cbn -[check_stop_udp_timer]. rewrite Ho. reflexivity. }
    assert (timer_ok (ctx w1)) as Ht by by destruct (inv_timer _ Hw); split.
    destruct (stop_udp_timers (ctx w1)) as (t & q & u & E & _).
    pose proof (stop_udp_armed _ Ht) as Harm. pose proof (stop_udp_none (ctx w1)) as Hnone.
    change (ctx (upd_ctx check_stop_udp_timer w1)) with (check_stop_udp_timer (ctx w1)).
    split_and!; try done.
    + by rewrite E.
    + simpl. by rewrite lookup_insert_eq.
Qed.

(** When accepting fails -- the client is already gone, or there are no
    file descriptors left -- the announce timer is stopped all the same.  The
    tracer then has no client and no timer that would ever announce it
    again. *)
Theorem failed_accept_stops_announcing w :
  Inv w -> connection (ctx w) = None -> (forall s r, backlog w <> inr s :: r) ->
  exists w', event_handler [CON_NEW] w = Ret Normal w' /\
    connection (ctx w') = None /\ udp_timeout (ctx w') = None /\
    (timer_armed (ctx_timer (ctx w'))).*2 ≡ₚ (armed_as (queue_timeout (ctx w)) QUEUE_TIMEOUT_IDENT).*2.
Proof.
  intros Hw Hc Hb.
  pose proof (stop_udp_armed _ (inv_timer _ Hw)) as Harm. pose proof (stop_udp_none (ctx w)).
  destruct (stop_udp_timers (ctx w)) as (t & q & u & E & _).
  assert (forall w1, ctx w1 = ctx w -> accept w = Ret (Err (if backlog w is inl k :: _ then k else WouldBlock)) w1 ->
    event_handler [CON_NEW] w = Ret Normal (upd_ctx check_stop_udp_timer w1)) as Hrun.
  { intros w1 _ Hacc. unfold event_handler, event_handler_from, establish_connection, gets, mbind, M_bind.
    simpl. rewrite Hc, bool_decide_true by done. by rewrite Hacc. }
  assert (exists w1, ctx w1 = ctx w /\ accept w = Ret (Err (if backlog w is inl k :: _ then k else WouldBlock)) w1)
    as (w1 & Hctx1 & Hacc).
  { unfold accept. destruct (backlog w) as [|[k|s] r]; [by exists w|by exists (with_backlog r w)|by destruct (Hb s r)]. }
  exists (upd_ctx check_stop_udp_timer w1). split; [by apply Hrun|].
  change (ctx (upd_ctx check_stop_udp_timer w1)) with (check_stop_udp_timer (ctx w1)). rewrite Hctx1.
  split_and!; try done. by rewrite E.
Qed.

(** ** Panics *)

(** A queue of one payload. *)
Lemma single_payload w e w0 w1 :
  try_recv w = Ret (Some (Payload e)) w0 -> queued w = [Payload e] ->
  channel_data_handler e w0 = Ret tt w1 -> queued w1 = [] ->
  channel_handler w = Ret DataProcessed w1.
Proof.
  intros Hrecv Hq Hdata Hq1. pose proof (try_recv_run w1) as Hrecv1. rewrite Hq1 in Hrecv1.
  unfold channel_handler. rewrite Hq. cbn [length loop].
  assert (channel_handler_body Normal w = Ret (inl DataProcessed) w1) as Hstep.
  { unfold channel_handler_body, mbind, M_bind. by rewrite Hrecv, Hdata. }
  unfold mbind at 1, M_bind at 1. rewrite Hstep.
  unfold channel_handler_body, mbind, M_bind. by rewrite Hrecv1.
Qed.

(** The queue timer fires on a buffer that nobody can be sent. *)
Lemma unconnected_timeout_panics w t' :
  connection (ctx w) = None -> buffer (ctx w) <> [] -> Forall fits (buffer (ctx w)) ->
  timer_poll (ctx_timer (ctx w)) = (t', Some QUEUE_TIMEOUT_IDENT) ->
  exists w', event_handler [TIMER] w = Panic w'.
Proof.
  intros Hc Hb Hf Hpoll. destruct (buffer (ctx w)) as [|e es] eqn:Ebuf; [done|].
  destruct (flush_unconnected_run (upd_ctx (with_queue_timeout None) (upd_ctx (with_ctx_timer t') w)) e es)
    as (w' & Hpanic & _); [exact Hc|exact Ebuf| |].
  { change (Forall fits (buffer (ctx w))). by rewrite Ebuf. }
  exists w'. unfold event_handler, event_handler_from. simpl. unfold timer_handler.
  cbn [loop]. unfold mbind, M_bind.
  assert (timer_handler_body tt w = Panic w') as ->; [|done].
  unfold timer_handler_body, poll_timer, in_ctx, modify, mbind, M_bind. rewrite Hpoll. simpl.
  by rewrite Hpanic.
Qed.

(** A payload submitted while the client was connected may reach the
    thread after the disconnect.  It is buffered, and the queue timer is started
    although there is no connection. *)
Theorem late_payload_run w e :
  Inv w -> connection (ctx w) = None -> queued w = [Payload e] ->
  usize_of (buffer_occupancy (ctx w) + BufferElement_len e) <= QUEUE_TOTAL_SIZE ->
  exists w1, event_handler [CHAN] w = Ret DataProcessed w1 /\
    connection (ctx w1) = None /\ buffer (ctx w1) = buffer (ctx w) ++ [e] /\
    Forall fits (buffer (ctx w1)) /\ QUEUE_TIMEOUT_IDENT ∈ (timer_armed (ctx_timer (ctx w1))).*2.
Proof.
  intros Hw Hc Hq Hocc. pose proof (try_recv_run w) as Hrecv. rewrite Hq in Hrecv.
  destruct Hrecv as (w0 & Hrecv & Hq0 & Hctx0 & Hheap0 & Hso0).
  assert (fits e) as He by (pose proof (inv_queue _ Hw) as Hm; rewrite Hq in Hm; by inversion Hm).
  destruct (start_queue_timers (append e (ctx w))) as (t1 & q1 & u1 & E & _).
  set (w1 := upd_ctx check_start_queue_timer (upd_ctx (append e) w0)).
  assert (ctx w1 = with_timers t1 q1 u1 (append e (ctx w))) as Hctx1.
  { unfold w1. simpl. by rewrite Hctx0, E. }
  assert (queued w1 = []) as Hq1.
  { rewrite <-Hq0. apply queued_frame; [by rewrite Hctx1, Hctx0|done]. }
  assert (channel_handler w = Ret DataProcessed w1) as Hrun.
  { apply (single_payload w e w0); [done|done| |done].
    unfold channel_data_handler, in_ctx, modify, gets, mbind, M_bind. simpl. rewrite Hctx0.
    by rewrite (proj2 (Z.ltb_ge _ _)) by done. }
  assert (buffer (ctx w1) = buffer (ctx w) ++ [e]) as Hb by by rewrite Hctx1.
  exists w1. split_and!; try done.
  - unfold event_handler, event_handler_from. simpl. unfold mbind, M_bind. by rewrite Hrun.
  - by rewrite Hctx1.
  - rewrite Hb. apply Forall_app. split; [apply Hw|by constructor].
  - assert (timer_ok (ctx w1)) as [Hp _].
    { unfold w1. simpl. apply timer_ok_start_queue. rewrite Hctx0. by destruct (inv_timer _ Hw); split. }
    rewrite Hp, fmap_app. apply elem_of_app. left.
    assert (is_Some (queue_timeout (ctx w1))) as [h ->]; [|by left].
    unfold w1. simpl. unfold check_start_queue_timer. repeat case_match; simpl; eauto.
Qed.


(** ** Announcing *)

(** C29: When the announce timer fires, one announcement is sent and the timer
    is armed again: afterwards exactly one announce timeout is pending, beside
    the queue timeout if there was one. *)
Theorem announce_timer_rearms w t a p iface :
  timer_ok (ctx w) -> timer_poll (ctx_timer (ctx w)) = (t, Some UDP_TIMEOUT_IDENT) ->
  udp_sock (ctx w) = Some iface -> announce_addr (app_cfg (ctx w)) = Some a ->
  local_port (listener (ctx w)) = Some p ->
  exists w', timer_handler_body tt w = Ret (inl tt) w' /\
    log w' = log w ++ [UdpSendTo (MAGIC_NUMB ++ json (ctx w) p) a] /\
    sequence_no (ctx w') = u64_of (sequence_no (ctx w) + 1) /\
    (timer_armed (ctx_timer (ctx w'))).*2 ≡ₚ
      UDP_TIMEOUT_IDENT :: (armed_as (queue_timeout (ctx w)) QUEUE_TIMEOUT_IDENT).*2.
Proof.
  intros Ht Hpoll Hsock Ha Hp.
  set (w1 := upd_ctx (with_udp_timeout None) (upd_ctx (with_ctx_timer t) w)).
  assert (timer_ok (ctx w1)) as Ht1 by by apply timer_ok_fire_udp.
  pose proof (announce_tracer_run w1 a p iface Hsock Ha Hp) as Hann.
  set (w2 := with_log _ _) in Hann.
  assert (timer_ok (ctx w2)) as Ht2 by exact Ht1.
  exists (upd_ctx check_start_udp_timer w2). split_and!.
  - unfold timer_handler_body, poll_timer, in_ctx, modify, mbind at 1, M_bind at 1. rewrite Hpoll.
    unfold mbind, M_bind. simpl. fold w1. by rewrite Hann.
  - done.
  - destruct (start_udp_timers (ctx w2)) as (t3 & q3 & u3 & E & _).
    change (ctx (upd_ctx check_start_udp_timer w2)) with (check_start_udp_timer (ctx w2)). by rewrite E.
  - destruct (timer_ok_start_udp _ Ht2) as [Hp3 _].
    change (ctx (upd_ctx check_start_udp_timer w2)) with (check_start_udp_timer (ctx w2)). rewrite Hp3.
    assert (queue_timeout (check_start_udp_timer (ctx w2)) = queue_timeout (ctx w)) as ->.
    { unfold check_start_udp_timer. simpl. by destruct (set_timeout _ _ _). }
    assert (is_Some (udp_timeout (check_start_udp_timer (ctx w2)))) as [h ->].
    { unfold check_start_udp_timer. simpl. destruct (set_timeout _ _ _). by eexists. }
    rewrite fmap_app. simpl. by rewrite Permutation_app_comm.
Qed.
End properties.

(** * Instances *)

Lemma example_start_ok :
  start_ok example_cfg 0 0 true (with_oracle [true; false; true] (idle_world [])).
Proof. split; [done|]. split; [by eexists|]. intros l. constructor. Defined.

Lemma tracer_thread_main_safe_witness :
  let w := with_oracle [true; false; true] (idle_world []) in
  match tracer_thread_setup example_cfg 0 0 true w with
  | Ret _ w1 =>
      Inv w1 /\
      tracer_thread_main example_cfg 0 0 true [[CON_NEW]; [TIMER; CHAN]] w =
        tracer_thread_loop [[CON_NEW]; [TIMER; CHAN]] w1 /\
      wp (tracer_thread_loop [[CON_NEW]; [TIMER; CHAN]]) (fun _ w' => Inv w') Inv w1
  | Panic w1 => tracer_thread_main example_cfg 0 0 true [[CON_NEW]; [TIMER; CHAN]] w = Panic w1
  | Undef => False
  | Hang => False
  end.
Proof. apply tracer_thread_main_safe. apply example_start_ok. Defined.

Lemma example_cells (w : World) :
  ctx_tracepoints (ctx w) = example_tracepoints -> ctx_client_connected (ctx w) = 0%nat ->
  is_Some (heap w !! 1%nat) -> is_Some (heap w !! 2%nat) ->
  forall name l, ctx_tracepoints (ctx w) !! name = Some l -> normal_name name /\ tp_cell w l.
Proof.
  intros -> Hcc H1 H2 name l. unfold example_tracepoints.
  rewrite lookup_insert, lookup_singleton. repeat case_decide; simplify_eq; intros [= <-];
    (split; [|split; [done|by rewrite Hcc]]); vm_compute; done.
Qed.

Lemma idle_inv b : Inv (idle_world b).
Proof.
  split; try done; [|by apply example_cells]. split; [done|]. apply NoDup_singleton.
Qed.

Lemma busy_inv es rx tx msgs :
  Forall fits es -> Forall (fun m => match m with Payload e => fits e | _ => False end) msgs ->
  Inv (busy_world es rx tx msgs).
Proof.
  intros Hes Hmsgs. split; try done.
  - split; [by destruct es|]. destruct es; [constructor|apply NoDup_singleton].
  - intros sid [= <-]. by eexists.
  - by apply example_cells.
  - eapply Forall_impl; [exact Hmsgs|]. by intros [].
Qed.

Lemma connection_request_witness :
  let w := idle_world [inr (mkSocket [] [] [])] in
  exists w', event_handler [CON_NEW] w = Ret Normal w' /\
    connection (ctx w') = Some 0%nat /\ socks w' !! 0%nat = Some (mkSocket [] [] []) /\ backlog w' = [] /\
    heap w' = <[0%nat := true]> (heap w) /\
    log w' = [] ++ [PollRegister 0] /\ udp_timeout (ctx w') = None /\
    (timer_armed (ctx_timer (ctx w'))).*2 ≡ₚ [].
Proof. intros w. apply (connection_request w (idle_inv _) eq_refl); reflexivity. Defined.

Lemma failed_accept_stops_announcing_witness :
  let w := idle_world [inl ConnectionReset] in
  exists w', event_handler [CON_NEW] w = Ret Normal w' /\
    connection (ctx w') = None /\ udp_timeout (ctx w') = None /\
    (timer_armed (ctx_timer (ctx w'))).*2 ≡ₚ [].
Proof. intros w. by apply (failed_accept_stops_announcing w (idle_inv _)). Defined.

(** The payload arrives, and then time passes. *)
Lemma late_payload_run_witness :
  let w := with_chans {[ 0%nat := Ref.mk_channel [Payload (element cpu 1 5)] true ]} (idle_world []) in
  exists w1, event_handler [CHAN] w = Ret DataProcessed w1 /\
    connection (ctx w1) = None /\ buffer (ctx w1) = buffer (ctx w) ++ [element cpu 1 5] /\
    Forall fits (buffer (ctx w1)) /\ QUEUE_TIMEOUT_IDENT ∈ (timer_armed (ctx_timer (ctx w1))).*2.
Proof.
  intros w. apply (late_payload_run w (element cpu 1 5)); try done.
  pose proof (idle_inv []) as []. split; try done. by repeat constructor.
Defined.


Lemma announce_timer_rearms_witness :
  let w := idle_world [] in
  let t := Ref.expire (ctx_timer (ctx w)) in
  let w0 := upd_ctx (with_ctx_timer t) w in
  exists w', timer_handler_body tt w0 = Ret (inl tt) w' /\
    log w' = [] ++ [UdpSendTo (MAGIC_NUMB ++ json (ctx w0) 61455) (lit "225.0.0.1:64042")] /\
    sequence_no (ctx w') = u64_of (0 + 1) /\
    (timer_armed (ctx_timer (ctx w'))).*2 ≡ₚ UDP_TIMEOUT_IDENT :: [].
Proof.
  intros w t w0. apply (announce_timer_rearms w0 (Ref.mk_timer 7 []) _ 61455 (lit "127.0.0.1")); try reflexivity.
  split; [done|]. apply NoDup_singleton.
Defined.
