(* ===== verification/Control.v ===== *)
(** The control of the tracer thread between two of its steps: an event is
    handled one message, one timeout or one request at a time, and other threads
    run in between. *)

From S2P Require Import Prelude Monad Platform Types Worlds Strings Context Io Wire Tcp Beacon Handlers Invariant Thread.

Section Control_defs.
Context `{P : Platform}.

(** Where the thread is: waiting for an event, in one of the loops of
    [channel_handler], [timer_handler] and [receive], or at its end. *)
Inductive control :=
| Idle
| InChannel (ret : TracerState)
| InTimer
| InReceive (reader : BufReader)
| Ended.

Definition active (k : control) : Prop :=
  match k with Idle | Ended => False | _ => True end.

(** The part of [event_handler] up to the loop of the handler it calls. *)
Definition dispatch (token : Z) : M World control :=
  if token =? CHAN then mret (InChannel Normal)
  else if token =? TIMER then mret InTimer
  else if token =? CON_NEW then
    c ← gets ctx;
    (if bool_decide (connection c = None) then
       establish_connection;; in_ctx check_stop_udp_timer
     else mret tt);;
    mret Idle
  else if token =? CON_DATA then
    c ← gets ctx;
    sid ← unwrap (connection c);
    sid ← try_clone_unwrap sid;
    mret (InReceive (mkBuf sid []))
  else mret Idle.

Definition settled (st : TracerState) : control :=
  match st with Terminate => Ended | _ => Idle end.

(** One iteration of the loop the thread is in. *)
Definition advance (k : control) : M World control :=
  match k with
  | Idle | Ended => mret k
  | InChannel ret =>
      r ← channel_handler_body ret;
      mret (match r with inl ret => InChannel ret | inr st => settled st end)
  | InTimer =>
      r ← timer_handler_body tt;
      mret (match r with inl _ => InTimer | inr _ => Idle end)
  | InReceive reader =>
      r ← receive_body reader;
      mret (match r with inl reader => InReceive reader | inr _ => Idle end)
  end.

(** The thread left to itself. *)
Definition advances (x y : control * World) : Prop :=
  active x.1 /\ advance x.1 x.2 = Ret y.1 y.2.

(** The socket of a reader is there. *)
Definition control_ok (k : control) (w : World) : Prop :=
  match k with InReceive reader => is_Some (socks w !! br_sock reader) | _ => True end.

(** How many steps the thread has before it at most: one for each message, each
    expired timeout or each unread byte, and one to find that there are none. *)
Definition work (k : control) (w : World) : nat :=
  match k with
  | InChannel _ => S (length (queued w))
  | InTimer => S (timer_due (ctx_timer (ctx w)))
  | InReceive reader => S (reader_total reader w)
  | Idle | Ended => O
  end.

(** The bytes read ahead. *)
Definition ahead (k : control) : list u8 :=
  match k with InReceive reader => br_buf reader | _ => [] end.
End Control_defs.

Section lemmas.
Context {P : Platform} {TL : TimerLaws P} {HL : HashLaws P} {CL : ChannelLaws P}.

(** ** The steps are safe *)

Lemma dispatch_safe token w :
  Inv w -> wp (dispatch token) (fun k w' => Inv w' /\ keeps w w' /\ control_ok k w' /\ k <> Ended) Inv w.
Proof.
  intros Hw. unfold dispatch. repeat case_match; try (by apply wp_ret).
  - apply wp_bind, wp_gets, wp_bind.
    assert (safe keeps (if bool_decide (connection (ctx w) = None) then
       establish_connection;; in_ctx check_stop_udp_timer else mret tt)) as Hs.
    { pose proof establish_connection_safe. pose proof (safe_keeps _ (safe_frame0 _ stop_udp_safe)). safe_auto. }
    eapply wp_mono; [by apply Hs| |done]. intros ? w' []. by apply wp_ret.
  - apply wp_bind, wp_gets, wp_bind, wp_unwrap; [|done]. intros sid Hsid. apply wp_bind.
    assert (safe frame (try_clone_unwrap sid)) as Hs by (unfold try_clone_unwrap; safe_auto).
    eapply wp_mono; [apply (wp_and _ (fun _ w' => Inv w' /\ frame w w') (fun a _ => a = sid) Inv (fun _ => True)); [by apply Hs|]| |by intros ? []].
    + unfold try_clone_unwrap. apply wp_bind. eapply wp_mono; [by apply succeeds_safe| |done].
      by intros [] w' _.
    + intros s w' [[Hw' [Hf _]] ->]. apply wp_ret. split; [done|]. split; [by apply frame0_keeps|].
      split; [|done]. apply Hf. by apply inv_sock.
Qed.

Lemma advance_works k w :
  Inv w -> control_ok k w -> active k ->
  wp (advance k) (fun k' w' => Inv w' /\ keeps w w' /\ control_ok k' w' /\ (work k' w' < work k w)%nat) Inv w.
Proof.
  intros Hw Hk Hact. destruct k as [|ret| |br|]; try done; simpl.
  - apply wp_bind. eapply wp_mono; [by apply channel_handler_body_safe| |done].
    intros [r|st] w' (? & ? & ?); apply wp_ret; split_and!; try done; [simpl; lia|by destruct st|].
    destruct st; simpl; lia.
  - apply wp_bind. eapply wp_mono; [by apply timer_handler_body_safe| |done].
    intros [r|u] w' (? & ? & ?); apply wp_ret; split_and!; try done; simpl; lia.
  - apply wp_bind. eapply wp_mono; [by apply (receive_body_reads w br br w), reads_refl| |done].
    intros [br'|] w'.
    + intros [(? & ? & _ & ? & _) ?]. apply wp_ret. split; [done|]. split; [by apply frame0_keeps|].
      split; [done|simpl; lia].
    + intros [? ?]. apply wp_ret. split; [done|]. split; [by apply frame0_keeps|]. split; [done|simpl; lia].
Qed.

Lemma advance_safe k w :
  Inv w -> control_ok k w -> wp (advance k) (fun k' w' => Inv w' /\ keeps w w' /\ control_ok k' w') Inv w.
Proof.
  intros Hw Hk. assert (active k \/ advance k w = Ret k w) as [Hact|E] by (destruct k; simpl; auto).
  - eapply wp_mono; [by apply advance_works| |done]. by intros k' w' (? & ? & ? & _).
  - by eapply wp_eq.
Qed.

(** ** Whole events *)

Lemma advances_det x y z : advances x y -> advances x z -> y = z.
Proof. intros [_ H1] [_ H2]. rewrite H1 in H2. destruct y, z. simpl in *. congruence. Qed.

(** The thread stops in one state only. *)
Lemma advances_stop x y z :
  rtc advances x y -> nf advances y -> rtc advances x z -> nf advances z -> y = z.
Proof.
  intros Hy Hnf. revert z. induction Hy as [x|x x1 y Hx _ IH]; intros z Hz Hnfz.
  - destruct Hz as [|v v1 ? Hv _]; [done|]. destruct Hnf. by exists v1.
  - destruct Hz as [v|v v1 ? Hz1 Hz]; [destruct Hnfz; by exists x1|].
    rewrite (advances_det _ _ _ Hz1 Hx) in Hz. by apply IH.
Qed.

(** A loop whose iterations are steps of the thread. *)
Lemma loop_advances {A B} (K : A -> control) (F : B -> control) (body : A -> M World (A + B)) :
  (forall a, active (K a)) ->
  (forall a, advance (K a) = r ← body a; mret (match r with inl a' => K a' | inr b => F b end)) ->
  forall n a w,
  match loop n body a w with
  | Ret b w' => rtc advances (K a, w) (F b, w')
  | Panic w' => exists k w1, rtc advances (K a, w) (k, w1) /\ active k /\ advance k w1 = Panic w'
  | _ => True
  end.
Proof.
  intros Hact Hadv n. induction n as [|n IH]; intros a w; [done|]. cbn [loop]. unfold mbind at 1, M_bind at 1.
  pose proof (Hadv a) as Ha. apply (f_equal (fun m => m w)) in Ha. unfold mbind, M_bind in Ha.
  destruct (body a w) as [[a'|b] w1|w1| |]; try done.
  - assert (advances (K a, w) (K a', w1)) as Hstep by (split; [apply Hact|exact Ha]). specialize (IH a' w1).
    destruct (loop n body a' w1) as [b w2|w2| |]; [by eapply rtc_l| |done..].
    destruct IH as (k & w3 & Hk & ?). exists k, w3. split; [by eapply rtc_l|done].
  - apply rtc_once. split; [apply Hact|exact Ha].
  - exists (K a), w. split; [done|]. split; [apply Hact|exact Ha].
Qed.

Lemma settled_stop st (w : World) : nf advances (settled st, w).
Proof. intros [? [H _]]. by destruct st. Qed.

Lemma bind_outcome {A B} (m : M World A) (f : A -> M World B) w :
  (m ≫= f) w = match m w with Ret a w' => f a w' | Panic w' => Panic w' | Undef => Undef | Hang => Hang end.
Proof. unfold mbind, M_bind. by destruct (m w). Qed.

(** An event handled without interruption is the steps of its handler. *)
Lemma event_advances token w :
  match event_handler [token] w with
  | Ret r w' => exists k w1, dispatch token w = Ret k w1 /\ rtc advances (k, w1) (settled r, w')
  | Panic w' => dispatch token w = Panic w' \/
      exists k w1 k2 w2, dispatch token w = Ret k w1 /\ rtc advances (k, w1) (k2, w2) /\ active k2 /\
        advance k2 w2 = Panic w'
  | _ => True
  end.
Proof.
  unfold event_handler, dispatch. cbn [event_handler_from]. destruct (token =? CHAN).
  { rewrite bind_outcome. unfold channel_handler.
    pose proof (loop_advances InChannel settled channel_handler_body (fun _ => I) (fun _ => eq_refl)
      (S (length (queued w))) Normal w) as H.
    destruct (loop _ _ _ w) as [st w'|w'| |]; [|right|done..].
    - by destruct st; do 2 eexists.
    - destruct H as (k & w1 & Hk & ?). by exists (InChannel Normal), w, k, w1. }
  destruct (token =? TIMER).
  { rewrite bind_outcome. unfold timer_handler.
    pose proof (loop_advances (fun _ => InTimer) (fun _ => Idle) timer_handler_body (fun _ => I)) as H.
    specialize (H ltac:(by intros [])). specialize (H (S (timer_due (ctx_timer (ctx w)))) tt w).
    destruct (loop _ _ _ w) as [st w'|w'| |]; [by do 2 eexists|right|done..].
    destruct H as (k & w1 & Hk & ?). by exists InTimer, w, k, w1. }
  destruct (token =? CON_NEW).
  { rewrite !(bind_outcome (gets ctx)). unfold gets. cbv beta iota. rewrite !bind_outcome.
    match goal with |- context [(if ?b then ?x else ?y) w] => destruct ((if b then x else y) w) end;
      [by do 2 eexists|by left|done..]. }
  destruct (token =? CON_DATA); [|by do 2 eexists].
  rewrite bind_outcome. unfold receive, gets, mbind, M_bind.
  destruct (connection (ctx w)) as [sid|]; cbn [unwrap]; [|by left]. unfold mret, M_ret.
  destruct (try_clone_unwrap sid w) as [s w1|w1| |]; [|by left|done..]. unfold receive_loop.
  pose proof (loop_advances InReceive (fun _ => Idle) receive_body (fun _ => I) (fun _ => eq_refl)
    (S (reader_total (mkBuf s []) w1)) (mkBuf s []) w1) as H.
  destruct (loop _ _ _ w1) as [u w'|w'| |]; [by do 2 eexists|right|done..].
  destruct H as (k & w2 & Hk & ?). by exists (InReceive (mkBuf s [])), w1, k, w2.
Qed.

(** The two presentations of the thread agree. The steps of the thread are the event handlers: an event is handled to
    its end exactly when the thread, left to itself, stops -- in the same state
    of the world, and ended exactly when the handler says so; and no step of it
    hangs. *)
Lemma event_is_steps token w k' w' :
  Inv w -> ~ active k' ->
  (exists r, event_handler [token] w = Ret r w' /\ k' = settled r) <->
  (exists k w1, dispatch token w = Ret k w1 /\ rtc advances (k, w1) (k', w')).
Proof.
  intros Hw Hk'. assert (forall v, nf advances (k', v)) as Hnf by (intros v [? [? _]]; done).
  pose proof (event_advances token w) as Hev. pose proof (event_handler_safe [token] w Hw) as Hsafe. unfold wp in Hsafe.
  split.
  - intros (r & Hrun & ->). by rewrite Hrun in Hev.
  - intros (k & w1 & Hd & Hsteps). destruct (event_handler [token] w) as [r w2|w2| |]; try done.
    + destruct Hev as (k1 & w3 & Hd1 & Hsteps1). rewrite Hd in Hd1. injection Hd1 as <- <-.
      pose proof (advances_stop _ _ _ Hsteps (Hnf w') Hsteps1 (settled_stop _ _)) as E. injection E as -> ->.
      by exists r.
    + destruct Hev as [Hp|(k1 & w3 & k2 & w4 & Hd1 & Hsteps1 & Hact & Hp)]; [congruence|].
      rewrite Hd in Hd1. injection Hd1 as <- <-.
      assert (nf advances (k2, w4)) as Hnf2 by (intros [y [_ Hy]]; simpl in Hy; congruence).
      pose proof (advances_stop _ _ _ Hsteps (Hnf w') Hsteps1 Hnf2) as E. injection E as -> ->. done.
Qed.

(** Where a run goes that has come to its only end. *)
Definition settles (b : nat) (x : control * World) : Prop :=
  exists n k' w', (n <= b)%nat /\ nsteps advances n x (k', w') /\ Inv w' /\
    (active k' -> exists w2, advance k' w' = Panic w2) /\
    forall m y, nsteps advances m x y -> (m <= n)%nat /\ rtc advances y (k', w').

Lemma settles_stop b k w :
  Inv w -> (active k -> exists w2, advance k w = Panic w2) -> settles b (k, w).
Proof.
  intros Hw Hstop. exists 0%nat, k, w. split; [lia|]. split; [constructor|]. split; [done|]. split; [done|].
  intros m y Hm. inversion Hm as [|m' x' z y' [Hact Hadv] _]; subst; [done|].
  destruct (Hstop Hact) as [w2 E]. simpl in Hadv. congruence.
Qed.

Lemma settles_step b x x1 : advances x x1 -> settles b x1 -> settles (S b) x.
Proof.
  intros Hx (n & k' & w' & Hn & Hrun & Hw & Hend & Hall). exists (S n), k', w'. split; [lia|].
  split; [by econstructor|]. split; [done|]. split; [done|]. intros m y Hm.
  inversion Hm as [|m' x' z y' Hz Hrest]; subst.
  - split; [lia|]. eapply rtc_l; [exact Hx|]. by eapply rtc_nsteps_2.
  - rewrite (advances_det _ _ _ Hz Hx) in Hrest. destruct (Hall _ _ Hrest). split; [lia|done].
Qed.

(** C6: No handler keeps the thread busy for ever.  Left to itself the thread
    comes, after at most as many steps as there are queued messages, expired
    timeouts or unread bytes, and one more, to where it waits for the next
    event, ends, or panics; all its runs are part of this one. *)
Theorem thread_settles k w : Inv w -> control_ok k w -> settles (work k w) (k, w).
Proof.
  intros Hw Hk. remember (work k w) as b eqn:Hb. assert (work k w <= b)%nat as Hle by lia. clear Hb.
  revert k w Hw Hk Hle. induction b as [|b IH]; intros k w Hw Hk Hle.
  - apply settles_stop; [done|]. by destruct k; simpl in Hle; [|lia..|].
  - destruct k as [|ret| |br|] eqn:Ek; try by apply settles_stop.
    all: pose proof (advance_works k w Hw) as H; rewrite Ek in H; specialize (H Hk I); unfold wp in H.
    all: match type of H with match ?m with _ => _ end => destruct m as [k1 w1|w2| |] eqn:E end; try done.
    all: try (apply settles_stop; [done|by eexists]).
    all: destruct H as (Hw1 & _ & Hk1 & Hlt); apply (settles_step b _ (k1, w1)); [by split|apply IH; [done|done|simpl in *; lia]].
Qed.
End lemmas.

(** * Instances *)

(** Two messages take three steps at most. *)
Lemma thread_settles_witness :
  let w := busy_world [element cpu 0 9] [] [] [Payload (element mem 1 5); Payload (element cpu 2 3)] in
  work (InChannel Normal) w = 3%nat /\ settles 3 (InChannel Normal, w).
Proof.
  intros w. split; [reflexivity|]. apply (thread_settles (InChannel Normal) w); [|done].
  apply busy_inv; repeat (apply Forall_cons; split); try apply Forall_nil; vm_compute; done.
Defined.
