(* ===== verification/AppSpec.v ===== *)
(** The properties of the C interface: what each function does on every
    combination of its arguments, and where its behaviour departs from its
    documentation. *)

From S2P Require Import Prelude Monad Platform Types Worlds Strings Context Io Wire Tcp App Handlers Invariant Flush Thread.

Section lemmas.
Context {P : Platform}.

Lemma deref_handle_live p addr t a :
  p = Some addr -> handles a !! addr = Some t -> deref_handle p a = Ret (addr, t) a.
Proof. intros -> Ht. unfold deref_handle, get, mbind, M_bind. simpl. by rewrite Ht. Qed.

Lemma deref_handle_dead addr a :
  handles a !! addr = None -> deref_handle (Some addr) a = Undef.
Proof. intros Ht. unfold deref_handle, get, mbind, M_bind. simpl. by rewrite Ht. Qed.

(** The state after a message was handed to the channel. *)
Definition sent_to (t : TracerNg) (m : ChannelMessage) (a : App) : App :=
  match app_chans a !! send_to_tracer_thread t with
  | Some q => with_app_chans (<[send_to_tracer_thread t := (channel_send q m).1]> (app_chans a)) a
  | None => a
  end.

Lemma send_to_tracer_eq t m a : send_to_tracer t m a = Ret tt (sent_to t m a).
Proof. unfold send_to_tracer, sent_to. by destruct (app_chans a !! send_to_tracer_thread t). Qed.

Definition flag (a : App) (l : nat) : bool := default false (app_heap a !! l).

(** The state of a tracepoint, by its registered name. *)
Definition enabled (t : TracerNg) (a : App) (name : list u8) : bool :=
  match tracepoints t !! name with Some l => flag a l | None => false end.

Lemma tracepoint_enabled_eq t name a : tracepoint_enabled t name a = Ret (enabled t a name) a.
Proof. unfold tracepoint_enabled, enabled, load, gets. by destruct (tracepoints t !! name). Qed.

(** The element a submission produces, when it is accepted. *)
Definition submission (t : TracerNg) (a : App) (s data : list u8) (len : Z) (now : SystemTime) :
    option BufferElement :=
  if (len =? 0) || (MAX_SUBMIT_LEN <? len) then None
  else if negb (flag a (client_connected t)) then None
  else
    match fix_tracepoint_str (to_string_lossy s) with
    | Err _ => None
    | Ok n => if enabled t a n then Some (mkElement n now (take (Z.to_nat len) data)) else None
    end.

Lemma tracy_submit_run p t a s data len now :
  handles a !! p = Some t -> 0 <= len -> (len <= MAX_SUBMIT_LEN -> len <= zlen data) ->
  tracy_submit (Some p) (Some s) (Some data) len now a =
    Ret tt (match submission t a s data len now with
            | Some e => sent_to t (Payload e) a
            | None => a
            end).
Proof.
  intros Ht Hlen Hdata. unfold tracy_submit, submission.
  change (is_null (Some p) || is_null (Some s) || is_null (Some data)) with false. cbv iota.
  destruct ((len =? 0) || (MAX_SUBMIT_LEN <? len)) eqn:Hl; [done|].
  apply orb_false_elim in Hl as [_ Hl%Z.ltb_ge]. unfold mbind, M_bind.
  rewrite (deref_handle_live _ _ _ _ eq_refl Ht). unfold load, gets. cbn [snd].
  change (default false (app_heap a !! client_connected t)) with (flag a (client_connected t)).
  destruct (flag a (client_connected t)); [|done]. cbn [negb deref]. unfold mret, M_ret.
  destruct (fix_tracepoint_str (to_string_lossy s)) as [n|]; [|done].
  rewrite tracepoint_enabled_eq. destruct (enabled t a n); [|done]. cbn [negb deref].
  unfold mret, M_ret, from_raw_parts. rewrite (proj2 (Z.leb_le _ _)) by auto. apply send_to_tracer_eq.
Qed.

Lemma tracy_submit_refused (p : ptr) (name : c_str) (data : option (list u8)) len now a :
  p = None \/ name = None \/ data = None \/ len = 0 \/ MAX_SUBMIT_LEN < len ->
  tracy_submit p name data len now a = Ret tt a.
Proof.
  intros H. unfold tracy_submit.
  destruct p as [p|], name as [s|], data as [d|]; try done.
  change (is_null (Some p) || is_null (Some s) || is_null (Some d)) with false. cbv iota.
  assert ((len =? 0) || (MAX_SUBMIT_LEN <? len) = true) as ->; [|done].
  rewrite orb_true_iff, Z.eqb_eq, Z.ltb_lt. naive_solver.
Qed.

Lemma submission_fits t a s data len now e :
  submission t a s data len now = Some e -> 0 <= len ->
  normal_name (elem_tracepoint e) /\ 0 < len <= MAX_SUBMIT_LEN /\
  elem_data e = take (Z.to_nat len) data /\ elem_timestamp e = now /\ fits e.
Proof.
  unfold submission. intros He Hlen. destruct (_ || _) eqn:Hl; [done|].
  apply orb_false_elim in Hl as [H0%Z.eqb_neq Hl%Z.ltb_ge]. destruct (negb _); [done|].
  destruct (fix_tracepoint_str _) as [n|] eqn:Hfix; [|done]. destruct (enabled _ _ _); [|done].
  injection He as <-. pose proof (fix_tracepoint_str_normal _ _ Hfix) as Hn.
  split; [done|]. split; [lia|]. split; [done|]. split; [done|]. destruct Hn as (_ & Hn & _).
  unfold fits, BufferElement_len. simpl. rewrite zlen_take by done.
  unfold MAX_SUBMIT_LEN, MAX_TRACEPOINT_NAME_LEN, TIMESTAMP_LEN, HEADER_LEN, QUEUE_TOTAL_SIZE in *. lia.
Qed.
Lemma tracy_register_run p t a s :
  handles a !! p = Some t ->
  let l := fresh (dom (app_heap a)) in
  let a0 := with_app_heap (<[l := false]> (app_heap a)) a in
  let n := to_lowercase (take 32 s) in
  tracy_register (Some p) (Some s) a =
    if is_ascii s && bool_decide (tracepoints t !! n = None)
    then
      let t' := mkTracerNg (send_to_tracer_thread t) (client_connected t) (<[n := l]> (tracepoints t)) in
      Ret 0 (sent_to t' (NewTracepoint (mkTracepoint n l)) (with_handles (<[p := t']> (handles a0)) a0))
    else Ret (-1) a0.
Proof.
  intros Ht l a0 n. unfold tracy_register. unfold mbind at 1, M_bind at 1. unfold new_atomic. cbv zeta.
  fold l. fold a0. change (is_null (Some p)) with false. cbv iota.
  unfold mbind at 1, M_bind at 1. rewrite (deref_handle_live (Some p) p t a0 eq_refl Ht).
  cbn [deref]. unfold mbind at 1, M_bind at 1, mret at 1, M_ret at 1. rewrite fix_lossy_eq.
  destruct (is_ascii s); [|done]. fold n. cbn [andb].
  destruct (tracepoints t !! n) as [k|] eqn:Hn; simpl; [done|].
  unfold mbind, M_bind. simpl. by rewrite send_to_tracer_eq.
Qed.

Lemma tracy_init_run {CL : ChannelLaws P} (h q : list u8) flush interval (iface addr : c_str) flags a :
  0 <= flush -> 0 <= interval -> flush <> 0 ->
  exists p t cfg announce a',
    tracy_init (Some h) (Some q) flush interval iface addr flags a = Ret (Some p) a' /\
    handles a !! p = None /\ handles a' = <[p := t]> (handles a) /\ tracepoints t = ∅ /\
    flag a' (client_connected t) = false /\ app_chans a' !! send_to_tracer_thread t = Some channel_new /\
    spawned a' = spawned a ++ [mkSpawn cfg (client_connected t) (send_to_tracer_thread t) announce] /\
    send_interval cfg = flush * 1000000 /\ Types.announce_interval cfg = interval * 1000000 /\
    (announce = true <-> 0 < interval /\ is_Some iface /\
       exists s x, addr = Some s /\ socket_addr_from_str (to_string_lossy s) = Some x) /\
    (forall w, heap w = app_heap a' -> chans w = app_chans a' ->
       start_ok cfg (client_connected t) (send_to_tracer_thread t) announce w).
Proof.
  intros Hf Hi Hz. unfold tracy_init. change (is_null (Some h) || is_null (Some q)) with false. cbn [orb].
  rewrite (proj2 (Z.eqb_neq _ _)) by done.
  unfold new_atomic, new_channel, box_into_raw, modify, mbind, M_bind. cbn [rawpt_to_str unwrap].
  unfold mret, M_ret. cbv beta iota zeta. simpl handles.
  do 5 eexists. split; [reflexivity|]. simpl. split.
  { apply not_elem_of_dom, is_fresh. }
  split; [reflexivity|]. simpl. split; [done|]. split.
  { unfold flag. simpl. by rewrite lookup_insert_eq. }
  split; [apply lookup_insert_eq|].
  split; [reflexivity|]. simpl. split; [done|]. split; [done|]. split.
  - rewrite !andb_true_iff, Z.ltb_lt, !bool_decide_eq_true. unfold rawpt_to_addr.
    destruct iface as [i|], addr as [s|]; simpl; unfold string_to_addr;
      try (destruct (socket_addr_from_str (to_string_lossy s)) eqn:Ea);
      split; intros; destruct_and?; split_and?; eauto; try (by destruct (H1 : is_Some None)); naive_solver.
  - intros w Hh Hc. unfold start_ok. split; [rewrite Hh; apply lookup_insert_eq|]. split.
    + rewrite !andb_true_iff, !bool_decide_eq_true. tauto.
    + intros l. simpl. unfold queued. simpl. rewrite Hc, lookup_insert_eq, contents_new. constructor.
Qed.
End lemmas.

Section properties.
Context {P : Platform}.

(** C11: [tracy_submit] with valid pointers.  It hands exactly one element to the
    tracer thread when the length is between 1 and 2048, a client is
    connected, the name is ASCII and its normal form is the name of an enabled
    tracepoint; the element carries the normal form, the time and the first
    [data_len] bytes, and is small enough for a message of its own.  In every
    other case it does nothing; null pointers and impossible lengths are refused
    before anything is dereferenced, even a dangling handle. *)
Theorem tracy_submit_spec p t a s data len now :
  handles a !! p = Some t -> 0 <= len -> (len <= MAX_SUBMIT_LEN -> len <= zlen data) ->
  (if bool_decide (0 < len <= MAX_SUBMIT_LEN) && flag a (client_connected t) && is_ascii s
      && enabled t a (to_lowercase (take 32 s))
   then
     let e := mkElement (to_lowercase (take 32 s)) now (take (Z.to_nat len) data) in
     tracy_submit (Some p) (Some s) (Some data) len now a = Ret tt (sent_to t (Payload e) a) /\ fits e
   else tracy_submit (Some p) (Some s) (Some data) len now a = Ret tt a) /\
  (forall (p' : ptr) (name : c_str) (d : option (list u8)) n,
     p' = None \/ name = None \/ d = None \/ n = 0 \/ MAX_SUBMIT_LEN < n ->
     tracy_submit p' name d n now a = Ret tt a).
Proof.
  intros Ht Hlen Hdata. split; [|intros p' name d n; apply tracy_submit_refused].
  pose proof (tracy_submit_run p t a s data len now Ht Hlen Hdata) as Hrun.
  pose proof (submission_fits t a s data len now) as Hfits.
  unfold submission in *. rewrite fix_lossy_eq in *.
  assert ((len =? 0) || (MAX_SUBMIT_LEN <? len) = negb (bool_decide (0 < len <= MAX_SUBMIT_LEN))) as E.
  { case_bool_decide; [apply orb_false_intro; [apply Z.eqb_neq|apply Z.ltb_ge]; lia|].
    apply orb_true_intro. rewrite Z.eqb_eq, Z.ltb_lt. lia. }
  rewrite E in *. destruct (bool_decide _); [|done]. destruct (flag a (client_connected t)); [|done].
  destruct (is_ascii s); [|done]. simpl in *. destruct (enabled _ _ _); [|done].
  split; [done|]. by eapply Hfits.
Qed.

(** C21: [tracy_register] on a live handle: a name with a non-ASCII byte and a
    name whose normal form is already registered give -1, send nothing and
    leave the registry alone; any other name is entered in normal form with a
    new flag, lowered, and the same name and flag are announced to the tracer
    thread. *)
Theorem tracy_register_spec p t a s :
  handles a !! p = Some t ->
  let l := fresh (dom (app_heap a)) in
  let a0 := with_app_heap (<[l := false]> (app_heap a)) a in
  let n := to_lowercase (take 32 s) in
  tracy_register (Some p) (Some s) a =
    if is_ascii s && bool_decide (tracepoints t !! n = None)
    then
      let t' := mkTracerNg (send_to_tracer_thread t) (client_connected t) (<[n := l]> (tracepoints t)) in
      Ret 0 (sent_to t' (NewTracepoint (mkTracepoint n l)) (with_handles (<[p := t']> (handles a0)) a0))
    else Ret (-1) a0.
Proof. apply tracy_register_run. Qed.

(** [tracy_tracepoint_enabled] looks the name up as it is given, without
    the normalisation that registration and submission apply: a name that is
    not in normal form -- upper case letters, more than 32 bytes -- is reported
    as disabled whatever the state of the tracepoint that [tracy_submit] would
    use for it. *)
Theorem tracepoint_enabled_raw p t a s :
  handles a !! p = Some t -> map_Forall (fun n _ => normal_name n) (tracepoints t) ->
  tracy_tracepoint_enabled (Some p) (Some s) a = Ret (enabled t a (to_string_lossy s)) a /\
  (~ normal_name s -> tracy_tracepoint_enabled (Some p) (Some s) a = Ret false a).
Proof.
  intros Ht Hreg.
  assert (tracy_tracepoint_enabled (Some p) (Some s) a = Ret (enabled t a (to_string_lossy s)) a) as E.
  { unfold tracy_tracepoint_enabled, mbind, M_bind. rewrite (deref_handle_live _ _ _ _ eq_refl Ht).
    simpl. apply tracepoint_enabled_eq. }
  split; [done|]. intros Hs. rewrite E. unfold enabled.
  destruct (tracepoints t !! to_string_lossy s) as [l|] eqn:Hl; [|done]. exfalso. apply Hs.
  pose proof (Hreg _ _ Hl) as Hn. simpl in Hn. pose proof Hn as [Ha _]. rewrite is_ascii_lossy in Ha.
  by rewrite to_string_lossy_ascii in Hn.
Qed.

(** C27: [tracy_finit] sends [Terminate] to the thread and frees the handle; any
    later use of the pointer is undefined behaviour, as are null pointers
    where the documentation promises a check ([tracy_finit],
    [tracy_tracepoint_enabled], and the name given to [tracy_register]). *)
Theorem tracy_finit_spec p t a :
  handles a !! p = Some t ->
  exists a', tracy_finit (Some p) a = Ret tt a' /\
    a' = with_handles (delete p (handles a)) (sent_to t MsgTerminate a) /\
    (tracy_finit (Some p) a' = Undef /\
     (forall s, tracy_register (Some p) s a' = Undef) /\
     (forall s, tracy_tracepoint_enabled (Some p) s a' = Undef) /\
     (forall s d len now, 0 < len <= MAX_SUBMIT_LEN ->
        tracy_submit (Some p) (Some s) (Some d) len now a' = Undef)) /\
    (tracy_finit None a = Undef /\ tracy_tracepoint_enabled None (Some []) a = Undef /\
     tracy_tracepoint_enabled (Some p) None a = Undef /\ tracy_register (Some p) None a = Undef).
Proof.
  intros Ht. eexists. split.
  { unfold tracy_finit, mbind, M_bind. rewrite (deref_handle_live _ _ _ _ eq_refl Ht).
    rewrite send_to_tracer_eq. unfold modify.
    assert (handles (sent_to t MsgTerminate a) = handles a) as ->; [|reflexivity].
    unfold sent_to. by case_match. }
  split; [done|]. set (a' := with_handles _ _).
  assert (forall a1, handles a1 = handles a' -> deref_handle (Some p) a1 = Undef) as Hdead.
  { intros a1 Ha1. apply deref_handle_dead. rewrite Ha1. apply lookup_delete_eq. }
  split; [split_and!|split_and!].
  - unfold tracy_finit, mbind, M_bind. by rewrite Hdead.
  - intros s. unfold tracy_register, new_atomic, mbind, M_bind.
    change (is_null (Some p)) with false. cbv beta iota zeta. by rewrite Hdead.
  - intros s. unfold tracy_tracepoint_enabled, mbind, M_bind. by rewrite Hdead.
  - intros s d len now Hlen. unfold tracy_submit.
    change (is_null (Some p) || is_null (Some s) || is_null (Some d)) with false. cbv iota.
    rewrite (proj2 (Z.eqb_neq _ _)), (proj2 (Z.ltb_ge _ _)) by lia. cbn [orb].
    unfold mbind, M_bind. by rewrite Hdead.
  - done.
  - done.
  - unfold tracy_tracepoint_enabled, mbind, M_bind. by rewrite (deref_handle_live _ _ _ _ eq_refl Ht).
  - unfold tracy_register, new_atomic, mbind, M_bind. change (is_null (Some p)) with false. cbv beta iota zeta.
    set (a0 := with_app_heap _ a). by rewrite (deref_handle_live (Some p) p t a0 eq_refl Ht).
Qed.

(** C40: [tracy_submit_printf], for a connected client and an enabled
    tracepoint: an output of at most 255 bytes is submitted as it is, one of
    256 bytes with its last byte replaced by the terminator, one of more than
    2048 bytes not at all -- and for a length in between the submission reads
    past the end of the 256 byte buffer, because [vsnprintf] returns the
    length the output would have had. *)
Theorem tracy_submit_printf_spec p t a s fmt out junk now :
  handles a !! p = Some t -> flag a (client_connected t) = true -> is_ascii s = true ->
  enabled t a (to_lowercase (take 32 s)) = true -> out <> [] -> 256 <= zlen junk ->
  let submits d := Ret tt (sent_to t (Payload (mkElement (to_lowercase (take 32 s)) now d)) a) in
  tracy_submit_printf (Some p) (Some s) (Some fmt) (Some out) junk now a =
    if zlen out <=? 255 then submits out
    else if zlen out =? 256 then submits (take 255 out ++ [Byte.x00])
    else if zlen out <=? MAX_SUBMIT_LEN then Undef
    else Ret tt a.
Proof.
  intros Ht Hcc Ha Hen Hne Hj submits. unfold tracy_submit_printf.
  change (is_null (Some p) || is_null (Some s) || is_null (Some fmt)) with false. cbv iota.
  assert (0 < zlen out) as Hpos by (destruct out; [done|]; rewrite zlen_cons; pose proof (zlen_nonneg out); lia).
  set (buf := vsnprintf_buffer out junk).
  assert (length buf = 256)%nat as Hbuf.
  { unfold buf, vsnprintf_buffer. rewrite length_take, !length_app, length_take. cbn [length].
    change (Z.to_nat (TRACY_MAX_SBMTPRNT_LEN - 1)) with 255%nat.
    change (Z.to_nat TRACY_MAX_SBMTPRNT_LEN) with 256%nat. unfold zlen in Hj. lia. }
  assert (forall n, (n <= 255)%nat -> (n <= length out)%nat -> take n buf = take n out) as Htake.
  { intros n Hn Hno. unfold buf, vsnprintf_buffer. rewrite take_take.
    change (Z.to_nat TRACY_MAX_SBMTPRNT_LEN) with 256%nat. rewrite Nat.min_l by lia.
    rewrite take_app_le by (rewrite length_take; change (Z.to_nat (TRACY_MAX_SBMTPRNT_LEN - 1)) with 255%nat; lia).
    rewrite take_take. change (Z.to_nat (TRACY_MAX_SBMTPRNT_LEN - 1)) with 255%nat. by rewrite Nat.min_l by lia. }
  assert (forall len, 0 < len <= MAX_SUBMIT_LEN -> len <= zlen buf ->
    tracy_submit (Some p) (Some s) (Some buf) len now a = submits (take (Z.to_nat len) buf)) as Hsub.
  { intros len Hlen Hbl. rewrite (tracy_submit_run p t) by (done || lia).
    unfold submission. rewrite fix_lossy_eq, Ha, Hcc, Hen.
    rewrite (proj2 (Z.eqb_neq _ _)), (proj2 (Z.ltb_ge _ _)) by lia. done. }
  destruct (Z.leb_spec (zlen out) 255) as [Hle|Hgt].
  { rewrite Hsub by (unfold MAX_SUBMIT_LEN, zlen in *; lia).
    rewrite Htake by (unfold zlen in *; lia). by rewrite take_ge by (unfold zlen in *; lia). }
  destruct (Z.eqb_spec (zlen out) 256) as [Heq|Hne2].
  { rewrite Hsub by (unfold MAX_SUBMIT_LEN, zlen in *; lia). rewrite Heq, take_ge by (rewrite Hbuf; done).
    unfold buf, vsnprintf_buffer. change (Z.to_nat (TRACY_MAX_SBMTPRNT_LEN - 1)) with 255%nat.
    rewrite app_assoc. rewrite take_app_length'; [done|].
    rewrite length_app, length_take. unfold zlen in *. cbn [length].
    change (Z.to_nat TRACY_MAX_SBMTPRNT_LEN) with 256%nat. lia. }
  destruct (Z.leb_spec (zlen out) MAX_SUBMIT_LEN) as [Hle|Hbig].
  - unfold tracy_submit. change (is_null (Some p) || is_null (Some s) || is_null (Some buf)) with false. cbv iota.
    rewrite (proj2 (Z.eqb_neq _ _)), (proj2 (Z.ltb_ge _ _)) by lia. cbn [orb].
    unfold mbind, M_bind. rewrite (deref_handle_live _ _ _ _ eq_refl Ht). unfold load, gets. cbn [snd].
    change (default false (app_heap a !! client_connected t)) with (flag a (client_connected t)).
    rewrite Hcc. cbn [negb deref]. unfold mret, M_ret. rewrite fix_lossy_eq, Ha.
    rewrite tracepoint_enabled_eq, Hen. cbn [negb deref]. unfold mret, M_ret, from_raw_parts.
    rewrite (proj2 (Z.leb_gt _ _)); [done|]. unfold zlen in *. lia.
  - rewrite (tracy_submit_run p t) by (done || lia). unfold submission.
    rewrite (proj2 (Z.ltb_lt _ _)) by lia. by rewrite orb_true_r.
Qed.

(** C22: [tracy_init] returns null, and starts nothing, exactly when the host
    name or the process name is null or the flush interval is zero (the
    announce interval may be zero, unlike the header says).  Otherwise it
    returns a fresh handle without tracepoints, its [client_connected] flag
    lowered and its channel empty, and spawns one thread with the other ends of
    both, which announces iff an interval, an interface and a well-formed
    address were given; the thread finds its start condition satisfied. *)
Theorem tracy_init_spec {CL : ChannelLaws P} (host proc : c_str) flush interval (iface addr : c_str) flags a :
  0 <= flush -> 0 <= interval ->
  if bool_decide (host = None \/ proc = None \/ flush = 0)
  then tracy_init host proc flush interval iface addr flags a = Ret None a
  else exists p t cfg announce a',
    tracy_init host proc flush interval iface addr flags a = Ret (Some p) a' /\
    handles a !! p = None /\ handles a' = <[p := t]> (handles a) /\ tracepoints t = ∅ /\
    flag a' (client_connected t) = false /\ app_chans a' !! send_to_tracer_thread t = Some channel_new /\
    spawned a' = spawned a ++ [mkSpawn cfg (client_connected t) (send_to_tracer_thread t) announce] /\
    send_interval cfg = flush * 1000000 /\ Types.announce_interval cfg = interval * 1000000 /\
    (announce = true <-> 0 < interval /\ is_Some iface /\
       exists s x, addr = Some s /\ socket_addr_from_str (to_string_lossy s) = Some x) /\
    (forall w, heap w = app_heap a' -> chans w = app_chans a' ->
       start_ok cfg (client_connected t) (send_to_tracer_thread t) announce w).
Proof.
  intros Hf Hi. case_bool_decide as Hnull.
  - unfold tracy_init. destruct host as [h|], proc as [q|]; try done.
    change (is_null (Some h) || is_null (Some q)) with false. cbn [orb].
    destruct Hnull as [|[|Hz]]; [done..|]. by rewrite (proj2 (Z.eqb_eq _ _)).
  - destruct host as [h|]; [|tauto]. destruct proc as [q|]; [|tauto].
    assert (flush <> 0) as Hz by tauto. clear Hnull.
    by apply tracy_init_run.
Qed.
End properties.

(** * Instances *)

Definition example_handle : TracerNg := mkTracerNg 0 0 example_tracepoints.

(** A connected client that has enabled "cpu". *)
Definition example_app : App :=
  @mkApp reference {[ 7%nat := example_handle ]} {[ 0%nat := true; 1%nat := true; 2%nat := false ]}
    {[ 0%nat := channel_new ]} [].

Lemma tracy_submit_spec_witness :
  let data := lit "load 0.7" in
  let e := mkElement (lit "cpu") 5 (lit "load") in
  tracy_submit (Some 7%nat) (Some (lit "CPU")) (Some data) 4 5 example_app =
    Ret tt (sent_to example_handle (Payload e) example_app) /\ fits e.
Proof.
  intros data e. apply (proj1 (tracy_submit_spec 7 example_handle example_app (lit "CPU") data 4 5 eq_refl
    ltac:(lia) ltac:(vm_compute; discriminate))).
Defined.

Lemma tracy_register_spec_witness :
  tracy_register (Some 7%nat) (Some (lit "Cpu")) example_app =
    Ret (-1) (with_app_heap (<[fresh (dom (app_heap example_app)) := false]> (app_heap example_app)) example_app).
Proof. apply (tracy_register_spec 7 example_handle example_app (lit "Cpu")). reflexivity. Defined.

(** "CPU" is enabled as far as [tracy_submit] is concerned. *)
Lemma tracepoint_enabled_raw_witness :
  tracy_tracepoint_enabled (Some 7%nat) (Some (lit "CPU")) example_app = Ret false example_app.
Proof.
  apply (tracepoint_enabled_raw 7 example_handle example_app (lit "CPU")); [reflexivity| |].
  - intros n l Hl. eapply (example_cells (idle_world [])); [reflexivity|reflexivity|by eexists|by eexists|exact Hl].
  - intros (_ & _ & H). vm_compute in H. discriminate.
Defined.

Lemma tracy_finit_spec_witness :
  exists a', tracy_finit (Some 7%nat) example_app = Ret tt a' /\
    a' = with_handles (delete 7%nat (handles example_app)) (sent_to example_handle MsgTerminate example_app) /\
    (tracy_finit (Some 7%nat) a' = Undef /\
     (forall s, tracy_register (Some 7%nat) s a' = Undef) /\
     (forall s, tracy_tracepoint_enabled (Some 7%nat) s a' = Undef) /\
     (forall s d len now, 0 < len <= MAX_SUBMIT_LEN ->
        tracy_submit (Some 7%nat) (Some s) (Some d) len now a' = Undef)) /\
    (tracy_finit None example_app = Undef /\ tracy_tracepoint_enabled None (Some []) example_app = Undef /\
     tracy_tracepoint_enabled (Some 7%nat) None example_app = Undef /\
     tracy_register (Some 7%nat) None example_app = Undef).
Proof. apply tracy_finit_spec. reflexivity. Defined.

(** 300 bytes of output. *)
Lemma tracy_submit_printf_spec_witness :
  tracy_submit_printf (Some 7%nat) (Some (lit "cpu")) (Some (lit "%s"))
    (Some (replicate 300 Byte.x61)) (replicate 256 Byte.x00) 0 example_app = Undef.
Proof.
  apply (tracy_submit_printf_spec 7 example_handle example_app (lit "cpu") (lit "%s") (replicate 300 Byte.x61)
    (replicate 256 Byte.x00) 0); try reflexivity. discriminate.
Defined.

Lemma tracy_init_spec_witness :
  exists p t cfg announce a',
    tracy_init (Some (lit "radio")) (Some (lit "app")) 500 10000 None (Some (lit "225.0.0.1:64042")) 0 example_app =
      Ret (Some p) a' /\
    handles example_app !! p = None /\ handles a' = <[p := t]> (handles example_app) /\ tracepoints t = ∅ /\
    flag a' (client_connected t) = false /\ app_chans a' !! send_to_tracer_thread t = Some channel_new /\
    spawned a' = [] ++ [mkSpawn cfg (client_connected t) (send_to_tracer_thread t) announce] /\
    send_interval cfg = 500 * 1000000 /\ Types.announce_interval cfg = 10000 * 1000000 /\
    (announce = true <-> 0 < 10000 /\ is_Some (@None (list u8)) /\
       exists s x, Some (lit "225.0.0.1:64042") = Some s /\ socket_addr_from_str (to_string_lossy s) = Some x) /\
    (forall w, heap w = app_heap a' -> chans w = app_chans a' ->
       start_ok cfg (client_connected t) (send_to_tracer_thread t) announce w).
Proof.
  apply (tracy_init_spec (Some (lit "radio")) (Some (lit "app")) 500 10000 None (Some (lit "225.0.0.1:64042")) 0
    example_app); lia.
Defined.
