(* ===== verification/System.v ===== *)
(** The application and the tracer thread together: a step relation that
    interleaves the calls of the application, the single steps of the thread
    and the network; the invariant that ties the two sides to each other; and
    an executable scheduler. *)

From S2P Require Import Prelude Monad Platform Types Worlds Strings Context Io Wire Tcp Beacon App Handlers Invariant Control Flush Receive Thread AppSpec.

Inductive status := Running | Stopped | Panicked.

Section System_defs.
Context `{P : Platform}.

(** A call of [tracy_submit] that is under way in a thread of the application: it
    has seen a client, or it has seen its tracepoint enabled and made the
    element to send. *)
Inductive submit_progress :=
| Entered (name data : list u8) (len : Z)
| Passed (e : BufferElement).

(** One tracer with its handle [p]: the application and the calls under way, the
    tracer thread and where it is. Flags and channels are shared: both sides
    hold the same. *)
Record System := mkSystem {
  app : App;
  thread : World;
  pc : control;
  submits : list submit_progress;
  stat : status;
}.

(** The submissions past their checks. *)
Definition pending (l : list submit_progress) : list BufferElement :=
  omap (fun c => match c with Passed e => Some e | Entered _ _ _ => None end) l.

Definition thread_sees (a : App) (w : World) : World :=
  with_chans (app_chans a) (with_heap (app_heap a) w).
Definition app_sees (w : World) (a : App) : App :=
  with_app_chans (chans w) (with_app_heap (heap w) a).

(** The thread ends: its receiver is dropped. *)
Definition hang_up (w : World) : World :=
  match chans w !! rec (ctx w) with
  | Some q => with_chans (<[rec (ctx w) := channel_close q]> (chans w)) w
  | None => w
  end.

(** The system after a step of the thread. *)
Definition moved (a : App) (l : list submit_progress) (k : control) (w : World) : System :=
  match k with
  | Ended => mkSystem (app_sees (hang_up w) a) (hang_up w) Ended l Stopped
  | _ => mkSystem (app_sees w a) w k l Running
  end.
Definition crashed (a : App) (l : list submit_progress) (w : World) : System :=
  mkSystem (app_sees (hang_up w) a) (hang_up w) Ended l Panicked.

(** What the network and the clock may do: sockets receive bytes and change
    their readiness, connections queue up, calls start to fail, timeouts
    expire. *)
Definition environment (w w' : World) : Prop :=
  (exists t, ctx w' = with_ctx_timer t (ctx w) /\
     timer_armed t ≡ₚ timer_armed (ctx_timer (ctx w))) /\
  heap w' = heap w /\ chans w' = chans w /\
  (forall sid, is_Some (socks w !! sid) -> is_Some (socks w' !! sid)).

(** The three parts of [tracy_submit] between which other threads may run: from
    its entry to the load of [client_connected], to the load of the flag of the
    tracepoint, to the send. *)
Definition submit_enter (t : TracerNg) (a : App) (len : Z) : bool :=
  negb ((len =? 0) || (MAX_SUBMIT_LEN <? len)) && flag a (client_connected t).
Definition submit_check (t : TracerNg) (a : App) (s data : list u8) (len : Z) (now : SystemTime) :
    option BufferElement :=
  match fix_tracepoint_str (to_string_lossy s) with
  | Err _ => None
  | Ok n => if enabled t a n then Some (mkElement n now (take (Z.to_nat len) data)) else None
  end.

(** The environment may be restricted to some of this, depending on where the
    thread is. *)
Inductive step_in (E : control -> World -> World -> Prop) (p : nat) : System -> System -> Prop :=
| step_register a w k l st name r a' :
    tracy_register (Some p) (Some name) a = Ret r a' ->
    step_in E p (mkSystem a w k l st) (mkSystem a' (thread_sees a' w) k l st)
| step_submit_enter a w k l st t name data len :
    handles a !! p = Some t -> 0 <= len -> submit_enter t a len = true ->
    step_in E p (mkSystem a w k l st) (mkSystem a w k (l ++ [Entered name data len]) st)
| step_submit_check a w k l1 name data len l2 st t now e :
    handles a !! p = Some t -> submit_check t a name data len now = Some e ->
    step_in E p (mkSystem a w k (l1 ++ Entered name data len :: l2) st) (mkSystem a w k (l1 ++ Passed e :: l2) st)
| step_submit_refuse a w k l1 name data len l2 st t now :
    handles a !! p = Some t -> submit_check t a name data len now = None ->
    step_in E p (mkSystem a w k (l1 ++ Entered name data len :: l2) st) (mkSystem a w k (l1 ++ l2) st)
| step_submit_send a w k l1 e l2 st t a' :
    handles a !! p = Some t -> send_to_tracer t (Payload e) a = Ret tt a' ->
    step_in E p (mkSystem a w k (l1 ++ Passed e :: l2) st) (mkSystem a' (thread_sees a' w) k (l1 ++ l2) st)
| step_finit a w k l st a' :
    tracy_finit (Some p) a = Ret tt a' ->
    step_in E p (mkSystem a w k l st) (mkSystem a' (thread_sees a' w) k l st)
| step_dispatch a w l token k w' :
    dispatch token w = Ret k w' -> step_in E p (mkSystem a w Idle l Running) (moved a l k w')
| step_dispatch_panic a w l token w' :
    dispatch token w = Panic w' -> step_in E p (mkSystem a w Idle l Running) (crashed a l w')
| step_advance a w k l k' w' :
    active k -> advance k w = Ret k' w' -> step_in E p (mkSystem a w k l Running) (moved a l k' w')
| step_advance_panic a w k l w' :
    active k -> advance k w = Panic w' -> step_in E p (mkSystem a w k l Running) (crashed a l w')
| step_environment a w k l st w' :
    E k w w' -> step_in E p (mkSystem a w k l st) (mkSystem a w' k l st).

Definition step : nat -> System -> System -> Prop := step_in (fun _ => environment).

(** A system just started: [tracy_init] has returned [p], the thread is set
    up. *)
Definition started (p : nat) (s : System) : Prop :=
  exists host proc flush interval iface addr flags a cfg cc q announce w a0 w0,
    0 < flush /\ 0 <= interval /\
    tracy_init (Some host) (Some proc) flush interval iface addr flags a0 = Ret (Some p) a /\
    spawned a = spawned a0 ++ [mkSpawn cfg cc q announce] /\
    heap w0 = app_heap a /\ chans w0 = app_chans a /\
    tracer_thread_setup cfg cc q announce w0 = Ret tt w /\
    s = mkSystem a w Idle [] Running.

(** A submission of a legal length; an element that fits a message. *)
Definition progress_fits (c : submit_progress) : Prop :=
  match c with Entered _ _ len => 0 < len <= MAX_SUBMIT_LEN | Passed e => fits e end.

(** The invariant of the whole. *)
Record SysInv (p : nat) (s : System) : Prop := {
  si_heap : app_heap (app s) = heap (thread s);
  si_chans : app_chans (app s) = chans (thread s);
  si_submits : Forall progress_fits (submits s);
  si_names : forall t, handles (app s) !! p = Some t ->
    map_Forall (fun n _ => normal_name n) (tracepoints t);
  si_control : stat s = Running -> control_ok (pc s) (thread s);
  si_running : stat s = Running ->
    Inv (thread s) /\ chan_open (thread s) = true /\
    forall t, handles (app s) !! p = Some t ->
      send_to_tracer_thread t = rec (ctx (thread s)) /\
      client_connected t = ctx_client_connected (ctx (thread s)) /\
      known (thread s) = tracepoints t;
}.
End System_defs.

Section invariant.
Context {P : Platform} {TL : TimerLaws P} {HL : HashLaws P} {CL : ChannelLaws P}.

(** ** Steps of the application, as the thread sees them *)

Lemma alloc_inv l b w :
  heap w !! l = None -> Inv w ->
  let w' := with_heap (<[l := b]> (heap w)) w in Inv w' /\ keeps w w' /\ tp_cell w' l.
Proof.
  intros Hl Hw w'. assert (l <> ctx_client_connected (ctx w)) as Hne.
  { intros ->. pose proof (inv_connected _ Hw) as H. by rewrite Hl in H. }
  pose proof Hw as []. split; [|split; [by apply keeps_eq|]].
  - apply (Inv_update w); simpl; try done.
    + by rewrite lookup_insert_ne.
    + intros k Hk. rewrite lookup_insert. case_decide; [by eexists|done].
  - split; simpl; [rewrite lookup_insert_eq; by eexists|done].
Qed.

Lemma registered_app m ms ms' : registered m (ms ++ ms') = registered (registered m ms) ms'.
Proof. unfold registered. apply foldl_app. Qed.

Lemma send_inv m w q :
  chans w !! rec (ctx w) = Some q -> chan_open w = true -> msg_ok w m -> Inv w ->
  let w' := with_chans (<[rec (ctx w) := (channel_send q m).1]> (chans w)) w in
  Inv w' /\ chan_open w' = true /\ known w' = registered (known w) [m].
Proof.
  intros Hq Ho Hm Hw w'. unfold chan_open in Ho. rewrite Hq in Ho.
  destruct (send_open _ q m Ho) as (_ & Ho' & Hc).
  assert (queued w' = queued w ++ [m]) as Hqueue.
  { unfold queued, w'. simpl. by rewrite lookup_insert_eq, Hq. }
  split; [|split].
  - pose proof Hw as []. split; try done. rewrite Hqueue. apply Forall_app. split; [done|].
    by constructor.
  - unfold chan_open, w'. simpl. by rewrite lookup_insert_eq.
  - unfold known. by rewrite Hqueue, registered_app.
Qed.

(** Sending to a thread that runs. *)
Lemma sent_to_inv t m a w :
  app_heap a = heap w -> app_chans a = chans w -> send_to_tracer_thread t = rec (ctx w) ->
  chan_open w = true -> msg_ok w m -> Inv w ->
  let w' := thread_sees (sent_to t m a) w in
  Inv w' /\ chan_open w' = true /\ known w' = registered (known w) [m].
Proof.
  intros Hh Hc Ht Ho Hm Hw. unfold sent_to. rewrite Ht, Hc.
  destruct (chans w !! rec (ctx w)) as [q|] eqn:Hq.
  - unfold thread_sees. simpl. rewrite Hh.
    replace (with_heap (heap w) w) with w by by destruct w. by apply send_inv.
  - unfold chan_open in Ho. by rewrite Hq in Ho.
Qed.

Lemma sent_to_same t m a w :
  app_heap (sent_to t m a) = heap (thread_sees (sent_to t m a) w) /\
  app_chans (sent_to t m a) = chans (thread_sees (sent_to t m a) w) /\
  handles (sent_to t m a) = handles a.
Proof. unfold sent_to. by case_match. Qed.

Lemma hang_up_ctx w : ctx (hang_up w) = ctx w.
Proof. unfold hang_up. by case_match. Qed.

Lemma thread_sees_id a w : app_heap a = heap w -> app_chans a = chans w -> thread_sees a w = w.
Proof. unfold thread_sees. intros -> ->. by destruct w. Qed.

(** ** Every step keeps the invariant *)

Lemma inv_message p a w k0 l st t m :
  SysInv p (mkSystem a w k0 l st) -> handles a !! p = Some t ->
  (forall t', m <> NewTracepoint t') -> (forall w0, msg_ok w0 m) ->
  forall a', a' = sent_to t m a \/ a' = with_handles (delete p (handles a)) (sent_to t m a) ->
  SysInv p (mkSystem a' (thread_sees a' w) k0 l st).
Proof.
  intros [Hh Hc Hp Hn Hctl Hrun] Ht Hm Hmok a' Ha'. simpl in *.
  destruct (sent_to_same t m a w) as (Hh1 & Hc1 & Hl1).
  assert (thread_sees a' w = thread_sees (sent_to t m a) w) as Hw' by by destruct Ha' as [-> | ->].
  assert (forall t', handles a' !! p = Some t' -> handles a !! p = Some t') as Hlive.
  { destruct Ha' as [-> | ->]; [by rewrite Hl1|]. simpl. intros t' H. by rewrite lookup_delete_eq in H. }
  split; simpl.
  - done.
  - done.
  - done.
  - intros t' H. by apply Hn, Hlive.
  - exact Hctl.
  - intros Hst. destruct (Hrun Hst) as (Hinv & Ho & Hlinks). destruct (Hlinks _ Ht) as (Hrec & _).
    destruct (sent_to_inv t m a w Hh Hc Hrec Ho (Hmok w) Hinv) as (Hinv' & Ho' & Hk).
    rewrite Hw'. split; [done|]. split; [done|]. intros t' H. destruct (Hlinks t' (Hlive _ H)) as (? & ? & Hk').
    split; [done|]. split; [done|]. rewrite Hk, <-Hk'. destruct m; [done| |done]. by destruct (Hm t0).
Qed.

(** Calls that return were made with a live handle. *)
Lemma register_live p name a r a' :
  tracy_register (Some p) (Some name) a = Ret r a' -> is_Some (handles a !! p).
Proof.
  destruct (handles a !! p) as [t|] eqn:Ht; [by eexists|]. unfold tracy_register, new_atomic, mbind, M_bind.
  change (is_null (Some p)) with false. cbv beta iota zeta. by rewrite deref_handle_dead.
Qed.

Lemma finit_live p a a' :
  tracy_finit (Some p) a = Ret tt a' ->
  exists t, handles a !! p = Some t /\ a' = with_handles (delete p (handles a)) (sent_to t MsgTerminate a).
Proof.
  unfold tracy_finit, mbind, M_bind. destruct (handles a !! p) as [t|] eqn:Ht; [|by rewrite deref_handle_dead].
  rewrite (deref_handle_live _ _ _ _ eq_refl Ht), send_to_tracer_eq. intros [= <-]. exists t. split; [done|].
  unfold sent_to. by case_match.
Qed.

Lemma inv_register p a w k0 l st name r a' :
  SysInv p (mkSystem a w k0 l st) -> tracy_register (Some p) (Some name) a = Ret r a' ->
  SysInv p (mkSystem a' (thread_sees a' w) k0 l st).
Proof.
  intros [Hh Hc Hp Hn Hctl Hrun] Hreg. simpl in *.
  destruct (register_live p name a r a' Hreg) as [t Ht].
  rewrite (tracy_register_run p t a name Ht) in Hreg. cbv zeta in Hreg.
  set (k := fresh (dom (app_heap a))) in *. set (a0 := with_app_heap _ a) in *.
  set (n := to_lowercase (take 32 name)) in *.
  assert (heap w !! k = None) as Hk by (rewrite <-Hh; apply not_elem_of_dom, is_fresh).
  assert (thread_sees a0 w = with_heap (<[k := false]> (heap w)) w) as Hw0.
  { unfold thread_sees, a0. simpl. rewrite Hh, Hc. by destruct w. }
  set (w0 := with_heap _ w) in Hw0.
  destruct (is_ascii name && bool_decide (tracepoints t !! n = None)) eqn:Hcase; injection Hreg as _ <-.
  - apply andb_prop in Hcase as [Ha Hnone%bool_decide_eq_true].
    set (t' := mkTracerNg _ _ _). set (a1 := with_handles _ a0).
    assert (normal_name n) as Hnn.
    { apply (fix_tracepoint_str_normal (to_string_lossy name)). by rewrite fix_lossy_eq, Ha. }
    destruct (sent_to_same t' (NewTracepoint (mkTracepoint n k)) a1 w0) as (_ & _ & Hl1).
    assert (forall x, handles a1 !! p = Some x -> x = t') as Hx.
    { intros x. simpl. rewrite lookup_insert_eq. congruence. }
    split; simpl; try done.
    + intros x Hx1. rewrite Hl1 in Hx1. rewrite (Hx _ Hx1). simpl. apply map_Forall_insert_2; [done|].
      by apply (Hn t).
    + intros Hst. destruct (Hrun Hst) as (Hinv & Ho & Hlinks). destruct (Hlinks _ Ht) as (Hrec & Hcc & Hkn).
      destruct (alloc_inv k false w Hk Hinv) as (Hinv0 & Hkeep & Hcell). fold w0 in Hinv0, Hkeep, Hcell.
      assert (app_heap a1 = heap w0 /\ app_chans a1 = chans w0) as [Hh0 Hc0].
      { unfold w0, a1. simpl. by rewrite Hh, Hc. }
      destruct (sent_to_inv t' (NewTracepoint (mkTracepoint n k)) a1 w0 Hh0 Hc0) as (Hinv1 & Ho1 & Hk1);
        try done.
      assert (thread_sees (sent_to t' (NewTracepoint (mkTracepoint n k)) a1) w =
              thread_sees (sent_to t' (NewTracepoint (mkTracepoint n k)) a1) w0) as -> by done.
      split; [done|]. split; [done|]. intros x Hx1. rewrite Hl1 in Hx1. rewrite (Hx _ Hx1).
      split; [done|]. split; [done|]. rewrite Hk1, (kp_known _ _ Hkeep), Hkn. done.
  - split; simpl; try done.
    intros Hst. destruct (Hrun Hst) as (Hinv & Ho & Hlinks). rewrite Hw0.
    destruct (alloc_inv k false w Hk Hinv) as (Hinv0 & Hkeep & _). fold w0 in Hinv0, Hkeep.
    split; [done|]. split; [by rewrite (kp_open _ _ Hkeep)|]. intros x Hx1.
    rewrite (kp_known _ _ Hkeep). by apply Hlinks.
Qed.

Lemma inv_thread_ended p a w k l st :
  st <> Running -> Forall progress_fits l ->
  (forall t, handles a !! p = Some t -> map_Forall (fun n _ => normal_name n) (tracepoints t)) ->
  SysInv p (mkSystem (app_sees w a) w k l st).
Proof. intros Hst Hl Hn. by split. Qed.

(** A step of the thread. *)
Lemma inv_moved p a w k l k' w' :
  SysInv p (mkSystem a w k l Running) -> Inv w' -> keeps w w' -> control_ok k' w' ->
  SysInv p (moved a l k' w').
Proof.
  intros [Hh Hc Hp Hn _ Hrun] Hinv' [] Hk'. simpl in *. destruct (Hrun eq_refl) as (_ & Ho & Hlinks).
  assert (SysInv p (mkSystem (app_sees w' a) w' k' l Running)) as Hon.
  { split; simpl; try done. intros _. split; [done|]. split; [by rewrite kp_open|].
    intros t Ht. destruct (Hlinks t Ht) as (? & ? & ?). split_and!; congruence. }
  by destruct k'.
Qed.

Lemma environment_keeps w w' : environment w w' -> keeps w w'.
Proof.
  intros ((t & Hctx & _) & _ & Hc' & _).
  split; rewrite ?Hctx; try done; unfold known, queued, chan_open; by rewrite Hctx, Hc'.
Qed.

Lemma inv_environment p a w k l st w' :
  SysInv p (mkSystem a w k l st) -> environment w w' -> SysInv p (mkSystem a w' k l st).
Proof.
  intros [Hh Hc Hp Hn Hctl Hrun] Henv. destruct (environment_keeps _ _ Henv) as [].
  destruct Henv as ((t & Hctx & Harm) & Hh' & Hc' & Hso). simpl in *.
  split; simpl; [congruence|congruence|done|done| |].
  { intros Hst. specialize (Hctl Hst). destruct k; try done. simpl in *. eauto. }
  intros Hst. destruct (Hrun Hst) as (Hinv & Ho & Hlinks).
  split; [|split; [by rewrite kp_open|]].
  - destruct Hinv. split; rewrite ?Hctx, ?Hh'; simpl; try done.
    + destruct inv_timer as [? ?]. split; simpl; by rewrite Harm.
    + eauto.
    + intros name k' Hk. destruct (inv_cells _ _ Hk) as [? []]. split; [done|].
      split; by rewrite ?Hh', ?Hctx.
    + assert (queued w' = queued w) as -> by (unfold queued; by rewrite Hctx, Hc').
      eapply Forall_impl; [done|]. intros m. apply msg_ok_mono; [by rewrite Hh'|by rewrite Hctx].
  - intros t0 Ht0. destruct (Hlinks t0 Ht0) as (? & ? & ?). split_and!; congruence.
Qed.

(** The calls under way change. *)
Lemma inv_submits p a w k l l' st :
  SysInv p (mkSystem a w k l st) -> (Forall progress_fits l -> Forall progress_fits l') ->
  SysInv p (mkSystem a w k l' st).
Proof. intros [] H. split; try done. by apply H. Qed.

Lemma submit_check_fits t a s data len now e :
  submit_check t a s data len now = Some e -> 0 < len <= MAX_SUBMIT_LEN -> fits e.
Proof.
  intros He Hlen. unfold submit_check in He. destruct (fix_tracepoint_str _) as [n|] eqn:Hfix; [|done].
  destruct (enabled _ _ _); [|done]. injection He as <-.
  destruct (fix_tracepoint_str_normal _ _ Hfix) as (_ & Hn & _).
  unfold fits, BufferElement_len. simpl. rewrite zlen_take by lia.
  unfold MAX_SUBMIT_LEN, MAX_TRACEPOINT_NAME_LEN, TIMESTAMP_LEN, HEADER_LEN, QUEUE_TOTAL_SIZE in *. lia.
Qed.

Lemma submit_enter_len t a len : 0 <= len -> submit_enter t a len = true -> 0 < len <= MAX_SUBMIT_LEN.
Proof.
  intros Hlen [Hl _]%andb_prop. apply negb_true_iff, orb_false_elim in Hl as [H0%Z.eqb_neq Hl%Z.ltb_ge]. lia.
Qed.

Lemma step_invariant p s s' : SysInv p s -> step p s s' -> SysInv p s'.
Proof.
  intros HI Hstep.
  destruct Hstep as [a w k l st name r a' H|a w k l st t name data len Ht Hlen H
    |a w k l1 name data len l2 st t now e Ht H|a w k l1 name data len l2 st t now Ht H|a w k l1 e l2 st t a' Ht H
    |a w k l st a' H|a w l token k w' H|a w l token w' H|a w k l k' w' Hk H|a w k l w' Hk H|a w k l st w' H].
  - by eapply inv_register.
  - eapply inv_submits; [done|]. intros Hl. apply Forall_app. split; [done|]. apply Forall_singleton.
    by apply (submit_enter_len t a).
  - eapply inv_submits; [done|]. rewrite !Forall_app, !Forall_cons. intros (? & Hlen & ?). split_and!; try done.
    by eapply submit_check_fits.
  - eapply inv_submits; [done|]. rewrite !Forall_app, Forall_cons. tauto.
  - rewrite send_to_tracer_eq in H. injection H as <-.
    assert (fits e) as He.
    { pose proof (si_submits _ _ HI) as Hl. simpl in Hl. by apply Forall_app in Hl as [_ [? _]%Forall_cons]. }
    assert (SysInv p (mkSystem a w k (l1 ++ l2) st)) as HI'.
    { eapply inv_submits; [done|]. rewrite !Forall_app, Forall_cons. tauto. }
    eapply (inv_message p a w k (l1 ++ l2) st t (Payload e)); [done|done|done|done|by left].
  - destruct (finit_live p a a' H) as (t & Ht & ->).
    eapply (inv_message p a w k l st t MsgTerminate); [done|done|done|done|by right].
  - destruct (si_running _ _ HI eq_refl) as (Hinv & _).
    destruct (wp_inv _ _ _ _ _ _ (dispatch_safe token w Hinv) H) as (? & ? & ? & _). by eapply inv_moved.
  - apply inv_thread_ended; [done|apply HI|apply HI].
  - destruct (si_running _ _ HI eq_refl) as (Hinv & _).
    destruct (wp_inv _ _ _ _ _ _ (advance_safe k w Hinv (si_control _ _ HI eq_refl)) H) as (? & ? & ?). by eapply inv_moved.
  - apply inv_thread_ended; [done|apply HI|apply HI].
  - by eapply inv_environment.
Qed.

Lemma reachable_invariant p s s' : SysInv p s -> rtc (step p) s s' -> SysInv p s'.
Proof. intros HI. induction 1 as [|s1 s2 s3 Hstep _ IH]; [done|]. by eapply IH, step_invariant. Qed.

Lemma started_invariant p s : started p s -> SysInv p s.
Proof.
  intros (host & proc & flush & interval & iface & addr & flags & a & cfg & cc & q & announce & w & a0 & w0 &
    Hf & Hi & Hinit & Hspawn & Hh & Hc & Hsetup & ->).
  destruct (tracy_init_run host proc flush interval iface addr flags a0) as
    (p' & t & cfg' & announce' & a' & Hrun & _ & Hhandles & Htp & _ & Hchan & Hspawn' & _ & _ & _ & Hok); [lia|lia|lia|].
  rewrite Hrun in Hinit. injection Hinit as -> ->.
  rewrite Hspawn in Hspawn'. apply app_inv_head in Hspawn'. injection Hspawn' as <- -> -> <-.
  destruct (wp_inv _ _ _ _ _ _ (tracer_thread_setup_inv _ _ _ _ w0 (Hok w0 Hh Hc)) Hsetup)
    as (Hinv & Hh' & Hc' & Hrec & Hcc & Hctp & _).
  assert (forall x, handles a !! p = Some x -> x = t) as Hx.
  { intros x. rewrite Hhandles, lookup_insert_eq. congruence. }
  split; simpl; try congruence; [done| |done|].
  - intros x ->%Hx. by rewrite Htp.
  - intros _. split; [done|]. split.
    + unfold chan_open. rewrite Hrec, Hc', Hc, Hchan. apply open_new.
    + intros x ->%Hx. split_and!; try done. unfold known, queued. rewrite Hrec, Hc', Hc, Hchan, contents_new, Htp.
      done.
Qed.
End invariant.

(** * Properties *)

Section properties.
Context {P : Platform} {TL : TimerLaws P} {HL : HashLaws P} {CL : ChannelLaws P}.

(** C3: Whatever the application, the network and the clock do, in whatever
    order -- calls interleaved with the single messages, timeouts and requests
    an event consists of: the invariant of the whole system holds at every
    moment, so as long as the thread runs, neither its next step nor a whole
    event makes it hang or touch invalid memory, and no element that could not
    be sent is ever on its way to it. *)
Theorem system_safe p s s' :
  started p s -> rtc (step p) s s' ->
  SysInv p s' /\
  (stat s' = Running ->
     (advance (pc s') (thread s') <> Hang /\ advance (pc s') (thread s') <> Undef) /\
     forall token,
       event_handler [token] (thread s') <> Hang /\ event_handler [token] (thread s') <> Undef).
Proof.
  intros Hs Hsteps. pose proof (reachable_invariant _ _ _ (started_invariant _ _ Hs) Hsteps) as HI.
  split; [done|]. intros Hrun. destruct (si_running _ _ HI Hrun) as [Hinv _]. split.
  - pose proof (advance_safe _ _ Hinv (si_control _ _ HI Hrun)) as H. unfold wp in H.
    by destruct (advance _ (thread s')).
  - intros token. pose proof (event_handler_safe [token] _ Hinv) as H. unfold wp in H.
    by destruct (event_handler [token] (thread s')).
Qed.

(** C14: The two registries agree: at every moment the tracepoints registered by
    the application are those the thread has entered plus those whose
    registration is still in the channel; once the channel is empty the thread
    knows -- and a client can enable -- exactly the registered ones, each with
    the same flag. *)
Theorem registries_agree p s s' t :
  started p s -> rtc (step p) s s' -> stat s' = Running -> handles (app s') !! p = Some t ->
  registered (ctx_tracepoints (ctx (thread s'))) (queued (thread s')) = tracepoints t /\
  (queued (thread s') = [] -> ctx_tracepoints (ctx (thread s')) = tracepoints t).
Proof.
  intros Hs Hsteps Hrun Ht. pose proof (reachable_invariant _ _ _ (started_invariant _ _ Hs) Hsteps) as HI.
  destruct (si_running _ _ HI Hrun) as (_ & _ & Hlinks). destruct (Hlinks t Ht) as (_ & _ & Hk).
  split; [done|]. intros Hq. unfold known in Hk. by rewrite Hq in Hk.
Qed.

(** C17: While no client is connected the application's data is not copied: in
    every reachable state in which the running thread has no connection,
    [tracy_submit] returns without effect. *)
Theorem no_client_no_data p s s' t name data len now :
  started p s -> rtc (step p) s s' -> stat s' = Running -> handles (app s') !! p = Some t ->
  connection (ctx (thread s')) = None -> 0 <= len -> (len <= MAX_SUBMIT_LEN -> len <= zlen data) ->
  tracy_submit (Some p) (Some name) (Some data) len now (app s') = Ret tt (app s').
Proof.
  intros Hs Hsteps Hrun Ht Hc Hlen Hdata.
  pose proof (reachable_invariant _ _ _ (started_invariant _ _ Hs) Hsteps) as HI.
  destruct (si_running _ _ HI Hrun) as (Hinv & _ & Hlinks). destruct (Hlinks t Ht) as (_ & Hcc & _).
  rewrite (tracy_submit_run p t) by done.
  assert (flag (app s') (client_connected t) = false) as Hflag.
  { unfold flag. rewrite Hcc, (si_heap _ _ HI), (inv_connected _ Hinv), Hc. done. }
  unfold submission. rewrite Hflag. by destruct (_ || _).
Qed.
End properties.

(** * Whole calls and events *)

Section Events.
Context {P : Platform}.

Lemma moved_again a l k w w' : moved (app_sees w' a) l k w = moved a l k w.
Proof. by destruct k. Qed.

Lemma crashed_again a l w w' : crashed (app_sees w' a) l w = crashed a l w.
Proof. done. Qed.

Lemma active_moved a l k w : active k -> moved a l k w = mkSystem (app_sees w a) w k l Running.
Proof. by destruct k. Qed.

(** The parts of [tracy_submit] make up the whole. *)
Lemma submission_stages t a s data len now :
  submission t a s data len now = if submit_enter t a len then submit_check t a s data len now else None.
Proof. unfold submission, submit_enter, submit_check. by destruct (_ || _), (flag _ _). Qed.

(** A call of [tracy_submit] without interruption. *)
Lemma submit_steps E p a w k l st t name data len now a' :
  app_heap a = heap w -> app_chans a = chans w -> handles a !! p = Some t ->
  0 <= len -> (len <= MAX_SUBMIT_LEN -> len <= zlen data) ->
  tracy_submit (Some p) (Some name) (Some data) len now a = Ret tt a' ->
  rtc (step_in E p) (mkSystem a w k l st) (mkSystem a' (thread_sees a' w) k l st).
Proof.
  intros Hh Hc Ht Hlen Hdata. rewrite (tracy_submit_run p t), submission_stages by done.
  assert (rtc (step_in E p) (mkSystem a w k l st) (mkSystem a (thread_sees a w) k l st)) as Hnone.
  { by rewrite thread_sees_id. }
  destruct (submit_enter t a len) eqn:He; [|by intros [= <-]].
  assert (step_in E p (mkSystem a w k l st) (mkSystem a w k (l ++ [Entered name data len]) st)) as Henter.
  { by apply (step_submit_enter E p a w k l st t). }
  destruct (submit_check t a name data len now) as [e|] eqn:Hcheck; intros [= <-].
  - eapply rtc_l; [exact Henter|]. eapply rtc_l; [by apply (step_submit_check E p a w k l name data len [] st t now)|].
    apply rtc_once. pose proof (step_submit_send E p a w k l e [] st t (sent_to t (Payload e) a) Ht) as H.
    rewrite app_nil_r in H. apply H, send_to_tracer_eq.
  - rewrite thread_sees_id by done. eapply rtc_l; [exact Henter|]. apply rtc_once.
    pose proof (step_submit_refuse E p a w k l name data len [] st t now Ht Hcheck) as H. by rewrite app_nil_r in H.
Qed.

(** The thread left to itself is a run of the system. *)
Lemma advances_steps E p a l k w k' w' :
  rtc advances (k, w) (k', w') -> rtc (step_in E p) (moved a l k w) (moved a l k' w').
Proof.
  intros Hrun. remember (k, w) as x eqn:Hx. remember (k', w') as y eqn:Hy. revert k w Hx.
  induction Hrun as [x|x x1 y [Hact Hadv] _ IH]; intros k w ->; [by simplify_eq|].
  destruct x1 as [k1 w1]. simpl in *. eapply rtc_l; [|by apply IH].
  rewrite (active_moved a l k w Hact), <-(moved_again a l k1 w1 w). by apply step_advance.
Qed.

(** An event handled to its end without interruption. *)
Lemma event_steps E p a w l token :
  match event_handler [token] w with
  | Ret r w' => rtc (step_in E p) (mkSystem a w Idle l Running) (moved a l (settled r) w')
  | Panic w' => rtc (step_in E p) (mkSystem a w Idle l Running) (crashed a l w')
  | _ => True
  end.
Proof.
  pose proof (event_advances token w) as H. destruct (event_handler [token] w) as [r w'|w'| |]; try done.
  - destruct H as (k & w1 & Hd & Hrun). eapply rtc_l; [by eapply step_dispatch|by apply advances_steps].
  - destruct H as [Hp|(k & w1 & k2 & w2 & Hd & Hrun & Hact & Hp)]; [by eapply rtc_once, step_dispatch_panic|].
    eapply rtc_l; [by eapply step_dispatch|]. eapply rtc_r; [by apply advances_steps|].
    rewrite (active_moved a l k2 w2 Hact), <-(crashed_again a l w' w2). by apply step_advance_panic.
Qed.
End Events.

(** * Executing a schedule *)

Section Schedule.
Context `{P : Platform}.

(** The calls under way are served first come, first served. *)
Inductive action :=
| Register (name : list u8)
| SubmitEnter (name data : list u8) (len : Z)
| SubmitCheck (now : SystemTime)
| SubmitSend
| Finit
| Event (token : Z)
| Dispatch (token : Z)
| Advance
| Environment (f : World -> World).

Definition environment_ok (f : World -> World) : Prop := forall w, environment w (f w).

Definition action_ok (act : action) : Prop :=
  match act with Environment f => environment_ok f | _ => True end.

(** The thread takes a step or panics. *)
Definition outcome_system (a : App) (l : list submit_progress) (o : outcome World control) : option System :=
  match o with
  | Ret k w => Some (moved a l k w)
  | Panic w => Some (crashed a l w)
  | _ => None
  end.

Definition exec (p : nat) (act : action) (s : System) : option System :=
  let 'mkSystem a w k l st := s in
  match act with
  | Register name =>
      match tracy_register (Some p) (Some name) a with
      | Ret _ a' => Some (mkSystem a' (thread_sees a' w) k l st)
      | _ => None
      end
  | SubmitEnter name data len =>
      t ← handles a !! p;
      if (0 <=? len) && submit_enter t a len then Some (mkSystem a w k (l ++ [Entered name data len]) st) else None
  | SubmitCheck now =>
      t ← handles a !! p;
      match l with
      | Entered name data len :: l =>
          match submit_check t a name data len now with
          | Some e => Some (mkSystem a w k (Passed e :: l) st)
          | None => Some (mkSystem a w k l st)
          end
      | _ => None
      end
  | SubmitSend =>
      t ← handles a !! p;
      match l with
      | Passed e :: l =>
          match send_to_tracer t (Payload e) a with
          | Ret _ a' => Some (mkSystem a' (thread_sees a' w) k l st)
          | _ => None
          end
      | _ => None
      end
  | Finit =>
      match tracy_finit (Some p) a with
      | Ret _ a' => Some (mkSystem a' (thread_sees a' w) k l st)
      | _ => None
      end
  | Event token =>
      match st, k with
      | Running, Idle =>
          outcome_system a l (match event_handler [token] w with
            | Ret r w' => Ret (settled r) w' | Panic w' => Panic w' | Undef => Undef | Hang => Hang end)
      | _, _ => None
      end
  | Dispatch token =>
      match st, k with Running, Idle => outcome_system a l (dispatch token w) | _, _ => None end
  | Advance =>
      match st, k with
      | Running, (InChannel _ | InTimer | InReceive _) => outcome_system a l (advance k w)
      | _, _ => None
      end
  | Environment f => Some (mkSystem a (f w) k l st)
  end.

Fixpoint exec_all (p : nat) (acts : list action) (s : System) : option System :=
  match acts with
  | [] => Some s
  | act :: acts => s' ← exec p act s; exec_all p acts s'
  end.

(** The environment allows what the action does to the thread. *)
Definition allowed (E : control -> World -> World -> Prop) (act : action) (s : System) : Prop :=
  match act with Environment f => E (pc s) (thread s) (f (thread s)) | _ => True end.

Lemma exec_steps_in E p act s s' :
  allowed E act s -> exec p act s = Some s' -> rtc (step_in E p) s s'.
Proof.
  destruct s as [a w k l st], act as [name|name data len|now| | |token|token| |f]; cbn [exec].
  - destruct (tracy_register _ _ a) as [r a'| | |] eqn:Er; try done. intros _ [= <-].
    by eapply rtc_once, step_register.
  - destruct (handles a !! p) as [t|] eqn:Ht; simpl; [|done].
    destruct ((0 <=? len) && submit_enter t a len) eqn:Hs; [|done]. apply andb_prop in Hs as [Hlen%Z.leb_le Hs].
    intros _ [= <-]. by eapply rtc_once, step_submit_enter.
  - destruct (handles a !! p) as [t|] eqn:Ht; simpl; [|done]. destruct l as [|[name data len|e] l]; try done.
    intros _. destruct (submit_check t a name data len now) as [e|] eqn:Hc; intros [= <-]; apply rtc_once.
    + by eapply (step_submit_check E p a w k []).
    + by eapply (step_submit_refuse E p a w k []).
  - destruct (handles a !! p) as [t|] eqn:Ht; simpl; [|done]. destruct l as [|[name data len|e] l]; try done.
    destruct (send_to_tracer t (Payload e) a) as [[] a'| | |] eqn:Er; try done. intros _ [= <-].
    by eapply rtc_once, (step_submit_send E p a w k []).
  - destruct (tracy_finit _ a) as [[] a'| | |] eqn:Er; try done. intros _ [= <-].
    by eapply rtc_once, step_finit.
  - intros _. destruct st, k; try done. pose proof (event_steps E p a w l token) as H.
    destruct (event_handler [token] w); simpl; intros Hs; by simplify_eq.
  - intros _. destruct st, k; try done. destruct (dispatch token w) as [k' w'|w'| |] eqn:Ed; simpl; intros Hs;
      simplify_eq; apply rtc_once; [by eapply step_dispatch|by eapply step_dispatch_panic].
  - intros _ H. assert (active k /\ st = Running /\ outcome_system a l (advance k w) = Some s') as (Hact & -> & Ho).
    { by destruct st, k. }
    destruct (advance k w) as [k' w'|w'| |] eqn:Ed; simpl in Ho; simplify_eq; apply rtc_once;
      [by eapply step_advance|by eapply step_advance_panic].
  - intros Hf [= <-]. by eapply rtc_once, step_environment.
Qed.

Lemma exec_all_steps p acts s s' :
  Forall action_ok acts -> exec_all p acts s = Some s' -> rtc (step p) s s'.
Proof.
  intros Hok. revert s. induction Hok as [|act acts Hact _ IH]; intros s; simpl.
  - by intros [= <-].
  - destruct (exec p act s) as [s1|] eqn:E; simpl; [|done]. intros H.
    etrans; [|by apply IH]. eapply exec_steps_in; [|exact E]. destruct act; try done. apply Hact.
Qed.
End Schedule.

(** ** A system on the reference platform *)

Definition no_app : App := @mkApp reference ∅ ∅ ∅ [].

Definition boot_init : outcome App ptr :=
  tracy_init (Some (lit "radio")) (Some (lit "app")) 500 5000 (Some (lit "127.0.0.1"))
    (Some (lit "225.0.0.1:64042")) 0 no_app.
Definition boot_app : App := match boot_init with Ret _ a => a | _ => no_app end.
Definition boot_p : nat := match boot_init with Ret (Some p) _ => p | _ => 0%nat end.
Definition boot_spawn : Spawn := default (mkSpawn example_cfg 0 0 false) (head (spawned boot_app)).
Definition boot_world : World :=
  with_chans (app_chans boot_app) (with_heap (app_heap boot_app) (idle_world [])).
Definition boot_thread : World :=
  match tracer_thread_setup (spawn_data boot_spawn) (spawn_connected boot_spawn) (spawn_rec boot_spawn)
          (spawn_announce boot_spawn) boot_world with
  | Ret _ w => w
  | _ => boot_world
  end.
Definition boot : System := mkSystem boot_app boot_thread Idle [] Running.

Lemma boot_started : started boot_p boot.
Proof.
  exists (lit "radio"), (lit "app"), 500, 5000, (Some (lit "127.0.0.1")), (Some (lit "225.0.0.1:64042")), 0,
    boot_app, (spawn_data boot_spawn), (spawn_connected boot_spawn), (spawn_rec boot_spawn),
    (spawn_announce boot_spawn), boot_thread, no_app, boot_world.
  split; [done|]. split; [done|]. split; [vm_compute; reflexivity|]. split; [vm_compute; reflexivity|].
  split; [reflexivity|]. split; [reflexivity|]. split; [vm_compute; reflexivity|reflexivity].
Qed.

(** A client connects and sends [bs]; more events on its socket; time passes. *)
Definition client_connects (rx : list rx_event) (w : World) : World :=
  with_backlog (backlog w ++ [inr (mkSocket rx [] [])]) w.
Definition socket_receives (sid : nat) (evs : list rx_event) (w : World) : World :=
  set_rx sid (rx (sock sid w) ++ evs) w.
Definition time_passes (w : World) : World :=
  upd_ctx (fun c => @with_ctx_timer reference (Ref.expire (ctx_timer c)) c) w.

Lemma client_connects_ok rx : environment_ok (client_connects rx).
Proof. intros w. split; [|done]. exists (ctx_timer (ctx w)). split; [by destruct w as [[]]|done]. Qed.
Lemma socket_receives_ok sid evs : environment_ok (socket_receives sid evs).
Proof.
  intros w. split; [exists (ctx_timer (ctx w)); split; [by destruct w as [[]]|done]|].
  split_and!; try done. intros k Hk. simpl. rewrite lookup_insert. case_decide; [by eexists|done].
Qed.
Lemma time_passes_ok : environment_ok time_passes.
Proof.
  intros w. split; [|done]. exists (Ref.expire (ctx_timer (ctx w))). split; [done|]. simpl.
  unfold Ref.armed, Ref.expire. simpl. by rewrite <-list_fmap_compose.
Qed.

(** * Instances *)

(** The registration of "cpu" is on its way. *)
Definition boot_registered : System := default boot (exec_all boot_p [Register (lit "cpu")] boot).
Definition boot_handle : TracerNg := default example_handle (handles (app boot_registered) !! boot_p).

Lemma boot_steps : rtc (step boot_p) boot boot_registered.
Proof.
  apply (exec_all_steps _ [Register (lit "cpu")]); [by repeat constructor|]. vm_compute. reflexivity.
Qed.

Lemma system_safe_witness :
  SysInv boot_p boot_registered /\
  (stat boot_registered = Running ->
     (advance (pc boot_registered) (thread boot_registered) <> Hang /\
      advance (pc boot_registered) (thread boot_registered) <> Undef) /\
     forall token,
       event_handler [token] (thread boot_registered) <> Hang /\
       event_handler [token] (thread boot_registered) <> Undef).
Proof. apply (system_safe boot_p boot); [apply boot_started|apply boot_steps]. Defined.

Lemma registries_agree_witness :
  registered (ctx_tracepoints (ctx (thread boot_registered))) (queued (thread boot_registered)) =
    tracepoints boot_handle /\
  (queued (thread boot_registered) = [] ->
     ctx_tracepoints (ctx (thread boot_registered)) = tracepoints boot_handle).
Proof.
  apply (registries_agree boot_p boot boot_registered boot_handle);
    [apply boot_started|apply boot_steps|vm_compute; reflexivity|vm_compute; reflexivity].
Defined.

Lemma no_client_no_data_witness :
  tracy_submit (Some boot_p) (Some (lit "cpu")) (Some (lit "0.7")) 3 1 (app boot_registered) =
    Ret tt (app boot_registered).
Proof.
  apply (no_client_no_data boot_p boot boot_registered boot_handle);
    [apply boot_started|apply boot_steps|vm_compute; reflexivity|vm_compute; reflexivity
    |vm_compute; reflexivity|lia|vm_compute; discriminate].
Defined.
