(* ===== verification/Late.v ===== *)
(** A submission that comes too late: the application has passed the checks of
    [tracy_submit], the client disconnects, and only then the payload is sent to
    the thread. *)

From S2P Require Import Prelude Monad Platform Types Worlds Strings Context Io Wire Tcp App Handlers Invariant Control Flush Receive Requests Thread AppSpec System.

Section Late.
Context {P : Platform} {TL : TimerLaws P} {HL : HashLaws P} {CL : ChannelLaws P}.

(** The end of the stream of a client that has nothing else to say. *)
Lemma eof_run w sid :
  Inv w -> connection (ctx w) = Some sid -> healthy (tx (sock sid w)) -> rx (sock sid w) = [RxEof] -> oracle w = [] ->
  exists w', event_handler [CON_DATA] w = Ret Normal w' /\ disconnected w w' /\ chans w' = chans w /\
    rec (ctx w') = rec (ctx w) /\ buffer (ctx w') = buffer (ctx w) /\
    buffer_occupancy (ctx w') = buffer_occupancy (ctx w).
Proof.
  intros Hi Hc Htx Hrx Ho. destruct (inv_sock _ Hi sid Hc) as [s Hs].
  assert (sock sid w = s) as Hsock by (unfold sock; by rewrite Hs). rewrite Hsock in *.
  destruct (receive_end_run w sid s [] [] UnexpectedEof [RxEof]) as (w1 & Hex & Hrun); try done.
  { by rewrite Hrx. } { simpl. lia. }
  rewrite bool_decide_false in Hrun by done.
  destruct (executed_set_rx _ _ [RxEof] _ _ Hex) as (Hctx & Hch & _ & Hheap & _ & Hc1 & _).
  set (w2 := set_rx sid [RxEof] w1) in *.
  destruct (close_run w2 sid Hc1) as (w3 & Hclose & Hctx3 & Hheap3 & Hch3 & _).
  destruct (closed_ctx_shape (ctx w)) as (t & q & u & E & _). rewrite Hctx in Hctx3. rewrite E in Hctx3.
  exists w3. split.
  { unfold event_handler, event_handler_from. simpl. unfold mbind, M_bind. rewrite Hrun. unfold mbind, M_bind.
    by rewrite Hclose. }
  split; [eapply (disconnected_eq _ w2); [done|]; apply close_disconnected; [by rewrite Hctx, E|done]|].
  rewrite Hctx3. split_and!; try done. by rewrite Hch3.
Qed.

(** C31: A submission that is overtaken by the disconnect of the client makes the
    tracer thread panic, although everybody behaves.  Take any state of the
    system in which a call of [tracy_submit] has passed its checks and the client
    has ended its stream, with nothing else to do, and the payload would not
    bring the occupancy of the buffer over its limit.  The thread handles the end
    of the stream: no client is connected.  The call goes on and sends its
    payload, which the thread puts into the buffer, starting the queue timer.
    Whenever that timer fires -- whatever the environment has done meanwhile --
    the thread panics for want of a connection: the sequence that the comment at
    the top of lib.rs supposes impossible. *)
Theorem late_submission_panics p a w l1 e l2 t sid :
  SysInv p (mkSystem a w Idle (l1 ++ Passed e :: l2) Running) -> handles a !! p = Some t ->
  connection (ctx w) = Some sid -> healthy (tx (sock sid w)) -> rx (sock sid w) = [RxEof] -> oracle w = [] ->
  queued w = [] -> usize_of (buffer_occupancy (ctx w) + BufferElement_len e) <= QUEUE_TOTAL_SIZE ->
  exists w1 a2 w2,
    event_handler [CON_DATA] w = Ret Normal w1 /\ connection (ctx w1) = None /\ queued w1 = [] /\
    send_to_tracer t (Payload e) (app_sees w1 a) = Ret tt a2 /\
    event_handler [CHAN] (thread_sees a2 w1) = Ret DataProcessed w2 /\ connection (ctx w2) = None /\
    buffer (ctx w2) = buffer (ctx w) ++ [e] /\ QUEUE_TIMEOUT_IDENT ∈ (timer_armed (ctx_timer (ctx w2))).*2 /\
    forall w3 t', environment w2 w3 -> timer_poll (ctx_timer (ctx w3)) = (t', Some QUEUE_TIMEOUT_IDENT) ->
      exists w4, event_handler [TIMER] w3 = Panic w4 /\
        rtc (step p) (mkSystem a w Idle (l1 ++ Passed e :: l2) Running) (crashed (app_sees w2 a2) (l1 ++ l2) w4).
Proof.
  intros HI Ht Hc Htx Hrx Ho Hq Hocc. set (s0 := mkSystem a w Idle _ Running) in *.
  destruct (si_running _ _ HI eq_refl) as (Hi & Hop & Hlinks). simpl in Hi, Hop, Hlinks.
  destruct (Hlinks t Ht) as (Hrec & _). clear Hlinks.
  destruct (eof_run w sid Hi Hc Htx Hrx Ho) as (w1 & Hev1 & (Hc1 & _) & Hch1 & Hrec1 & Hb1 & Hocc1).
  assert (queued w1 = []) as Hq1 by (rewrite <-Hq; by apply queued_frame).
  pose proof (event_steps (fun _ => environment) p a w (l1 ++ Passed e :: l2) CON_DATA) as Hrun1.
  rewrite Hev1 in Hrun1. simpl in Hrun1. fold s0 in Hrun1. set (s1 := mkSystem (app_sees w1 a) w1 Idle _ Running) in *.
  pose proof (reachable_invariant _ _ _ HI Hrun1) as HI1.
  destruct (si_running _ _ HI1 eq_refl) as (Hi1 & Hop1 & _). simpl in Hi1, Hop1.
  set (a2 := sent_to t (Payload e) (app_sees w1 a)). set (w1' := thread_sees a2 w1).
  assert (send_to_tracer t (Payload e) (app_sees w1 a) = Ret tt a2) as Hsend by apply send_to_tracer_eq.
  assert (fits e) as He.
  { pose proof (si_submits _ _ HI) as Hl. simpl in Hl. by apply Forall_app in Hl as [_ [? _]%Forall_cons]. }
  destruct (sent_to_inv t (Payload e) (app_sees w1 a) w1) as (Hi1' & _ & _); try done; [by rewrite Hrec|].
  fold a2 w1' in Hi1'.
  assert (ctx w1' = ctx w1) as Hctx1' by done.
  assert (queued w1' = [Payload e]) as Hq1'.
  { unfold chan_open in Hop1. unfold queued, w1', a2, sent_to, thread_sees in *. simpl. rewrite Hrec, <-Hrec1.
    destruct (chans w1 !! rec (ctx w1)) as [q|] eqn:Eq; [|done]. simpl. rewrite lookup_insert_eq.
    destruct (send_open _ q (Payload e) Hop1) as (_ & _ & ->). by rewrite Hq1. }
  destruct (late_payload_run w1' e Hi1') as (w2 & Hev2 & Hc2 & Hb2 & Hf2 & Harm2); [done|done|by rewrite Hctx1', Hocc1|].
  exists w1, a2, w2. split_and!; try done; [by rewrite Hb2, Hctx1', Hb1|].
  intros w3 t' Henv Hpoll. pose proof Henv as ((tm & Hctx3 & _) & _).
  destruct (unconnected_timeout_panics w3 t') as [w4 Hpanic]; try done.
  { by rewrite Hctx3. } { rewrite Hctx3. simpl. rewrite Hb2. by destruct (buffer (ctx w1')). } { by rewrite Hctx3. }
  exists w4. split; [done|]. etrans; [exact Hrun1|].
  eapply rtc_l; [by apply (step_submit_send _ p (app_sees w1 a) w1 Idle l1 e l2 Running t a2)|].
  pose proof (event_steps (fun _ => environment) p a2 w1' (l1 ++ l2) CHAN) as Hrun2. rewrite Hev2 in Hrun2.
  etrans; [exact Hrun2|]. simpl. eapply rtc_l; [by apply step_environment|].
  pose proof (event_steps (fun _ => environment) p (app_sees w2 a2) w3 (l1 ++ l2) TIMER) as Hrun3.
  by rewrite Hpanic in Hrun3.
Qed.
End Late.

(** * Instances *)

(** "cpu" is registered and enabled, and submitted to while the client leaves. *)
Definition overtaken : list action :=
  [Register (lit "cpu"); Event CHAN;
   Environment (client_connects [RxData (encode_request (ReqSet true [lit "cpu"]))]); Event CON_NEW; Event CON_DATA;
   SubmitEnter (lit "cpu") (lit "0.7") 3; SubmitCheck 1; Environment (socket_receives 0 [RxEof])].

Lemma overtaken_ok : Forall action_ok overtaken.
Proof.
  unfold overtaken. repeat (apply Forall_cons; split); try exact I; [..|by apply Forall_nil].
  - apply client_connects_ok.
  - apply socket_receives_ok.
Qed.

Definition boot_overtaken : System := default boot (exec_all boot_p overtaken boot).
Definition late_world : World := thread boot_overtaken.
Definition late_handle : TracerNg := default example_handle (handles (app boot_overtaken) !! boot_p).

Lemma overtaken_run : exec_all boot_p overtaken boot = Some boot_overtaken.
Proof. vm_compute. reflexivity. Qed.

Lemma overtaken_steps : rtc (step boot_p) boot boot_overtaken.
Proof. exact (exec_all_steps _ _ _ _ overtaken_ok overtaken_run). Qed.

Lemma boot_overtaken_inv : SysInv boot_p boot_overtaken.
Proof. apply (reachable_invariant boot_p boot); [apply started_invariant, boot_started|apply overtaken_steps]. Qed.

Definition late_element : BufferElement := mkElement (lit "cpu") 1 (lit "0.7").

Lemma overtaken_shape :
  boot_overtaken = mkSystem (app boot_overtaken) late_world Idle ([] ++ Passed late_element :: []) Running.
Proof. vm_compute. reflexivity. Qed.

Definition ended {W A} (m : outcome W A) (w : W) : W :=
  match m with Ret _ w' | Panic w' => w' | _ => w end.
Definition late_gone : World := ended (event_handler [CON_DATA] late_world) late_world.
Definition late_sent : App :=
  ended (send_to_tracer late_handle (Payload late_element) (app_sees late_gone (app boot_overtaken))) boot_app.
Definition late_buffered : World :=
  ended (event_handler [CHAN] (thread_sees late_sent late_gone)) late_world.

(** The flush interval passes, which is shorter than that of the announcements. *)
Definition flush_interval_passes (w : World) : World :=
  upd_ctx (fun c => @with_ctx_timer reference (Ref.mk_timer (Ref.next (ctx_timer c))
    ((fun e => (e.1, bool_decide (e.1.2 = QUEUE_TIMEOUT_IDENT))) <$> Ref.entries (ctx_timer c))) c) w.

Lemma flush_interval_passes_ok : environment_ok flush_interval_passes.
Proof.
  intros w. split; [|done]. eexists. split; [reflexivity|]. simpl.
  unfold Ref.armed. simpl. by rewrite <-list_fmap_compose.
Qed.

(** From the start of the system to the panic: a client that has come, has
    enabled "cpu" and has gone, and a submission between. *)
Lemma late_submission_panics_witness :
  exists s, started boot_p boot /\ rtc (step boot_p) boot s /\ stat s = Panicked.
Proof.
  pose proof boot_overtaken_inv as HI. rewrite overtaken_shape in HI.
  destruct (late_submission_panics boot_p (app boot_overtaken) late_world [] late_element [] late_handle 0)
    as (w1 & a2 & w2 & E1 & _ & _ & E2 & E3 & _ & _ & _ & Hlate);
    [exact HI|vm_compute; reflexivity|vm_compute; reflexivity|vm_compute; constructor|vm_compute; reflexivity
    |vm_compute; reflexivity|vm_compute; reflexivity|vm_compute; discriminate|].
  assert (w1 = late_gone) as -> by (unfold late_gone; by rewrite E1).
  assert (a2 = late_sent) as -> by (unfold late_sent; by rewrite E2).
  assert (w2 = late_buffered) as -> by (unfold late_buffered; by rewrite E3).
  destruct (timer_poll (ctx_timer (ctx (flush_interval_passes late_buffered)))) as [t' x] eqn:Ht.
  assert (x = Some QUEUE_TIMEOUT_IDENT) as -> by (change x with (t', x).2; rewrite <-Ht; vm_compute; reflexivity).
  destruct (Hlate (flush_interval_passes late_buffered) t') as (w4 & _ & Hrun); [apply flush_interval_passes_ok|exact Ht|].
  exists (crashed (app_sees late_buffered late_sent) [] w4). split; [apply boot_started|]. split; [|done].
  etrans; [apply overtaken_steps|]. rewrite overtaken_shape. exact Hrun.
Defined.
