(* ===== verification/Spec.v ===== *)
(** The abstract specification of a tracer: what its application and its client
    may rely on, without threads, buffers, timers, sockets and bytes. *)

From S2P Require Import Prelude Monad Platform Types Strings Io Wire Tcp Invariant Flush Delivery Receive Requests.

Notation name := (list u8) (only parsing).

(** * The specification *)

(** What a client is sent: a record, or the list of the tracepoints. *)
Inductive output := ORecord (e : BufferElement) | ONames (ns : list name).

Record Spec := mkSpec {
  sp_registered : gset name; (** by the application *)
  sp_listed : gset name; (** those the client can see *)
  sp_enabled : gset name;
  sp_client : option nat; (** the session that is open *)
  sp_inbox : list request; (** what the client has asked and not been given yet *)
  sp_done : list request; (** what was carried out in this session *)
  sp_checked : list BufferElement; (** submissions past their checks *)
  sp_queue : list BufferElement; (** accepted, not yet sent *)
  sp_accepted : list BufferElement; (** all that were ever accepted *)
  sp_out : list (nat * output); (** what was sent, and in which session *)
}.

Definition spec_init : Spec := mkSpec ∅ ∅ ∅ None [] [] [] [] [] [].

(** Enabling or disabling names one after the other; names that are not listed
    are passed over. *)
Definition spec_set (L : gset name) (b : bool) (ns : list name) (E : gset name) : gset name :=
  foldl (fun E n => if decide (n ∈ L) then (if b then {[n]} ∪ E else E ∖ {[n]}) else E) E ns.

(** What the tracer does by itself: it makes a registered name visible, carries
    out the next request, sends the next record, or takes notice that its client
    is gone. *)
Inductive tracer_step : Spec -> Spec -> Prop :=
| sp_list n R L E c i d ch q acc out :
    n ∈ R -> tracer_step (mkSpec R L E c i d ch q acc out) (mkSpec R ({[n]} ∪ L) E c i d ch q acc out)
| sp_set b ns R L E c i d ch q acc out :
    is_Some c ->
    tracer_step (mkSpec R L E c (ReqSet b ns :: i) d ch q acc out)
      (mkSpec R L (spec_set L b ns E) c i (d ++ [ReqSet b ns]) ch q acc out)
| sp_reply sid ns R L E i d ch q acc out :
    ns ≡ₚ elements L ->
    tracer_step (mkSpec R L E (Some sid) (ReqList :: i) d ch q acc out)
      (mkSpec R L E (Some sid) i (d ++ [ReqList]) ch q acc (out ++ [(sid, ONames ns)]))
| sp_transmit sid e R L E i d ch q acc out :
    tracer_step (mkSpec R L E (Some sid) i d ch (e :: q) acc out)
      (mkSpec R L E (Some sid) i d ch q acc (out ++ [(sid, ORecord e)]))
| sp_disconnect R L E c d ch q acc out :
    is_Some c -> tracer_step (mkSpec R L E c [] d ch q acc out) (mkSpec R L ∅ None [] [] ch q acc out).

(** What is done to it: the application registers, and its submissions pass
    their check and are accepted; a client connects with its first requests, and
    more of them arrive.  [feeds] says how the requests that are still to do may
    change by themselves. *)
Section spec_step.
Context (feeds : list request -> list request -> Prop).

Inductive spec_step : Spec -> Spec -> Prop :=
| sp_tracer f f' : tracer_step f f' -> spec_step f f'
| sp_register n R L E c i d ch q acc out :
    normal_name n -> n ∉ R ->
    spec_step (mkSpec R L E c i d ch q acc out) (mkSpec ({[n]} ∪ R) L E c i d ch q acc out)
| sp_check e R L E c i d ch1 ch2 q acc out :
    elem_tracepoint e ∈ E ->
    spec_step (mkSpec R L E c i d (ch1 ++ ch2) q acc out) (mkSpec R L E c i d (ch1 ++ e :: ch2) q acc out)
| sp_accept e R L E c i d ch1 ch2 q acc out :
    spec_step (mkSpec R L E c i d (ch1 ++ e :: ch2) q acc out)
      (mkSpec R L E c i d (ch1 ++ ch2) (q ++ [e]) (acc ++ [e]) out)
| sp_connect sid i' R L E i d ch q acc out :
    (forall o, (sid, o) ∉ out) ->
    spec_step (mkSpec R L E None i d ch q acc out) (mkSpec R L E (Some sid) i' [] ch q acc out)
| sp_network sid i' R L E i d ch q acc out :
    feeds i i' -> spec_step (mkSpec R L E (Some sid) i d ch q acc out) (mkSpec R L E (Some sid) i' d ch q acc out).
End spec_step.

(** A client can only add to what it has asked: nothing is dropped, forged or
    overtaken on its way. *)
Definition stream : list request -> list request -> Prop := prefix.

(** All that the client of this session has asked. *)
Definition requests (f : Spec) : list request := sp_done f ++ sp_inbox f.

(** The outputs of one session. *)
Definition outputs (sid : nat) (out : list (nat * output)) : list output :=
  omap (fun x => if decide (x.1 = sid) then Some x.2 else None) out.

Lemma outputs_snoc sid out k o :
  outputs sid (out ++ [(k, o)]) = outputs sid out ++ (if decide (k = sid) then [o] else []).
Proof. unfold outputs. rewrite omap_app. simpl. by case_decide. Qed.

Lemma outputs_nil sid out : outputs sid out = [] <-> forall o, (sid, o) ∉ out.
Proof.
  split.
  - intros H o Hin. assert (o ∈ outputs sid out) as Ho; [|by rewrite H in Ho; apply not_elem_of_nil in Ho].
    apply list_elem_of_omap. exists (sid, o). split; [done|]. simpl. by rewrite decide_True.
  - intros H. destruct (outputs sid out) as [|o os] eqn:E; [done|].
    assert (o ∈ outputs sid out) as Ho by (rewrite E; by left).
    apply list_elem_of_omap in Ho as ([k o'] & Hin & Ho). simpl in Ho. case_decide; [|done].
    injection Ho as ->. subst k. by destruct (H o).
Qed.

(** ** What the specification promises *)

Definition out_record (x : nat * output) : option BufferElement :=
  match x.2 with ORecord e => Some e | ONames _ => None end.
Definition records (out : list (nat * output)) : list BufferElement := omap out_record out.

(** What a session asked to have enabled in the end. *)
Definition asked (d : list request) : gset name :=
  foldl (fun A r =>
    match r with
    | ReqSet true ns => A ∪ list_to_set ns
    | ReqSet false ns => A ∖ list_to_set ns
    | ReqList => A
    end) ∅ d.

(** The number of lists among outputs and among requests. *)
Fixpoint lists_sent (os : list output) : nat :=
  match os with [] => 0 | ONames _ :: os => S (lists_sent os) | ORecord _ :: os => lists_sent os end.
Fixpoint lists_asked (d : list request) : nat :=
  match d with [] => 0 | ReqList :: d => S (lists_asked d) | ReqSet _ _ :: d => lists_asked d end.

Record SpecInv (f : Spec) : Prop := {
  spi_listed : sp_listed f ⊆ sp_registered f;
  spi_enabled : sp_enabled f ⊆ sp_listed f;
  spi_quiet : sp_client f = None -> sp_enabled f = ∅;
  spi_fifo : records (sp_out f) ++ sp_queue f = sp_accepted f;
  spi_normal : forall n, n ∈ sp_registered f -> normal_name n;
  spi_asked : sp_enabled f ⊆ asked (sp_done f);
  spi_answered : forall sid, sp_client f = Some sid ->
    lists_sent (outputs sid (sp_out f)) = lists_asked (sp_done f);
  spi_alone : sp_client f = None -> requests f = [];
}.

Lemma records_snoc out x : records (out ++ [x]) = records out ++ (if out_record x is Some e then [e] else []).
Proof. unfold records. rewrite omap_app. simpl. by destruct (out_record x). Qed.

Lemma lists_sent_app a b : lists_sent (a ++ b) = (lists_sent a + lists_sent b)%nat.
Proof. induction a as [|[] a IH]; simpl; [done|done|by rewrite IH]. Qed.

Lemma lists_asked_snoc d r : lists_asked (d ++ [r]) = (lists_asked d + lists_asked [r])%nat.
Proof. induction d as [|[] d IH]; simpl; [done|by rewrite IH|done]. Qed.

Lemma asked_snoc d r :
  asked (d ++ [r]) =
    match r with
    | ReqSet true ns => asked d ∪ list_to_set ns
    | ReqSet false ns => asked d ∖ list_to_set ns
    | ReqList => asked d
    end.
Proof. unfold asked. by rewrite foldl_app. Qed.

Lemma elem_of_spec_set L b ns E n :
  n ∈ spec_set L b ns E <->
    if b then n ∈ E \/ (n ∈ ns /\ n ∈ L) else n ∈ E /\ ~ (n ∈ ns /\ n ∈ L).
Proof.
  unfold spec_set. revert E. induction ns as [|m ns IH]; intros E; cbn [foldl].
  - destruct b; set_solver.
  - rewrite IH. destruct b; case_decide; set_solver.
Qed.

(** Nothing is accepted that is not enabled, nothing is enabled that the client
    has not asked for, every request for the list is answered once, and no
    accepted record is lost, duplicated or overtaken. *)
Lemma tracer_step_inv f f' : SpecInv f -> tracer_step f f' -> SpecInv f'.
Proof.
  intros [HL HE HQ HF HN HA HR HU] Hstep. destruct Hstep; simpl in *; split; simpl; try done.
  - set_solver.
  - set_solver.
  - intros n. rewrite elem_of_spec_set. specialize (HE n). destruct b; [|tauto]. intros [?|[? ?]]; auto.
  - intros ->. by destruct H.
  - intros n. rewrite asked_snoc, elem_of_spec_set. specialize (HA n). specialize (HE n). destruct b.
    + rewrite elem_of_union, elem_of_list_to_set. tauto.
    + rewrite elem_of_difference, elem_of_list_to_set. tauto.
  - intros sid Hc. rewrite lists_asked_snoc, (HR sid Hc). simpl. lia.
  - intros ->. by destruct H.
  - by rewrite records_snoc, app_nil_r.
  - by rewrite asked_snoc.
  - intros k [= <-]. by rewrite outputs_snoc, decide_True, lists_sent_app, lists_asked_snoc, (HR sid eq_refl).
  - rewrite records_snoc. simpl. by rewrite <-app_assoc.
  - intros k [= <-]. rewrite outputs_snoc, decide_True, lists_sent_app, (HR sid eq_refl) by done. simpl. lia.
Qed.

Lemma spec_step_inv feeds f f' : SpecInv f -> spec_step feeds f f' -> SpecInv f'.
Proof.
  intros Hf Hstep. destruct Hstep as [f f' Hstep|n R L E c i d ch q acc out Hn|e R L E c i d ch1 ch2 q acc out He
    |e R L E c i d ch1 ch2 q acc out|sid i' R L E i d ch q acc out Hfresh|sid i' R L E i d ch q acc out Hi];
    [by eapply tracer_step_inv|..]; destruct Hf as [HL HE HQ HF HN HA HR HU]; simpl in *; split; simpl; try done.
  - set_solver.
  - intros m. rewrite elem_of_union, elem_of_singleton. intros [->|?]; [done|by apply HN].
  - by rewrite app_assoc, HF.
  - by rewrite HQ.
  - intros k [= <-]. by rewrite (proj2 (outputs_nil sid out)).
Qed.

Lemma spec_init_inv : SpecInv spec_init.
Proof. by split. Qed.

Lemma spec_steps_inv feeds f f' : SpecInv f -> rtc (spec_step feeds) f f' -> SpecInv f'.
Proof. intros Hf Hrun. induction Hrun as [|f1 f2 f3 Hstep _ IH]; [done|]. by eapply IH, spec_step_inv. Qed.

(** What the tracer does by itself leaves the submissions alone, and the
    requests of a session are those it had before, done or not. *)
Lemma tracer_steps_keep f f' :
  rtc tracer_step f f' ->
  sp_checked f' = sp_checked f /\ sp_accepted f' = sp_accepted f /\
  (if sp_client f' is Some _ then sp_client f' = sp_client f /\ requests f' = requests f else
     sp_client f = None /\ requests f' = requests f \/ requests f' = []).
Proof.
  induction 1 as [f|f1 f2 f3 Hstep _ (Hch & Hacc & Hreq)].
  { split; [done|]. split; [done|]. destruct (sp_client f); [done|by left]. }
  assert (sp_checked f2 = sp_checked f1 /\ sp_accepted f2 = sp_accepted f1 /\
    (sp_client f2 = sp_client f1 /\ requests f2 = requests f1 \/ sp_client f2 = None /\ requests f2 = []))
    as (E1 & E2 & H).
  { unfold requests. destruct Hstep; simpl; rewrite <-?app_assoc; try (split; [done|]; split; [done|by left]).
    split; [done|]. split; [done|by right]. }
  split; [congruence|]. split; [congruence|]. clear E1 E2.
  destruct (sp_client f3); destruct H as [[E1 E2]|[E1 E2]]; rewrite E1, E2 in Hreq; try done.
  - by destruct Hreq.
  - destruct Hreq as [[_ ?]| ?]; by right.
Qed.

(** * What a client reads

    The messages of the tracer, taken apart by the grammar. *)
Inductive seen := SeenRecord (r : list u8 * Z * list u8) | SeenNames (ns : list name).

Definition see (o : output) : seen :=
  match o with ORecord e => SeenRecord (record_of e) | ONames ns => SeenNames ns end.

Definition decode_message (m : Command * list u8) : option (list seen) :=
  match m.1 with
  | TracePush => map SeenRecord <$> tlv_records m.2
  | TracepointListReply => (fun ns => [SeenNames ns]) <$> tlv_names m.2
  | _ => None
  end.

Definition read_stream (bs : list u8) : option (list seen) :=
  ms ← tlv_stream bs; seens ← mapM decode_message ms; Some (concat seens).

(** ** The messages of the tracer *)

Inductive wire_msg := MPush (c : list BufferElement) | MNames (ns : list name).

Definition wire (m : wire_msg) : list u8 :=
  match m with
  | MPush c => trace_push c
  | MNames ns => push_front_header (tracepoint_list_msg ns) TracepointListReply
  end.

Definition wire_ok (m : wire_msg) : Prop :=
  match m with
  | MPush c => chunk_ok c /\ Forall fits c
  | MNames ns => Forall (fun n => zlen n <= MAX_TRACEPOINT_NAME_LEN) ns /\ 34 * zlen ns < 2 ^ 32
  end.

Definition content (m : wire_msg) : list output :=
  match m with MPush c => map ORecord c | MNames ns => [ONames ns] end.

Definition parsed (m : wire_msg) : Command * list u8 :=
  match m with
  | MPush c => (TracePush, body c)
  | MNames ns => (TracepointListReply, encode_names ns)
  end.

Lemma wire_parsed m : wire_ok m -> wire m = push_front_header (parsed m).2 (parsed m).1 /\ zlen (parsed m).2 < 2 ^ 32.
Proof.
  destruct m as [c|ns]; simpl.
  - intros [[_ Hc] _]. split; [done|]. unfold QUEUE_TOTAL_SIZE, HEADER_LEN in *. lia.
  - intros [Hns Hlen]. split; [|pose proof (zlen_encode_names_le _ Hns); lia].
    unfold tracepoint_list_msg. rewrite tracepoint_list_msg_from; [done|].
    eapply Forall_impl; [exact Hns|]. unfold MAX_TRACEPOINT_NAME_LEN. simpl. lia.
Qed.

Lemma decode_parsed m : wire_ok m -> decode_message (parsed m) = Some (map see (content m)).
Proof.
  destruct m as [c|ns]; simpl; unfold decode_message; simpl.
  - intros [_ Hf]. rewrite tlv_records_body by done. simpl. by rewrite !map_map.
  - intros [Hns _]. unfold tlv_names. rewrite tlv_names_encode; [done| |done].
    eapply Forall_impl; [exact Hns|]. unfold MAX_TRACEPOINT_NAME_LEN. simpl. lia.
Qed.

(** Bytes that are a sequence of messages with these contents. *)
Definition transcript (bs : list u8) (os : list output) : Prop :=
  exists ms, Forall wire_ok ms /\ bs = concat (map wire ms) /\ os = concat (map content ms).

Lemma transcript_nil : transcript [] [].
Proof. by exists []. Qed.

Lemma transcript_app bs os bs' os' :
  transcript bs os -> transcript bs' os' -> transcript (bs ++ bs') (os ++ os').
Proof.
  intros (ms & H1 & -> & ->) (ms' & H2 & -> & ->). exists (ms ++ ms').
  rewrite !map_app, !concat_app. split; [by apply Forall_app|done].
Qed.

Lemma transcript_read bs os : transcript bs os -> read_stream bs = Some (map see os).
Proof.
  intros (ms & Hms & -> & ->). unfold read_stream.
  assert (tlv_stream (concat (map wire ms)) = Some (map parsed ms)) as ->.
  { assert (map wire ms = map (fun m : Command * list u8 => push_front_header m.2 m.1) (map parsed ms)) as ->.
    { rewrite map_map. apply map_ext_Forall. eapply Forall_impl; [exact Hms|]. intros m Hm. by apply wire_parsed. }
    apply tlv_stream_messages; [|done]. apply Forall_map. eapply Forall_impl; [exact Hms|].
    intros m Hm. split; [by destruct m|by apply wire_parsed]. }
  simpl. assert (mapM decode_message (map parsed ms) = Some (map (fun m => map see (content m)) ms)) as ->.
  { induction Hms as [|m ms Hm _ IH]; [done|]. simpl. by rewrite decode_parsed, IH by done. }
  simpl. f_equal. by rewrite concat_map, map_map.
Qed.

(** The messages of a flush carry the flushed elements. *)
Lemma flush_transcript es : Forall fits es -> transcript (flush_bytes es) (map ORecord es).
Proof.
  intros Hf. exists (map MPush (chunks es)). split_and!.
  - apply Forall_map. pose proof (chunks_cuts_ok es Hf) as H. exact H.
  - unfold flush_bytes. by rewrite map_map.
  - rewrite map_map. rewrite <-(concat_chunks es) at 1. by rewrite concat_map.
Qed.
