(* ===== verification/Refine.v ===== *)
(** The tracer thread implements the abstract specification: every operation,
    in an environment that behaves, is a sequence of abstract steps. *)

From S2P Require Import Prelude Monad Platform Types Worlds Strings Context Io Wire Tcp Beacon App Handlers Invariant Flush Delivery Receive Requests Thread AppSpec System Spec.

(** * An environment that behaves

    Clients send whole requests (cut into reads in any way, and the end of what
    has arrived falls between two requests), they read what they are sent, and
    system calls do not fail.

    [waiting buf rx i]: the requests [i] are what is left of a client's stream,
    of which [buf] has been read ahead and [rx] has not. *)
Inductive waiting : list u8 -> list rx_event -> list request -> Prop :=
| waiting_nil : waiting [] [] []
| waiting_end buf rx rs k rest :
    buf_view buf rx = (encode_requests rs, k, rest) -> Forall request_ok rs -> k <> WouldBlock ->
    waiting buf rx rs
| waiting_more buf rx rs rest i :
    buf_view buf rx = (encode_requests rs, WouldBlock, rest) -> Forall request_ok rs ->
    waiting [] rest i -> waiting buf rx (rs ++ i).

Definition polite_client (x : ErrorKind + Socket) : Prop :=
  match x with
  | inl _ => True
  | inr s => sent s = [] /\ healthy (tx s) /\ exists i, waiting [] (rx s) i
  end.

(** What is read before the next pause or the end of the stream, and what comes
    after it. *)
Lemma waiting_inv buf rx i :
  waiting buf rx i -> exists rs k rest i', buf_view buf rx = (encode_requests rs, k, rest) /\
    Forall request_ok rs /\ i = rs ++ i' /\ (if decide (k = WouldBlock) then waiting [] rest i' else i' = []).
Proof.
  intros [|buf' rx' rs k rest Hv Hrs Hk|buf' rx' rs rest i' Hv Hrs Hi].
  - exists [], WouldBlock, [], []. split_and!; try done. constructor.
  - exists rs, k, rest, []. rewrite decide_False by done. by rewrite app_nil_r.
  - exists rs, WouldBlock, rest, i'. by rewrite decide_True.
Qed.

(** After the first of the requests was read. *)
Lemma waiting_tail buf rx rs k rest i :
  buf_view buf rx = (encode_requests rs, k, rest) -> Forall request_ok rs ->
  (if decide (k = WouldBlock) then waiting [] rest i else i = []) -> waiting buf rx (rs ++ i).
Proof.
  intros Hv Hrs Hi. case_decide as Hk.
  - subst k. by eapply waiting_more.
  - subst i. rewrite app_nil_r. by eapply waiting_end.
Qed.

(** ** More arrives *)

(** Neither the end of the stream nor an error is in sight. *)
Definition rx_open (rx : list rx_event) : Prop :=
  Forall (fun ev => match ev with RxData _ => True | RxErr k => k = WouldBlock \/ k = Interrupted | RxEof => False end) rx.

(** What is appended belongs behind the next pause, or to what is read before
    it when there is none. *)
Lemma rx_view_app rx evs :
  rx_open rx -> exists b rest, rx_view rx = (b, WouldBlock, rest) /\ rx_open rest /\
    (rx_view (rx ++ evs) = (b, WouldBlock, rest ++ evs) \/
     rest = [] /\ rx_view (rx ++ evs) = buf_view b evs).
Proof.
  induction 1 as [|ev rx Hev Hrx IH]; [exists [], []; split_and!; [done|constructor|right; by rewrite buf_view_nil]|].
  destruct IH as (b & rest & Hv & Hrest & Happ). destruct ev as [bs|k|]; [|destruct Hev as [-> | ->]|done]; simpl.
  - exists (bs ++ b), rest. rewrite Hv. split_and!; try done. destruct Happ as [-> |[-> ->]]; [by left|right].
    split; [done|]. unfold buf_view. destruct (rx_view evs) as [[b' k'] r']. by rewrite app_assoc.
  - exists [], rx. split_and!; try done. by left.
  - by exists b, rest.
Qed.

Lemma encode_requests_nil rs : encode_requests rs = [] -> rs = [].
Proof.
  destruct rs as [|r rs]; [done|]. intros [H _]%app_nil. apply (f_equal length) in H. revert H.
  destruct r; cbn [encode_request]; rewrite push_front_header_eq, length_app, length_header; simpl; lia.
Qed.

Lemma waiting_nothing buf rx i : waiting buf rx i -> buf = [] -> rx = [] -> i = [].
Proof.
  induction 1 as [|buf rx rs k rest Hv _ Hk|buf rx rs rest i Hv _ _ IH]; intros Hb Hr; [done|..]; subst buf rx;
    rewrite buf_view_nil in Hv; simpl in Hv; injection Hv as Hrs Hw.
  - by rewrite <-Hw in Hk.
  - rewrite (encode_requests_nil rs (eq_sym Hrs)). by apply IH.
Qed.

Lemma encode_requests_app rs rs' : encode_requests (rs ++ rs') = encode_requests rs ++ encode_requests rs'.
Proof. unfold encode_requests. by rewrite map_app, concat_app. Qed.

(** New requests queue up behind those that wait. *)
Lemma waiting_app buf rx i evs i' :
  waiting buf rx i -> rx_open rx -> waiting [] evs i' -> waiting buf (rx ++ evs) (i ++ i').
Proof.
  intros Hi Hopen Hi'. revert Hopen.
  induction Hi as [|buf rx rs k rest Hv Hrs Hk|buf rx rs rest i Hv Hrs Hi IH]; intros Hopen; [done|..].
  - destruct (rx_view_app rx evs Hopen) as (b & rest' & Hv' & _). unfold buf_view in Hv. rewrite Hv' in Hv.
    injection Hv as _ <- _. done.
  - destruct (rx_view_app rx evs Hopen) as (b & rest' & Hv' & Hrest & Happ). unfold buf_view in Hv.
    rewrite Hv' in Hv. injection Hv as Hrs' ->. rewrite <-app_assoc. destruct Happ as [Happ|[-> Happ]].
    + apply (waiting_more _ _ rs (rest ++ evs)); [|done|by apply IH]. unfold buf_view. by rewrite Happ, Hrs'.
    + apply waiting_nothing in Hi as ->; [|done..]. simpl. assert (buf_view buf (rx ++ evs) = buf_view (encode_requests rs) evs) as E.
      { unfold buf_view at 1. rewrite Happ. unfold buf_view. destruct (rx_view evs) as [[b' k'] r'].
        by rewrite <-Hrs', app_assoc. }
      destruct (waiting_inv _ _ _ Hi') as (rs' & k & rest & i & Hv2 & Hrs2 & -> & Hk).
      rewrite app_assoc. eapply (waiting_tail _ _ (rs ++ rs') k rest); [|by apply Forall_app|done].
      rewrite E. unfold buf_view in Hv2 |- *. destruct (rx_view evs) as [[b' k'] r']. injection Hv2 as -> -> ->.
      by rewrite encode_requests_app.
Qed.

Section Refine_defs.
Context {P : Platform}.

Record polite (w : World) : Prop := {
  pl_tx : forall sid, healthy (tx (sock sid w));
  pl_backlog : Forall polite_client (backlog w);
  pl_oracle : oracle w = [];
}.

(** What such an environment does to a thread that has read [buf] ahead. *)
Definition polite_environment (buf : list u8) (w w' : World) : Prop :=
  environment w w' /\ polite w' /\ next_sock w' = next_sock w /\
  (forall sid, sent (sock sid w') = sent (sock sid w)) /\
  forall sid, connection (ctx w') = Some sid -> exists i, waiting buf (rx (sock sid w')) i.

(** * Names and flags

    Every known tracepoint has a flag of its own, and the flag of one the thread
    has not entered yet is down. *)
Record names_ok (w : World) : Prop := {
  no_sub : forall n l, ctx_tracepoints (ctx w) !! n = Some l -> known w !! n = Some l;
  no_news : forall n l, NewTracepoint (mkTracepoint n l) ∈ queued w -> known w !! n = Some l;
  no_inj : forall n n' l, known w !! n = Some l -> known w !! n' = Some l -> n = n';
  no_cell : forall n l, known w !! n = Some l -> tp_cell w l;
  no_unlisted : forall n l, known w !! n = Some l -> ctx_tracepoints (ctx w) !! n = None ->
    heap w !! l = Some false;
}.

(** So many tracepoints that a list of them does not fit a message are left
    aside. *)
Definition few (w : World) : Prop := 34 * Z.of_nat (size (known w)) < 2 ^ 32.

(** * The abstraction of the thread *)

Definition on (w : World) (n : list u8) : Prop :=
  exists l, known w !! n = Some l /\ heap w !! l = Some true.

Record abstracts_at (buf : list u8) (w : World) (f : Spec) : Prop := {
  ab_registered : dom (known w) = sp_registered f;
  ab_listed : dom (ctx_tracepoints (ctx w)) = sp_listed f;
  ab_enabled : forall n, n ∈ sp_enabled f <-> on w n;
  ab_client : connection (ctx w) = sp_client f;
  ab_inbox : forall sid, connection (ctx w) = Some sid -> waiting buf (rx (sock sid w)) (sp_inbox f);
  ab_queue : buffer (ctx w) ++ payloads (queued w) = sp_queue f;
  ab_out : few w -> forall sid, transcript (sent (sock sid w)) (outputs sid (sp_out f));
  ab_fresh : forall sid, (next_sock w <= sid)%nat -> sent (sock sid w) = [] /\ outputs sid (sp_out f) = [];
  ab_session : forall sid, connection (ctx w) = Some sid -> (sid < next_sock w)%nat;
  ab_names : names_ok w;
}.

(** [w'] has the same abstraction as [w]. *)
Record same_view (w w' : World) : Prop := {
  sv_known : known w' = known w;
  sv_tracepoints : ctx_tracepoints (ctx w') = ctx_tracepoints (ctx w);
  sv_cc : ctx_client_connected (ctx w') = ctx_client_connected (ctx w);
  sv_connection : connection (ctx w') = connection (ctx w);
  sv_queue : buffer (ctx w') ++ payloads (queued w') = buffer (ctx w) ++ payloads (queued w);
  sv_news : forall m, m ∈ queued w' -> m ∈ queued w \/ (forall t, m <> NewTracepoint t);
  sv_heap : heap w' = heap w;
  sv_rx : forall sid, rx (sock sid w') = rx (sock sid w);
  sv_sent : forall sid, sent (sock sid w') = sent (sock sid w);
  sv_next : next_sock w' = next_sock w;
}.

Lemma names_frame w w' :
  known w' = known w -> ctx_tracepoints (ctx w') = ctx_tracepoints (ctx w) ->
  ctx_client_connected (ctx w') = ctx_client_connected (ctx w) ->
  (forall m, m ∈ queued w' -> m ∈ queued w \/ (forall t, m <> NewTracepoint t)) -> heap w' = heap w ->
  names_ok w -> names_ok w'.
Proof.
  intros Hk Ht Hc Hn Hh []. split; rewrite ?Hk, ?Ht, ?Hh; try done.
  - intros n l Hin. destruct (Hn _ Hin) as [H|H]; [by apply no_news0|by destruct (H _ eq_refl)].
  - intros n l Hl. destruct (no_cell0 n l Hl). split; [by rewrite Hh|by rewrite Hc].
Qed.

Lemma same_view_abstracts buf w w' f : same_view w w' -> abstracts_at buf w f -> abstracts_at buf w' f.
Proof.
  intros [Hk Ht Hc Hco Hq Hnews Hh Hrx Hse Hnx] []. pose proof (names_frame _ _ Hk Ht Hc Hnews Hh ab_names0) as Hn.
  split; try congruence.
  - intros n. rewrite ab_enabled0. unfold on. by rewrite Hk, Hh.
  - intros sid. rewrite Hco, Hrx. apply ab_inbox0.
  - unfold few. rewrite Hk. intros Hf sid. rewrite Hse. by apply ab_out0.
  - intros sid. rewrite Hnx, Hse. apply ab_fresh0.
  - intros sid. rewrite Hnx, Hco. apply ab_session0.
Qed.

(** Changes outside of what is abstracted. *)
Lemma same_view_eq w w' :
  rec (ctx w') = rec (ctx w) -> chans w' = chans w ->
  ctx_tracepoints (ctx w') = ctx_tracepoints (ctx w) ->
  ctx_client_connected (ctx w') = ctx_client_connected (ctx w) ->
  connection (ctx w') = connection (ctx w) -> buffer (ctx w') = buffer (ctx w) ->
  heap w' = heap w -> (forall sid, rx (sock sid w') = rx (sock sid w)) ->
  (forall sid, sent (sock sid w') = sent (sock sid w)) -> next_sock w' = next_sock w ->
  same_view w w'.
Proof.
  intros Hr Hch Ht Hc Hco Hb Hh Hx Hs Hn. pose proof (queued_frame w w' Hr Hch) as Hq.
  split; try done; rewrite ?Hq; try congruence.
  - unfold known. by rewrite Ht, Hq.
  - by left.
Qed.

Lemma polite_eq w w' :
  (forall sid, tx (sock sid w') = tx (sock sid w)) -> backlog w' = backlog w -> oracle w' = oracle w ->
  polite w -> polite w'.
Proof. intros Ht Hb Ho []. split; try congruence. intros sid. by rewrite Ht. Qed.

(** A state that implements the abstract state [f], and one that can be reached
    by what the abstract tracer does by itself from [f]. *)
Definition implements_at (buf : list u8) (w : World) (f : Spec) : Prop :=
  Inv w /\ polite w /\ abstracts_at buf w f.
Definition implements_from_at (buf : list u8) (f : Spec) (w : World) : Prop :=
  Inv w /\ polite w /\ exists f', rtc tracer_step f f' /\ abstracts_at buf w f'.
End Refine_defs.

Section Thread_sim.
Context {P : Platform} {TL : TimerLaws P} {HL : HashLaws P} {CL : ChannelLaws P} (buf : list u8).
#[local] Notation abstracts := (abstracts_at buf).
#[local] Notation implements := (implements_at buf).
#[local] Notation implements_from := (implements_from_at buf).

Lemma implements_from_refl w f : implements w f -> implements_from f w.
Proof. intros (? & ? & ?). split; [done|]. split; [done|]. by exists f. Qed.

Lemma implements_from_step w w' f :
  implements_from f w -> (forall f', implements w f' -> implements_from f' w') -> implements_from f w'.
Proof.
  intros (Hi & Hp & f1 & Hrun & Ha) Hnext. destruct (Hnext f1) as (Hi' & Hp' & f2 & Hrun' & Ha'); [by split_and!|].
  split; [done|]. split; [done|]. exists f2. split; [by etrans|done].
Qed.

(** ** Sending the buffer *)

Lemma transmit_all sid es R L E i d ch q acc out :
  rtc tracer_step (mkSpec R L E (Some sid) i d ch (es ++ q) acc out)
    (mkSpec R L E (Some sid) i d ch q acc (out ++ map (fun e => (sid, ORecord e)) es)).
Proof.
  revert out. induction es as [|e es IH]; intros out; simpl; [by rewrite app_nil_r|].
  eapply rtc_l; [apply sp_transmit|]. specialize (IH (out ++ [(sid, ORecord e)])). by rewrite <-app_assoc in IH.
Qed.

Lemma outputs_records sid k es :
  outputs sid (map (fun e => (k, ORecord e)) es) = if decide (k = sid) then map ORecord es else [].
Proof.
  unfold outputs. case_decide as Hd.
  - induction es as [|e es IH]; [done|]. simpl. rewrite decide_True by done. by f_equal.
  - induction es as [|e es IH]; [done|]. simpl. by rewrite decide_False by done.
Qed.

Lemma outputs_app sid a b : outputs sid (a ++ b) = outputs sid a ++ outputs sid b.
Proof. unfold outputs. by rewrite omap_app. Qed.

Lemma sock_flushed sid k tx' bytes w :
  sock k (flushed sid tx' bytes w) =
    if decide (k = sid) then mkSocket (rx (sock sid w)) tx' (sent (sock sid w) ++ bytes) else sock k w.
Proof.
  unfold sock, flushed. simpl. rewrite lookup_insert. repeat case_decide; try done; congruence.
Qed.

Lemma flushed_abstracts sid tx' w f :
  connection (ctx w) = Some sid -> Forall fits (buffer (ctx w)) -> abstracts w f ->
  exists f', rtc tracer_step f f' /\ abstracts (flushed sid tx' (flush_bytes (buffer (ctx w))) w) f'.
Proof.
  intros Hc Hf []. destruct f as [R L E c i d ch q acc out]. simpl in *. subst.
  set (w' := flushed sid tx' _ w). rewrite Hc.
  exists (mkSpec (dom (known w)) (dom (ctx_tracepoints (ctx w))) E (Some sid) i d ch (payloads (queued w)) acc
    (out ++ map (fun e => (sid, ORecord e)) (buffer (ctx w)))).
  split; [apply transmit_all|].
  assert (queued w' = queued w) as Hq by by apply queued_frame.
  assert (known w' = known w) as Hk by by unfold known; rewrite Hq.
  split; cbn [sp_registered sp_listed sp_enabled sp_client sp_inbox sp_queue sp_out]; try done.
  - intros k Hk2. unfold w'. rewrite sock_flushed. specialize (ab_inbox0 k Hk2). by case_decide; subst.
  - unfold few. rewrite Hk. intros Hfew k. unfold w'. rewrite sock_flushed, outputs_app, outputs_records.
    specialize (ab_out0 Hfew k). destruct (decide (k = sid)) as [->|Hne].
    + rewrite decide_True by done. apply transcript_app; [done|]. by apply flush_transcript.
    + rewrite decide_False by done. by rewrite app_nil_r.
  - intros k Hk2. change (next_sock w') with (next_sock w) in Hk2. pose proof (ab_session0 sid Hc). unfold w'. rewrite sock_flushed, outputs_app, outputs_records.
    rewrite !decide_False by lia. rewrite app_nil_r. by apply ab_fresh0.
  - eapply names_frame; [exact Hk|done|done| |done|done]. intros m. rewrite Hq. by left.
Qed.

Lemma send_empty w : buffer (ctx w) = [] -> send_trace_data w = Ret tt w.
Proof.
  intros Hb. unfold send_trace_data, send_fuel. rewrite Hb. simpl.
  unfold send_trace_data_loop. cbn [loop]. unfold send_trace_data_body, gets, mbind, M_bind. by rewrite Hb.
Qed.

Lemma flush_sim w w' f : implements w f -> send_trace_data w = Ret tt w' -> implements_from f w'.
Proof.
  intros (Hi & Hp & Ha) Hrun. pose proof (wp_inv _ _ _ _ _ _ (send_trace_data_safe w Hi) Hrun) as [Hi' _].
  destruct (connection (ctx w)) as [sid|] eqn:Hc.
  - destruct (inv_sock _ Hi sid Hc) as [s Hs].
    assert (sock sid w = s) as Hsock by (unfold sock; by rewrite Hs).
    destruct (flush_run w sid s Hc Hs) as (tx' & Hh & Hrun'); [rewrite <-Hsock; apply Hp|apply Hi|].
    rewrite Hrun in Hrun'. injection Hrun' as ->. split; [done|]. split.
    + destruct Hp. split; try done. intros k. rewrite sock_flushed. by case_decide.
    + apply flushed_abstracts; [done|apply Hi|done].
  - destruct (buffer (ctx w)) as [|e es] eqn:Hb.
    + rewrite send_empty in Hrun by done. injection Hrun as <-. by apply implements_from_refl.
    + destruct (flush_unconnected_run w e es Hc Hb) as (w1 & Hpanic & _); [apply Hi|]. by rewrite Hrun in Hpanic.
Qed.
(** ** Steps that are not visible *)

(** Changes to the context that are not abstracted. *)
Definition invisible (g : TracerContext -> TracerContext) : Prop :=
  forall c, rec (g c) = rec c /\ ctx_tracepoints (g c) = ctx_tracepoints c /\
    ctx_client_connected (g c) = ctx_client_connected c /\ connection (g c) = connection c /\
    buffer (g c) = buffer c.

Lemma invisible_sim g l w f :
  invisible g -> abstracts w f -> polite w ->
  abstracts (with_log l (upd_ctx g w)) f /\ polite (with_log l (upd_ctx g w)).
Proof.
  intros Hg Ha Hp. destruct (Hg (ctx w)) as (? & ? & ? & ? & ?). split.
  - eapply same_view_abstracts; [|exact Ha]. by apply same_view_eq.
  - by apply (polite_eq w).
Qed.

Lemma upd_ctx_invisible g w f :
  invisible g -> Inv (upd_ctx g w) -> abstracts w f -> polite w -> implements (upd_ctx g w) f.
Proof.
  intros Hg Hi Ha Hp. destruct (invisible_sim g (log w) w f Hg Ha Hp) as [Ha' Hp'].
  assert (with_log (log w) (upd_ctx g w) = upd_ctx g w) as E by by destruct w. rewrite E in *. by split_and!.
Qed.

Lemma timers_invisible g : timers_only g -> invisible g.
Proof. intros Hg c. by destruct (Hg c) as (t & q & u & -> & _). Qed.

(** ** The channel *)

(** An operation on the timers is not visible. *)
Lemma timer_op_sim g w f :
  timers_only g -> safe frame (in_ctx g) -> implements w f -> implements (upd_ctx g w) f.
Proof.
  intros Hg Hsafe (Hi & Hp & Ha). pose proof (wp_inv _ _ _ _ _ (upd_ctx g w) (Hsafe w Hi) eq_refl) as [Hi' _].
  apply upd_ctx_invisible; [by apply timers_invisible|done..].
Qed.

Lemma try_recv_frame w m w' :
  try_recv w = Ret m w' ->
  ctx w' = ctx w /\ heap w' = heap w /\ socks w' = socks w /\ next_sock w' = next_sock w /\
  backlog w' = backlog w /\ oracle w' = oracle w.
Proof.
  unfold try_recv. destruct (chans w !! _) as [q|]; [|by intros [= _ <-]].
  destruct (channel_try_recv q). by intros [= _ <-].
Qed.

(** The state after a message was received. *)
Lemma received_sim w m r w1 f :
  implements w f -> queued w = m :: r -> try_recv w = Ret (Some m) w1 -> queued w1 = r ->
  Inv w1 /\ polite w1 /\ msg_ok w1 m /\ ctx w1 = ctx w /\ heap w1 = heap w /\
  (forall k, sock k w1 = sock k w) /\ next_sock w1 = next_sock w.
Proof.
  intros (Hi & Hp & _) Hq Hrun Hq1.
  destruct (try_recv_frame _ _ _ Hrun) as (Hctx & Hheap & Hso & Hnx & Hbl & Hor).
  destruct (try_recv_inv _ _ _ _ Hi Hq Hq1 Hctx Hheap Hso) as [Hi1 Hm].
  assert (forall k, sock k w1 = sock k w) as Hsock by (intros k; unfold sock; by rewrite Hso).
  split_and!; try done. apply (polite_eq w); try done. intros sid. by rewrite Hsock.
Qed.

Lemma append_sim e w w1 r f :
  implements w f -> queued w = Payload e :: r -> try_recv w = Ret (Some (Payload e)) w1 -> queued w1 = r ->
  implements (upd_ctx (append e) w1) f.
Proof.
  intros Himp Hq Hrecv Hq1.
  destruct (received_sim _ _ _ _ _ Himp Hq Hrecv Hq1) as (Hi1 & Hp1 & Hfits & Hctx & Hheap & Hsock & Hnx).
  destruct Himp as (_ & _ & Ha). set (w2 := upd_ctx (append e) w1).
  pose proof (wp_inv _ _ _ _ _ w2 (append_safe e Hfits w1 Hi1) eq_refl) as [Hi2 _].
  split; [done|]. split; [by apply (polite_eq w1)|].
  assert (queued w2 = r) as Hq2 by (rewrite <-Hq1; by apply queued_frame).
  eapply same_view_abstracts; [|exact Ha]. split; try done; try (simpl; by rewrite Hctx).
  - unfold known. rewrite Hq2, Hq. simpl. by rewrite Hctx.
  - rewrite Hq2, Hq. simpl. by rewrite Hctx, <-app_assoc.
  - intros m. rewrite Hq2, Hq. intros Hin. left. by right.
  - intros sid. by rewrite <-(Hsock sid).
  - intros sid. by rewrite <-(Hsock sid).
Qed.

Lemma data_handler_sim e w w1 w' r f :
  implements w f -> queued w = Payload e :: r -> try_recv w = Ret (Some (Payload e)) w1 -> queued w1 = r ->
  channel_data_handler e w1 = Ret tt w' -> implements_from f w'.
Proof.
  intros Himp Hq Hrecv Hq1 Hrun.
  pose proof (append_sim _ _ _ _ _ Himp Hq Hrecv Hq1) as H2. set (w2 := upd_ctx (append e) w1) in *.
  unfold channel_data_handler, mbind, M_bind, in_ctx, modify, gets in Hrun. fold w2 in Hrun.
  destruct (QUEUE_TOTAL_SIZE <? _).
  - eapply flush_sim; [|exact Hrun]. apply timer_op_sim; [apply stop_queue_timers|apply stop_queue_safe|done].
  - injection Hrun as <-. apply implements_from_refl.
    apply timer_op_sim; [apply start_queue_timers|apply start_queue_safe|done].
Qed.

Lemma insert_sim t w w1 r f :
  implements w f -> queued w = NewTracepoint t :: r -> try_recv w = Ret (Some (NewTracepoint t)) w1 ->
  queued w1 = r -> implements_from f (upd_ctx (insert_tracepoint t) w1).
Proof.
  intros Himp Hq Hrecv Hq1.
  destruct (received_sim _ _ _ _ _ Himp Hq Hrecv Hq1) as (Hi1 & Hp1 & Hmsg & Hctx & Hheap & Hsock & Hnx).
  destruct Himp as (_ & _ & Ha). destruct t as [n l]. set (w2 := upd_ctx _ w1).
  assert (queued w2 = r) as Hq2 by (rewrite <-Hq1; by apply queued_frame).
  assert (known w2 = known w) as Hk by (unfold known; rewrite Hq2, Hq; simpl; by rewrite Hctx).
  split; [by apply insert_tracepoint_inv|]. split; [by apply (polite_eq w1)|].
  destruct Ha as [Hreg Hlist Hen Hcl Hin Hqu Hout Hfr Hse [Hsub Hnews Hinj Hcell Hun]].
  destruct f as [R L E c i d ch q acc out]. simpl in *.
  assert (known w !! n = Some l) as Hn by (apply Hnews; rewrite Hq; by left).
  exists (mkSpec R ({[n]} ∪ L) E c i d ch q acc out). split.
  { apply rtc_once, sp_list. rewrite <-Hreg. by apply elem_of_dom_2 in Hn. }
  assert (ctx_tracepoints (ctx w2) = <[n := l]> (ctx_tracepoints (ctx w))) as Ht by by simpl; rewrite Hctx.
  split; cbn [sp_registered sp_listed sp_enabled sp_client sp_inbox sp_queue sp_out].
  - by rewrite Hk.
  - by rewrite Ht, dom_insert_L, Hlist.
  - intros m. rewrite Hen. unfold on. rewrite Hk. simpl. by rewrite Hheap.
  - simpl. by rewrite Hctx.
  - intros sid. simpl. rewrite Hctx. change (sock sid w2) with (sock sid w1). rewrite Hsock. apply Hin.
  - rewrite Hq2. simpl. rewrite Hctx. rewrite Hq in Hqu. exact Hqu.
  - unfold few. rewrite Hk. intros Hf sid. change (sock sid w2) with (sock sid w1). rewrite Hsock. by apply Hout.
  - intros sid. simpl. rewrite Hnx. intros Hle. destruct (Hfr sid Hle) as [H1 H2]. split; [|done].
    change (sock sid w2) with (sock sid w1). by rewrite Hsock.
  - intros sid. simpl. rewrite Hctx, Hnx. apply Hse.
  - split; rewrite ?Hk, ?Ht, ?Hq2.
    + intros m k. rewrite lookup_insert. case_decide; [by intros [= <-]; subst|apply Hsub].
    + intros m k Hm. apply Hnews. rewrite Hq. by right.
    + done.
    + intros m k Hm. destruct (Hcell m k Hm) as [H1 H2]. split; simpl; [by rewrite Hheap|by rewrite Hctx].
    + intros m k Hm. rewrite lookup_insert. case_decide; [done|]. intros Hnone. simpl. rewrite Hheap.
      by apply (Hun m k).
Qed.

Lemma channel_handler_body_sim ret w r w' f :
  implements_from f w -> channel_handler_body ret w = Ret r w' ->
  match r with
  | inl _ => implements_from f w'
  | inr st => st <> Terminate -> implements_from f w'
  end.
Proof.
  intros Hw Hrun. unfold channel_handler_body, mbind at 1, M_bind at 1 in Hrun.
  pose proof (try_recv_run w) as Hrecv. destruct (queued w) as [|m q] eqn:Hq.
  { rewrite Hrecv in Hrun. by injection Hrun as <- <-. }
  destruct Hrecv as (w1 & Hrecv & Hq1 & _). rewrite Hrecv in Hrun. destruct m as [e|t|].
  - unfold mbind, M_bind in Hrun. destruct (channel_data_handler e w1) as [[] w2| | |] eqn:E; try done.
    injection Hrun as <- <-. eapply implements_from_step; [exact Hw|]. intros f' Hf'. by eapply data_handler_sim.
  - injection Hrun as <- <-. eapply implements_from_step; [exact Hw|]. intros f' Hf'. by eapply insert_sim.
  - unfold mbind, M_bind, gets in Hrun. destruct (if bool_decide _ then _ else _) as [[] w2| | |] in Hrun; try done.
    by injection Hrun as <- <-.
Qed.

(** ** The timers *)

Lemma announce_invisible w w' :
  announce_tracer w = Ret tt w' ->
  exists g l, invisible g /\ w' = with_log l (upd_ctx g w).
Proof.
  unfold announce_tracer, format_json, log_call, in_ctx, modify, gets, mbind, M_bind, mret, M_ret.
  cbv beta. destruct (local_port (listener (ctx w))) as [port|]; cbn [unwrap]; [|done].
  destruct (udp_sock (ctx w)) as [s|].
  - destruct (announce_addr (app_cfg (ctx w))) as [a|]; cbn [unwrap]; [|done]. intros [= <-].
    eexists (fun c => with_sequence_no (u64_of (sequence_no c + 1)) c), _. split; [done|reflexivity].
  - intros [= <-]. exists (fun c => with_sequence_no (u64_of (sequence_no c + 1)) c), (log w).
    split; [done|]. by destruct w.
Qed.

Lemma queue_fired_sim w t f :
  implements w f -> timer_poll (ctx_timer (ctx w)) = (t, Some QUEUE_TIMEOUT_IDENT) ->
  implements (upd_ctx (with_queue_timeout None) (upd_ctx (with_ctx_timer t) w)) f.
Proof.
  intros (Hi & Hp & Ha) Hpoll. destruct (fired_inv (with_queue_timeout None) w t _ Hi Hpoll) as [Hi2 _].
  { intros c Hc Hpc. by apply timer_ok_fire_queue. }
  { intros c. exists None, (udp_timeout c). by destruct c. }
  apply upd_ctx_invisible; [done|exact Hi2| |by apply (polite_eq w)].
  eapply same_view_abstracts; [|exact Ha]. by apply same_view_eq.
Qed.

Lemma timer_handler_body_sim u w r w' f :
  implements_from f w -> timer_handler_body u w = Ret r w' -> implements_from f w'.
Proof.
  intros Hw Hrun. eapply implements_from_step; [exact Hw|]. clear f Hw. intros f (Hi & Hp & Ha).
  pose proof (wp_inv _ _ _ _ _ _ (timer_handler_body_safe u w Hi) Hrun) as [Hi' _].
  unfold timer_handler_body, mbind at 1, M_bind at 1 in Hrun.
  destruct (poll_timer_run w) as (t & s & Hpoll & Hrecv). rewrite Hrecv in Hrun.
  destruct s as [s|]; [|injection Hrun as <- <-; by apply implements_from_refl, upd_ctx_invisible].
  destruct (invisible_sim (with_ctx_timer t) (log w) w f) as [Ha1 Hp1]; [done..|].
  destruct (timer_ok_fire_ident _ _ _ (inv_timer _ Hi) Hpoll) as [-> | ->]; cbn in Hrun.
  - unfold mbind, M_bind, in_ctx, modify in Hrun.
    destruct (send_trace_data _) as [[] w2| | |] eqn:E in Hrun; [|done..]. injection Hrun as <- <-.
    eapply flush_sim; [|exact E]. by apply queue_fired_sim.
  - unfold mbind, M_bind, in_ctx, modify in Hrun.
    destruct (announce_tracer _) as [[] w2| | |] eqn:E in Hrun; [|done..]. injection Hrun as <- <-.
    apply announce_invisible in E as (g & l & Hg & ->).
    destruct (invisible_sim (with_udp_timeout None) (log w) (upd_ctx (with_ctx_timer t) w) f) as [Ha2 Hp2];
      [done|by destruct w|by destruct w|].
    apply implements_from_refl. split; [exact Hi'|].
    destruct (start_udp_timers (g (with_udp_timeout None (with_ctx_timer t (ctx w))))) as (t' & q' & u' & E & _).
    destruct (Hg (with_udp_timeout None (with_ctx_timer t (ctx w)))) as (? & ? & ? & ? & ?).
    split.
    + by apply (polite_eq w).
    + eapply same_view_abstracts; [|exact Ha]. apply same_view_eq; try done; simpl; by rewrite E.
Qed.

(** ** Accepting a client *)

(** Lowering or raising [client_connected] touches no tracepoint. *)
Lemma on_cc w b n :
  names_ok w ->
  (exists l, known w !! n = Some l /\ <[ctx_client_connected (ctx w) := b]> (heap w) !! l = Some true) <-> on w n.
Proof.
  intros []. unfold on. split; intros (l & Hl & Hh); exists l; (split; [done|]).
  all: destruct (no_cell0 n l Hl) as [_ Hne].
  - by rewrite lookup_insert_ne in Hh.
  - by rewrite lookup_insert_ne.
Qed.

(** A client connects that has asked [i] already. *)
Definition connects (i : list request) (f f' : Spec) : Prop :=
  (forall feeds, spec_step feeds f f') /\ sp_client f = None /\
  sp_checked f' = sp_checked f /\ sp_accepted f' = sp_accepted f /\ requests f' = i.

Lemma connected_abstracts w f s r i' :
  abstracts w f -> connection (ctx w) = None -> sent s = [] -> waiting buf (rx s) i' ->
  let sid := next_sock w in
  let w' := with_log (log w ++ [PollRegister sid])
    (with_heap (<[ctx_client_connected (ctx w) := true]> (heap w))
      (upd_ctx (with_connection (Some sid)) (with_next_sock (S sid) (set_sock sid s (with_backlog r w))))) in
  exists f', connects i' f f' /\ abstracts w' f'.
Proof.
  intros [Hreg Hlist Hen Hcl Hin Hqu Hout Hfr Hse Hno] Hc Hsent Hwait sid w'.
  destruct f as [R L E c i d ch q acc out]. simpl in *. rewrite Hc in Hcl. subst c.
  destruct (Hfr sid) as [Hs Ho]; [done|].
  assert (queued w' = queued w) as Hq by by apply queued_frame.
  assert (known w' = known w) as Hk by by unfold known; rewrite Hq.
  assert (forall k, sent (sock k w') = sent (sock k w)) as Hsents.
  { intros k. destruct (decide (k = sid)) as [->|Hne].
    - rewrite Hs. change (sock sid w') with (sock sid (set_sock sid s (with_backlog r w))). by rewrite sock_set_sock.
    - unfold sock. simpl. by rewrite lookup_insert_ne. }
  exists (mkSpec R L E (Some sid) i' [] ch q acc out). split.
  { split; [|done]. intros feeds. apply sp_connect. by apply outputs_nil. }
  split; cbn [sp_registered sp_listed sp_enabled sp_client sp_inbox sp_queue sp_out]; try done.
  - intros n. rewrite Hen. unfold on. rewrite Hk. symmetry. by apply on_cc.
  - intros k [= <-]. change (sock sid w') with (sock sid (set_sock sid s (with_backlog r w))). by rewrite sock_set_sock.
  - unfold few. rewrite Hk. intros Hf k. rewrite Hsents. by apply Hout.
  - intros k Hk2. rewrite Hsents. apply Hfr. change (next_sock w') with (S (next_sock w)) in Hk2. lia.
  - intros k. change (connection (ctx w')) with (Some sid). change (next_sock w') with (S sid).
    intros [= <-]. lia.
  - destruct Hno as [Hsub Hnews Hinj Hcell Hun]. split; rewrite ?Hk, ?Hq; try done.
    + intros n l Hl. destruct (Hcell n l Hl) as [Hsome Hne]. split; [|done]. simpl. by rewrite lookup_insert_ne.
    + intros n l Hl Hn. destruct (Hcell n l Hl) as [_ Hne]. simpl. rewrite lookup_insert_ne by done. by apply (Hun n l).
Qed.

(** A pending connection is accepted, or there is none. *)
Lemma accept_sim w w' f :
  buf = [] -> implements w f -> connection (ctx w) = None ->
  (establish_connection;; in_ctx check_stop_udp_timer) w = Ret tt w' ->
  Inv w' /\ polite w' /\
  match connection (ctx w') with
  | None => abstracts w' f
  | Some sid => (exists i, waiting [] (rx (sock sid w')) i) /\
      forall i, waiting [] (rx (sock sid w')) i -> exists f', connects i f f' /\ abstracts w' f'
  end.
Proof.
  intros Hbuf (Hi & Hp & Ha) Hc Hrun.
  assert (safe keeps (establish_connection;; in_ctx check_stop_udp_timer)) as Hsafe.
  { apply safe_bind; [apply keeps_preorder|apply establish_connection_safe|]. intros _. apply safe_keeps, safe_frame0, stop_udp_safe. }
  pose proof (wp_inv _ _ _ _ _ _ (Hsafe w Hi) Hrun) as [Hi' _]. split; [done|].
  unfold mbind at 1, M_bind at 1 in Hrun.
  destruct (establish_connection w) as [[] w1| | |] eqn:Hest; [|done..].
  injection Hrun as <-.
  assert (forall f', abstracts w1 f' -> polite w1 -> abstracts (upd_ctx check_stop_udp_timer w1) f') as Htimer.
  { intros f' Ha1 Hp1.
    by destruct (upd_ctx_invisible _ w1 f' (timers_invisible _ stop_udp_timers) Hi' Ha1 Hp1) as (_ & _ & ?). }
  destruct (timers_invisible _ stop_udp_timers (ctx w1)) as (_ & _ & _ & Hconn & _).
  change (ctx (upd_ctx check_stop_udp_timer w1)) with (check_stop_udp_timer (ctx w1)). rewrite Hconn.
  assert (polite w1 -> polite (upd_ctx check_stop_udp_timer w1)) as Hpo by by apply polite_eq.
  unfold establish_connection, accept, try_clone_unwrap, succeeds, log_call, atomic_store, in_ctx, modify, gets,
    mbind, M_bind, mret, M_ret in Hest.
  destruct (backlog w) as [|[k|s] r] eqn:Hb.
  - injection Hest as <-. split; [by apply Hpo|]. rewrite Hc. by apply Htimer.
  - injection Hest as <-. assert (polite (with_backlog r w)) as Hp1.
    { destruct Hp. split; try done. simpl. rewrite Hb in pl_backlog0. by apply Forall_cons in pl_backlog0 as [_ ?]. }
    split; [by apply Hpo|]. change (ctx (with_backlog r w)) with (ctx w). rewrite Hc. apply Htimer; [|done].
    eapply same_view_abstracts; [|exact Ha]. by apply same_view_eq.
  - pose proof (pl_oracle _ Hp) as Ho. cbn in Hest. rewrite Ho in Hest. cbn in Hest. rewrite Ho in Hest.
    injection Hest as <-. pose proof (pl_backlog _ Hp) as Hbl. rewrite Hb in Hbl.
    apply Forall_cons in Hbl as [(Hsent & Htx & i' & Hrx) Hbl].
    match goal with |- polite (upd_ctx _ ?w1) /\ _ => set (w2 := w1) in * end.
    assert (polite w2) as Hp1.
    { destruct Hp. split; simpl; try done.
      intros k. unfold sock. simpl. rewrite lookup_insert. case_decide; [done|]. apply pl_tx0. }
    split; [by apply Hpo|]. change (connection (ctx w2)) with (Some (next_sock w)). cbv beta iota.
    assert (rx (sock (next_sock w) (upd_ctx check_stop_udp_timer w2)) = rx s) as ->.
    { unfold sock. simpl. by rewrite lookup_insert_eq. }
    split; [by exists i'|]. intros i Hrxi.
    destruct (connected_abstracts w f s r i) as (f' & Hf' & Ha'); try done; [by rewrite Hbuf|].
    exists f'. split; [done|]. by apply Htimer.
Qed.

(** ** Requests *)

(** The flag of one listed tracepoint. *)
Lemma flag_abstracts (b : bool) n l w R L E c i d ch q acc out :
  abstracts w (mkSpec R L E c i d ch q acc out) -> ctx_tracepoints (ctx w) !! n = Some l ->
  abstracts (with_heap (<[l := b]> (heap w)) w)
    (mkSpec R L (if b then {[n]} ∪ E else E ∖ {[n]}) c i d ch q acc out).
Proof.
  intros [Hreg Hlist Hen Hcl Hin Hqu Hout Hfr Hse Hno] Hn. pose proof Hno as [Hsub Hnews Hinj Hcell Hun].
  simpl in *. set (w' := with_heap _ w).
  assert (forall m k, m <> n -> known w !! m = Some k -> heap w' !! k = heap w !! k) as Hother.
  { intros m k Hne Hk. simpl. rewrite lookup_insert_ne; [done|]. intros ->. by destruct Hne, (Hinj m n k Hk (Hsub _ _ Hn)). }
  assert (heap w' !! l = Some b) as Hl by by simpl; rewrite lookup_insert_eq.
  assert (names_ok w') as Hno'.
  { split; try done.
    - intros m k Hk. destruct (Hcell m k Hk) as [Hsome Hne]. split; [|done]. simpl. rewrite lookup_insert.
      case_decide; [by eexists|done].
    - intros m k Hk Hm. change (ctx w') with (ctx w) in Hm.
      destruct (decide (m = n)) as [->|Hne]; [congruence|].
      rewrite (Hother m k Hne Hk). by apply (Hun m k). }
  split; cbn [sp_registered sp_listed sp_enabled sp_client sp_inbox sp_queue sp_out]; try done.
  intros m. assert (on w' m <-> if decide (m = n) then b = true else on w m) as ->.
  { unfold on. change (known w') with (known w). case_decide as Hd.
    - subst m. split.
      + intros (k & Hk & Ht). rewrite (Hsub _ _ Hn) in Hk. injection Hk as <-. congruence.
      + intros ->. exists l. split; [by apply Hsub|done].
    - split; intros (k & Hk & Ht); exists k; (split; [done|]); by rewrite (Hother m k Hd Hk) in *. }
  specialize (Hen m). destruct b; case_decide; set_solver.
Qed.

Lemma flags_abstracts b ns w R L E c i d ch q acc out :
  abstracts w (mkSpec R L E c i d ch q acc out) ->
  abstracts (with_heap (set_flags (ctx_tracepoints (ctx w)) b ns (heap w)) w)
    (mkSpec R L (spec_set L b ns E) c i d ch q acc out).
Proof.
  revert w E. induction ns as [|n ns IH]; intros w E Ha; [by destruct w|].
  unfold set_flags, spec_set. cbn [foldl]. pose proof (ab_listed _ _ _ Ha) as Hdom. simpl in Hdom.
  destruct (ctx_tracepoints (ctx w) !! n) as [l|] eqn:Hn.
  - rewrite decide_True by (rewrite <-Hdom; by eapply elem_of_dom_2).
    exact (IH _ _ (flag_abstracts b n l w _ _ _ _ _ _ _ _ _ _ Ha Hn)).
  - rewrite decide_False by (rewrite <-Hdom; by apply not_elem_of_dom). exact (IH w E Ha).
Qed.

Lemma hash_keys_elements (m : gmap (list u8) nat) : hash_keys m ≡ₚ elements (dom m).
Proof.
  apply NoDup_Permutation; [apply NoDup_hash_keys|apply NoDup_elements|]. intros n.
  by rewrite elem_of_hash_keys, elem_of_elements, elem_of_dom.
Qed.

Lemma list_reply_transcript w :
  Inv w -> names_ok w -> few w ->
  transcript (list_reply (ctx_tracepoints (ctx w))) [ONames (hash_keys (ctx_tracepoints (ctx w)))].
Proof.
  intros Hi Hno Hf. exists [MNames (hash_keys (ctx_tracepoints (ctx w)))]. split; [|by simpl; rewrite app_nil_r].
  apply Forall_cons. split; [|by apply Forall_nil]. split.
  - apply Forall_forall. intros n [l Hl]%elem_of_hash_keys. by destruct (inv_cells _ Hi n l Hl) as [(_ & ? & _) _].
  - assert (size (ctx_tracepoints (ctx w)) <= size (known w))%nat as Hle.
    { apply map_subseteq_size, map_subseteq_spec, Hno. }
    unfold few in Hf. unfold zlen. rewrite hash_keys_perm, length_fmap, length_map_to_list. lia.
Qed.

Lemma sent_set_sock sid s w k : sent (sock k (set_sock sid s w)) = if decide (k = sid) then sent s else sent (sock k w).
Proof. unfold sock. simpl. rewrite lookup_insert. repeat case_decide; try done; congruence. Qed.

Lemma rx_set_sock sid s w k : rx (sock k (set_sock sid s w)) = if decide (k = sid) then rx s else rx (sock k w).
Proof. unfold sock. simpl. rewrite lookup_insert. repeat case_decide; try done; congruence. Qed.

(** The list is sent. *)
Lemma reply_abstracts sid w s R L E c i d ch q acc out :
  Inv w -> abstracts w (mkSpec R L E c i d ch q acc out) -> connection (ctx w) = Some sid ->
  rx s = rx (sock sid w) -> sent s = sent (sock sid w) ++ list_reply (ctx_tracepoints (ctx w)) ->
  abstracts (set_sock sid s w)
    (mkSpec R L E c i d ch q acc (out ++ [(sid, ONames (hash_keys (ctx_tracepoints (ctx w))))])).
Proof.
  intros Hi [Hreg Hlist Hen Hcl Hin Hqu Hout Hfr Hse Hno] Hc Hx Hs. simpl in *.
  set (w' := set_sock sid s w). set (ns := hash_keys (ctx_tracepoints (ctx w))).
  split; cbn [sp_registered sp_listed sp_enabled sp_client sp_inbox sp_queue sp_out]; try done.
  - intros k Hk. unfold w'. rewrite rx_set_sock. case_decide; [subst k; rewrite Hx|]; by apply Hin.
  - intros Hf k. unfold w'. rewrite sent_set_sock, outputs_snoc. specialize (Hout Hf k).
    destruct (decide (k = sid)) as [->|Hne].
    + rewrite decide_True, Hs by done. apply transcript_app; [done|]. by apply list_reply_transcript.
    + by rewrite decide_False, app_nil_r.
  - intros k Hk. pose proof (Hse sid Hc). change (next_sock w') with (next_sock w) in Hk.
    unfold w'. rewrite sent_set_sock, outputs_snoc, !decide_False by lia. rewrite app_nil_r. by apply Hfr.
  - destruct Hno. by split.
Qed.
End Thread_sim.

Section Receive_sim.
Context {P : Platform} {TL : TimerLaws P} {HL : HashLaws P} {CL : ChannelLaws P}.

(** Reading on in the stream of the client. *)
Lemma reread_abstracts buf buf' sid rx' i' d' w R L E c i d ch q acc out :
  abstracts_at buf w (mkSpec R L E c i d ch q acc out) -> connection (ctx w) = Some sid -> waiting buf' rx' i' ->
  abstracts_at buf' (set_rx sid rx' w) (mkSpec R L E c i' d' ch q acc out).
Proof.
  intros [Hreg Hlist Hen Hcl Hin Hqu Hout Hfr Hse Hno] Hc Hw. simpl in *.
  assert (forall k, sent (sock k (set_rx sid rx' w)) = sent (sock k w)) as Hsent.
  { intros k. unfold set_rx. rewrite sent_set_sock. case_decide; [by subst|done]. }
  split; cbn [sp_registered sp_listed sp_enabled sp_client sp_inbox sp_queue sp_out]; try done.
  - intros k Hk. change (connection (ctx w) = Some k) in Hk. rewrite Hc in Hk. injection Hk as <-. by rewrite rx_set_rx.
  - intros Hf k. rewrite Hsent. by apply Hout.
  - intros k Hk. rewrite Hsent. by apply Hfr.
  - destruct Hno. by split.
Qed.

(** Carrying out one request. *)
Lemma executed_abstracts buf buf' sid r i w w' f :
  Inv w -> abstracts_at buf w f -> connection (ctx w) = Some sid -> sp_inbox f = r :: i ->
  executed sid r w w' -> waiting buf' (rx (sock sid w')) i ->
  exists f', rtc tracer_step f f' /\ abstracts_at buf' w' f'.
Proof.
  intros Hi Ha Hc Hbox (Hctx & Hch & (_ & Hnx & _ & _ & Hso) & Hheap & Hsent & _) Hw.
  destruct f as [R L E c i0 d ch q acc out]. simpl in Hbox. subst i0.
  pose proof (ab_client _ _ _ Ha) as Hcl. simpl in Hcl. rewrite Hc in Hcl. subst c.
  pose proof (reread_abstracts _ _ _ _ _ (d ++ [r]) _ _ _ _ _ _ _ _ _ _ _ Ha Hc Hw) as Ha1.
  set (w1 := set_rx sid _ w) in *.
  assert (Inv w1) as Hi1 by apply (set_rx_inv _ _ _ Hi).
  assert (forall k, k <> sid -> sock k w1 = sock k w) as Hs1.
  { intros k Hk. unfold sock, w1. simpl. by rewrite lookup_insert_ne. }
  assert (forall k, k <> sid -> sock k w' = sock k w) as Hs' by (intros k Hk; unfold sock; by rewrite Hso).
  assert (rx (sock sid w1) = rx (sock sid w')) as Hx by apply rx_set_rx.
  assert (sent (sock sid w1) = sent (sock sid w)) as He by apply sent_set_rx.
  destruct r as [|b ns]; simpl in Hheap, Hsent.
  - set (s := mkSocket (rx (sock sid w1)) (tx (sock sid w1)) (sent (sock sid w1) ++ list_reply (ctx_tracepoints (ctx w1)))).
    pose proof (reply_abstracts buf' sid w1 s _ _ _ _ _ _ _ _ _ _ Hi1 Ha1 Hc eq_refl eq_refl) as Ha2.
    eexists. split; [|eapply same_view_abstracts; [|exact Ha2]].
    + apply rtc_once, (sp_reply sid (hash_keys (ctx_tracepoints (ctx w1)))).
      pose proof (ab_listed _ _ _ Ha) as HL'. simpl in HL'. rewrite <-HL'. apply hash_keys_elements.
    + apply same_view_eq; try (simpl; congruence).
      * intros k. rewrite rx_set_sock. case_decide as Hd; [by subst k|]. by rewrite Hs1, Hs'.
      * intros k. rewrite sent_set_sock. case_decide as Hd; [subst k; simpl; by rewrite He, Hsent|]. by rewrite Hs1, Hs'.
  - pose proof (flags_abstracts buf' b ns w1 _ _ _ _ _ _ _ _ _ _ Ha1) as Ha2.
    eexists. split; [|eapply same_view_abstracts; [|exact Ha2]].
    { by apply rtc_once, sp_set. }
    rewrite app_nil_r in Hsent. apply same_view_eq; try (simpl; congruence).
    + intros k. change (sock k (with_heap _ w1)) with (sock k w1).
      destruct (decide (k = sid)) as [->|Hd]; [done|]. by rewrite Hs1, Hs'.
    + intros k. change (sock k (with_heap _ w1)) with (sock k w1).
      destruct (decide (k = sid)) as [->|Hd]; [congruence|]. by rewrite Hs1, Hs'.
Qed.

(** ** The client goes away *)

Lemma close_oracle w sid w' :
  connection (ctx w) = Some sid -> oracle w = [] -> close_and_clean_connection w = Ret tt w' -> oracle w' = [].
Proof.
  intros Hc Ho. unfold close_and_clean_connection, gets, atomic_store at 1, succeeds, in_ctx,
    modify at 1, mbind, M_bind, mret, M_ret. simpl. rewrite Hc. simpl. rewrite Ho. simpl.
  match goal with |- context [for_each ?ls ?g ?v] => change g with (fun l : nat => atomic_store (P := P) l false); rewrite (for_each_store_false ls v) end.
  by intros [= <-].
Qed.

Lemma closed_off w n :
  names_ok w -> ~ exists l, known w !! n = Some l /\ closed_heap (ctx w) (heap w) !! l = Some true.
Proof.
  intros [Hsub _ Hinj Hcell Hun] (l & Hl & Hh). unfold closed_heap in Hh. rewrite lookup_clear_flags in Hh.
  case_decide as Hd; [done|]. destruct (Hcell n l Hl) as [_ Hne]. rewrite lookup_insert_ne in Hh by done.
  destruct (ctx_tracepoints (ctx w) !! n) as [k|] eqn:Hn; [|by rewrite (Hun n l Hl Hn) in Hh].
  destruct Hd. apply elem_of_hash_values. exists n. by rewrite <-Hl, (Hsub _ _ Hn), Hn.
Qed.

Lemma polite_set_rx sid rx' w : polite w -> polite (set_rx sid rx' w).
Proof.
  intros Hp. apply (polite_eq w); try done. intros k. unfold set_rx, sock. simpl.
  rewrite lookup_insert. case_decide; [by subst|done].
Qed.

(** The end of the stream, after the last request. *)
Lemma close_sim buf sid rest w w' f :
  Inv w' -> polite w -> abstracts_at buf w f -> connection (ctx w) = Some sid -> sp_inbox f = [] ->
  close_and_clean_connection (set_rx sid rest w) = Ret tt w' -> implements_from_at [] f w'.
Proof.
  intros Hi' Hp Ha Hc Hbox Hrun. apply (polite_set_rx sid rest) in Hp as [Htx Hbacklog Horacle].
  assert (forall k, sent (sock k (set_rx sid rest w)) = sent (sock k w)) as Hsent.
  { intros k. unfold set_rx. rewrite sent_set_sock. case_decide; [by subst|done]. }
  set (w2 := set_rx sid rest w) in *.
  pose proof (close_oracle w2 sid w' Hc Horacle Hrun) as Ho.
  destruct (close_run w2 sid Hc) as (w0 & Hrun0 & Hctx & Hheap & Hch & Hso & Hnx & Hbl & _).
  rewrite Hrun in Hrun0. injection Hrun0 as <-. change (ctx w2) with (ctx w) in *. change (heap w2) with (heap w) in *.
  destruct (closed_ctx_shape (ctx w)) as (t & q & u & E & _). rewrite E in Hctx.
  assert (forall k, sock k w' = sock k w2) as Hsock by (intros k; unfold sock; by rewrite Hso).
  assert (queued w' = queued w) as Hq by (apply queued_frame; [by rewrite Hctx|done]).
  assert (known w' = known w) as Hk by (unfold known; by rewrite Hq, Hctx).
  split; [done|]. split; [split; [intros k; by rewrite Hsock|by rewrite Hbl|done]|].
  destruct Ha as [Hreg Hlist Hen Hcl Hin Hqu Hout Hfr Hse Hno]. destruct f as [R L En c i d ch qu acc out]. simpl in *.
  subst i. exists (mkSpec R L ∅ None [] [] ch qu acc out).
  split; [apply rtc_once, sp_disconnect; by rewrite <-Hcl, Hc|].
  split; cbn [sp_registered sp_listed sp_enabled sp_client sp_inbox sp_queue sp_out]; rewrite ?Hctx, ?Hk, ?Hq; try done.
  - intros n. unfold on. rewrite Hk, Hheap. split; [by intros ?%not_elem_of_empty|].
    by intros ?%(closed_off w n Hno).
  - unfold few. rewrite Hk. intros Hf k. rewrite Hsock, Hsent. by apply Hout.
  - intros k. rewrite Hnx, Hsock, Hsent. apply Hfr.
  - pose proof Hno as [Hsub Hnews Hinj Hcell Hun]. split; rewrite ?Hk, ?Hq, ?Hctx; try done.
    + intros n l Hl. destruct (Hcell n l Hl) as [Hs Hne]. split; [|by rewrite Hctx].
      rewrite Hheap. by apply closed_heap_dom.
    + intros n l Hl Hn. destruct (Hcell n l Hl) as [_ Hne]. rewrite Hheap. unfold closed_heap.
      rewrite lookup_clear_flags. case_decide; [done|]. rewrite lookup_insert_ne by done. by apply (Hun n l).
Qed.

(** ** Receiving *)

Lemma executed_polite sid r w w' :
  polite w -> executed sid r w w' -> polite w'.
Proof.
  intros [Htx Hbl Ho] (_ & _ & (_ & _ & Hbl' & Ho' & Hso) & _ & _ & _ & s & Hs & Hh).
  split; [|congruence..]. intros k. unfold sock. destruct (decide (k = sid)) as [->|Hne]; [by rewrite Hs|].
  rewrite Hso by done. apply Htx.
Qed.

(** One iteration of [receive]: a request is carried out, or what has arrived is
    used up. *)
Lemma receive_body_sim sid br w r w' f :
  implements_at (br_buf br) w f -> connection (ctx w) = Some sid -> br_sock br = sid ->
  receive_body br w = Ret r w' ->
  match r with
  | inl br' => implements_from_at (br_buf br') f w' /\ connection (ctx w') = Some sid /\ br_sock br' = sid
  | inr _ => implements_from_at [] f w'
  end.
Proof.
  intros (Hi & Hp & Ha) Hc Hsid Hrun. destruct (inv_sock _ Hi sid Hc) as [s Hs].
  assert (sock sid w = s) as Hsock by (unfold sock; by rewrite Hs).
  assert (up sid w) as Hup.
  { split; [done|]. exists s. split; [done|]. rewrite <-Hsock. apply Hp. }
  assert (Inv w') as Hi'.
  { assert (is_Some (socks w !! br_sock br)) as Hsome by (rewrite Hsid, Hs; by eexists).
    pose proof (wp_inv _ _ _ _ _ _ (receive_body_reads w br br w (reads_refl _ _ Hi Hsome)) Hrun) as H.
    by destruct r as [br'|]; [destruct H as [[H _] _]|destruct H as [H _]]. }
  destruct (waiting_inv _ _ _ (ab_inbox _ _ _ Ha sid Hc)) as (rs & k & rest & i' & Hv & Hrs & Hbox & Hk).
  destruct rs as [|r0 rs].
  - assert (socks w !! br_sock br = Some s) as Hs2 by by rewrite Hsid.
    assert (reader_view br w = ([], k, rest)) as Hrv by (unfold reader_view; by rewrite Hsid).
    rewrite (receive_body_end br w s [] k rest Hs2 Hrv), Hsid in Hrun by (simpl; lia). simpl in Hbox.
    case_bool_decide as Hwb.
    + injection Hrun as <- <-. split; [done|]. split; [by apply polite_set_rx|].
      rewrite decide_True in Hk by done. exists f. split; [done|]. destruct f as [R L E c i d ch q acc out].
      simpl in Hbox. subst i. by eapply reread_abstracts.
    + rewrite decide_False in Hk by done. subst i'. unfold mbind, M_bind in Hrun.
      destruct (close_and_clean_connection _) as [[] w1| | |] eqn:Hclose in Hrun; try done. injection Hrun as <- <-.
      by eapply close_sim.
  - apply Forall_cons in Hrs as [Hr Hrs].
    assert (reader_view br w = (encode_request r0 ++ encode_requests rs, k, rest)) as Hrv by (unfold reader_view; by rewrite Hsid).
    destruct (request_step sid r0 br w _ k rest Hup Hsid Hr Hrv) as (br' & w1 & Hstep & Hex & Hsid' & Hrv').
    rewrite Hstep in Hrun. injection Hrun as <- <-. unfold reader_view in Hrv'. rewrite Hsid' in Hrv'.
    assert (connection (ctx w1) = Some sid) as Hc1 by (destruct Hex as (-> & _); done).
    split; [|done]. split; [done|]. split; [by eapply executed_polite|].
    apply (executed_abstracts _ _ _ _ _ _ _ _ Hi Ha Hc Hbox Hex). by eapply waiting_tail.
Qed.
End Receive_sim.
