(* ===== verification/SystemRefine.v ===== *)
(** The whole system implements the abstract specification.  Runs of application
    and tracer thread, in an environment that behaves, are observed with the
    history of the records that entered the channel and of the requests that
    arrived in the session; every observed run is simulated step by step by the
    specification, which has accepted the one, has done or still to do the
    other, and has sent what each client reads. *)

From S2P Require Import Prelude Monad Platform Types Worlds Strings Context Io Wire Tcp Beacon App Handlers Invariant Control Flush Delivery Receive Requests Thread AppSpec System Spec Refine.

Section sim.
Context {P : Platform} {TL : TimerLaws P} {HL : HashLaws P} {CL : ChannelLaws P}.

(** The abstract state of the whole system. *)
Record refines (s : System) (f : Spec) : Prop := {
  rf_checked : sp_checked f = pending (submits s);
  rf_polite : polite (thread s);
  rf_reader : forall reader, pc s = InReceive reader -> connection (ctx (thread s)) = Some (br_sock reader);
  rf_thread : abstracts_at (ahead (pc s)) (thread s) f;
}.

(** The steps of the system in an environment that behaves. *)
Definition polite_step : nat -> System -> System -> Prop := step_in (fun k => polite_environment (ahead k)).

Lemma step_in_mono (E E' : control -> World -> World -> Prop) p s s' :
  (forall k w w', E k w w' -> E' k w w') -> step_in E p s s' -> step_in E' p s s'.
Proof. intros HE []; by econstructor; eauto. Qed.

Lemma polite_step_step p s s' : polite_step p s s' -> step p s s'.
Proof. apply step_in_mono. by intros k w w' []. Qed.

(** The steps of the system itself: of the application and of the thread. *)
Definition own_step : nat -> System -> System -> Prop := step_in (fun _ _ _ => False).

Lemma step_in_split E p s s' :
  step_in E p s s' ->
  own_step p s s' \/
  exists a w k l st w', s = mkSystem a w k l st /\ s' = mkSystem a w' k l st /\ E k w w'.
Proof. intros []; try (left; by econstructor; eauto). right. by do 6 eexists. Qed.

(** ** What is observed of a run

    The elements that have entered the channel, and the requests that have
    arrived from the client of this session. *)
Record History := mkHistory {
  submitted : list BufferElement;
  received : list request;
}.
Definition no_history : History := mkHistory [] [].

Definition entered (w w' : World) : list BufferElement := payloads (drop (length (queued w)) (queued w')).

(** [r'] has been received when the system itself has moved on: what a client has
    sent before it was accepted counts as well, and when it is gone nothing
    does. *)
Definition in_session (w w' : World) (r r' : list request) : Prop :=
  match connection (ctx w'), connection (ctx w) with
  | None, _ => r' = []
  | Some _, Some _ => r' = r
  | Some sid, None => waiting [] (rx (sock sid w')) r'
  end.

(** The requests [i] arrive: the bytes for them are added to the stream of the
    client, unless that has ended. *)
Definition arrives (w w' : World) (i : list request) : Prop :=
  match connection (ctx w) with
  | None => i = []
  | Some sid => exists evs, rx (sock sid w') = rx (sock sid w) ++ evs /\ waiting [] evs i /\
      (evs = [] \/ rx_open (rx (sock sid w)))
  end.

(** A step of the system in an environment that behaves, with what is observed
    of it. *)
Inductive observed (p : nat) : System * History -> System * History -> Prop :=
| observed_own s s' h r :
    own_step p s s' -> in_session (thread s) (thread s') (received h) r ->
    observed p (s, h) (s', mkHistory (submitted h ++ entered (thread s) (thread s')) r)
| observed_environment a w k l st w' h i :
    polite_environment (ahead k) w w' -> arrives w w' i ->
    observed p (mkSystem a w k l st, h) (mkSystem a w' k l st, mkHistory (submitted h) (received h ++ i)).

(** ** A message of the application *)

Lemma sent_to_queued t m a w :
  app_heap a = heap w -> app_chans a = chans w -> send_to_tracer_thread t = rec (ctx w) -> chan_open w = true ->
  exists c, thread_sees (sent_to t m a) w = with_chans c w /\ queued (with_chans c w) = queued w ++ [m].
Proof.
  intros Hh Hc Ht Ho. unfold sent_to. rewrite Ht, Hc. unfold chan_open in Ho.
  destruct (chans w !! rec (ctx w)) as [q|] eqn:Hq; [|done].
  destruct (send_open _ q m Ho) as (_ & _ & Hcont).
  exists (<[rec (ctx w) := (channel_send q m).1]> (chans w)). split.
  - unfold thread_sees. simpl. rewrite Hh. by destruct w.
  - unfold queued. simpl. by rewrite lookup_insert_eq, Hq.
Qed.

Lemma payloads_app ms ms' : payloads (ms ++ ms') = payloads ms ++ payloads ms'.
Proof. unfold payloads. apply omap_app. Qed.

Lemma known_sent w w' m :
  ctx w' = ctx w -> queued w' = queued w ++ [m] -> known w' = registered (known w) [m].
Proof. intros Hc Hq. unfold known. by rewrite Hc, Hq, registered_app. Qed.

(** A message that is neither a payload nor a tracepoint is not visible. *)
Lemma terminate_abstracts buf w c f :
  queued (with_chans c w) = queued w ++ [MsgTerminate] -> abstracts_at buf w f ->
  abstracts_at buf (with_chans c w) f.
Proof.
  intros Hq. apply same_view_abstracts. split; try done.
  - by rewrite (known_sent w _ MsgTerminate).
  - by rewrite Hq, payloads_app, app_nil_r.
  - intros m. rewrite Hq, elem_of_app, list_elem_of_singleton. intros [?| ->]; [by left|by right].
Qed.

Lemma payload_abstracts buf w c e R L E cl i d ch1 ch2 q acc out :
  queued (with_chans c w) = queued w ++ [Payload e] ->
  abstracts_at buf w (mkSpec R L E cl i d (ch1 ++ e :: ch2) q acc out) ->
  abstracts_at buf (with_chans c w) (mkSpec R L E cl i d (ch1 ++ ch2) (q ++ [e]) (acc ++ [e]) out).
Proof.
  intros Hq [Hreg Hlist Hen Hcl Hin Hqu Hout Hfr Hse Hno]. simpl in *.
  assert (known (with_chans c w) = known w) as Hk by by rewrite (known_sent w _ (Payload e)).
  split; cbn [sp_registered sp_listed sp_enabled sp_client sp_inbox sp_queue sp_out]; rewrite ?Hk; try done.
  - intros n. rewrite Hen. unfold on. by rewrite Hk.
  - rewrite Hq, payloads_app, <-Hqu. by rewrite app_assoc.
  - unfold few. by rewrite Hk.
  - eapply (names_frame w); try done. intros m. rewrite Hq, elem_of_app, list_elem_of_singleton.
    intros [?| ->]; [by left|by right].
Qed.

(** ** A registration *)

(** A flag that nobody knows yet. *)
Lemma alloc_abstracts buf w k b f :
  heap w !! k = None -> abstracts_at buf w f -> abstracts_at buf (with_heap (<[k := b]> (heap w)) w) f.
Proof.
  intros Hk [Hreg Hlist Hen Hcl Hin Hqu Hout Hfr Hse Hno]. pose proof Hno as [Hsub Hnews Hinj Hcell Hun].
  assert (forall n l, known w !! n = Some l -> <[k := b]> (heap w) !! l = heap w !! l) as Hother.
  { intros n l Hl. rewrite lookup_insert_ne; [done|]. intros ->. destruct (Hcell n l Hl) as [[? Hs] _]. congruence. }
  split; try done.
  - intros n. rewrite Hen. unfold on. change (known (with_heap _ w)) with (known w). simpl.
    split; intros (l & Hl & Hh); exists l; (split; [done|]); by rewrite (Hother n l Hl) in *.
  - split; try done.
    + intros n l Hl. destruct (Hcell n l Hl) as [Hs Hne]. split; [|done]. simpl. by rewrite (Hother n l Hl).
    + intros n l Hl Hn. simpl. rewrite (Hother n l Hl). by apply (Hun n l).
Qed.

(** The tracepoint [n] with the new flag [k] on its way to the thread. *)
Lemma register_abstracts buf w c n k R L E cl i d ch q acc out :
  queued (with_chans c w) = queued w ++ [NewTracepoint (mkTracepoint n k)] ->
  heap w !! k = Some false -> k <> ctx_client_connected (ctx w) -> known w !! n = None ->
  (forall m l, known w !! m = Some l -> l <> k) ->
  abstracts_at buf w (mkSpec R L E cl i d ch q acc out) ->
  abstracts_at buf (with_chans c w) (mkSpec ({[n]} ∪ R) L E cl i d ch q acc out).
Proof.
  intros Hq Hk Hcc Hn Hfresh [Hreg Hlist Hen Hcl Hin Hqu Hout Hfr Hse Hno]. simpl in *.
  pose proof Hno as [Hsub Hnews Hinj Hcell Hun]. set (w' := with_chans c w) in *.
  assert (known w' = <[n := k]> (known w)) as Hkn.
  { by rewrite (known_sent w _ (NewTracepoint (mkTracepoint n k))). }
  split; cbn [sp_registered sp_listed sp_enabled sp_client sp_inbox sp_queue sp_out]; rewrite ?Hkn; try done.
  - by rewrite dom_insert_L, Hreg.
  - intros m. rewrite Hen. unfold on. rewrite Hkn. change (heap w') with (heap w). split.
    + intros (l & Hl & Hh). exists l. rewrite lookup_insert_ne; [done|]. congruence.
    + intros (l & Hl & Hh). exists l. split; [|done]. rewrite lookup_insert in Hl. case_decide; [|done].
      injection Hl as <-. congruence.
  - by rewrite Hq, payloads_app, app_nil_r.
  - unfold few. rewrite Hkn, map_size_insert_None by done. intros Hf sid. apply Hout. unfold few. lia.
  - split; rewrite ?Hkn.
    + intros m l Hl. rewrite lookup_insert_ne; [by apply Hsub|].
      intros ->. apply Hsub in Hl. congruence.
    + intros m l. rewrite Hq, elem_of_app, list_elem_of_singleton, lookup_insert. intros [Hm|[= -> ->]].
      * case_decide as Hd; [|by apply Hnews]. subst m. apply Hnews in Hm. congruence.
      * by rewrite decide_True.
    + intros m m' l. rewrite !lookup_insert. repeat case_decide; subst; try done.
      * by intros [= <-] ?%Hfresh.
      * by intros ?%Hfresh [= <-].
      * apply Hinj.
    + intros m l. rewrite lookup_insert. case_decide; [|apply Hcell]. intros [= <-]. by split; [eexists|].
    + intros m l. rewrite lookup_insert. case_decide; [by intros [= <-] _|apply Hun].
Qed.

(** ** The steps of the system *)

Lemma pending_app l l' : pending (l ++ l') = pending l ++ pending l'.
Proof. unfold pending. apply omap_app. Qed.

(** [s'] is the image of an abstract state that is reached from [f], and that
    has accepted and received in addition what is observed of this step. *)
Definition simulated (feeds : list request -> list request -> Prop) (s s' : System) (f : Spec) : Prop :=
  (exists r, in_session (thread s) (thread s') (requests f) r) /\
  forall r, in_session (thread s) (thread s') (requests f) r ->
    exists f', rtc (spec_step feeds) f f' /\ refines s' f' /\
      sp_accepted f' = sp_accepted f ++ entered (thread s) (thread s') /\ requests f' = r.

(** Unless a client is accepted there is no choice. *)
Lemma simulated_by feeds s s' f f' :
  rtc (spec_step feeds) f f' -> refines s' f' ->
  sp_accepted f' = sp_accepted f ++ entered (thread s) (thread s') ->
  in_session (thread s) (thread s') (requests f) (requests f') ->
  (connection (ctx (thread s)) = None -> connection (ctx (thread s')) = None) -> simulated feeds s s' f.
Proof.
  intros Hf Hr Hacc Hin Hsame. split; [by eexists|]. intros r Hin'. exists f'. split_and!; try done.
  unfold in_session in *. destruct (connection (ctx (thread s'))); [|congruence].
  destruct (connection (ctx (thread s))); [congruence|]. by specialize (Hsame eq_refl).
Qed.

Lemma in_session_same s w' f :
  SpecInv f -> refines s f -> ctx w' = ctx (thread s) -> in_session (thread s) w' (requests f) (requests f).
Proof.
  intros HI Hf Hctx. unfold in_session. rewrite Hctx. destruct (connection (ctx (thread s))) eqn:Hc; [done|].
  apply (spi_alone _ HI). by rewrite <-(ab_client _ _ _ (rf_thread _ _ Hf)).
Qed.

(** A step of the application. *)
Lemma application_sim feeds s s' f f' :
  SpecInv f -> refines s f -> ctx (thread s') = ctx (thread s) -> requests f' = requests f ->
  rtc (spec_step feeds) f f' -> refines s' f' ->
  sp_accepted f' = sp_accepted f ++ entered (thread s) (thread s') -> simulated feeds s s' f.
Proof.
  intros HI Hf Hctx Hreq Hsteps Hf' Hacc. apply (simulated_by feeds s s' f f'); try done.
  - rewrite Hreq. by apply in_session_same.
  - by rewrite Hctx.
Qed.

Lemma entered_same w w' : queued w' = queued w -> entered w w' = [].
Proof. unfold entered. intros ->. by rewrite drop_all. Qed.

Lemma entered_sent w w' m : queued w' = queued w ++ [m] -> entered w w' = payloads [m].
Proof. unfold entered. intros ->. by rewrite drop_app_length. Qed.

Lemma entered_less w w' : (length (queued w') <= length (queued w))%nat -> entered w w' = [].
Proof. unfold entered. intros H. by rewrite drop_ge. Qed.

Section own.
Context (feeds : list request -> list request -> Prop).

Lemma register_sim p a w k0 l name r a' f :
  SysInv p (mkSystem a w k0 l Running) -> SpecInv f -> refines (mkSystem a w k0 l Running) f ->
  tracy_register (Some p) (Some name) a = Ret r a' ->
  simulated feeds (mkSystem a w k0 l Running) (mkSystem a' (thread_sees a' w) k0 l Running) f.
Proof.
  intros HI HS Hf Hreg. pose proof Hf as [Hck Hpo Hrd Ha].
  destruct (register_live p name a r a' Hreg) as [t Ht].
  destruct HI as [Hh Hc _ Hn _ Hrun]. simpl in *. destruct (Hrun eq_refl) as (Hinv & Ho & Hlinks).
  destruct (Hlinks t Ht) as (Hrec & Hcc & Hkn). clear Hrun Hlinks.
  rewrite (tracy_register_run p t a name Ht) in Hreg. cbv zeta in Hreg.
  set (k := fresh (dom (app_heap a))) in *. set (a0 := with_app_heap _ a) in *.
  set (n := to_lowercase (take 32 name)) in *. set (w0 := with_heap (<[k := false]> (heap w)) w).
  assert (heap w !! k = None) as Hk by (rewrite <-Hh; apply not_elem_of_dom, is_fresh).
  pose proof (alloc_abstracts _ w k false f Hk Ha) as Ha0. fold w0 in Ha0.
  assert (thread_sees a0 w = w0) as Hw0 by (unfold thread_sees, a0, w0; simpl; rewrite Hh, Hc; by destruct w).
  destruct (is_ascii name && bool_decide (tracepoints t !! n = None)) eqn:Hcase; injection Hreg as _ <-.
  - apply andb_prop in Hcase as [Hascii Hnone%bool_decide_eq_true].
    set (t' := mkTracerNg _ _ _). set (a1 := with_handles _ a0).
    destruct (sent_to_queued t' (NewTracepoint (mkTracepoint n k)) a1 w0) as (c & Hw' & Hq'); try done.
    { unfold a1, a0, w0. simpl. by rewrite Hh. }
    change (thread_sees (sent_to t' _ a1) w) with (thread_sees (sent_to t' (NewTracepoint (mkTracepoint n k)) a1) w0).
    rewrite Hw'. destruct f as [R L E cl i d ch q acc out]. simpl in *.
    assert (known w !! n = None) as Hnew by by rewrite Hkn.
    apply (application_sim _ _ _ _ (mkSpec ({[n]} ∪ R) L E cl i d ch q acc out)); try done.
    + apply rtc_once, sp_register.
      * apply (fix_tracepoint_str_normal (to_string_lossy name)). by rewrite fix_lossy_eq, Hascii.
      * pose proof (ab_registered _ _ _ Ha) as HR. simpl in HR. rewrite <-HR. by apply not_elem_of_dom.
    + split; [done|by apply (polite_eq w)|done|]. simpl. eapply register_abstracts; try done.
      * unfold w0. simpl. by rewrite lookup_insert_eq.
      * change (k <> ctx_client_connected (ctx w)). intros Heq. pose proof (inv_connected _ Hinv). congruence.
      * intros m l' Hl' Heq. rewrite Heq in Hl'. destruct (no_cell _ (ab_names _ _ _ Ha) m k Hl') as [[? Hs] _]. congruence.
    + simpl. by rewrite (entered_sent w (with_chans c w0) _ Hq'), app_nil_r.
  - rewrite Hw0. apply (application_sim _ _ _ _ f); try done.
    + split; [done|by apply (polite_eq w)|done|done].
    + simpl. by rewrite entered_same, app_nil_r.
Qed.

(** The load of a tracepoint's flag is where a submission is decided: an
    enabled tracepoint has a client. *)
Lemma check_sim p a w k l1 name data len l2 t now e f :
  SysInv p (mkSystem a w k (l1 ++ Entered name data len :: l2) Running) -> SpecInv f ->
  refines (mkSystem a w k (l1 ++ Entered name data len :: l2) Running) f ->
  handles a !! p = Some t -> submit_check t a name data len now = Some e ->
  simulated feeds (mkSystem a w k (l1 ++ Entered name data len :: l2) Running)
    (mkSystem a w k (l1 ++ Passed e :: l2) Running) f.
Proof.
  intros [Hh _ _ _ _ Hrun] HS Hf Ht He. pose proof Hf as [Hck Hpo Hrd Ha]. simpl in *.
  destruct (Hrun eq_refl) as (Hinv & _ & Hlinks). destruct (Hlinks t Ht) as (_ & Hcc & Hkn).
  destruct f as [R L E c i d ch q acc out]. simpl in *. rewrite pending_app in Hck. simpl in Hck. subst ch.
  apply (application_sim _ _ _ _ (mkSpec R L E c i d (pending l1 ++ e :: pending l2) q acc out)); try done.
  - apply rtc_once, sp_check. unfold submit_check in He.
    destruct (fix_tracepoint_str _) as [n|]; [|done]. destruct (enabled t a n) eqn:Hen; [|done].
    injection He as <-. unfold enabled, flag in Hen. rewrite Hh in Hen. simpl.
    apply (ab_enabled _ _ _ Ha). rewrite <-Hkn in Hen. destruct (known w !! n) as [k'|] eqn:Hk; [|done].
    exists k'. split; [done|]. by destruct (heap w !! k') as [[]|].
  - split; simpl; [by rewrite pending_app|done..|]. by destruct Ha; split.
  - simpl. by rewrite entered_same, app_nil_r.
Qed.

Lemma send_sim p a w k l1 e l2 t a' f :
  SysInv p (mkSystem a w k (l1 ++ Passed e :: l2) Running) -> SpecInv f ->
  refines (mkSystem a w k (l1 ++ Passed e :: l2) Running) f ->
  handles a !! p = Some t -> send_to_tracer t (Payload e) a = Ret tt a' ->
  simulated feeds (mkSystem a w k (l1 ++ Passed e :: l2) Running) (mkSystem a' (thread_sees a' w) k (l1 ++ l2) Running) f.
Proof.
  intros [Hh Hc _ _ _ Hrun] HS Hf Ht Hsend. pose proof Hf as [Hck Hpo Hrd Ha]. simpl in *.
  destruct (Hrun eq_refl) as (_ & Ho & Hlinks). destruct (Hlinks t Ht) as (Hrec & _).
  rewrite send_to_tracer_eq in Hsend. injection Hsend as <-.
  destruct (sent_to_queued t (Payload e) a w Hh Hc Hrec Ho) as (c & -> & Hq).
  destruct f as [R L E cl i d ch q acc out]. simpl in *. rewrite pending_app in Hck. simpl in Hck. subst ch.
  apply (application_sim _ _ _ _ (mkSpec R L E cl i d (pending l1 ++ pending l2) (q ++ [e]) (acc ++ [e]) out)); try done.
  - apply rtc_once, sp_accept.
  - split; simpl; [by rewrite pending_app|by apply (polite_eq w)|done|]. by apply payload_abstracts.
  - simpl. by rewrite (entered_sent _ _ _ Hq).
Qed.

Lemma finit_sim p a w k l a' f :
  SysInv p (mkSystem a w k l Running) -> SpecInv f -> refines (mkSystem a w k l Running) f ->
  tracy_finit (Some p) a = Ret tt a' ->
  simulated feeds (mkSystem a w k l Running) (mkSystem a' (thread_sees a' w) k l Running) f.
Proof.
  intros [Hh Hc _ _ _ Hrun] HS Hf Hfin. pose proof Hf as [Hck Hpo Hrd Ha]. simpl in *.
  destruct (finit_live p a a' Hfin) as (t & Ht & ->).
  destruct (Hrun eq_refl) as (_ & Ho & Hlinks). destruct (Hlinks t Ht) as (Hrec & _).
  destruct (sent_to_queued t MsgTerminate a w Hh Hc Hrec Ho) as (c & Hw' & Hq).
  change (thread_sees _ w) with (thread_sees (sent_to t MsgTerminate a) w). rewrite Hw'.
  apply (application_sim _ _ _ _ f); try done.
  - split; [done|by apply (polite_eq w)|done|]. by apply terminate_abstracts.
  - simpl. by rewrite (entered_sent _ _ _ Hq), app_nil_r.
Qed.

(** The thread does something by itself. *)
Lemma thread_sim a w k l k' w' f :
  SpecInv f -> refines (mkSystem a w k l Running) f -> (length (queued w') <= length (queued w))%nat ->
  implements_from_at (ahead k') f w' ->
  (forall reader, k' = InReceive reader -> connection (ctx w') = Some (br_sock reader)) -> k' <> Ended ->
  simulated feeds (mkSystem a w k l Running) (moved a l k' w') f.
Proof.
  intros HS Hf Hq (_ & Hpo & f' & Hsteps & Ha') Hrd Hk'. pose proof Hf as [Hck _ _ Ha]. simpl in *.
  destruct (tracer_steps_keep _ _ Hsteps) as (Hch & Hacc & Hreq).
  assert (moved a l k' w' = mkSystem (app_sees w' a) w' k' l Running) as -> by by destruct k'.
  pose proof (ab_client _ _ _ Ha) as Hcl. pose proof (ab_client _ _ _ Ha') as Hcl'. simpl in *.
  apply (simulated_by feeds _ _ _ f'); simpl.
  - eapply rtc_subrel; [|exact Hsteps]. intros ??. apply sp_tracer.
  - split; [simpl; congruence|done..].
  - by rewrite Hacc, entered_less, app_nil_r.
  - unfold in_session. rewrite Hcl', Hcl. destruct (sp_client f') as [sid|].
    + destruct Hreq as [<- Hreq]. done.
    + destruct Hreq as [[Hnone Hreq]| ?]; [|done]. rewrite Hreq. by apply (spi_alone _ HS).
  - rewrite Hcl, Hcl'. intros Hnone. destruct (sp_client f'); [|done]. destruct Hreq. congruence.
Qed.

(** It accepts a client. *)
Lemma connect_sim a w l w' f sid :
  SpecInv f -> refines (mkSystem a w Idle l Running) f -> (length (queued w') <= length (queued w))%nat ->
  connection (ctx w) = None -> connection (ctx w') = Some sid -> polite w' ->
  (exists i, waiting [] (rx (sock sid w')) i) ->
  (forall i, waiting [] (rx (sock sid w')) i -> exists f', connects i f f' /\ abstracts_at [] w' f') ->
  simulated feeds (mkSystem a w Idle l Running) (moved a l Idle w') f.
Proof.
  intros HS [Hck _ _ Ha] Hq Hc Hc' Hpo [i Hi] Hall. simpl in *. unfold simulated. simpl.
  unfold in_session. rewrite Hc, Hc'. split; [by exists i|]. clear i Hi. intros i Hi.
  destruct (Hall i Hi) as (f' & (Hstep & _ & Hch & Hacc & Hreq) & Ha'). exists f'. split_and!.
  - apply rtc_once, Hstep.
  - split; [simpl; congruence|done..].
  - by rewrite Hacc, entered_less, app_nil_r.
  - done.
Qed.

(** The thread takes an event up. *)
Lemma dispatch_sim p a l token w k w' f :
  SysInv p (mkSystem a w Idle l Running) -> SpecInv f -> refines (mkSystem a w Idle l Running) f ->
  dispatch token w = Ret k w' -> k <> Ended -> simulated feeds (mkSystem a w Idle l Running) (moved a l k w') f.
Proof.
  intros HI HS Hf Hrun Hk. destruct (si_running _ _ HI eq_refl) as (Hinv & _). simpl in Hinv.
  destruct (wp_inv _ _ _ _ _ _ (dispatch_safe token w Hinv) Hrun) as (Hinv' & [_ _ _ _ Hq] & _).
  assert (implements_at [] w f) as Himp by (split; [done|]; split; apply Hf).
  pose proof (implements_from_refl _ _ _ Himp) as Hfrom.
  assert (w' = w -> ahead k = [] -> (forall reader, k <> InReceive reader) ->
    simulated feeds (mkSystem a w Idle l Running) (moved a l k w') f) as Hsame.
  { intros -> Hb Hr. apply thread_sim; try done; [by rewrite Hb|]. intros reader ->. by destruct (Hr reader). }
  unfold dispatch in Hrun.
  destruct (token =? CHAN); [injection Hrun as <- <-; by apply Hsame|].
  destruct (token =? TIMER); [injection Hrun as <- <-; by apply Hsame|].
  destruct (token =? CON_NEW).
  - unfold mbind at 1 2, M_bind at 1 2, gets in Hrun.
    case_bool_decide as Hc; [|injection Hrun as <- <-; by apply Hsame].
    destruct ((establish_connection;; in_ctx check_stop_udp_timer) w) as [[] w1| | |] eqn:E; try done.
    injection Hrun as <- <-. destruct (accept_sim [] w w1 f eq_refl Himp Hc E) as (_ & Hpo & Hacc).
    destruct (connection (ctx w1)) as [sid|] eqn:Hc1.
    + destruct Hacc. by eapply connect_sim.
    + apply thread_sim; try done. split; [done|]. split; [done|]. by exists f.
  - destruct (token =? CON_DATA); [|injection Hrun as <- <-; by apply Hsame].
    unfold gets, try_clone_unwrap, succeeds, mbind, M_bind in Hrun.
    destruct (connection (ctx w)) as [sid|] eqn:Hc; cbn [unwrap] in Hrun; [|done]. unfold mret, M_ret in Hrun.
    rewrite (pl_oracle _ (proj1 (proj2 Himp))) in Hrun. injection Hrun as <- <-.
    apply thread_sim; try done. by intros ? [= <-].
Qed.

(** The thread goes on with one. *)
Lemma advance_sim p a l k w k' w' f :
  SysInv p (mkSystem a w k l Running) -> SpecInv f -> refines (mkSystem a w k l Running) f ->
  active k -> advance k w = Ret k' w' -> k' <> Ended -> simulated feeds (mkSystem a w k l Running) (moved a l k' w') f.
Proof.
  intros HI HS Hf Hact Hrun Hk'. destruct (si_running _ _ HI eq_refl) as (Hinv & _). simpl in Hinv.
  destruct (wp_inv _ _ _ _ _ _ (advance_safe k w Hinv (si_control _ _ HI eq_refl)) Hrun) as (Hinv' & [_ _ _ _ Hq] & _).
  pose proof (rf_reader _ _ Hf) as Hreader. simpl in Hreader.
  assert (implements_at (ahead k) w f) as Himp by (split; [done|]; split; apply Hf).
  pose proof (implements_from_refl _ _ _ Himp) as Hfrom.
  assert (implements_from_at (ahead k') f w' /\
    (forall reader, k' = InReceive reader -> connection (ctx w') = Some (br_sock reader))) as [Hfrom' Hrd'].
  2: by apply thread_sim.
  destruct k as [|ret| |reader|]; try done; simpl in *; unfold mbind, M_bind in Hrun.
  - destruct (channel_handler_body ret w) as [r w1| | |] eqn:E; try done. injection Hrun as <- <-.
    pose proof (channel_handler_body_sim _ _ _ _ _ _ Hfrom E) as H. destruct r as [|[]]; try done; (split; [by apply H|done]).
  - destruct (timer_handler_body tt w) as [r w1| | |] eqn:E; try done. injection Hrun as <- <-.
    pose proof (timer_handler_body_sim _ _ _ _ _ _ Hfrom E) as H. by destruct r.
  - destruct (receive_body reader w) as [r w1| | |] eqn:E; try done. injection Hrun as <- <-.
    pose proof (receive_body_sim _ _ _ _ _ _ Himp (Hreader _ eq_refl) eq_refl E) as H. destruct r as [br'|]; [|done].
    destruct H as (H & Hc & Hs). split; [done|]. intros ? [= <-]. by rewrite Hs.
Qed.

(** A step of the system itself is a sequence of abstract steps. *)
Lemma own_step_sim p s s' f :
  SysInv p s -> SpecInv f -> refines s f -> own_step p s s' -> stat s' = Running -> simulated feeds s s' f.
Proof.
  intros HI HS Hf Hstep Hst.
  destruct Hstep as [a w k l st name r a' H|a w k l st t name data len Ht Hlen H
    |a w k l1 name data len l2 st t now e Ht H|a w k l1 name data len l2 st t now Ht H|a w k l1 e l2 st t a' Ht H
    |a w k l st a' H|a w l token k w' H|a w l token w' H|a w k l k' w' Hk H|a w k l w' Hk H|a w k l st w' []];
    try (simpl in Hst; subst st); try done.
  - by eapply register_sim.
  - apply (application_sim _ _ _ _ f); try done.
    + destruct Hf. split; [|done..]. simpl in *. by rewrite pending_app, app_nil_r.
    + simpl. by rewrite entered_same, app_nil_r.
  - by eapply check_sim.
  - apply (application_sim _ _ _ _ f); try done.
    + destruct Hf. split; [|done..]. simpl in *. by rewrite rf_checked0, !pending_app.
    + simpl. by rewrite entered_same, app_nil_r.
  - by eapply send_sim.
  - by eapply finit_sim.
  - eapply dispatch_sim; try done. by intros ->.
  - eapply advance_sim; try done. by intros ->.
Qed.

(** ** The environment *)

Lemma environment_abstracts buf w w' R L E c i i' d ch q acc out :
  polite_environment buf w w' -> abstracts_at buf w (mkSpec R L E c i d ch q acc out) ->
  (forall sid, connection (ctx w') = Some sid -> waiting buf (rx (sock sid w')) i') ->
  abstracts_at buf w' (mkSpec R L E c i' d ch q acc out).
Proof.
  intros (((t & Hctx & _) & Hh & Hch & _) & _ & Hnx & Hsent & _) [Hreg Hlist Hen Hcl Hin Hqu Hout Hfr Hse Hno] Hi'.
  assert (queued w' = queued w) as Hq by (apply queued_frame; [by rewrite Hctx|done]).
  assert (known w' = known w) as Hk by (unfold known; by rewrite Hq, Hctx).
  split; simpl in *; rewrite ?Hk, ?Hq, ?Hctx, ?Hnx; try done.
  - intros n. rewrite Hen. unfold on. by rewrite Hk, Hh.
  - intros sid Hc. apply Hi'. by rewrite Hctx.
  - unfold few. rewrite Hk. intros Hf sid. rewrite Hsent. by apply Hout.
  - intros sid. rewrite Hsent. apply Hfr.
  - eapply (names_frame w); try done; [by rewrite Hctx..|]. intros m. rewrite Hq. by left.
Qed.

Lemma environment_connection w w' : environment w w' -> connection (ctx w') = connection (ctx w).
Proof. by intros ((t & -> & _) & _). Qed.

Lemma environment_sim a w k l w' f i' :
  polite_environment (ahead k) w w' -> refines (mkSystem a w k l Running) f ->
  (if connection (ctx w) is Some sid then waiting (ahead k) (rx (sock sid w')) i' /\ feeds (sp_inbox f) i'
   else i' = sp_inbox f) ->
  exists f', rtc (spec_step feeds) f f' /\ refines (mkSystem a w' k l Running) f' /\
    sp_accepted f' = sp_accepted f /\ sp_done f' = sp_done f /\ sp_inbox f' = i'.
Proof.
  intros Henv [Hck _ Hrd Ha] Hi'. simpl in *.
  pose proof (environment_connection _ _ (proj1 Henv)) as Hconn.
  destruct f as [R L E c i d ch q acc out]. simpl in *. pose proof (ab_client _ _ _ Ha) as Hcl. simpl in Hcl.
  exists (mkSpec R L E c i' d ch q acc out). split_and!; try done.
  - rewrite Hcl in Hi'. destruct c as [sid|]; [|simpl in Hi'; by subst]. apply rtc_once, sp_network, Hi'.
  - split; simpl; [done|apply Henv|intros br Hbr; rewrite Hconn; by apply Hrd|].
    eapply environment_abstracts; [done|done|]. intros sid. rewrite Hconn. intros Hc. rewrite Hc in Hi'. apply Hi'.
Qed.
End own.

(** ** Any environment that behaves *)

Definition anything : list request -> list request -> Prop := fun _ _ => True.

(** Every step of the system is a sequence of abstract steps. *)
Lemma step_refines p s s' f :
  SysInv p s -> SpecInv f -> refines s f -> polite_step p s s' -> stat s' = Running ->
  exists f', rtc (spec_step anything) f f' /\ refines s' f'.
Proof.
  intros HI HS Hf Hstep Hst. destruct (step_in_split _ _ _ _ Hstep) as [Hown|(a & w & k & l & st & w' & -> & -> & Henv)].
  - destruct (own_step_sim anything p s s' f HI HS Hf Hown Hst) as [[r Hr] Hall].
    destruct (Hall r Hr) as (f' & ? & ? & _). by exists f'.
  - simpl in Hst. subst st. pose proof Henv as (He & _ & _ & _ & Hwait).
    rewrite (environment_connection _ _ He) in Hwait.
    assert (exists i', if connection (ctx w) is Some sid then
        waiting (ahead k) (rx (sock sid w')) i' /\ anything (sp_inbox f) i' else i' = sp_inbox f) as [i' Hi'].
    { destruct (connection (ctx w)) as [sid|]; [|by eexists]. by destruct (Hwait sid eq_refl) as [i' ?]; exists i'. }
    destruct (environment_sim anything a w k l w' f i' Henv Hf Hi') as (f' & ? & ? & _). by exists f'.
Qed.

Lemma step_running p s s' : step p s s' -> stat s' = Running -> stat s = Running.
Proof. by destruct 1. Qed.

Lemma steps_running p s s' : rtc (step p) s s' -> stat s' = Running -> stat s = Running.
Proof. induction 1 as [|s1 s2 s3 Hstep _ IH]; [done|]. intros Hst. eapply step_running; [done|by apply IH]. Qed.

Lemma polite_steps p s s' : rtc (polite_step p) s s' -> rtc (step p) s s'.
Proof. apply rtc_subrel. intros ??. apply polite_step_step. Qed.

Lemma reachable_refines p s s' f :
  SysInv p s -> SpecInv f -> refines s f -> rtc (polite_step p) s s' -> stat s' = Running ->
  exists f', rtc (spec_step anything) f f' /\ refines s' f'.
Proof.
  intros HI HS Hf Hsteps Hst. revert f HI HS Hf.
  induction Hsteps as [|s1 s2 s3 Hstep Hsteps IH]; intros f HI HS Hf; [by exists f|].
  pose proof (steps_running _ _ _ (polite_steps _ _ _ Hsteps) Hst) as Hst2.
  destruct (step_refines p s1 s2 f HI HS Hf Hstep Hst2) as (f1 & H1 & Hf1).
  destruct (IH Hst f1) as (f2 & H2 & Hf2); [|by eapply spec_steps_inv|done|].
  { eapply step_invariant; [done|by apply polite_step_step]. }
  exists f2. split; [by etrans|done].
Qed.

(** ** Runs that are observed *)

(** The abstract state that belongs to a state of the system and its history. *)
Record matches (x : System * History) (f : Spec) : Prop := {
  mt_promises : SpecInv f;
  mt_refines : refines x.1 f;
  mt_submitted : sp_accepted f = submitted x.2;
  mt_received : requests f = received x.2;
}.

Lemma observed_step p x x' : observed p x x' -> polite_step p x.1 x'.1.
Proof. intros [s s' h r Hown _|]; [|by apply step_environment]. by eapply step_in_mono; [|exact Hown]. Qed.

(** The requests that arrive queue up in the abstract tracer. *)
Lemma arrives_waiting k w w' f i a l :
  refines (mkSystem a w k l Running) f -> arrives w w' i -> SpecInv f ->
  (if connection (ctx w) is Some sid then
     waiting (ahead k) (rx (sock sid w')) (sp_inbox f ++ i) /\ stream (sp_inbox f) (sp_inbox f ++ i)
   else sp_inbox f ++ i = sp_inbox f).
Proof.
  intros Hf Harr HS. unfold arrives in Harr. pose proof (ab_inbox _ _ _ (rf_thread _ _ Hf)) as Hin. simpl in Hin.
  destruct (connection (ctx w)) as [sid|]; [|by rewrite Harr, app_nil_r].
  destruct Harr as (evs & -> & Hi & Hopen). split; [|by eexists]. specialize (Hin sid eq_refl).
  destruct Hopen as [->|Hopen]; [|by apply waiting_app].
  rewrite (waiting_nothing [] [] i) by done. by rewrite !app_nil_r.
Qed.

Lemma observed_sim p x x' f :
  SysInv p x.1 -> matches x f -> observed p x x' -> stat x'.1 = Running ->
  exists f', rtc (spec_step stream) f f' /\ matches x' f'.
Proof.
  intros HI [HS Hf Hsub Hrec] Hobs Hst.
  destruct Hobs as [s s' h r Hown Hr|a w k l st w' h i Henv Harr]; simpl in *.
  - rewrite <-Hrec in Hr. destruct (own_step_sim stream p s s' f HI HS Hf Hown Hst) as [_ Hall].
    destruct (Hall r Hr) as (f' & Hsteps & Hf' & Hacc & Hreq). exists f'. split; [done|].
    split; simpl; [by eapply spec_steps_inv|done|congruence|done].
  - subst st. pose proof (arrives_waiting k w w' f i a l Hf Harr HS) as Hi.
    destruct (environment_sim stream a w k l w' f _ Henv Hf Hi) as (f' & Hsteps & Hf' & Hacc & Hd & Hbox).
    exists f'. split; [done|]. split; simpl; [by eapply spec_steps_inv|done|congruence|].
    unfold requests in *. by rewrite Hd, Hbox, app_assoc, Hrec.
Qed.

(** In an environment that only adds to what the client has sent every run can be
    observed. *)
Definition steady (k : control) (w w' : World) : Prop :=
  polite_environment (ahead k) w w' /\ exists i, arrives w w' i.

Lemma observe p s s' h f :
  SysInv p s -> matches (s, h) f -> step_in steady p s s' -> stat s' = Running ->
  exists h', observed p (s, h) (s', h').
Proof.
  intros HI [HS Hf Hsub Hrec] Hstep Hst. simpl in *.
  destruct (step_in_split _ _ _ _ Hstep) as [Hown|(a & w & k & l & st & w' & -> & -> & Henv & i & Hi)].
  - destruct (own_step_sim stream p s s' f HI HS Hf Hown Hst) as [[r Hr] _]. rewrite Hrec in Hr.
    eexists. by apply observed_own.
  - eexists. by apply observed_environment.
Qed.

Lemma steady_polite p s s' : step_in steady p s s' -> polite_step p s s'.
Proof. apply step_in_mono. by intros k w w' [? _]. Qed.

Lemma observe_run p s s' h f :
  SysInv p s -> matches (s, h) f -> rtc (step_in steady p) s s' -> stat s' = Running ->
  exists l, path (observed p) (s, h) l /\ Forall (fun x => stat x.1 = Running) l /\
    fst <$> last ((s, h) :: l) = Some s'.
Proof.
  intros HI Hf Hsteps Hst. revert h f HI Hf.
  induction Hsteps as [s|s1 s2 s3 Hstep Hsteps IH]; intros h f HI Hf; [by exists []|].
  assert (stat s2 = Running) as Hst2.
  { eapply steps_running; [|done]. eapply polite_steps, rtc_subrel; [|exact Hsteps]. intros ??. apply steady_polite. }
  destruct (observe p s1 s2 h f HI Hf Hstep Hst2) as [h2 Hobs].
  destruct (observed_sim p (s1, h) (s2, h2) f HI Hf Hobs Hst2) as (f2 & _ & Hf2).
  destruct (IH Hst h2 f2) as (l & Hl & Hall & Hlast).
  { eapply step_invariant; [done|]. by apply polite_step_step, steady_polite. } { done. }
  exists ((s2, h2) :: l). split; [done|]. split; [by constructor|done].
Qed.
End sim.

Section properties.
Context {P : Platform} {TL : TimerLaws P} {HL : HashLaws P} {CL : ChannelLaws P}.

(** A system just started, and nothing sent yet. *)
Definition begun (p : nat) (s : System) : Prop :=
  started p s /\ polite (thread s) /\ forall sid, sent (sock sid (thread s)) = [].

Lemma begun_refines p s : begun p s -> stat s = Running /\ refines s spec_init.
Proof.
  intros ((host & proc & flush & interval & iface & addr & flags & a & cfg & cc & q & announce & w & a0 & w0 &
    Hf & Hi & Hinit & Hspawn & Hh & Hc & Hsetup & ->) & Hpo & Hsent). simpl in *.
  destruct (tracy_init_run host proc flush interval iface addr flags a0) as
    (p' & t & cfg' & announce' & a' & Hrun & _ & _ & _ & _ & Hchan & Hspawn' & _ & _ & _ & Hok); [lia|lia|lia|].
  rewrite Hrun in Hinit. injection Hinit as -> ->.
  rewrite Hspawn in Hspawn'. apply app_inv_head in Hspawn'. injection Hspawn' as <- -> -> <-.
  destruct (wp_inv _ _ _ _ _ _ (tracer_thread_setup_inv _ _ _ _ w0 (Hok w0 Hh Hc)) Hsetup)
    as (_ & _ & Hc' & Hrec & _ & Htp & Hconn & Hbuf).
  assert (queued w = []) as Hq by (unfold queued; by rewrite Hrec, Hc', Hc, Hchan, contents_new).
  assert (known w = ∅) as Hk by (unfold known; by rewrite Hq, Htp).
  split; [done|]. split; [done|done|done|]. split; simpl; rewrite ?Hk, ?Htp, ?Hq, ?Hbuf; try done.
  - intros n. unfold on. rewrite Hk. split; [by intros ?%not_elem_of_empty|]. intros (l & Hl & _).
    by rewrite lookup_empty in Hl.
  - intros sid. by rewrite Hconn.
  - intros _ sid. rewrite Hsent. apply transcript_nil.
  - intros sid. by rewrite Hconn.
  - split; rewrite ?Hk, ?Htp, ?Hq; try (intros *; by rewrite lookup_empty); try done.
    intros n l. by intros ?%not_elem_of_nil.
Qed.

Lemma begun_reaches p s s' :
  begun p s -> rtc (polite_step p) s s' -> stat s' = Running ->
  exists f, SpecInv f /\ refines s' f.
Proof.
  intros Hs Hsteps Hst. destruct (begun_refines p s Hs) as [_ Hf]. destruct Hs as [Hs _].
  destruct (reachable_refines p s s' spec_init (started_invariant _ _ Hs) spec_init_inv Hf Hsteps Hst) as (f & Hrun & ?).
  exists f. split; [|done]. exact (spec_steps_inv _ _ _ spec_init_inv Hrun).
Qed.

Lemma begun_matches p s : begun p s -> matches (s, no_history) spec_init.
Proof. intros Hs. split; [apply spec_init_inv|by apply (begun_refines p)|done..]. Qed.

(** What each client has been sent, taken apart by the grammar, is what the
    abstract tracer has sent in that session. *)
Definition read_by_clients (w : World) (f : Spec) : Prop :=
  few w -> forall sid, read_stream (sent (sock sid w)) = Some (map see (outputs sid (sp_out f))).

(** C1: The whole program implements its specification, step by step.  Let the
    application, the clients, the network and the clock do what they like in any
    order, as long as clients send whole requests and read what they are sent
    and no system call fails.  Along every run of the system there is a run of
    the abstract tracer, and at each state of the one the state of the other
    that belongs to it: the elements it has accepted are exactly those that have
    entered the channel of the thread, in that order; the requests it has carried
    out in this session and those it has still to do are together exactly those
    whose bytes have arrived from the client, in that order; registered, listed
    and enabled names, the connection and the elements not yet sent are those
    of the system.  All that the specification promises holds: only names the
    client has asked for are enabled, each request for the list that was carried
    out is answered once, and what was sent followed by what is not yet sent is
    what was accepted.  And the bytes each client has been sent, taken apart by
    the grammar, are exactly the records and lists the abstract tracer has sent
    in that session, in that order. *)
Theorem system_refines_spec p s l :
  begun p s -> path (observed p) (s, no_history) l -> Forall (fun x => stat x.1 = Running) l ->
  exists fs, path (rtc (spec_step stream)) spec_init fs /\
    Forall2 (fun x f => matches x f /\ read_by_clients (thread x.1) f) l fs.
Proof.
  intros Hs Hl Hrun.
  destruct (path_simulation (observed p) (rtc (spec_step stream)) (fun x => stat x.1 = Running)
    (fun x f => SysInv p x.1 /\ matches x f) (s, no_history) spec_init l) as (fs & Hfs & Hall); try done.
  - intros x x' f [HI Hf] Hobs Hst. destruct (observed_sim p x x' f HI Hf Hobs Hst) as (f' & Hsteps & Hf').
    exists f'. split; [done|]. split; [|done]. eapply step_invariant; [exact HI|].
    by apply polite_step_step, observed_step.
  - split; [|by apply (begun_matches p)]. apply started_invariant, Hs.
  - exists fs. split; [done|]. eapply Forall2_impl; [exact Hall|]. intros x f [_ Hf]. split; [done|].
    intros Hfew sid. by apply transcript_read, (ab_out _ _ _ (rf_thread _ _ (mt_refines _ _ Hf))).
Qed.

(** C13: The types of the shared registry, in such an environment: every
    tracepoint the two sides know has a normal name and an allocated flag that
    no other tracepoint and not [client_connected] uses; a flag can be up only
    for a tracepoint that has reached the thread, and only while a client is
    connected. *)
Theorem registry_typed p s s' :
  begun p s -> rtc (polite_step p) s s' -> stat s' = Running ->
  let w := thread s' in
  map_Forall (fun n l => normal_name n /\ tp_cell w l) (known w) /\
  (forall n n' l, known w !! n = Some l -> known w !! n' = Some l -> n = n') /\
  (forall n l, known w !! n = Some l -> heap w !! l = Some true ->
     ctx_tracepoints (ctx w) !! n = Some l /\ is_Some (connection (ctx w))).
Proof.
  intros Hs Hsteps Hst w. destruct (begun_reaches p s s' Hs Hsteps Hst) as (f & HI & Href).
  pose proof (rf_thread _ _ Href) as Ha. fold w in Ha.
  pose proof (ab_names _ _ _ Ha) as Hno. split_and!.
  - intros n l Hl. split; [|by apply Hno with n]. apply (spi_normal _ HI). rewrite <-(ab_registered _ _ _ Ha).
    by apply elem_of_dom_2 in Hl.
  - apply Hno.
  - intros n l Hl Hup. assert (n ∈ sp_enabled f) as Hen by (apply (ab_enabled _ _ _ Ha); by exists l). split.
    + pose proof (spi_enabled _ HI _ Hen) as Hlist. rewrite <-(ab_listed _ _ _ Ha) in Hlist.
      apply elem_of_dom in Hlist as [k Hk]. pose proof (no_sub _ Hno _ _ Hk). congruence.
    + rewrite (ab_client _ _ _ Ha). destruct (sp_client f) eqn:Hcl; [by eexists|].
      rewrite (spi_quiet _ HI Hcl) in Hen. by apply not_elem_of_empty in Hen.
Qed.

(** ** Schedules *)

Definition steady_action (act : action) : Prop :=
  match act with
  | Environment f => forall k w, polite w ->
      (forall sid, connection (ctx w) = Some sid -> exists i, waiting (ahead k) (rx (sock sid w)) i) -> steady k w (f w)
  | _ => True
  end.

Lemma steady_allowed act s f : refines s f -> steady_action act -> allowed steady act s.
Proof.
  intros [_ Hpo _ Ha] Hact. destruct act; try done. apply Hact; [done|]. intros sid Hc.
  exists (sp_inbox f). by apply (ab_inbox _ _ _ Ha).
Qed.

Lemma exec_steady p act s s' f :
  refines s f -> steady_action act -> exec p act s = Some s' -> rtc (step_in steady p) s s'.
Proof. intros Hf Hact. apply exec_steps_in. by eapply steady_allowed. Qed.

Lemma steady_steps p s s' : rtc (step_in steady p) s s' -> rtc (polite_step p) s s'.
Proof. apply rtc_subrel. intros ??. apply steady_polite. Qed.

Lemma exec_running p act s s' : exec p act s = Some s' -> stat s' = Running -> stat s = Running.
Proof.
  destruct s as [a w k l st]. destruct st; [done|..];
    (destruct act; cbn -[tracy_register tracy_finit send_to_tracer]; repeat case_match; try done;
     rewrite ?bind_Some; try (by intros [= <-]); intros (t & _ & H'); revert H';
     repeat case_match; try done; by intros [= <-]).
Qed.

Lemma exec_all_running p acts s s' : exec_all p acts s = Some s' -> stat s' = Running -> stat s = Running.
Proof.
  revert s. induction acts as [|act acts IH]; intros s; cbn [exec_all]; [by intros [= <-]|].
  rewrite bind_Some. intros (s1 & Hs1 & Hrun) Hst. eapply exec_running; [done|by apply IH].
Qed.

Lemma steady_schedule p acts s s' f :
  SysInv p s -> SpecInv f -> refines s f -> Forall steady_action acts -> exec_all p acts s = Some s' ->
  stat s' = Running -> rtc (step_in steady p) s s'.
Proof.
  intros HI HS Hf Hacts Hrun Hst. revert s f HI HS Hf Hrun.
  induction Hacts as [|act acts Hact _ IH]; intros s f HI HS Hf Hrun; cbn [exec_all] in Hrun.
  - by injection Hrun as <-.
  - destruct (exec p act s) as [s1|] eqn:E; cbn in Hrun; [|done].
    pose proof (exec_steady _ _ _ _ _ Hf Hact E) as Hsteps.
    pose proof (reachable_invariant _ _ _ HI (polite_steps _ _ _ (steady_steps _ _ _ Hsteps))) as HI1.
    pose proof (exec_all_running _ _ _ _ Hrun Hst) as Hst1.
    destruct (reachable_refines p s s1 f HI HS Hf (steady_steps _ _ _ Hsteps) Hst1) as (f1 & Hf1 & Hr1).
    etrans; [exact Hsteps|]. eapply (IH s1 f1); [done|by eapply spec_steps_inv|done|done].
Qed.
End properties.

(** * An instance *)

(** Nothing arrives from the client that is connected. *)
Lemma steady_quiet k w w' :
  polite_environment (ahead k) w w' -> (forall sid, connection (ctx w) = Some sid -> rx (sock sid w') = rx (sock sid w)) ->
  steady k w w'.
Proof.
  intros Henv Hrx. split; [done|]. exists []. unfold arrives. destruct (connection (ctx w)) as [sid|]; [|done].
  exists []. rewrite app_nil_r, Hrx by done. split; [done|]. split; [constructor|by left].
Qed.

Lemma client_connects_steady rx i : waiting [] rx i -> steady_action (Environment (client_connects rx)).
Proof.
  intros Hrx k w [] Hw. apply steady_quiet; [|done].
  split; [apply client_connects_ok|]. split; [|done]. split; try done.
  simpl. apply Forall_app. split; [done|]. apply Forall_singleton. split; [done|]. split; [constructor|by exists i].
Qed.

Lemma time_passes_steady : steady_action (Environment time_passes).
Proof.
  intros k w Hp Hw. apply steady_quiet; [|done]. split; [apply time_passes_ok|]. split; [by apply (polite_eq w)|done].
Qed.

(** A client connects, enables "cpu", asks for the list, and later goes away; the
    application submits a value while the requests are being read. *)
Definition visit_requests : list request := [ReqSet true [lit "cpu"]; ReqList].
Definition visit_rx : list rx_event := [RxData (encode_requests visit_requests); RxErr WouldBlock; RxEof].

Definition visit : list action :=
  [Register (lit "cpu"); Event CHAN; Environment (client_connects visit_rx); Event CON_NEW;
   Dispatch CON_DATA; SubmitEnter (lit "CPU") (lit "0.7") 3; Advance; SubmitCheck 5; Advance; Advance;
   Dispatch CHAN; SubmitSend; Advance; Advance; Environment time_passes; Event TIMER;
   Event CON_DATA; Register (lit "mem")].

Lemma visit_actions : Forall steady_action visit.
Proof.
  assert (waiting [] visit_rx (visit_requests ++ [])) as Hrx.
  { apply (waiting_more _ _ _ [RxEof]); [reflexivity|by repeat constructor|].
    by apply (waiting_end _ _ [] UnexpectedEof [RxEof]). }
  unfold visit. repeat (apply Forall_cons; split); try exact I; [|apply time_passes_steady|by apply Forall_nil].
  by eapply client_connects_steady.
Qed.

Definition boot_visited : System := default boot (exec_all boot_p visit boot).

Lemma boot_begun : begun boot_p boot.
Proof.
  assert (forall sid, sock sid (thread boot) = mkSocket [] [] []) as Hs.
  { intros sid. unfold sock. assert (socks (thread boot) = ∅) as -> by (vm_compute; reflexivity). done. }
  split; [apply boot_started|]. split; [|intros sid; by rewrite Hs]. split.
  - intros sid. rewrite Hs. constructor.
  - vm_compute. constructor.
  - vm_compute. reflexivity.
Qed.

Lemma visit_run : exec_all boot_p visit boot = Some boot_visited.
Proof. vm_compute. reflexivity. Qed.

Lemma visit_running : stat boot_visited = Running.
Proof. vm_compute. reflexivity. Qed.

Lemma visit_steady : rtc (step_in steady boot_p) boot boot_visited.
Proof.
  destruct (begun_refines _ _ boot_begun) as [_ Hf].
  apply (steady_schedule boot_p visit boot boot_visited spec_init);
    [apply started_invariant, boot_started|apply spec_init_inv|done|apply visit_actions|apply visit_run|apply visit_running].
Qed.

Lemma visit_steps : rtc (polite_step boot_p) boot boot_visited.
Proof. apply steady_steps, visit_steady. Qed.

(** The run of the instance, as it is observed. *)
Lemma visit_observed :
  exists l, path (observed boot_p) (boot, no_history) l /\ Forall (fun x => stat x.1 = Running) l /\
    fst <$> last ((boot, no_history) :: l) = Some boot_visited.
Proof.
  apply (observe_run boot_p boot boot_visited no_history spec_init);
    [apply started_invariant, boot_started|apply (begun_matches boot_p), boot_begun|apply visit_steady|apply visit_running].
Qed.

Lemma system_refines_spec_witness :
  exists l fs, path (observed boot_p) (boot, no_history) l /\ fst <$> last ((boot, no_history) :: l) = Some boot_visited /\
    path (rtc (spec_step stream)) spec_init fs /\
    Forall2 (fun x f => matches x f /\ read_by_clients (thread x.1) f) l fs.
Proof.
  destruct visit_observed as (l & Hl & Hrun & Hlast).
  destruct (system_refines_spec boot_p boot l boot_begun Hl Hrun) as (fs & Hfs & Hall). by exists l, fs.
Defined.

(** The client of the instance reads the list and then the record. *)
Example visit_read :
  read_stream (sent (sock 0 (thread boot_visited))) =
    Some [SeenNames [lit "cpu"]; SeenRecord (lit "cpu", 5, lit "0.7")].
Proof. vm_compute. reflexivity. Qed.

Lemma registry_typed_witness :
  let w := thread boot_visited in
  map_Forall (fun n l => normal_name n /\ tp_cell w l) (known w) /\
  (forall n n' l, known w !! n = Some l -> known w !! n' = Some l -> n = n') /\
  (forall n l, known w !! n = Some l -> heap w !! l = Some true ->
     ctx_tracepoints (ctx w) !! n = Some l /\ is_Some (connection (ctx w))).
Proof. apply (registry_typed boot_p boot boot_visited boot_begun visit_steps visit_running). Defined.
