(* ===== verification/Progress.v ===== *)
(** When the tracer thread panics: in an environment that behaves, only on
    data that was submitted too late, or on an event of a connection that is no
    longer there. *)

From S2P Require Import Prelude Monad Platform Types Worlds Strings Context Io Wire Tcp Beacon App Handlers Invariant Control Flush Delivery Receive Requests Thread AppSpec System Spec Refine SystemRefine.

Section Progress.
Context {P : Platform} {TL : TimerLaws P} {HL : HashLaws P} {CL : ChannelLaws P}.

(** Nothing is on its way to a client that does not exist. *)
Definition calm (w : World) : Prop :=
  connection (ctx w) = None -> buffer (ctx w) ++ payloads (queued w) = [].

Definition ready (w : World) : Prop := (exists f, implements_at [] w f) /\ calm w.

Lemma calm_frame w w' :
  connection (ctx w') = connection (ctx w) -> buffer (ctx w') ++ payloads (queued w') = buffer (ctx w) ++ payloads (queued w) ->
  calm w -> calm w'.
Proof. unfold calm. by intros -> ->. Qed.

Lemma calm_connected w sid : connection (ctx w) = Some sid -> calm w.
Proof. unfold calm. by intros ->. Qed.

Lemma ready_from w f : implements_from_at [] f w -> calm w -> ready w.
Proof. intros (Hi & Hp & f' & _ & Ha) Hc. split; [|done]. by exists f'. Qed.

(** ** Flushing *)

Lemma flush_run_polite w :
  Inv w -> polite w -> (connection (ctx w) = None -> buffer (ctx w) = []) ->
  exists w', send_trace_data w = Ret tt w' /\ ctx w' = with_buffer [] (ctx w) /\ chans w' = chans w.
Proof.
  intros Hi Hp Hb. destruct (connection (ctx w)) as [sid|] eqn:Hc.
  - destruct (inv_sock _ Hi sid Hc) as [s Hs].
    destruct (flush_run w sid s Hc Hs) as (tx' & _ & Hrun); [|apply Hi|by eexists].
    pose proof (pl_tx _ Hp sid) as H. unfold sock in H. by rewrite Hs in H.
  - specialize (Hb eq_refl). exists w. rewrite send_empty by done. split_and!; try done.
    destruct (ctx w). simpl in *. by rewrite Hb.
Qed.

(** ** The channel *)

Lemma channel_handler_body_np ret w :
  ready w ->
  np (channel_handler_body ret) (fun r w' => match r with inl _ => ready w' | inr st => True end) w.
Proof.
  intros [[f Himp] Hcalm]. unfold channel_handler_body. apply np_bind.
  pose proof (try_recv_run w) as Hrecv. destruct (queued w) as [|m q] eqn:Hq.
  { by eapply np_ret. }
  destruct Hrecv as (w1 & Hrecv & Hq1 & _). eapply np_ret; [exact Hrecv|].
  destruct (received_sim [] _ _ _ _ _ Himp Hq Hrecv Hq1) as (Hi1 & Hp1 & _ & Hctx & _).
  unfold calm in Hcalm. rewrite Hq in Hcalm. destruct m as [e|t|].
  - destruct (connection (ctx w)) as [sid|] eqn:Hc.
    2: { specialize (Hcalm eq_refl). by apply app_nil in Hcalm as [_ ?]. }
    apply np_bind. assert (connection (ctx w1) = Some sid) as Hc1 by by rewrite Hctx.
    eapply np_mono.
    + apply (np_and _ (fun _ w' => connection (ctx w') = Some sid) (fun _ w' => implements_from_at [] f w')).
      * pose proof (append_sim [] _ _ _ _ _ Himp Hq Hrecv Hq1) as H2.
        unfold channel_data_handler, in_ctx, gets, modify, np, mbind, M_bind.
        set (w2 := upd_ctx (append e) w1) in *. destruct (QUEUE_TOTAL_SIZE <? _).
        -- destruct (timer_op_sim [] _ w2 f stop_queue_timers stop_queue_safe H2) as (Hi3 & Hp3 & _).
           destruct (stop_queue_timers (ctx w2)) as (t & q' & u & E & _).
           assert (connection (ctx (upd_ctx check_stop_queue_timer w2)) = Some sid) as Hc3.
           { change (connection (check_stop_queue_timer (ctx w2)) = Some sid). by rewrite E. }
           destruct (flush_run_polite _ Hi3 Hp3) as (w' & -> & Hctx' & _); [congruence|]. by rewrite Hctx'.
        -- destruct (start_queue_timers (ctx w2)) as (t & q' & u & E & _).
           change (connection (check_start_queue_timer (ctx w2)) = Some sid). by rewrite E.
      * intros [] w'. apply (data_handler_sim [] _ _ _ _ _ _ Himp Hq Hrecv Hq1).
    + intros [] w' [Hc' Hf]. apply (ready_from w' f Hf). by apply (calm_connected _ sid).
  - apply np_bind. eapply np_ret; [reflexivity|]. apply (ready_from _ f).
    + by apply (insert_sim [] t w w1 q).
    + intros Hnone. simpl in Hnone. rewrite Hctx in Hnone. specialize (Hcalm Hnone).
      assert (queued (upd_ctx (insert_tracepoint t) w1) = q) as -> by (rewrite <-Hq1; by apply queued_frame).
      simpl. by rewrite Hctx.
  - apply np_bind. eapply np_ret; [reflexivity|]. apply np_bind. case_bool_decide as Hc.
    + destruct (flush_run_polite w1 Hi1 Hp1) as (w' & Hrun & _); [intros Hn; by rewrite Hn in Hc; destruct Hc|].
      by eapply np_ret.
    + by eapply np_ret.
Qed.

(** ** The timers *)

Lemma announce_returns w : Inv w -> exists w', announce_tracer w = Ret tt w'.
Proof.
  intros Hi. destruct (inv_port _ Hi) as [port Hport]. pose proof (inv_udp _ Hi) as Hudp.
  unfold announce_tracer, format_json, log_call, in_ctx, modify, gets, mbind, M_bind, mret, M_ret.
  cbv beta. rewrite Hport. cbn [unwrap]. destruct (udp_sock (ctx w)) as [s|]; [|by eexists].
  destruct Hudp as [a ->]; [by eexists|]. by eexists.
Qed.

Lemma timer_handler_body_np u w :
  ready w -> np (timer_handler_body u) (fun _ w' => ready w') w.
Proof.
  intros [[f Himp] Hcalm].
  enough (np (timer_handler_body u) (fun _ w' => calm w') w) as H.
  { eapply np_mono; [apply (np_and _ _ (fun _ w' => implements_from_at [] f w') _ H)|].
    - intros r w'. apply (timer_handler_body_sim [] u w r w' f). by apply implements_from_refl.
    - intros r w' [Hc Hf]. by apply (ready_from w' f). }
  unfold timer_handler_body. apply np_bind.
  destruct (poll_timer_run w) as (t & s & Hpoll & Hrecv). eapply np_ret; [exact Hrecv|].
  destruct s as [s|]; [|by eapply np_ret; [reflexivity|]].
  pose proof Himp as (Hi & Hp & _).
  destruct (timer_ok_fire_ident _ _ _ (inv_timer _ Hi) Hpoll) as [-> | ->]; cbn [Z.eqb].
  - change (QUEUE_TIMEOUT_IDENT =? QUEUE_TIMEOUT_IDENT) with true. cbv iota. apply np_bind, np_bind.
    eapply np_ret; [reflexivity|]. destruct (queue_fired_sim [] w t f Himp Hpoll) as (Hi2 & Hp2 & _).
    destruct (flush_run_polite _ Hi2 Hp2) as (w' & Hrun & Hctx & Hch).
    { intros Hn. specialize (Hcalm Hn). by apply app_nil in Hcalm as [? _]. }
    eapply np_ret; [exact Hrun|]. eapply np_ret; [reflexivity|]. unfold calm. rewrite Hctx. intros Hn.
    assert (queued w' = queued w) as -> by by apply queued_frame; [rewrite Hctx|].
    specialize (Hcalm Hn). by apply app_nil in Hcalm as [_ ->].
  - change (UDP_TIMEOUT_IDENT =? QUEUE_TIMEOUT_IDENT) with false.
    change (UDP_TIMEOUT_IDENT =? UDP_TIMEOUT_IDENT) with true. cbv iota. apply np_bind, np_bind.
    eapply np_ret; [reflexivity|]. set (w2 := upd_ctx (with_udp_timeout None) _).
    assert (exists w', announce_tracer w2 = Ret tt w') as [w' Hrun].
    { destruct (announce_returns w Hi) as [w' H].
      unfold announce_tracer, format_json, log_call, in_ctx, modify, gets, mbind, M_bind, mret, M_ret in *. simpl in *.
      destruct (local_port (listener (ctx w))) as [port|]; [|done].
      destruct (udp_sock (ctx w)); [|by eexists]. simpl in *. destruct (announce_addr (app_cfg (ctx w))); [by eexists|done]. }
    apply np_bind. eapply np_ret; [exact Hrun|]. eapply np_ret; [reflexivity|].
    eapply np_ret; [reflexivity|].
    apply announce_invisible in Hrun as (g & l & Hg & ->). set (w3 := upd_ctx check_start_udp_timer _).
    destruct (start_udp_timers (g (ctx w2))) as (t' & q' & u' & E & _).
    assert (ctx w3 = with_timers t' q' u' (g (ctx w2))) as Hctx by exact E.
    destruct (Hg (ctx w2)) as (Hr & _ & _ & Hc & Hb).
    assert (queued w3 = queued w) as Hq by by apply queued_frame; [rewrite Hctx|].
    eapply calm_frame; [rewrite Hctx; exact Hc| |exact Hcalm]. rewrite Hctx, Hq.
    change (buffer (g (ctx w2)) ++ payloads (queued w) = buffer (ctx w) ++ payloads (queued w)). by rewrite Hb.
Qed.

(** ** Clients *)

Lemma establish_returns w : polite w -> exists w', establish_connection w = Ret tt w'.
Proof.
  intros Hp. pose proof (pl_oracle _ Hp) as Ho.
  unfold establish_connection, accept, try_clone_unwrap, succeeds, log_call, atomic_store, in_ctx, modify, gets,
    mbind, M_bind, mret, M_ret.
  destruct (backlog w) as [|[k|s] r]; [by eexists..|]. cbn. rewrite Ho. cbn. rewrite Ho. by eexists.
Qed.

Lemma receive_body_returns reader w f :
  implements_at (br_buf reader) w f -> connection (ctx w) = Some (br_sock reader) -> returns (receive_body reader) w.
Proof.
  intros (Hi & Hp & Ha) Hc. set (sid := br_sock reader) in *. destruct (inv_sock _ Hi sid Hc) as [s Hs].
  destruct (waiting_inv _ _ _ (ab_inbox _ _ _ Ha sid Hc)) as (rs & k & rest & i & Hv & Hrs & _).
  destruct rs as [|r rs].
  - unfold returns.
    rewrite (receive_body_end reader w s [] k rest Hs Hv) by (simpl; lia). unfold mbind, M_bind.
    case_bool_decide; [by do 2 eexists|].
    destruct (close_run (set_rx (br_sock reader) rest w) sid Hc) as (w2 & -> & _). by do 2 eexists.
  - apply Forall_cons in Hrs as [Hr _]. assert (up sid w) as Hup.
    { split; [done|]. exists s. split; [done|]. pose proof (pl_tx _ Hp sid) as H. unfold sock in H. by rewrite Hs in H. }
    destruct (request_step sid r reader w (encode_requests rs) k rest Hup eq_refl Hr Hv) as (br' & w1 & Hstep & _).
    by do 2 eexists.
Qed.

Lemma receive_returns w sid f :
  implements_at [] w f -> connection (ctx w) = Some sid -> exists w', receive w = Ret tt w'.
Proof.
  intros (Hi & Hp & Ha) Hc. destruct (inv_sock _ Hi sid Hc) as [s Hs].
  assert (sock sid w = s) as Hsock by (unfold sock; by rewrite Hs).
  destruct (waiting_inv _ _ _ (ab_inbox _ _ _ Ha sid Hc)) as (rs & k & rest & i & Hv & Hrs & _).
  rewrite buf_view_nil, Hsock in Hv.
  assert (healthy (tx s)) as Hh by (rewrite <-Hsock; apply Hp).
  destruct (receive_end_run w sid s rs [] k rest Hc Hs Hh (pl_oracle _ Hp)) as (w1 & Hex & Hrun).
  { by rewrite app_nil_r. } { simpl. lia. } { done. }
  rewrite Hrun. case_bool_decide; [by eexists|].
  destruct (executed_set_rx _ _ rest _ _ Hex) as (_ & _ & _ & _ & _ & Hc1 & _).
  destruct (close_run _ sid Hc1) as (w2 & Hclose & _). unfold mbind, M_bind. rewrite Hclose. by eexists.
Qed.

(** ** One event *)

Lemma event_np w token f :
  implements_at [] w f -> calm w -> (token = CON_DATA -> is_Some (connection (ctx w))) ->
  np (event_handler [token]) (fun _ _ => True) w.
Proof.
  intros Himp Hcalm Htok. pose proof Himp as (Hi & Hp & _).
  assert (ready w) as Hready by (split; [by exists f|done]).
  unfold event_handler. cbn [event_handler_from].
  destruct (Z.eqb_spec token CHAN) as [_|_].
  { apply np_bind. apply (np_mono _ (fun _ _ => True)); [|by intros [] w' _].
    apply (np_loop (fun _ => ready) (fun _ _ => True)); [|done]. intros ret w1 Hw1.
    eapply np_mono; [by apply channel_handler_body_np|]. by intros [] w' ?. }
  destruct (Z.eqb_spec token TIMER) as [_|_].
  { apply np_bind. apply (np_mono _ (fun _ _ => True)); [|by intros [] w' _].
    apply (np_loop (fun _ => ready) (fun _ _ => True)); [|done]. intros u w1 Hw1.
    eapply np_mono; [by apply timer_handler_body_np|]. by intros [] w' ?. }
  destruct (Z.eqb_spec token CON_NEW) as [_|_].
  { apply np_bind. eapply np_ret; [reflexivity|]. apply np_bind. case_bool_decide; [|by eapply np_ret].
    apply np_bind. destruct (establish_returns w Hp) as [w' Hrun]. eapply np_ret; [exact Hrun|].
    eapply np_ret; [reflexivity|]. by eapply np_ret. }
  destruct (Z.eqb_spec token CON_DATA) as [Hd|_]; [|by eapply np_ret].
  destruct (Htok Hd) as [sid Hc]. destruct (receive_returns w sid f Himp Hc) as [w' Hrun].
  apply np_bind. eapply np_ret; [exact Hrun|]. by eapply np_ret.
Qed.

(** One step of the thread. *)
Lemma advance_np k w f :
  implements_at (ahead k) w f -> calm w ->
  (forall reader, k = InReceive reader -> connection (ctx w) = Some (br_sock reader)) ->
  np (advance k) (fun _ _ => True) w.
Proof.
  intros Himp Hcalm Hreader. destruct k as [|ret| |reader|]; try by eapply np_ret.
  - apply np_bind. eapply np_mono; [apply channel_handler_body_np; by split; [exists f|]|]. by intros [] w' ?.
  - apply np_bind. eapply np_mono; [apply timer_handler_body_np; by split; [exists f|]|]. by intros [] w' ?.
  - destruct (receive_body_returns reader w f Himp (Hreader _ eq_refl)) as (r & w' & Hrun).
    apply np_bind. eapply np_ret; [exact Hrun|]. by eapply np_ret.
Qed.

(** C4: The panics of the tracer thread, in an environment that behaves: every
    step and every event is handled without one, except on a thread that has no
    client, and there only when the event belongs to a connection that is no
    longer there, or when submitted data is left in the buffer or in the
    channel. *)
Theorem panics_only_late p s s' :
  begun p s -> rtc (polite_step p) s s' -> stat s' = Running ->
  let w := thread s' in
  (connection (ctx w) = None -> buffer (ctx w) = [] /\ payloads (queued w) = []) ->
  returns (advance (pc s')) w /\
  (pc s' = Idle -> forall token, (token = CON_DATA -> is_Some (connection (ctx w))) ->
     returns (event_handler [token]) w).
Proof.
  intros Hs Hsteps Hst w Hleft. destruct (begun_reaches p s s' Hs Hsteps Hst) as (f & _ & Href).
  assert (calm w) as Hcalm by (intros Hn; by destruct (Hleft Hn) as [-> ->]).
  assert (SysInv p s') as HI.
  { destruct Hs as [Hs _]. apply (reachable_invariant p s); [by apply started_invariant|by apply polite_steps]. }
  destruct (si_running p s' HI Hst) as (Hi & _).
  assert (implements_at (ahead (pc s')) w f) as Himp by (by split; [|split; apply Href]). split.
  - eapply np_returns; [|apply advance_safe; [done|by apply HI]].
    apply (advance_np _ _ f Himp Hcalm). intros br. apply (rf_reader _ _ Href).
  - intros Hidle token Htok. rewrite Hidle in Himp. eapply np_returns; [|by apply event_handler_safe].
    by apply (event_np w token f).
Qed.
End Progress.

(** The client of the instance has gone. *)
Lemma panics_only_late_witness :
  returns (advance (pc boot_visited)) (thread boot_visited) /\
  (pc boot_visited = Idle -> forall token, (token = CON_DATA -> is_Some (connection (ctx (thread boot_visited)))) ->
     returns (event_handler [token]) (thread boot_visited)).
Proof. apply (panics_only_late boot_p boot boot_visited boot_begun visit_steps visit_running). by vm_compute. Defined.
