(* ===== verification/EndToEnd.v ===== *)
(** From [tracy_submit] to the client: a series of submissions, the event of
    the channel and the expiry of the queue timer put together. *)

From S2P Require Import Prelude Monad Platform Types Worlds Strings Context Io Wire Tcp App Handlers Invariant Flush Delivery Receive Thread AppSpec System.

Section EndToEnd.
Context {P : Platform} {TL : TimerLaws P} {HL : HashLaws P} {CL : ChannelLaws P}.

(** The arguments of a call of [tracy_submit]: name, data, length, time. *)
Definition call : Type := list u8 * list u8 * Z * SystemTime.

Definition call_ok (x : call) : Prop :=
  let '(_, data, len, _) := x in 0 <= len /\ (len <= MAX_SUBMIT_LEN -> len <= zlen data).

Definition submit (p : nat) (x : call) : M App unit :=
  let '(name, data, len, now) := x in tracy_submit (Some p) (Some name) (Some data) len now.

Definition accepts (t : TracerNg) (a : App) (x : call) : option BufferElement :=
  let '(name, data, len, now) := x in submission t a name data len now.

(** What a series of calls puts into the channel. *)
Definition accepted (t : TracerNg) (a : App) (calls : list call) : list BufferElement :=
  omap (accepts t a) calls.

Lemma accepted_cons t a x calls :
  accepted t a (x :: calls) =
    match accepts t a x with Some e => e :: accepted t a calls | None => accepted t a calls end.
Proof. unfold accepted. simpl. by destruct (accepts t a x). Qed.

Lemma accepts_heap t a a' x : app_heap a' = app_heap a -> accepts t a' x = accepts t a x.
Proof.
  intros E. destruct x as [[[name data] len] now]. simpl. unfold submission, enabled, flag. by rewrite E.
Qed.

Lemma accepted_heap t a a' calls : app_heap a' = app_heap a -> accepted t a' calls = accepted t a calls.
Proof.
  intros E. induction calls as [|x calls IH]; [done|].
  by rewrite !accepted_cons, (accepts_heap t a a' x E), IH.
Qed.

Lemma submit_run p t a x :
  handles a !! p = Some t -> call_ok x ->
  submit p x a = Ret tt (match accepts t a x with Some e => sent_to t (Payload e) a | None => a end).
Proof.
  destruct x as [[[name data] len] now]. intros Ht [H1 H2]. by apply tracy_submit_run.
Qed.

Lemma accepted_fits t a calls : Forall call_ok calls -> Forall fits (accepted t a calls).
Proof.
  induction 1 as [|x calls Hx _ IH]; [constructor|]. rewrite accepted_cons.
  destruct (accepts t a x) as [e|] eqn:E; [|done]. constructor; [|done].
  destruct x as [[[name data] len] now]. destruct Hx as [Hx _]. simpl in E.
  by apply (submission_fits t a name data len now e).
Qed.

Lemma submissions_run p t calls a q :
  handles a !! p = Some t -> app_chans a !! send_to_tracer_thread t = Some q -> channel_open q = true ->
  Forall call_ok calls ->
  exists q', for_each calls (submit p) a =
      Ret tt (with_app_chans (<[send_to_tracer_thread t := q']> (app_chans a)) a) /\
    channel_contents q' = channel_contents q ++ map Payload (accepted t a calls).
Proof.
  intros Ht Hq Ho Hcalls. revert a q Ht Hq Ho. induction Hcalls as [|x calls Hx _ IH]; intros a q Ht Hq Ho.
  - exists q. rewrite insert_id by done. unfold accepted. simpl. rewrite app_nil_r. split; [|done].
    by destruct a.
  - cbn [for_each]. unfold mbind, M_bind. rewrite (submit_run p t a x Ht Hx). rewrite accepted_cons.
    destruct (accepts t a x) as [e|]; [|by apply IH].
    destruct (send_open _ q (Payload e) Ho) as (_ & Ho' & Hc). unfold sent_to. rewrite Hq.
    set (a1 := with_app_chans _ a).
    destruct (IH a1 (channel_send q (Payload e)).1) as (q' & Hrun & Hcont); try done.
    { simpl. by rewrite lookup_insert_eq. }
    exists q'. rewrite Hrun. split; [|by rewrite Hcont, Hc, <-app_assoc, (accepted_heap t a a1)].
    unfold a1, with_app_chans. simpl. by rewrite insert_insert_eq.
Qed.

Lemma payloads_map es : payloads (map Payload es) = es.
Proof.
  induction es as [|e es IH]; [done|].
  change (payloads (map Payload (e :: es))) with (e :: payloads (map Payload es)). by rewrite IH.
Qed.

(** C7: What the application submits reaches the client.  Starting from any
    state of the whole system in which a client that reads is connected and
    nothing is waiting: after any series of calls of [tracy_submit], one channel
    event and one expiry of the queue timer -- whenever that is -- nothing is
    left in the buffer, and the bytes the client has received since decode to
    exactly the records of the accepted calls, in the order of the calls. *)
Theorem submissions_arrive p s t sid calls :
  SysInv p s -> stat s = Running -> handles (app s) !! p = Some t -> session sid (thread s) ->
  queued (thread s) = [] -> buffer (ctx (thread s)) = [] -> Forall call_ok calls ->
  exists a' r w1, for_each calls (submit p) (app s) = Ret tt a' /\
    channel_handler (thread_sees a' (thread s)) = Ret r w1 /\
    forall t1 t2, timer_poll t1 = (t2, Some QUEUE_TIMEOUT_IDENT) ->
    exists w2 cuts, timer_handler_body tt (upd_ctx (with_ctx_timer t1) w1) = Ret (inl tt) w2 /\
      buffer (ctx w2) = [] /\ sent (sock sid w2) = sent (sock sid (thread s)) ++ pushes cuts /\
      tlv_stream (pushes cuts) = Some (map (pair TracePush) (map body cuts)) /\
      (fun recs => concat recs) <$> mapM tlv_records (map body cuts) =
        Some (map record_of (accepted t (app s) calls)).
Proof.
  destruct s as [a w k l st]. intros [Hh Hc _ _ _ Hrun] Hst Ht Hses Hq Hb Hcalls. simpl in *.
  destruct (Hrun Hst) as (_ & Ho & Hlinks). destruct (Hlinks t Ht) as (Hrec & _ & _). clear Hrun Hlinks.
  unfold chan_open in Ho. destruct (chans w !! rec (ctx w)) as [q|] eqn:Hchan; [|done].
  destruct (submissions_run p t calls a q) as (q' & Hcallrun & Hcont); try done.
  { by rewrite Hc, Hrec. }
  set (a' := with_app_chans _ a) in Hcallrun. set (w0 := thread_sees a' w).
  assert (w0 = with_chans (<[rec (ctx w) := q']> (chans w)) w) as Hw0.
  { unfold w0, thread_sees, a'. simpl. rewrite Hh, Hc, Hrec. by destruct w. }
  assert (queued w0 = map Payload (accepted t a calls)) as Hq0.
  { unfold queued in *. rewrite Hw0. simpl. rewrite lookup_insert_eq, Hcont. rewrite Hchan in Hq. by rewrite Hq. }
  assert (session sid w0) as Hses0 by by rewrite Hw0.
  destruct (channel_loop_run sid (queued w0) [] w0 (S (length (queued w0))) Normal) as (w1 & Hloop & Hd & Hq1 & _);
    try done; [by rewrite app_nil_r| |lia|].
  { rewrite Hq0. apply Forall_map. by apply accepted_fits. }
  exists a', (if queued w0 is [] then Normal else DataProcessed), w1. split; [done|]. split.
  { unfold channel_handler. fold w0. rewrite Hloop.
    replace (S (length (queued w0)) - length (queued w0))%nat with 1%nat by lia. cbn [loop].
    pose proof (try_recv_run w1) as Hrecv. rewrite Hq1 in Hrecv.
    unfold channel_handler_body, mbind, M_bind. by rewrite Hrecv. }
  intros t1 t2 Hpoll.
  set (w1' := upd_ctx (with_queue_timeout None) (upd_ctx (with_ctx_timer t2) (upd_ctx (with_ctx_timer t1) w1))).
  assert (delivers sid (accepted t a calls) w0 w1') as Hd1.
  { rewrite Hq0, payloads_map in Hd. exact Hd. }
  destruct (flush_delivers_all sid w1') as (w2 & Hflush & Hd2 & Hb2 & _); [by destruct Hd1|].
  destruct (delivers_trans sid _ [] w0 w1' w2 Hd1 Hd2) as (_ & _ & _ & cuts & Hok & Hsent & Hcat).
  destruct (pushes_decode cuts Hok) as [Hstream Hrecs]. exists w2, cuts. split_and!; try done.
  - unfold timer_handler_body, poll_timer, in_ctx, modify, mbind, M_bind. simpl. rewrite Hpoll. simpl.
    fold w1'. by rewrite Hflush.
  - rewrite Hb2, !app_nil_r in Hcat. rewrite Hrecs, Hcat. rewrite Hw0. simpl. by rewrite Hb.
Qed.
End EndToEnd.

(** * An instance *)

(** "cpu" is registered, a client has connected and enabled it. *)
Definition enabling : list action :=
  [Register (lit "cpu"); Event CHAN;
   Environment (client_connects [RxData (encode_request (ReqSet true [lit "cpu"]))]); Event CON_NEW; Event CON_DATA].

Definition boot_enabled : System := default boot (exec_all boot_p enabling boot).
Definition enabled_handle : TracerNg := default example_handle (handles (app boot_enabled) !! boot_p).

Definition example_calls : list call :=
  [(lit "CPU", lit "0.7", 3, 5); (lit "mem", lit "12", 2, 6); (lit "cpu", lit "0.9", 3, 7)].

Lemma boot_enabled_inv : SysInv boot_p boot_enabled.
Proof.
  apply (reachable_invariant boot_p boot); [apply started_invariant, boot_started|].
  apply (exec_all_steps _ enabling); [|vm_compute; reflexivity].
  unfold enabling. repeat (apply Forall_cons; split); try exact I; [apply client_connects_ok|by apply Forall_nil].
Qed.

Lemma submissions_arrive_witness :
  exists a' r w1, for_each example_calls (submit boot_p) (app boot_enabled) = Ret tt a' /\
    channel_handler (thread_sees a' (thread boot_enabled)) = Ret r w1 /\
    forall t1 t2, timer_poll t1 = (t2, Some QUEUE_TIMEOUT_IDENT) ->
    exists w2 cuts, timer_handler_body tt (upd_ctx (with_ctx_timer t1) w1) = Ret (inl tt) w2 /\
      buffer (ctx w2) = [] /\ sent (sock 0 w2) = sent (sock 0 (thread boot_enabled)) ++ pushes cuts /\
      tlv_stream (pushes cuts) = Some (map (pair TracePush) (map body cuts)) /\
      (fun recs => concat recs) <$> mapM tlv_records (map body cuts) =
        Some (map record_of (accepted enabled_handle (app boot_enabled) example_calls)).
Proof.
  apply (submissions_arrive boot_p boot_enabled enabled_handle 0 example_calls).
  - apply boot_enabled_inv.
  - vm_compute. reflexivity.
  - vm_compute. reflexivity.
  - split; [vm_compute; reflexivity|]. split; [vm_compute; constructor|].
    exists (sock 0 (thread boot_enabled)). split; [vm_compute; reflexivity|vm_compute; constructor].
  - vm_compute. reflexivity.
  - vm_compute. reflexivity.
  - repeat (apply Forall_cons; split); [split; vm_compute; discriminate..|by apply Forall_nil].
Defined.

(** The two submissions to "cpu" are the accepted ones. *)
Example accepted_calls :
  accepted enabled_handle (app boot_enabled) example_calls =
    [mkElement (lit "cpu") 5 (lit "0.7"); mkElement (lit "cpu") 7 (lit "0.9")].
Proof. vm_compute. reflexivity. Qed.
